(* ===== verification/_CoqProject ===== *)
-Q . S2P
Prelude.v
Protocol.v
BufferPool.v
TransportDetail.v
Packet.v
Schema.v
FlatBuffersLib.v
MessagesGenerated.v
MessagesSafety.v
MessagesBuilding.v
MessagesRoundtrip.v
Codec.v
HeapLibrary.v
ServerTypes.v
RoomSystem.v
GameLogicSystem.v
ChatSpec.v
ChatInvariant.v
NetworkSystem.v
ChatProtocolClient.v
ChatViews.v
ChatFacts.v
GameLogicRefinement.v
GameLogicBatching.v
GameLogicProperties.v
Session.v
StreamPosition.v
Server.v
ServerRun.v
ServerInvariant.v
ServerTable.v
ServerPipeline.v
ServerStreams.v
ServerProperties.v
Lifetime.v
ServerInterface.v
Client.v
ClientProperties.v
ClientStreams.v
ClientLifetime.v
EndToEnd.v
Delivery.v
NightServer.v
NightServerRun.v
ServerTicks.v
ProcessDelivery.v
ChatSystem.v
SystemRefinement.v
ChatClientFrame.v
ChatClientFrameProperties.v
WindowConversation.v
