(* ===== verification/Prelude.v ===== *)
(** * ProjectNight: a verification development

    ProjectNight is a chat program: a server process, a wxWidgets client, and a
    transport library (asio) that both use.  This library models its C++ code
    from the bytes on a connection up to the rows of the client's window, and
    proves what makes it correct.  Paths below are relative to [src/].

    ** The program and the files that model it

    A connection carries frames: an 8-byte header and a payload of at most 2048
    bytes.  The server's I/O threads turn bytes into packets and put them in one
    queue; once per tick the game thread polls it until it is empty, decodes the
    packets into events, handles them and hands messages back; the client decodes these
    messages into the events its window shows.

    - NightNetwork (transport).  [Protocol]: constants, [Header] (Protocol.h).
      [BufferPool]: thread-local buffer pools (BufferPool.h).
      [TransportDetail]: header codec, frame builders, bounded write queue
      (TransportDetail.h); the write queue is a template in the code and a class
      [WriteQueueOwner] here, with the session and the client as instances.
      [Session]: one connection of the server (Session.h, Session.cpp).
      [Packet], [Server]: the packets, the interface [ServerTransport], and the
      server's state and operations (Packet.h, Server.cpp).  [Client]: the
      client's connection (Client.cpp).
    - NightCommon (schema).  [Schema]: the values of a message, as the rest of
      the program sees them (ProtocolUtil.h), and the interface [FlatBuffers].
      [MessagesGenerated]: the code of messages_generated.h, a module per table
      (accessors, [Verify], builder, [Create...]), over [FlatBuffersLib], the
      run-time library it calls.
    - NightServer.  [ServerTypes]; [RoomSystem]: the registry of sessions and
      rooms; [GameLogicSystem]: one definition per handler; [NetworkSystem]:
      packets to events and back; [NightServer]: the main loop, step by step
      ([main_step]) and as one tick ([main_tick]).
    - NightClient.  [ChatProtocolClient]: requests and decoded events;
      [ChatClientFrame]: the state behind the widgets, the event handlers and
      what they are bound to, and [OnInit] (NightClient.cpp).

    Definitions have the names of the functions they translate ([HandleLoginRequest]
    is [GameLogicSystem::HandleLoginRequest]); the completion handler of an
    asynchronous operation [do_x] is [on_x] ([client_on_x] in [Client]).  The
    receiver is an explicit argument, and an operation returns the new one.

    ** How the code's effects are modelled

    - Memory.  An operation that copies bytes returns [None] when the copy would
      leave its buffer, a handler [None] when it would dereference a null
      pointer.  The theorems show that this never happens.
    - Asynchrony.  The asio operations in flight are fields of the state.  A
      handler that starts an operation sets its field; a completion, with an
      error or with any bytes, is an input ([SessionInput], [ServerInput],
      [ClientInput], [UiInput]).  A run ([session_reachable], [server_run],
      [client_run], [process_run], [system_run], [ui_run]) is any sequence of inputs that can
      happen, so a theorem about runs is about every interleaving of handlers.
      Handlers are atomic: those of one strand do not overlap, and what handlers
      of different threads share is atomics, the lock-free queues, the strands'
      queues and thread-local pools.  The tick of the game thread is not: each
      poll, send and disconnection is a step of its own, and so is the batch of
      events, which touches only the game logic; the I/O threads run in between.
    - Integers.  Fixed-width integers are [Z] with their wrap-around written out
      ([to_u32], [to_u64]); container sizes are unbounded.
    - Iteration order and time.  The order in which an unordered container is
      walked is an argument or an answer of [Environment], and so is the clock.
      A timer may expire at any time after it is started: the interval of the
      heartbeats and the 33 ms of a tick are not in the model, and no theorem
      depends on them.
    - History variables ([effects], [wire], [packet_log], [frames_out],
      [frames_in], [lost]) record what happened; no handler reads them.

    ** Parameters: what is not the program's own code

    [VectorAlloc]: how much a growing vector allocates.  [FlatBuffersLib]: the
    builder, the verifier and the accessors of flatbuffers.h, with
    [FlatBuffersLibSpec], what their documentation promises of one object or one
    step at a time (of the verifier's checks of a field: only after
    [VerifyTableStart] has accepted the table).  [Environment]: the clock and container walks.
    [WxStrings]: wxString.  The resolver and the socket calls of
    [Client.connect], and those of [Server.listen] ([AcceptorOps]).  Each
    specification has a concrete instance ([exact_alloc], [heap_library] in
    [HeapLibrary], [plain_environment], [plain_wx]), on which the witnesses
    compute.

    The server and the client are proved against [FlatBuffers]: messages are
    built into bytes, verified and read, with the laws [FlatBuffersSpec].  The
    generated code is an instance ([generated_spec] in [MessagesRoundtrip]), so
    their theorems hold of it over any library that keeps [FlatBuffersLibSpec].

    ** The theorems

    - Game logic.  [ChatSpec] is an abstract specification of the chat server:
      sessions, rooms, and the messages of one step.  [GameLogicRefinement]
      proves that the handlers implement it ([Update_refines_spec]), [RoomSystem]
      that the registry represents it.  [ChatInvariant], [ChatViews] and
      [ChatFacts] are about the specification; [GameLogicProperties] transfers
      them to [GameLogicSystem::Update]: who is told what, one answer per
      request, exact client views, departures, outcomes of logins and joins.
      [GameLogicBatching]: how events are split over ticks does not matter.
    - Messages.  [MessagesSafety]: the verifier and, after it, the accessors stay
      inside any buffer they are given.  [MessagesBuilding] follows the
      [Create...] functions from an empty builder to a finished buffer, object by
      object and with its size; [MessagesRoundtrip] proves that the verifier
      accepts it and that the accessors read back what was written.
    - Codec and pools.  [TransportDetail] and [BufferPool]: header and frame
      round trips, the accepted headers, clean buffers.
    - One connection.  [Session] and [ClientProperties]: no handler fails, queues
      are bounded, a stream of frames is read back payload by payload, frames
      leave in order, silence closes a session.
    - The transport server.  [ServerInvariant] ties every session object to a run
      of [Session]; [ServerTable] and [ServerPipeline] are about the session
      table and about frames on their way; [ServerProperties] draws the
      conclusions: a bounded FIFO packet queue, a life cycle per client, frames
      in the order of the sends, a quiet shutdown.
    - The end.  [Lifetime] and [ClientLifetime]: the wait of a destructor ends,
      everybody is told, and what is left in the queues is deleted once.
    - The process.  [NightServer] follows a tick against the interface, while
      the I/O threads push packets: what it has polled, handled and sent after
      each step, that no step gets stuck, and that it ends when nothing more is
      pushed ([tick_total]); [ServerInterface] and [NightServerRun] run it over
      [Server] ([process_safe]), and show that clients can keep it receiving for
      as long as they like ([receive_unbounded]); [ProcessDelivery] follows the
      messages sent to the client that reads the session's bytes.
    - The system.  [StreamPosition] says how far a reader is in the frames its
      peer has written; [ServerStreams] and [ClientStreams] keep that true of
      every session and of a client, [ServerTicks] of a step of the main loop.
      [ChatSystem] is the server process with any number of clients, each
      connection two streams of bytes that may stop but do not lose or reorder;
      in [SystemRefinement], every run of it is a run of [ChatSpec] on requests its clients were asked
      to send, and each client receives the messages for it
      ([system_refines_spec], [system_settled]).
    - End to end.  [EndToEnd]: what the client sends is what the server decodes
      and handles, and its answer is what the client shows.  [Delivery]: the
      bytes the server writes for a session are the messages its client sees.
    - The window.  [ChatClientFrameProperties]: its invariant, and what it does
      not notice.  [WindowConversation]: what a user types in one window is what
      the others in the room show, where the locale's encoding is UTF-8 and the
      text holds no NUL.

    Theorems that record a defect say so: [nul_names_collide],
    [disconnect_lost], [lost_connection_unnoticed], [room_switch_keeps_users],
    [receive_unbounded].

    ** Bounds

    [PollEvents] loops until the queue is empty; its fuel is the number of waiting
    payloads and one, which [window_consistent] shows to be enough: a payload that
    arrives during the loop is, the queue being first in first out, as one that
    arrived before it, and the loop ends unless they keep arriving.  The loop
    of [Receive] has no bound in the code, nor in a run, where it is a sequence of
    steps: [tick_total] says that its turns are one per packet waiting or pushed
    meanwhile, and one more; the fuel of [main_tick] is for a queue that nobody
    fills ([receive_loop_spec]).  The destructors' loops have fuel as well
    ([server_destruction], [client_destruction]).  [feed], the environment of a
    reading session, takes two steps per frame at most.  Theorems about session ids of a server assume
    at most [2^32] connections ([unique_ids]), after which [next_id] repeats.  A
    message is well formed ([wf_message]) when its scalars fit and it is smaller
    than [2^25] bytes, far below the 2 GB and the million tables a FlatBuffer may
    have; [messages_not_dropped] shows that the server's messages are.

    ** Not modelled

    flatbuffers.h, a parameter; starting and joining threads; sizers, columns and
    fonts of [BuildLayout]; console output; the tests; the memory that destructors
    free apart from the queues' elements; data races below the granularity of a
    handler.  A client of [ChatSystem] runs its posted functions in order, as its
    one I/O thread does. *)

From Stdlib Require Export ZArith Lia.
From stdpp Require Export base numbers gmap sets strings fin_maps option list.
Export list.

#[export] Set Default Goal Selector "!".
#[export] Set Warnings "-clear-no-such-hyp".

Declare Scope night_scope.
Delimit Scope night_scope with night.
Open Scope night_scope.
Open Scope Z_scope.

(** ** Notation of the development *)

(** Left-to-right application: a C++ statement sequence acting on one object
    reads [obj |> f a |> g b]. *)
Notation "x |> f" := (f x) (at level 51, left associativity, only parsing) : night_scope.

(** ** Machine integers: a [w]-bit unsigned integer is a [Z] in [0 .. 2^w) *)

Definition wrap (w z : Z) : Z := z mod 2 ^ w.

Abbreviation to_u8 := (wrap 8).
Abbreviation to_u16 := (wrap 16).
Abbreviation to_u32 := (wrap 32).
Abbreviation to_u64 := (wrap 64).

Definition in_range (w z : Z) : Prop := 0 ≤ z < 2 ^ w.

Abbreviation is_u8 := (in_range 8).
Abbreviation is_u16 := (in_range 16).
Abbreviation is_u32 := (in_range 32).
Abbreviation is_u64 := (in_range 64).

#[export] Instance in_range_dec w z : Decision (in_range w z).
Proof. unfold in_range. apply _. Defined.

(** Byte sequences ([std::vector<uint8_t>], [std::span<const uint8_t>]). *)
Abbreviation bytes := (list Z).
Abbreviation wf_bytes := (Forall (in_range 8)).

(** [v.size()] as the integer the code compares and casts. *)
Definition zlen {A} (l : list A) : Z := Z.of_nat (length l).

(** A [std::string] is a Rocq [string], one [ascii] per byte; [s.size()]. *)
Definition zsize (s : string) : Z := Z.of_nat (String.length s).

(** [std::expected<A, E>]: a value or an error. *)
Abbreviation expected A E := (A + E)%type.

(** [std::memcpy(dst + off, src, n)]; [None] is an access outside one of the two
    objects, which is undefined behaviour in the program. *)
Definition memcpy (dst : bytes) (off : nat) (src : bytes) (n : nat) : option bytes :=
  if decide (off + n ≤ length dst ∧ n ≤ length src)%nat
  then Some (take off dst ++ take n src ++ drop (off + n) dst)
  else None.

Create HintDb night.
Create Rewrite HintDb night_len.

(** ** Tactics *)

(** Split every conjunction and iff of the goal and close what is immediate. *)
Ltac split_done := repeat first [ split | progress intros ]; try done.

(** Case analysis on every [if]/[match] of the goal, closing trivial cases. *)
Ltac case_all := repeat (case_match; simplify_eq/=; try done).

(** Case analysis on the [decide]s of the goal, the cases closed by arithmetic. *)
Ltac decide_lia := repeat case_decide; first [ done | lia | exfalso; lia ].

(** Evaluate a closed decidable statement. *)
Ltac by_compute := vm_compute; repeat split; first [ done | congruence ].

(** [lia] with division and modulo by constants. *)
Ltac dlia := Z.to_euclidean_division_equations; lia.

(** Arithmetic on fixed-width values and lengths. *)
Ltac width := unfold in_range, wrap, zlen, zsize in *; lia.

Section Integers.
Implicit Types (w z a b k : Z).

Lemma wrap_range w z : 0 ≤ w → in_range w (wrap w z).
Proof. intros Hw. apply Z.mod_pos_bound. by apply Z.pow_pos_nonneg. Qed.

Lemma wrap_small w z : in_range w z → wrap w z = z.
Proof. apply Z.mod_small. Qed.

Lemma wrap_wrap w z : 0 ≤ w → wrap w (wrap w z) = wrap w z.
Proof. intros Hw. by apply wrap_small, wrap_range. Qed.

(** Joining bytes: [a << k | b] is [a * 2^k + b] when [b] fits in [k] bits. *)
Lemma lor_shiftl_add a b k :
  0 ≤ k → 0 ≤ b < 2 ^ k → Z.lor (Z.shiftl a k) b = a * 2 ^ k + b.
Proof.
  intros Hk Hb.
  assert (Z.land (Z.shiftl a k) b = 0) as Hland.
  { apply Z.bits_inj'; intros n Hn.
    rewrite Z.land_spec, Z.shiftl_spec, Z.bits_0 by done.
    destruct (decide (n < k)).
    - by rewrite (Z.testbit_neg_r a) by lia.
    - rewrite <-(Z.mod_small b (2 ^ k)), Z.mod_pow2_bits_high by lia.
      by rewrite andb_false_r. }
  rewrite <-Z.lxor_lor by done.
  rewrite <-Z.add_nocarry_lxor by done.
  by rewrite Z.shiftl_mul_pow2.
Qed.

Lemma land_byte z : Z.land z 255 = z mod 256.
Proof. change 255 with (Z.ones 8). by rewrite Z.land_ones by lia. Qed.
End Integers.

#[export] Hint Resolve wrap_range : night.
#[export] Hint Rewrite @length_replicate @length_app @length_take @length_drop
  @length_insert @length_fmap : night_len.

(** ** Lists *)

Section Lists.
Context {A B : Type}.
Implicit Types (l : list A).

Lemma zlen_nonneg l : 0 ≤ zlen l.
Proof. unfold zlen. lia. Qed.

Lemma zlen_nil_iff l : zlen l = 0 ↔ l = [].
Proof. unfold zlen. destruct l; simpl; split; [done|done|lia|done]. Qed.

Lemma zlen_app l k : zlen (l ++ k) = zlen l + zlen k.
Proof. unfold zlen. rewrite length_app. lia. Qed.

(** A monadic left fold succeeds when its body preserves [P] and never fails
    under [P]; the result satisfies [P]. *)
Lemma foldl_option_inv (P : B → Prop) (f : B → A → option B) l b :
  (∀ b a, P b → ∃ b', f b a = Some b' ∧ P b') →
  P b → ∃ b', foldl (λ ob a, ob ≫= λ b, f b a) (Some b) l = Some b' ∧ P b'.
Proof.
  intros Hf. revert b. induction l as [|a l IH]; intros b Hb; simpl; [by eauto|].
  destruct (Hf b a Hb) as (b' & -> & Hb'). by apply IH.
Qed.

Lemma foldl_option_None (f : B → A → option B) l :
  foldl (λ ob a, ob ≫= λ b, f b a) None l = None.
Proof. by induction l. Qed.
End Lists.
