(* ===== verification/Protocol.v ===== *)
(** * NightNetwork/src/Protocol.h: wire-format constants and the frame header *)

From S2P Require Import Prelude.

Definition MAGIC : Z := 0x4E4E.
Definition VERSION : Z := 1.
Definition FLAG_KEEPALIVE : Z := 0x01.
Definition KNOWN_FLAGS_MASK : Z := FLAG_KEEPALIVE.

Definition MAGIC_OFFSET : nat := 0.
Definition VERSION_OFFSET : nat := 2.
Definition FLAGS_OFFSET : nat := 3.
Definition PAYLOAD_SIZE_OFFSET : nat := 4.
Definition HEADER_SIZE : Z := 8.
Definition MAX_PAYLOAD_SIZE : Z := 2048.

Record Header := mkHeader {
  magic : Z;
  version : Z;
  flags : Z;
  payload_size : Z;
}.

#[export] Instance Header_eq_dec : EqDecision Header.
Proof. solve_decision. Defined.

Definition is_keepalive (h : Header) : bool :=
  negb (Z.land (flags h) FLAG_KEEPALIVE =? 0).

(** Durations are counted in milliseconds. *)
Definition HEARTBEAT_INTERVAL : Z := 5000.
Definition HEARTBEAT_TIMEOUT : Z := 15000.
