(* ===== verification/BufferPool.v ===== *)
(** * NightNetwork/src/BufferPool.h: the thread-local LIFO buffer pool

    A buffer is a [std::vector<uint8_t>], so its contents and its capacity.
    How much a vector allocates when it grows is left to the standard library:
    [grown_capacity old required] stands for that choice, and the standard's
    guarantee on it is [VectorAllocSpec].  The pools of all threads form a
    [PoolStore]; the pool is [static thread_local], so all [BufferPool] objects
    used by one thread share it, whatever their [max_size_per_thread_]. *)

From S2P Require Import Prelude Protocol.

Record Buffer := mkBuffer {
  buf_data : bytes;
  buf_capacity : Z;
}.

(** The allocation policy of [std::vector]: the capacity after growing from
    capacity [old] to hold at least [required] elements. *)
Class VectorAlloc := grown_capacity : Z → Z → Z.

Class VectorAllocSpec `{VectorAlloc} : Prop :=
  grown_capacity_ge : ∀ old required, required ≤ grown_capacity old required.

Definition BLOCK_SIZE : Z := HEADER_SIZE + MAX_PAYLOAD_SIZE.

(** One LIFO stack of buffers per thread; the head of the list is the back of
    the vector (the next buffer to be handed out). *)
Abbreviation ThreadId := nat.
Abbreviation PoolStore := (gmap ThreadId (list Buffer)).

Record BufferPool := mkBufferPool { max_size_per_thread_ : Z }.

Section Vector.
Context `{VectorAlloc}.

(** A default-constructed vector. *)
Definition vector_empty : Buffer := mkBuffer [] 0.

Definition reserve (n : Z) (b : Buffer) : Buffer :=
  if buf_capacity b <? n
  then mkBuffer (buf_data b) (grown_capacity (buf_capacity b) n)
  else b.

(** [resize(n)]: keep the first [n] elements, append zeros up to [n]. *)
Definition resize (n : Z) (b : Buffer) : Buffer :=
  let b := reserve n b in
  mkBuffer (take (Z.to_nat n) (buf_data b)
              ++ replicate (Z.to_nat n - length (buf_data b)) 0)
           (buf_capacity b).

Definition clear (b : Buffer) : Buffer := mkBuffer [] (buf_capacity b).

Definition buf_empty (b : Buffer) : bool := zlen (buf_data b) =? 0.
End Vector.

Arguments reserve {_} n b : simpl never.
Arguments resize {_} n b : simpl never.

Section Pool.
Context `{VectorAlloc}.

Definition thread_local_pool (t : ThreadId) (st : PoolStore) : list Buffer :=
  default [] (st !! t).

Definition acquire (t : ThreadId) (size : Z) (st : PoolStore)
    : Buffer * PoolStore :=
  if BLOCK_SIZE <? size then (vector_empty, st)
  else
    match thread_local_pool t st with
    | buf :: rest => (resize size buf, <[t := rest]> st)
    | [] => (resize size (reserve BLOCK_SIZE vector_empty), st)
    end.

Definition release (bp : BufferPool) (t : ThreadId) (buf : Buffer)
    (st : PoolStore) : PoolStore :=
  if negb (buf_capacity buf =? BLOCK_SIZE) then st
  else
    let pool := thread_local_pool t st in
    if zlen pool <? max_size_per_thread_ bp
    then <[t := clear buf :: pool]> st
    else st.
End Pool.

(** ** Invariant: every pooled buffer is empty and has capacity [BLOCK_SIZE] *)

Definition pooled_ok (b : Buffer) : Prop :=
  buf_data b = [] ∧ buf_capacity b = BLOCK_SIZE.

Definition pool_wf (st : PoolStore) : Prop :=
  ∀ t, Forall pooled_ok (thread_local_pool t st).

Lemma pool_wf_empty : pool_wf ∅.
Proof. intros t. unfold thread_local_pool. rewrite lookup_empty. constructor. Qed.

Lemma pool_wf_insert st t l :
  pool_wf st → Forall pooled_ok l → pool_wf (<[t := l]> st).
Proof.
  intros Hst Hl t'. unfold thread_local_pool. rewrite lookup_insert.
  case_decide; [done|]. apply Hst.
Qed.

#[export] Hint Resolve pool_wf_empty pool_wf_insert : night.

Section PoolFacts.
Context `{VectorAlloc}.
Implicit Types (st : PoolStore) (b : Buffer) (t : ThreadId).

Lemma length_resize n b :
  0 ≤ n → zlen (buf_data (resize n b)) = n.
Proof.
  intros Hn. unfold resize, reserve, zlen.
  destruct (_ <? _); simpl; rewrite length_app, length_take, length_replicate; lia.
Qed.

(** Resizing an empty vector gives zeros. *)
Lemma resize_nil n b :
  buf_data b = [] → buf_data (resize n b) = replicate (Z.to_nat n) 0.
Proof.
  intros Hb. unfold resize, reserve.
  destruct (_ <? _); simpl; rewrite Hb; simpl; by rewrite take_nil, Nat.sub_0_r.
Qed.

Lemma capacity_resize n b :
  n ≤ buf_capacity b → buf_capacity (resize n b) = buf_capacity b.
Proof.
  intros Hn. unfold resize, reserve.
  destruct (Z.ltb_spec (buf_capacity b) n); [lia|done].
Qed.

Lemma acquire_pool_wf t n st : pool_wf st → pool_wf (acquire t n st).2.
Proof.
  intros Hst. unfold acquire. destruct (_ <? _); [done|].
  pose proof (Hst t) as Ht. destruct (thread_local_pool t st); [done|].
  apply pool_wf_insert; [done|]. by inversion Ht.
Qed.

Lemma release_pool_wf bp t b st : pool_wf st → pool_wf (release bp t b st).
Proof.
  intros Hst. unfold release.
  destruct (Z.eqb_spec (buf_capacity b) BLOCK_SIZE); simpl; [|done].
  destruct (_ <? _); [|done].
  apply pool_wf_insert; [done|]. constructor; [done|apply Hst].
Qed.

Lemma acquire_data t n st :
  pool_wf st → 0 ≤ n ≤ BLOCK_SIZE →
  buf_data (acquire t n st).1 = replicate (Z.to_nat n) 0.
Proof.
  intros Hst Hn. unfold acquire.
  destruct (Z.ltb_spec BLOCK_SIZE n); [lia|].
  pose proof (Hst t) as Ht. destruct (thread_local_pool t st) as [|b l].
  - apply resize_nil. unfold reserve. by destruct (_ <? _).
  - apply resize_nil. inversion Ht as [|? ? [? ?]]. done.
Qed.

Lemma acquire_capacity `{!VectorAllocSpec} t n st :
  pool_wf st → n ≤ BLOCK_SIZE →
  BLOCK_SIZE ≤ buf_capacity (acquire t n st).1.
Proof.
  intros Hst Hn. unfold acquire.
  destruct (Z.ltb_spec BLOCK_SIZE n); [lia|].
  pose proof (Hst t) as Ht. destruct (thread_local_pool t st) as [|b l].
  - assert (BLOCK_SIZE ≤ buf_capacity (reserve BLOCK_SIZE vector_empty)).
    { unfold reserve. destruct (Z.ltb_spec (buf_capacity vector_empty) BLOCK_SIZE); simpl; [|done].
      apply grown_capacity_ge. }
    simpl fst. rewrite capacity_resize by lia. done.
  - inversion Ht as [|? ? [? Hcap]]; subst. simpl fst.
    rewrite capacity_resize; lia.
Qed.
End PoolFacts.

#[export] Hint Resolve acquire_pool_wf release_pool_wf : night.

(** ** Reachable pool states

    Any thread may acquire a buffer or release one with arbitrary contents and
    capacity, through any [BufferPool] object of the process. *)

Section Reachable.
Context `{VectorAlloc} (pools : list BufferPool).

Inductive pool_step : PoolStore → PoolStore → Prop :=
  | pool_step_acquire t n st : pool_step st (acquire t n st).2
  | pool_step_release bp t b st : bp ∈ pools → pool_step st (release bp t b st).

Definition pool_reachable (st : PoolStore) : Prop := rtc pool_step ∅ st.

(** The largest number of buffers one thread may keep. *)
Definition max_pooled : Z := foldr Z.max 0 (max_size_per_thread_ <$> pools).

Lemma max_pooled_ge bp : bp ∈ pools → max_size_per_thread_ bp ≤ max_pooled.
Proof.
  unfold max_pooled. induction 1 as [x l|x y l Hin IH]; csimpl; lia.
Qed.

Lemma max_pooled_nonneg : 0 ≤ max_pooled.
Proof. unfold max_pooled. induction pools; csimpl; lia. Qed.

Definition pool_bounded (st : PoolStore) : Prop :=
  ∀ t, zlen (thread_local_pool t st) ≤ max_pooled.

Lemma pool_bounded_insert st t l :
  pool_bounded st → zlen l ≤ max_pooled → pool_bounded (<[t := l]> st).
Proof.
  intros Hst Hl t'. unfold thread_local_pool. rewrite lookup_insert.
  case_decide; [done|]. apply Hst.
Qed.

Lemma pool_step_inv st st' :
  pool_step st st' → pool_wf st ∧ pool_bounded st → pool_wf st' ∧ pool_bounded st'.
Proof.
  intros Hstep [Hwf Hb]. destruct Hstep as [t n st|bp t b st Hbp].
  - split; [auto with night|]. unfold acquire. destruct (_ <? _); [done|].
    pose proof (Hb t) as Ht. destruct (thread_local_pool t st); [done|].
    apply pool_bounded_insert; [done|]. unfold zlen in *. simpl in *. lia.
  - split; [auto with night|]. unfold release.
    destruct (negb _); [done|]. destruct (Z.ltb_spec (zlen (thread_local_pool t st))
      (max_size_per_thread_ bp)); [|done].
    apply pool_bounded_insert; [done|]. pose proof (max_pooled_ge bp Hbp).
    unfold zlen in *. simpl. lia.
Qed.

Lemma pool_reachable_inv st : pool_reachable st → pool_wf st ∧ pool_bounded st.
Proof.
  unfold pool_reachable. apply (rtc_ind_r (λ st, pool_wf st ∧ pool_bounded st) ∅).
  - split; [apply pool_wf_empty|]. intros t. unfold thread_local_pool.
    rewrite lookup_empty. apply max_pooled_nonneg.
  - intros st1 st2 _ Hstep IH. by apply (pool_step_inv st1).
Qed.
End Reachable.

(** C31. The buffer pool never leaks old contents and never grows past its
    limit: in every pool state reachable by acquiring and releasing arbitrary
    buffers on any threads, each thread keeps at most the largest configured
    number of buffers, [acquire] of at most 2056 bytes returns exactly that many
    zero bytes in a block of at least 2056 bytes of capacity, and a larger
    request is refused with an empty vector. *)
Theorem acquire_clean `{VectorAllocSpec} (pools : list BufferPool) (st : PoolStore)
    (t : ThreadId) (size : Z) (Hst : pool_reachable pools st) (Hsize : 0 ≤ size) :
  zlen (thread_local_pool t st) ≤ max_pooled pools ∧
  if decide (size ≤ BLOCK_SIZE)
  then buf_data (acquire t size st).1 = replicate (Z.to_nat size) 0
       ∧ BLOCK_SIZE ≤ buf_capacity (acquire t size st).1
  else buf_data (acquire t size st).1 = [] ∧ (acquire t size st).2 = st.
Proof.
  destruct (pool_reachable_inv pools st Hst) as [Hwf Hb]. split; [apply Hb|].
  case_decide as Hs.
  - split; [by apply acquire_data|by apply acquire_capacity].
  - unfold acquire. by destruct (Z.ltb_spec BLOCK_SIZE size); [|lia].
Qed.

(** The policy that allocates exactly what is asked for. *)
Definition exact_alloc : VectorAlloc := λ _ required, required.

#[export] Instance exact_alloc_spec : @VectorAllocSpec exact_alloc.
Proof. intros old required. done. Qed.

Definition example_pool_state : PoolStore :=
  release (mkBufferPool 64) 0 (mkBuffer [1; 2; 3] BLOCK_SIZE) ∅.

Lemma acquire_clean_witness :
  buf_data (@acquire exact_alloc 0 4 example_pool_state).1 = [0; 0; 0; 0].
Proof.
  destruct (@acquire_clean exact_alloc exact_alloc_spec [mkBufferPool 64]
              example_pool_state 0 4) as [_ H].
  - apply rtc_once. apply pool_step_release. constructor.
  - lia.
  - rewrite decide_True in H by by_compute. apply H.
Defined.
