(* ===== verification/TransportDetail.v ===== *)
(** * NightNetwork/src/TransportDetail.h: header codec, frame building, write queue

    [decode_header] and [write_header] work on the bytes of the 8-byte header
    array; the frame builders take their memory from the buffer pool and return
    [None] exactly when a [memcpy] would leave its buffers.  [enqueue_frame] is
    a template over the owner of the write queue: the owner is an instance of
    the class [WriteQueueOwner], implemented by the server's session and by the
    client. *)

From S2P Require Import Prelude Protocol BufferPool.

Inductive HeaderDecodeError :=
  | InvalidMagic
  | UnsupportedVersion
  | InvalidFlags
  | InvalidPayloadSize.

#[export] Instance HeaderDecodeError_eq_dec : EqDecision HeaderDecodeError.
Proof. solve_decision. Defined.

(** [p[i]] for a byte array. *)
Definition at_ (p : bytes) (i : nat) : Z := p !!! i.

Definition read_u16_be (p : bytes) : Z :=
  to_u16 (Z.lor (Z.shiftl (at_ p 0) 8) (at_ p 1)).

Definition read_u32_be (p : bytes) : Z :=
  Z.lor (Z.lor (Z.lor (to_u32 (Z.shiftl (at_ p 0) 24))
                      (to_u32 (Z.shiftl (at_ p 1) 16)))
               (to_u32 (Z.shiftl (at_ p 2) 8)))
        (at_ p 3).

Definition write_header (output : bytes) (flags payload_size : Z) : bytes :=
  let output := <[MAGIC_OFFSET := to_u8 (Z.shiftr MAGIC 8)]> output in
  let output := <[(MAGIC_OFFSET + 1)%nat := to_u8 (Z.land MAGIC 0xFF)]> output in
  let output := <[VERSION_OFFSET := VERSION]> output in
  let output := <[FLAGS_OFFSET := flags]> output in
  let output := <[PAYLOAD_SIZE_OFFSET := to_u8 (Z.shiftr payload_size 24)]> output in
  let output := <[(PAYLOAD_SIZE_OFFSET + 1)%nat := to_u8 (Z.shiftr payload_size 16)]> output in
  let output := <[(PAYLOAD_SIZE_OFFSET + 2)%nat := to_u8 (Z.shiftr payload_size 8)]> output in
  <[(PAYLOAD_SIZE_OFFSET + 3)%nat := to_u8 payload_size]> output.

Definition decode_header (input : bytes) : expected Header HeaderDecodeError :=
  let header := {|
    magic := read_u16_be (drop MAGIC_OFFSET input);
    version := at_ input VERSION_OFFSET;
    flags := at_ input FLAGS_OFFSET;
    payload_size := read_u32_be (drop PAYLOAD_SIZE_OFFSET input) |} in
  if negb (magic header =? MAGIC) then inr InvalidMagic
  else if negb (version header =? VERSION) then inr UnsupportedVersion
  else if negb (Z.land (flags header) (Z.lnot KNOWN_FLAGS_MASK) =? 0)
  then inr InvalidFlags
  else if MAX_PAYLOAD_SIZE <? payload_size header then inr InvalidPayloadSize
  else if is_keepalive header
  then if negb (payload_size header =? 0) then inr InvalidPayloadSize
       else inl header
  else if payload_size header =? 0 then inr InvalidPayloadSize
  else inl header.

Section Frames.
Context `{VectorAlloc}.

Definition build_frame (t : ThreadId) (flags : Z) (payload : bytes)
    (st : PoolStore) : option (Buffer * PoolStore) :=
  let size := to_u32 (zlen payload) in
  let '(frame, st) := acquire t (HEADER_SIZE + size) st in
  if buf_empty frame then Some (frame, st)
  else
    let data := write_header (buf_data frame) flags size in
    if negb (zlen payload =? 0)
    then data ← memcpy data (Z.to_nat HEADER_SIZE) payload (Z.to_nat size);
         Some (mkBuffer data (buf_capacity frame), st)
    else Some (mkBuffer data (buf_capacity frame), st).

Definition build_data_frame (t : ThreadId) (payload : bytes) (st : PoolStore)
    : option (Buffer * PoolStore) :=
  if zlen payload =? 0 then Some (vector_empty, st)
  else build_frame t 0 payload st.

Definition clone_frame (t : ThreadId) (frame_template : bytes) (st : PoolStore)
    : option (Buffer * PoolStore) :=
  if zlen frame_template =? 0 then Some (vector_empty, st)
  else
    let '(frame, st) := acquire t (zlen frame_template) st in
    if buf_empty frame then Some (frame, st)
    else
      data ← memcpy (buf_data frame) 0 frame_template (length frame_template);
      Some (mkBuffer data (buf_capacity frame), st).

Definition build_keepalive_frame (t : ThreadId) (st : PoolStore)
    : option (Buffer * PoolStore) :=
  build_frame t FLAG_KEEPALIVE [] st.
End Frames.

(** The owner of a write queue: the two members [enqueue_frame] receives by
    reference. *)
Class WriteQueueOwner (S : Type) := {
  wq_queue : S → list Buffer;
  wq_writing : S → bool;
  wq_push : Buffer → S → S;
}.

(** What [enqueue_frame] relies on: pushing appends and changes nothing else it
    reads. *)
Class WriteQueueOwnerSpec (S : Type) `{WriteQueueOwner S} : Prop := {
  wq_queue_push f (s : S) : wq_queue (wq_push f s) = wq_queue s ++ [f];
  wq_writing_push f (s : S) : wq_writing (wq_push f s) = wq_writing s;
}.

Definition enqueue_frame {S} `{WriteQueueOwner S} (frame : Buffer)
    (start_write : S → S) (max_pending_frames : Z) (s : S) : bool * S :=
  if negb (max_pending_frames =? 0) && (max_pending_frames <=? zlen (wq_queue s))
  then (false, s)
  else
    let s := wq_push frame s in
    if negb (wq_writing s) then (true, start_write s) else (true, s).

(** ** Big-endian bytes *)

(** The eight header bytes, most significant byte first. *)
Definition u32_be (n : Z) : bytes :=
  [to_u8 (Z.shiftr n 24); to_u8 (Z.shiftr n 16); to_u8 (Z.shiftr n 8); to_u8 n].

Definition header_bytes (flags payload_size : Z) : bytes :=
  [0x4E; 0x4E; VERSION; flags] ++ u32_be payload_size.

Arguments header_bytes flags payload_size : simpl never.

Lemma read_u32_be_join a b c d rest :
  is_u8 a → is_u8 b → is_u8 c → is_u8 d →
  read_u32_be (a :: b :: c :: d :: rest)
  = a * 2 ^ 24 + b * 2 ^ 16 + c * 2 ^ 8 + d.
Proof.
  intros Ha Hb Hc Hd. unfold read_u32_be, at_; simpl.
  change (list_lookup_total 0%nat (a :: b :: c :: d :: rest)) with a.
  change (list_lookup_total 1%nat (a :: b :: c :: d :: rest)) with b.
  change (list_lookup_total 2%nat (a :: b :: c :: d :: rest)) with c.
  change (list_lookup_total 3%nat (a :: b :: c :: d :: rest)) with d.
  unfold in_range in *.
  rewrite !wrap_small by (unfold in_range; rewrite Z.shiftl_mul_pow2 by lia; lia).
  rewrite (lor_shiftl_add a (Z.shiftl b 16) 24)
    by (rewrite ?Z.shiftl_mul_pow2 by lia; lia).
  replace (a * 2 ^ 24 + Z.shiftl b 16) with (Z.shiftl (a * 2 ^ 8 + b) 16)
    by (rewrite !Z.shiftl_mul_pow2 by lia; lia).
  rewrite (lor_shiftl_add (a * 2 ^ 8 + b) (Z.shiftl c 8) 16)
    by (rewrite ?Z.shiftl_mul_pow2 by lia; lia).
  replace ((a * 2 ^ 8 + b) * 2 ^ 16 + Z.shiftl c 8)
    with (Z.shiftl (a * 2 ^ 16 + b * 2 ^ 8 + c) 8)
    by (rewrite !Z.shiftl_mul_pow2 by lia; lia).
  rewrite lor_shiftl_add by lia. lia.
Qed.

Lemma read_u32_be_u32_be n rest : is_u32 n → read_u32_be (u32_be n ++ rest) = n.
Proof.
  intros Hn. unfold u32_be; simpl.
  rewrite read_u32_be_join by (apply wrap_range; lia).
  unfold wrap. rewrite !Z.shiftr_div_pow2 by lia.
  unfold in_range in Hn. change (2 ^ 32) with 4294967296 in Hn.
  change (2 ^ 24) with 16777216. change (2 ^ 16) with 65536. change (2 ^ 8) with 256.
  dlia.
Qed.

(** Reading four bytes loses nothing. *)
Lemma u32_be_read_u32_be a b c d rest :
  is_u8 a → is_u8 b → is_u8 c → is_u8 d →
  u32_be (read_u32_be (a :: b :: c :: d :: rest)) = [a; b; c; d]
  ∧ is_u32 (read_u32_be (a :: b :: c :: d :: rest)).
Proof.
  intros Ha Hb Hc Hd. rewrite read_u32_be_join by done.
  unfold u32_be, wrap, in_range in *. rewrite !Z.shiftr_div_pow2 by lia.
  change (2 ^ 32) with 4294967296.
  change (2 ^ 24) with 16777216. change (2 ^ 16) with 65536. change (2 ^ 8) with 256 in *.
  split; [|lia].
  repeat (apply (f_equal2 cons); [dlia|]). done.
Qed.

Lemma write_header_bytes output f n :
  HEADER_SIZE ≤ zlen output →
  write_header output f n = header_bytes f n ++ drop 8 output.
Proof.
  unfold HEADER_SIZE, zlen. intros Hlen.
  do 8 (destruct output as [|? output]; [cbn [length] in Hlen; lia|]). reflexivity.
Qed.

Lemma length_write_header output f n : length (write_header output f n) = length output.
Proof. unfold write_header. by rewrite !length_insert. Qed.

Lemma length_header_bytes f n : length (header_bytes f n) = 8%nat.
Proof. done. Qed.

(** ** The header codec *)

(** The two kinds of frame of the wire protocol. *)
Definition valid_header (h : Header) : Prop :=
  magic h = MAGIC ∧ version h = VERSION ∧
  ((flags h = 0 ∧ 1 ≤ payload_size h ≤ MAX_PAYLOAD_SIZE)
   ∨ (flags h = FLAG_KEEPALIVE ∧ payload_size h = 0)).

#[export] Instance valid_header_dec h : Decision (valid_header h).
Proof. unfold valid_header. apply _. Defined.

Lemma valid_header_eta h :
  valid_header h → mkHeader MAGIC VERSION (flags h) (payload_size h) = h.
Proof. intros (Hm & Hv & _). destruct h; simpl in *. by subst. Qed.

(** The order in which [decode_header] tests the fields. *)
Definition header_error (h : Header) : HeaderDecodeError :=
  if decide (magic h ≠ MAGIC) then InvalidMagic
  else if decide (version h ≠ VERSION) then UnsupportedVersion
  else if decide (flags h ≠ 0 ∧ flags h ≠ FLAG_KEEPALIVE) then InvalidFlags
  else InvalidPayloadSize.

Lemma known_flags f : 0 ≤ f → Z.land f (Z.lnot KNOWN_FLAGS_MASK) = 0 ↔ f = 0 ∨ f = 1.
Proof.
  intros Hf. change KNOWN_FLAGS_MASK with (Z.ones 1).
  rewrite <-Z.ldiff_land, Z.ldiff_ones_r, Z.shiftl_mul_pow2, Z.shiftr_div_pow2 by lia.
  change (2 ^ 1) with 2. split; [|intros [->| ->]; done].
  intros H. dlia.
Qed.

Lemma keepalive_mod h : is_keepalive h = negb (flags h mod 2 =? 0).
Proof.
  unfold is_keepalive. change FLAG_KEEPALIVE with (Z.ones 1).
  by rewrite Z.land_ones by lia.
Qed.

(** [decode_header] accepts the valid headers and reports the first failing
    field of the others. *)
Lemma decode_header_spec input :
  0 ≤ at_ input FLAGS_OFFSET →
  let h := mkHeader (read_u16_be (drop MAGIC_OFFSET input)) (at_ input VERSION_OFFSET)
             (at_ input FLAGS_OFFSET) (read_u32_be (drop PAYLOAD_SIZE_OFFSET input)) in
  0 ≤ payload_size h →
  decode_header input = if decide (valid_header h) then inl h else inr (header_error h).
Proof.
  intros Hf h Hn. unfold decode_header. fold h.
  rewrite keepalive_mod. unfold header_error.
  unfold valid_header, FLAG_KEEPALIVE, MAX_PAYLOAD_SIZE.
  change (at_ input FLAGS_OFFSET) with (flags h) in Hf. clearbody h.
  pose proof (known_flags (flags h) Hf) as Hk.
  destruct (Z.eqb_spec (magic h) MAGIC); simpl; [|decide_lia].
  destruct (Z.eqb_spec (version h) VERSION); simpl; [|decide_lia].
  destruct (Z.eqb_spec (Z.land (flags h) (Z.lnot KNOWN_FLAGS_MASK)) 0) as [E|E]; simpl.
  - apply Hk in E.
    assert (flags h mod 2 = flags h) as -> by (destruct E as [-> | ->]; done).
    destruct (Z.ltb_spec 2048 (payload_size h)), (Z.eqb_spec (flags h) 0); simpl;
      destruct (Z.eqb_spec (payload_size h) 0); simpl; decide_lia.
  - decide_lia.
Qed.

Lemma decode_header_bytes f n rest :
  is_u8 f → is_u32 n →
  let h := mkHeader MAGIC VERSION f n in
  decode_header (header_bytes f n ++ rest)
  = if decide (valid_header h) then inl h else inr (header_error h).
Proof.
  intros Hf Hn h.
  assert (read_u32_be (drop PAYLOAD_SIZE_OFFSET (header_bytes f n ++ rest)) = n) as Hr.
  { apply (read_u32_be_u32_be n rest Hn). }
  rewrite decode_header_spec; [|apply Hf|cbn [payload_size]; rewrite Hr; apply Hn].
  by rewrite Hr.
Qed.

Definition decode_error_of (flags : Z) : HeaderDecodeError :=
  if decide (flags = 0 ∨ flags = FLAG_KEEPALIVE) then InvalidPayloadSize else InvalidFlags.

Lemma header_error_written f n :
  header_error (mkHeader MAGIC VERSION f n) = decode_error_of f.
Proof. unfold header_error, decode_error_of, FLAG_KEEPALIVE; simpl. decide_lia. Qed.

(** C30. Header round trip: decoding the bytes [write_header] puts at the front of
    any buffer gives back the written fields exactly when they describe a data
    frame of 1 to 2048 bytes or an empty keepalive frame; every other
    combination is rejected, an unknown flag as [InvalidFlags] and a bad length
    as [InvalidPayloadSize]. *)
Theorem decode_write_header (output : bytes) (f n : Z)
    (Hout : HEADER_SIZE ≤ zlen output) (Hf : is_u8 f) (Hn : is_u32 n) :
  decode_header (write_header output f n)
  = if decide ((f = 0 ∧ 1 ≤ n ≤ MAX_PAYLOAD_SIZE) ∨ (f = FLAG_KEEPALIVE ∧ n = 0))
    then inl (mkHeader MAGIC VERSION f n)
    else inr (decode_error_of f).
Proof.
  rewrite write_header_bytes, decode_header_bytes, header_error_written by done.
  unfold valid_header; simpl. decide_lia.
Qed.

Lemma decode_write_header_witness :
  decode_header (write_header (replicate 10 7) 0 2048) = inl (mkHeader MAGIC VERSION 0 2048).
Proof.
  rewrite (decode_write_header (replicate 10 7) 0 2048); [reflexivity|by_compute..].
Defined.

Lemma read_u16_be_join a b rest :
  is_u8 a → is_u8 b → read_u16_be (a :: b :: rest) = a * 2 ^ 8 + b.
Proof.
  intros Ha Hb. unfold read_u16_be, at_.
  change ((a :: b :: rest) !!! 0%nat) with a.
  change ((a :: b :: rest) !!! 1%nat) with b.
  unfold in_range in *. rewrite lor_shiftl_add by lia.
  apply wrap_small. unfold in_range. lia.
Qed.

(** The accepted headers, byte by byte. *)
Lemma decode_header_iff input h :
  zlen input = HEADER_SIZE → wf_bytes input →
  decode_header input = inl h
  ↔ valid_header h ∧ input = header_bytes (flags h) (payload_size h).
Proof.
  intros Hlen Hbytes. split.
  - unfold zlen, HEADER_SIZE in Hlen.
    do 8 (destruct input as [|? input]; [cbn [length] in Hlen; lia|]).
    destruct input; [|cbn [length] in Hlen; lia].
    rewrite !Forall_cons in Hbytes.
    destruct Hbytes as (B0 & B1 & B2 & B3 & B4 & B5 & B6 & B7 & _).
    destruct (u32_be_read_u32_be z3 z4 z5 z6 [] B4 B5 B6 B7) as [Hu [Hn _]].
    rewrite decode_header_spec; [|apply B3|apply Hn].
    change (drop MAGIC_OFFSET [z; z0; z1; z2; z3; z4; z5; z6])
      with [z; z0; z1; z2; z3; z4; z5; z6].
    change (drop PAYLOAD_SIZE_OFFSET [z; z0; z1; z2; z3; z4; z5; z6])
      with [z3; z4; z5; z6].
    rewrite read_u16_be_join by done.
    case_decide as Hv; [|done]. intros [= <-]. split; [done|].
    destruct Hv as (Hm & Hver & _). cbn [magic version flags payload_size] in *.
    unfold header_bytes. rewrite Hu. unfold MAGIC, in_range in *.
    change (at_ _ VERSION_OFFSET) with z1 in Hver.
    assert (z = 0x4E) as -> by lia. assert (z0 = 0x4E) as -> by lia. by rewrite Hver.
  - intros [Hv ->]. rewrite <-(app_nil_r (header_bytes _ _)).
    rewrite decode_header_bytes; [by rewrite (valid_header_eta h Hv), decide_True|..];
      destruct Hv as (_ & _ & Hv);
      unfold in_range, FLAG_KEEPALIVE, MAX_PAYLOAD_SIZE in *; lia.
Qed.

Lemma decode_header_inv input h :
  zlen input = HEADER_SIZE → wf_bytes input → decode_header input = inl h → valid_header h.
Proof. intros Hlen Hb Hd. by apply decode_header_iff in Hd as [? _]. Qed.

(** Header acceptance: among all 8-byte headers, [decode_header] accepts
    exactly the bytes of a data header (flags 0, length 1 to 2048) or of a
    keepalive header (flags 1, length 0), and returns their fields. *)
Lemma decode_header_accepts (input : bytes) (h : Header)
    (Hlen : zlen input = HEADER_SIZE) (Hbytes : wf_bytes input) :
  decode_header input = inl h
  ↔ valid_header h ∧ input = header_bytes (flags h) (payload_size h).
Proof. by apply decode_header_iff. Qed.

Lemma decode_header_accepts_witness :
  decode_header [0x4E; 0x4E; 1; 1; 0; 0; 0; 0] = inl (mkHeader MAGIC VERSION 1 0).
Proof.
  apply (decode_header_accepts [0x4E; 0x4E; 1; 1; 0; 0; 0; 0] (mkHeader MAGIC VERSION 1 0)).
  - reflexivity.
  - repeat (constructor; [by_compute|]). constructor.
  - split; [|reflexivity]. split; [reflexivity|]. split; [reflexivity|].
    right. split; reflexivity.
Defined.

(** ** Frames *)

Section FrameFacts.
Context `{VectorAlloc}.
Implicit Types (st : PoolStore) (t : ThreadId) (payload : bytes).

Lemma acquire_spec t n st :
  pool_wf st → 0 ≤ n ≤ BLOCK_SIZE →
  ∃ cap st', acquire t n st = (mkBuffer (replicate (Z.to_nat n) 0) cap, st')
             ∧ pool_wf st'.
Proof.
  intros Hst Hn. pose proof (acquire_data t n st Hst Hn) as Hd.
  pose proof (acquire_pool_wf t n st Hst) as Hwf.
  destruct (acquire t n st) as [[d cap] st']. simpl in *; subst. eauto.
Qed.

Lemma acquire_oversize t n st :
  BLOCK_SIZE < n → acquire t n st = (vector_empty, st).
Proof. intros Hn. unfold acquire. by destruct (Z.ltb_spec BLOCK_SIZE n); [|lia]. Qed.

Lemma buf_empty_replicate n cap :
  0 < n → buf_empty (mkBuffer (replicate (Z.to_nat n) 0) cap) = false.
Proof.
  intros Hn. unfold buf_empty, zlen; simpl. rewrite length_replicate.
  by apply Z.eqb_neq; lia.
Qed.

Lemma memcpy_after_header f n payload k :
  length payload = k →
  memcpy (header_bytes f n ++ replicate k 0) 8 payload k
  = Some (header_bytes f n ++ payload).
Proof.
  intros Hk. unfold memcpy.
  rewrite decide_True by (rewrite length_app, length_replicate, length_header_bytes; lia).
  rewrite take_app_length' by done.
  rewrite firstn_all2 by lia.
  rewrite drop_ge, app_nil_r; [done|].
  rewrite length_app, length_replicate, length_header_bytes; lia.
Qed.

(** What [build_frame] builds: header and payload, when they fit a block. *)
Lemma build_frame_spec t f payload st :
  pool_wf st → zlen payload ≤ MAX_PAYLOAD_SIZE →
  ∃ cap st', build_frame t f payload st
               = Some (mkBuffer (header_bytes f (zlen payload) ++ payload) cap, st')
             ∧ pool_wf st'.
Proof.
  intros Hst Hp. pose proof (zlen_nonneg payload) as H0.
  unfold build_frame, MAX_PAYLOAD_SIZE in *.
  rewrite (wrap_small 32) by (unfold in_range; lia).
  destruct (acquire_spec t (HEADER_SIZE + zlen payload) st Hst)
    as (cap & st' & -> & Hst'); [unfold BLOCK_SIZE, HEADER_SIZE, MAX_PAYLOAD_SIZE; lia|].
  rewrite buf_empty_replicate by (unfold HEADER_SIZE; lia). simpl buf_data.
  replace (Z.to_nat (HEADER_SIZE + zlen payload)) with (8 + length payload)%nat
    by (unfold HEADER_SIZE, zlen; lia).
  rewrite write_header_bytes
    by (unfold zlen, HEADER_SIZE; rewrite length_replicate; lia).
  rewrite drop_replicate. replace (8 + length payload - 8)%nat with (length payload) by lia.
  replace (Z.to_nat (zlen payload)) with (length payload) by (unfold zlen; lia).
  exists cap, st'. split; [|done].
  destruct (Z.eqb_spec (zlen payload) 0) as [E|E]; simpl negb; cbv iota.
  - apply zlen_nil_iff in E as ->. done.
  - change (Z.to_nat HEADER_SIZE) with 8%nat. by rewrite memcpy_after_header.
Qed.

Lemma build_frame_oversize t f payload st :
  MAX_PAYLOAD_SIZE < zlen payload < 2 ^ 32 →
  build_frame t f payload st = Some (vector_empty, st).
Proof.
  intros Hp. unfold build_frame, MAX_PAYLOAD_SIZE in *. rewrite (wrap_small 32) by (unfold in_range; lia).
  by rewrite acquire_oversize by (unfold BLOCK_SIZE, MAX_PAYLOAD_SIZE; lia).
Qed.

Lemma clone_frame_spec t frame st :
  pool_wf st → zlen frame ≤ BLOCK_SIZE →
  ∃ cap st', clone_frame t frame st = Some (mkBuffer frame cap, st') ∧ pool_wf st'.
Proof.
  intros Hst Hf. unfold clone_frame.
  destruct (Z.eqb_spec (zlen frame) 0) as [E|E].
  { apply zlen_nil_iff in E as ->. by exists 0, st. }
  pose proof (zlen_nonneg frame) as H0.
  destruct (acquire_spec t (zlen frame) st Hst) as (cap & st' & -> & Hst'); [lia|].
  rewrite buf_empty_replicate by lia. simpl buf_data.
  replace (Z.to_nat (zlen frame)) with (length frame) by (unfold zlen; lia).
  unfold memcpy. rewrite decide_True by (rewrite length_replicate; lia).
  rewrite firstn_all, drop_ge by (rewrite length_replicate; lia).
  exists cap, st'. split; [|done]. simpl. by rewrite app_nil_r.
Qed.
End FrameFacts.

(** Frame round trip: for every payload of 1 to 2048 bytes and every state of
    the buffer pools, [build_data_frame] returns a frame whose first eight
    bytes [decode_header] accepts as a data header carrying the payload's
    length, and whose remaining bytes are the payload; an empty payload or one
    above the limit gives an empty frame, and no copy leaves its buffer. *)
Theorem build_data_frame_roundtrip `{VectorAlloc} (t : ThreadId) (payload : bytes)
    (st : PoolStore) (Hst : pool_wf st) (Hp : zlen payload < 2 ^ 32) :
  ∃ frame st', build_data_frame t payload st = Some (frame, st') ∧ pool_wf st' ∧
    if decide (1 ≤ zlen payload ≤ MAX_PAYLOAD_SIZE)
    then decode_header (take 8 (buf_data frame))
           = inl (mkHeader MAGIC VERSION 0 (zlen payload))
         ∧ drop 8 (buf_data frame) = payload
    else buf_data frame = [].
Proof.
  unfold build_data_frame. pose proof (zlen_nonneg payload) as H0.
  destruct (Z.eqb_spec (zlen payload) 0) as [E|E].
  { exists vector_empty, st. split; [done|]. split; [done|]. by rewrite decide_False by lia. }
  destruct (decide (zlen payload ≤ MAX_PAYLOAD_SIZE)).
  - destruct (build_frame_spec t 0 payload st) as (cap & st' & -> & Hst'); [done..|].
    exists (mkBuffer (header_bytes 0 (zlen payload) ++ payload) cap), st'.
    split; [done|]. split; [done|]. rewrite decide_True by lia.
    change (buf_data (mkBuffer ?d _)) with d.
    rewrite take_app_length', drop_app_length' by done. split; [|done].
    rewrite <-(app_nil_r (header_bytes _ _)).
    rewrite decode_header_bytes by (unfold in_range; lia).
    rewrite decide_True; [done|]. split; [done|]. split; [done|]. left. simpl; lia.
  - exists vector_empty, st. rewrite build_frame_oversize by lia.
    split; [done|]. split; [done|]. by rewrite decide_False by lia.
Qed.

Lemma build_data_frame_roundtrip_witness :
  ∃ frame st', @build_data_frame exact_alloc 0 [5; 6; 7] ∅ = Some (frame, st') ∧ pool_wf st'
    ∧ if decide (1 ≤ zlen [5; 6; 7] ≤ MAX_PAYLOAD_SIZE)
      then decode_header (take 8 (buf_data frame))
             = inl (mkHeader MAGIC VERSION 0 (zlen [5; 6; 7]))
           ∧ drop 8 (buf_data frame) = [5; 6; 7]
      else buf_data frame = [].
Proof.
  apply (@build_data_frame_roundtrip exact_alloc 0 [5; 6; 7] ∅);
    [apply pool_wf_empty | by_compute].
Defined.
