(* ===== verification/Packet.v ===== *)
(** * NightNetwork/Packet.h and the interface of the transport server

    What the game thread sees of the transport ([Server.h]): a queue of packets
    to poll, and requests to send and to disconnect.  [ServerTransport] is that
    interface, [ServerTransportSpec] what [NetworkSystem] relies on;
    [ServerInterface] provides the instance. *)

From S2P Require Import Prelude.

Inductive PacketType := Connect | Disconnect | Data.

#[export] Instance PacketType_eq_dec : EqDecision PacketType.
Proof. solve_decision. Defined.

Record Packet := mkPacket {
  pkt_type : PacketType;
  pkt_session_id : Z;
  pkt_data : bytes;
}.

Class ServerTransport (S : Type) := {
  tr_update : S → S;
  tr_poll_packet : S → option (Packet * S);
  tr_send : Z → bytes → S → S;
  tr_disconnect : Z → S → S;
  (** the packets waiting to be polled, oldest first *)
  tr_pending : S → list Packet;
}.

Class ServerTransportSpec (S : Type) `{ServerTransport S} : Prop := {
  tr_pending_update (s : S) : tr_pending (tr_update s) = tr_pending s;
  tr_poll_spec (s : S) :
    match tr_pending s with
    | [] => tr_poll_packet s = None
    | p :: rest => ∃ s', tr_poll_packet s = Some (p, s') ∧ tr_pending s' = rest
    end;
  tr_pending_send (s : S) session_id data : tr_pending (tr_send session_id data s) = tr_pending s;
  tr_pending_disconnect (s : S) session_id : tr_pending (tr_disconnect session_id s) = tr_pending s;
}.
