(* ===== verification/Schema.v ===== *)
(** * NightCommon/NightProtocol: the values of a message

    The data that [messages_generated.h] (generated from [schema/messages.fbs])
    lays out in a buffer, and the helpers of [ProtocolUtil.h].  A table is a
    record of its fields; a pointer field (string, table, vector) is an [option],
    [None] for a field that is absent from the buffer.  The class [FlatBuffers]
    is what the rest of the program uses of the generated code: building a
    buffer, verifying it, reading it; [FlatBuffersSpec] is what it relies on.
    [MessagesGenerated] is that code. *)

From S2P Require Import Prelude.

(** ** Enumerations: scoped enums with a fixed underlying type *)

Module ErrorCode.
Definition NONE : Z := 0.
Definition INVALID_NAME : Z := 1.
Definition DUPLICATE_NAME : Z := 2.
Definition ROOM_NOT_FOUND : Z := 3.
Definition ROOM_FULL : Z := 4.
Definition NOT_IN_ROOM : Z := 5.
Definition INVALID_MESSAGE : Z := 6.
Definition ALREADY_IN_ROOM : Z := 7.
Definition INTERNAL_ERROR : Z := 8.
End ErrorCode.

Definition EnumNamesErrorCode : list string :=
  ["NONE"; "INVALID_NAME"; "DUPLICATE_NAME"; "ROOM_NOT_FOUND"; "ROOM_FULL";
   "NOT_IN_ROOM"; "INVALID_MESSAGE"; "ALREADY_IN_ROOM"; "INTERNAL_ERROR"]%string.

(** Any 16-bit value can be stored in an [ErrorCode]; the ones outside the
    enumeration have an empty name. *)
Definition EnumNameErrorCode (e : Z) : string :=
  if (e <? ErrorCode.NONE) || (ErrorCode.INTERNAL_ERROR <? e) then ""%string
  else EnumNamesErrorCode !!! Z.to_nat e.

Module MessagePayload.
Definition NONE : Z := 0.
Definition LoginRequest : Z := 1.
Definition LoginResponse : Z := 2.
Definition RoomListRequest : Z := 3.
Definition RoomListResponse : Z := 4.
Definition JoinRoomRequest : Z := 5.
Definition JoinRoomResponse : Z := 6.
Definition ChatSendRequest : Z := 7.
Definition ChatBroadcast : Z := 8.
Definition LeaveRoomRequest : Z := 9.
Definition LeaveRoomResponse : Z := 10.
Definition DisconnectRequest : Z := 11.
Definition DisconnectResponse : Z := 12.
Definition UserJoinedEvent : Z := 13.
Definition UserLeftEvent : Z := 14.
Definition SystemMessageEvent : Z := 15.
End MessagePayload.

(** ** Tables *)

Record UserInfo := mkUserInfo {
  ui_user_id : Z;
  ui_display_name : option string;
}.

Record RoomInfo := mkRoomInfo {
  ri_room_id : Z;
  ri_room_name : option string;
  ri_user_count : Z;
}.

Record LoginRequest := mkLoginRequest { lq_display_name : option string }.

Record LoginResponse := mkLoginResponse {
  lr_success : bool;
  lr_error_code : Z;
  lr_user : option UserInfo;
}.

Record RoomListRequest := mkRoomListRequest { }.

Record RoomListResponse := mkRoomListResponse { rl_rooms : option (list RoomInfo) }.

Record JoinRoomRequest := mkJoinRoomRequest { jq_room_id : Z }.

Record JoinRoomResponse := mkJoinRoomResponse {
  jr_success : bool;
  jr_error_code : Z;
  jr_room : option RoomInfo;
}.

Record ChatSendRequest := mkChatSendRequest { cs_content : option string }.

Record ChatBroadcast := mkChatBroadcast {
  cb_room_id : Z;
  cb_sender_id : Z;
  cb_sender_name : option string;
  cb_content : option string;
  cb_timestamp : Z;
}.

Record LeaveRoomRequest := mkLeaveRoomRequest { }.

Record LeaveRoomResponse := mkLeaveRoomResponse {
  vr_success : bool;
  vr_error_code : Z;
}.

Record DisconnectRequest := mkDisconnectRequest { }.

Record DisconnectResponse := mkDisconnectResponse {
  dr_success : bool;
  dr_error_code : Z;
}.

Record UserJoinedEvent := mkUserJoinedEvent {
  uj_room_id : Z;
  uj_user : option UserInfo;
}.

Record UserLeftEvent := mkUserLeftEvent {
  ul_room_id : Z;
  ul_user : option UserInfo;
}.

Record SystemMessageEvent := mkSystemMessageEvent {
  sm_room_id : Z;
  sm_content : option string;
}.

(** The union: a tag and, for a known tag, the pointer to the table, which the
    verifier accepts when it is absent.  An unknown tag is accepted as well. *)
Inductive Payload :=
  | PNone
  | PLoginRequest (t : option LoginRequest)
  | PLoginResponse (t : option LoginResponse)
  | PRoomListRequest (t : option RoomListRequest)
  | PRoomListResponse (t : option RoomListResponse)
  | PJoinRoomRequest (t : option JoinRoomRequest)
  | PJoinRoomResponse (t : option JoinRoomResponse)
  | PChatSendRequest (t : option ChatSendRequest)
  | PChatBroadcast (t : option ChatBroadcast)
  | PLeaveRoomRequest (t : option LeaveRoomRequest)
  | PLeaveRoomResponse (t : option LeaveRoomResponse)
  | PDisconnectRequest (t : option DisconnectRequest)
  | PDisconnectResponse (t : option DisconnectResponse)
  | PUserJoinedEvent (t : option UserJoinedEvent)
  | PUserLeftEvent (t : option UserLeftEvent)
  | PSystemMessageEvent (t : option SystemMessageEvent)
  | POther (tag : Z).

Record Message := mkMessage {
  request_id : Z;
  payload : Payload;
}.

Definition payload_type (m : Message) : Z :=
  match payload m with
  | PNone => MessagePayload.NONE
  | PLoginRequest _ => MessagePayload.LoginRequest
  | PLoginResponse _ => MessagePayload.LoginResponse
  | PRoomListRequest _ => MessagePayload.RoomListRequest
  | PRoomListResponse _ => MessagePayload.RoomListResponse
  | PJoinRoomRequest _ => MessagePayload.JoinRoomRequest
  | PJoinRoomResponse _ => MessagePayload.JoinRoomResponse
  | PChatSendRequest _ => MessagePayload.ChatSendRequest
  | PChatBroadcast _ => MessagePayload.ChatBroadcast
  | PLeaveRoomRequest _ => MessagePayload.LeaveRoomRequest
  | PLeaveRoomResponse _ => MessagePayload.LeaveRoomResponse
  | PDisconnectRequest _ => MessagePayload.DisconnectRequest
  | PDisconnectResponse _ => MessagePayload.DisconnectResponse
  | PUserJoinedEvent _ => MessagePayload.UserJoinedEvent
  | PUserLeftEvent _ => MessagePayload.UserLeftEvent
  | PSystemMessageEvent _ => MessagePayload.SystemMessageEvent
  | POther tag => tag
  end.

(** The typed accessors: null when the tag differs or the table is absent. *)
Definition payload_as_LoginRequest (m : Message) : option LoginRequest :=
  match payload m with PLoginRequest t => t | _ => None end.
Definition payload_as_LoginResponse (m : Message) : option LoginResponse :=
  match payload m with PLoginResponse t => t | _ => None end.
Definition payload_as_RoomListResponse (m : Message) : option RoomListResponse :=
  match payload m with PRoomListResponse t => t | _ => None end.
Definition payload_as_JoinRoomRequest (m : Message) : option JoinRoomRequest :=
  match payload m with PJoinRoomRequest t => t | _ => None end.
Definition payload_as_JoinRoomResponse (m : Message) : option JoinRoomResponse :=
  match payload m with PJoinRoomResponse t => t | _ => None end.
Definition payload_as_ChatSendRequest (m : Message) : option ChatSendRequest :=
  match payload m with PChatSendRequest t => t | _ => None end.
Definition payload_as_ChatBroadcast (m : Message) : option ChatBroadcast :=
  match payload m with PChatBroadcast t => t | _ => None end.
Definition payload_as_UserJoinedEvent (m : Message) : option UserJoinedEvent :=
  match payload m with PUserJoinedEvent t => t | _ => None end.
Definition payload_as_UserLeftEvent (m : Message) : option UserLeftEvent :=
  match payload m with PUserLeftEvent t => t | _ => None end.
Definition payload_as_SystemMessageEvent (m : Message) : option SystemMessageEvent :=
  match payload m with PSystemMessageEvent t => t | _ => None end.

(** ** Strings crossing the C interface *)

(** A [const char*] argument: the bytes up to the first NUL. *)
Fixpoint c_str (s : string) : string :=
  match s with
  | EmptyString => EmptyString
  | String c s' => if decide (c = Ascii.zero) then EmptyString else String c (c_str s')
  end.

(** [ToUtf8(const flatbuffers::String* )] keeps embedded NULs. *)
Definition ToUtf8 (value : option string) : string := default ""%string value.

Definition ToErrorString (error_code : Z) : string := c_str (EnumNameErrorCode error_code).

(** ** The direct constructors the server uses (they take [const char*]) *)

Definition CreateUserInfoDirect (user_id : Z) (display_name : string) : UserInfo :=
  mkUserInfo user_id (Some (c_str display_name)).

Definition CreateRoomInfoDirect (room_id : Z) (room_name : string) (user_count : Z)
    : RoomInfo :=
  mkRoomInfo room_id (Some (c_str room_name)) user_count.

Definition CreateRoomListResponseDirect (rooms : list RoomInfo) : RoomListResponse :=
  mkRoomListResponse (Some rooms).

Definition CreateChatBroadcastDirect (room_id sender_id : Z)
    (sender_name content : string) (timestamp : Z) : ChatBroadcast :=
  mkChatBroadcast room_id sender_id (Some (c_str sender_name)) (Some (c_str content))
    timestamp.

Definition CreateSystemMessageEventDirect (room_id : Z) (content : string)
    : SystemMessageEvent :=
  mkSystemMessageEvent room_id (Some (c_str content)).

(** ** The interface of the generated code *)

Class FlatBuffers := {
  (** builder: the finished buffer of a message *)
  fb_build : Message → bytes;
  (** [VerifyMessageBuffer] *)
  fb_verify : bytes → bool;
  (** [GetRoot<Message>] of a verified buffer *)
  fb_root : bytes → Message;
}.

Definition BuildMessage `{FlatBuffers} (request_id : Z) (payload : Payload) : bytes :=
  fb_build (mkMessage request_id payload).

Definition VerifiedMessage `{FlatBuffers} (data : bytes) : option Message :=
  if zlen data =? 0 then None
  else if fb_verify data then Some (fb_root data) else None.

(** ** Which messages the builder can represent, and how large they get *)

Definition text_size (s : option string) : Z := from_option zsize 0 s.

Definition user_text (u : option UserInfo) : Z :=
  from_option (λ u, text_size (ui_display_name u)) 0 u.
Definition room_text (r : option RoomInfo) : Z :=
  from_option (λ r, text_size (ri_room_name r)) 0 r.

(** Total size of the strings of a payload and number of its rooms. *)
Definition payload_text (p : Payload) : Z :=
  match p with
  | PLoginRequest (Some t) => text_size (lq_display_name t)
  | PLoginResponse (Some t) => user_text (lr_user t)
  | PRoomListResponse (Some t) =>
      foldr Z.add 0 ((λ r, room_text (Some r)) <$> default [] (rl_rooms t))
  | PJoinRoomResponse (Some t) => room_text (jr_room t)
  | PChatSendRequest (Some t) => text_size (cs_content t)
  | PChatBroadcast (Some t) => text_size (cb_sender_name t) + text_size (cb_content t)
  | PUserJoinedEvent (Some t) => user_text (uj_user t)
  | PUserLeftEvent (Some t) => user_text (ul_user t)
  | PSystemMessageEvent (Some t) => text_size (sm_content t)
  | _ => 0
  end.

Definition payload_rooms (p : Payload) : Z :=
  match p with
  | PRoomListResponse (Some t) => zlen (default [] (rl_rooms t))
  | _ => 0
  end.

(** A bound on the finished buffer: at most 256 bytes of tables, vtables,
    offsets and padding, the text, and 64 bytes per listed room. *)
Definition message_bound (m : Message) : Z :=
  256 + payload_text (payload m) + 64 * payload_rooms (payload m).

Definition wf_user (u : UserInfo) : Prop := is_u32 (ui_user_id u).
Definition wf_room (r : RoomInfo) : Prop :=
  is_u32 (ri_room_id r) ∧ is_u32 (ri_user_count r).

(** Every scalar fits its field. *)
Definition wf_payload (p : Payload) : Prop :=
  match p with
  | PLoginResponse (Some t) =>
      is_u16 (lr_error_code t) ∧ from_option wf_user True (lr_user t)
  | PRoomListResponse (Some t) => from_option (Forall wf_room) True (rl_rooms t)
  | PJoinRoomRequest (Some t) => is_u32 (jq_room_id t)
  | PJoinRoomResponse (Some t) =>
      is_u16 (jr_error_code t) ∧ from_option wf_room True (jr_room t)
  | PChatBroadcast (Some t) =>
      is_u32 (cb_room_id t) ∧ is_u32 (cb_sender_id t) ∧ is_u64 (cb_timestamp t)
  | PLeaveRoomResponse (Some t) => is_u16 (vr_error_code t)
  | PDisconnectResponse (Some t) => is_u16 (dr_error_code t)
  | PUserJoinedEvent (Some t) =>
      is_u32 (uj_room_id t) ∧ from_option wf_user True (uj_user t)
  | PUserLeftEvent (Some t) =>
      is_u32 (ul_room_id t) ∧ from_option wf_user True (ul_user t)
  | PSystemMessageEvent (Some t) => is_u32 (sm_room_id t)
  | POther tag => 16 ≤ tag < 256
  | _ => True
  end.

(** A message the builder and the verifier accept: its scalars fit and it is far
    below the limits of a FlatBuffer, 2 GB and a million tables. *)
Definition wf_message (m : Message) : Prop :=
  is_u32 (request_id m) ∧ wf_payload (payload m) ∧ message_bound m < 2 ^ 25.

(** What the program relies on: a built message is a non-empty, bounded byte
    sequence that verifies and reads back as the same message. *)
Class FlatBuffersSpec `{FlatBuffers} : Prop := {
  fb_build_bytes m : wf_message m → wf_bytes (fb_build m);
  fb_verify_build m : wf_message m → fb_verify (fb_build m) = true;
  fb_root_build m : wf_message m → fb_root (fb_build m) = m;
  fb_build_size m : wf_message m → 0 < zlen (fb_build m) ≤ message_bound m;
  (** scalar fields of a verified buffer are read at their width *)
  fb_root_request_id l : wf_bytes l → fb_verify l = true → is_u32 (request_id (fb_root l));
}.

(** ** Lemmas *)

Lemma zsize_nonneg s : 0 ≤ zsize s.
Proof. unfold zsize. lia. Qed.

Lemma c_str_size s : zsize (c_str s) ≤ zsize s.
Proof.
  unfold zsize. induction s as [|c s IH]; simpl; [done|].
  case_decide; simpl; lia.
Qed.

(** A NUL-free string is passed unchanged. *)
Fixpoint nul_free (s : string) : bool :=
  match s with
  | EmptyString => true
  | String c s' => bool_decide (c ≠ Ascii.zero) && nul_free s'
  end.

Lemma c_str_nul_free s : nul_free s = true → c_str s = s.
Proof.
  induction s as [|c s IH]; simpl; [done|].
  rewrite andb_true_iff, bool_decide_eq_true. intros [Hc Hs].
  rewrite decide_False by done. by rewrite IH.
Qed.

Lemma VerifiedMessage_build `{FlatBuffersSpec} m :
  wf_message m → VerifiedMessage (fb_build m) = Some m.
Proof.
  intros Hm. unfold VerifiedMessage.
  pose proof (fb_build_size m Hm).
  destruct (Z.eqb_spec (zlen (fb_build m)) 0); [lia|].
  by rewrite fb_verify_build, fb_root_build.
Qed.

#[export] Hint Resolve zsize_nonneg c_str_size : night.
