(* ===== verification/FlatBuffersLib.v ===== *)
(** * The FlatBuffers run-time library, as the generated code uses it

    [messages_generated.h] is written against [flatbuffers.h], which is not part
    of the repository.  [FlatBuffersLib] lists the functions it calls: the
    methods of [FlatBufferBuilder], the accessors of [Table], [String] and
    [Vector], and the methods of [Verifier].  [FlatBuffersLibSpec] states what
    their documentation promises.

    Reading is partial: [None] is an access outside the buffer.  A verification
    step yields [None] when it makes such an access, and otherwise its answer and
    the verifier, which counts tables and depth. *)

From S2P Require Import Prelude.

(** Offsets in a buffer under construction; 0 is the null offset. *)
Abbreviation Offset := Z.
Abbreviation voffset := Z.

Class FlatBuffersLib := {
  Builder : Type;
  Pointer : Type;
  Verifier : Type;
  (** [FlatBufferBuilder] *)
  fbb_new : Builder;
  StartTable : Builder → Z * Builder;
  AddElement (size : Z) : voffset → Z → Z → Builder → Builder;
  AddOffset : voffset → Offset → Builder → Builder;
  EndTable : Z → Builder → Offset * Builder;
  fbb_CreateString : string → Builder → Offset * Builder;
  CreateVector : list Offset → Builder → Offset * Builder;
  fbb_Finish : Offset → Builder → Builder;
  fbb_FinishSizePrefixed : Offset → Builder → Builder;
  GetBuffer : Builder → bytes;
  (** accessors of a buffer *)
  GetRoot : bytes → option Pointer;
  GetSizePrefixedRoot : bytes → option Pointer;
  GetField (size : Z) : bytes → Pointer → voffset → Z → option Z;
  GetPointer : bytes → Pointer → voffset → option (option Pointer);
  String_str : bytes → Pointer → option string;
  Vector_elements : bytes → Pointer → option (list Pointer);
  (** [Verifier] *)
  verifier_new : Verifier;
  VerifyTableStart : bytes → Pointer → Verifier → option (bool * Verifier);
  VerifyField (size : Z) : bytes → Pointer → voffset → Z → Verifier → option (bool * Verifier);
  VerifyOffset : bytes → Pointer → voffset → Verifier → option (bool * Verifier);
  VerifyString : bytes → option Pointer → Verifier → option (bool * Verifier);
  VerifyVector : bytes → option Pointer → Verifier → option (bool * Verifier);
  Verifier_EndTable : Verifier → option (bool * Verifier);
  VerifyTable : (Pointer → Verifier → option (bool * Verifier)) →
    option Pointer → Verifier → option (bool * Verifier);
  VerifyVectorOfTables : bytes → (Pointer → Verifier → option (bool * Verifier)) →
    option Pointer → Verifier → option (bool * Verifier);
  VerifyBuffer : bytes → (Pointer → Verifier → option (bool * Verifier)) →
    Verifier → option (bool * Verifier);
  VerifySizePrefixedBuffer : bytes → (Pointer → Verifier → option (bool * Verifier)) →
    Verifier → option (bool * Verifier);
}.

Abbreviation Verification := (Verifier → option (bool * Verifier)).

(** [a && b && ...] over the verifier: the first that fails ends it. *)
Fixpoint verify_and `{FlatBuffersLib} (ms : list Verification) : Verification := λ v,
  match ms with
  | [] => Some (true, v)
  | m :: ms =>
      '(ok, v) ← m v;
      if ok : bool then verify_and ms v else Some (false, v)
  end.

(** A step that first reads a field. *)
Definition verify_read `{FlatBuffersLib} {A} (o : option A) (m : A → Verification) : Verification :=
  λ v, a ← o; m a v.

(** ** Objects of a buffer under construction *)

Inductive FbField :=
  | FbScalar (size value : Z)
  | FbRef (o : Offset).

Inductive FbObject :=
  | FbString (s : string)
  | FbTable (fields : list (voffset * FbField))
  | FbVector (elements : list Offset).

Fixpoint field_at (vo : voffset) (fs : list (voffset * FbField)) : option FbField :=
  match fs with
  | [] => None
  | (vo', f) :: fs => if vo' =? vo then Some f else field_at vo fs
  end.

(** What the accessors of a field read, if the field has the type they expect:
    an absent scalar has its default, an absent pointer is null. *)
Definition get_scalar (size : Z) (vo : voffset) (default : Z) (fs : list (voffset * FbField)) : option Z :=
  match field_at vo fs with
  | None => Some default
  | Some (FbScalar size' value) => if size' =? size then Some value else None
  | Some (FbRef _) => None
  end.

Definition get_ref (vo : voffset) (fs : list (voffset * FbField)) : option (option Offset) :=
  match field_at vo fs with
  | None => Some None
  | Some (FbRef o) => Some (Some o)
  | Some (FbScalar _ _) => None
  end.

(** Default values and null offsets are not stored. *)
Definition add_scalar (size : Z) (vo : voffset) (value default : Z) fs : list (voffset * FbField) :=
  if value =? default then fs else (vo, FbScalar size value) :: fs.
Definition add_ref (vo : voffset) (o : Offset) fs : list (voffset * FbField) :=
  if o =? 0 then fs else (vo, FbRef o) :: fs.

Definition scalar_size (size : Z) : Prop := size = 1 ∨ size = 2 ∨ size = 4 ∨ size = 8.

(** FlatBuffers are smaller than 2 GB. *)
Definition FLATBUFFERS_MAX_BUFFER_SIZE : Z := 2 ^ 31.
(** The defaults of [Verifier::Options]. *)
Definition max_depth : Z := 64.
Definition max_tables : Z := 1000000.

Section Specification.
Context `{FlatBuffersLib}.

(** [m] never leaves the buffer; [m] has accepted. *)
Definition no_overrun (m : Verification) : Prop := ∀ v, is_Some (m v).
Definition accepted_by (m : Verification) : Prop := ∃ v v', m v = Some (true, v').

(** All the tables of a vector, one after the other. *)
Fixpoint verify_each (f : Pointer → Verification) (ps : list Pointer) : Verification := λ v,
  match ps with
  | [] => Some (true, v)
  | p :: ps =>
      '(ok, v) ← f p v;
      if ok : bool then verify_each f ps v else Some (false, v)
  end.

(** What the library promises.  [closed_bld b]: no table is under construction;
    [open_bld b start fs]: the table [start] is, with fields [fs] so far;
    [built b o x]: object [x] is at offset [o]; [used b]: bytes so far (an object
    needs its contents, a header and padding); [finished b root].  The offsets of
    a finished buffer are the places of its objects.

    A step of the verifier checks every place it reads against the end of the
    buffer, except that [VerifyField] and [VerifyOffset] read the table's vtable
    as it is: they stay inside the buffer only once [VerifyTableStart] has
    accepted that table. *)
Class FlatBuffersLibSpec := {
  closed_bld : Builder → Prop;
  open_bld : Builder → Z → list (voffset * FbField) → Prop;
  built : Builder → Offset → FbObject → Prop;
  used : Builder → Z;
  finished : Builder → Offset → Prop;
  place : bytes → Offset → Pointer;
  depth : Verifier → Z;
  tables : Verifier → Z;

  (** the builder *)
  lib_new : closed_bld fbb_new ∧ used fbb_new = 0;
  lib_string s b :
    closed_bld b → used b + zsize s + 8 < FLATBUFFERS_MAX_BUFFER_SIZE →
    ∃ o b', fbb_CreateString s b = (o, b') ∧ o ≠ 0 ∧ closed_bld b' ∧ built b' o (FbString s)
      ∧ (∀ o x, built b o x → built b' o x) ∧ used b ≤ used b' ≤ used b + zsize s + 8;
  lib_vector os b :
    closed_bld b → Forall (λ o, ∃ x, built b o x) os →
    used b + 4 * zlen os + 8 < FLATBUFFERS_MAX_BUFFER_SIZE →
    ∃ o b', CreateVector os b = (o, b') ∧ o ≠ 0 ∧ closed_bld b' ∧ built b' o (FbVector os)
      ∧ (∀ o x, built b o x → built b' o x) ∧ used b ≤ used b' ≤ used b + 4 * zlen os + 8;
  lib_start b :
    closed_bld b →
    ∃ start b', StartTable b = (start, b') ∧ open_bld b' start []
      ∧ (∀ o x, built b o x → built b' o x) ∧ used b' = used b;
  lib_element size vo value default b start fs :
    open_bld b start fs → field_at vo fs = None → scalar_size size → is_u16 vo →
    in_range (8 * size) value →
    used b + 2 * size + 3 < FLATBUFFERS_MAX_BUFFER_SIZE →
    let b' := AddElement size vo value default b in
    open_bld b' start (add_scalar size vo value default fs)
    ∧ (∀ o x, built b o x → built b' o x) ∧ used b ≤ used b' ≤ used b + 2 * size + 3;
  lib_offset vo o b start fs :
    open_bld b start fs → field_at vo fs = None → is_u16 vo → o = 0 ∨ (∃ x, built b o x) →
    used b + 8 < FLATBUFFERS_MAX_BUFFER_SIZE →
    let b' := AddOffset vo o b in
    open_bld b' start (add_ref vo o fs)
    ∧ (∀ o x, built b o x → built b' o x) ∧ used b ≤ used b' ≤ used b + 8;
  lib_end last b start fs :
    open_bld b start fs → 4 ≤ last → Forall (λ f, f.1 ≤ last) fs →
    used b + last + 12 < FLATBUFFERS_MAX_BUFFER_SIZE →
    ∃ o b', EndTable start b = (o, b') ∧ o ≠ 0 ∧ closed_bld b' ∧ built b' o (FbTable fs)
      ∧ (∀ o x, built b o x → built b' o x) ∧ used b ≤ used b' ≤ used b + last + 12;
  lib_finish root fs b :
    closed_bld b → built b root (FbTable fs) → used b + 12 < FLATBUFFERS_MAX_BUFFER_SIZE →
    let b' := fbb_Finish root b in
    finished b' root ∧ (∀ o x, built b o x → built b' o x)
    ∧ wf_bytes (GetBuffer b') ∧ 0 < zlen (GetBuffer b') ≤ used b + 12;

  (** reading what was built *)
  lib_root b root :
    finished b root → GetRoot (GetBuffer b) = Some (place (GetBuffer b) root);
  lib_field b root o fs size vo default z :
    finished b root → built b o (FbTable fs) → get_scalar size vo default fs = Some z →
    GetField size (GetBuffer b) (place (GetBuffer b) o) vo default = Some z
    ∧ ∀ v, VerifyField size (GetBuffer b) (place (GetBuffer b) o) vo size v = Some (true, v);
  lib_pointer b root o fs vo r :
    finished b root → built b o (FbTable fs) → get_ref vo fs = Some r →
    GetPointer (GetBuffer b) (place (GetBuffer b) o) vo = Some (place (GetBuffer b) <$> r)
    ∧ ∀ v, VerifyOffset (GetBuffer b) (place (GetBuffer b) o) vo v = Some (true, v);
  lib_str b root o s :
    finished b root → built b o (FbString s) →
    String_str (GetBuffer b) (place (GetBuffer b) o) = Some s
    ∧ ∀ v, VerifyString (GetBuffer b) (Some (place (GetBuffer b) o)) v = Some (true, v);
  lib_elements b root o os :
    finished b root → built b o (FbVector os) →
    Vector_elements (GetBuffer b) (place (GetBuffer b) o) = Some (place (GetBuffer b) <$> os)
    ∧ ∀ v, VerifyVector (GetBuffer b) (Some (place (GetBuffer b) o)) v = Some (true, v);
  lib_table_start b root o fs v :
    finished b root → built b o (FbTable fs) → depth v < max_depth → tables v < max_tables →
    ∃ v', VerifyTableStart (GetBuffer b) (place (GetBuffer b) o) v = Some (true, v')
      ∧ depth v' = depth v + 1 ∧ tables v' = tables v + 1;
  lib_verify_root b root f :
    finished b root →
    VerifyBuffer (GetBuffer b) f verifier_new = f (place (GetBuffer b) root) verifier_new;

  (** the verifier on arbitrary bytes *)
  lib_verifier_new : depth verifier_new = 0 ∧ tables verifier_new = 0;
  lib_end_table v :
    ∃ v', Verifier_EndTable v = Some (true, v') ∧ depth v' = depth v - 1 ∧ tables v' = tables v;
  lib_null_string buf v : VerifyString buf None v = Some (true, v);
  lib_null_vector buf v : VerifyVector buf None v = Some (true, v);
  lib_table f p v :
    VerifyTable f p v = match p with None => Some (true, v) | Some p => f p v end;
  lib_null_tables buf f v : VerifyVectorOfTables buf f None v = Some (true, v);
  lib_tables buf f p :
    accepted_by (VerifyVector buf (Some p)) →
    ∃ ps, Vector_elements buf p = Some ps
      ∧ ∀ v, VerifyVectorOfTables buf f (Some p) v = verify_each f ps v;
  lib_total buf p q :
    no_overrun (VerifyTableStart buf p) ∧ no_overrun (VerifyString buf q)
    ∧ no_overrun (VerifyVector buf q);
  lib_table_total buf p vo size align :
    accepted_by (VerifyTableStart buf p) →
    no_overrun (VerifyField size buf p vo align) ∧ no_overrun (VerifyOffset buf p vo);
  lib_buffer_total buf f : (∀ p, no_overrun (f p)) → no_overrun (VerifyBuffer buf f);
  lib_buffer buf f :
    accepted_by (VerifyBuffer buf f) → ∃ p, GetRoot buf = Some p ∧ accepted_by (f p);
  lib_field_safe buf p size vo default :
    accepted_by (VerifyTableStart buf p) → accepted_by (VerifyField size buf p vo size) →
    ∃ z, GetField size buf p vo default = Some z
      ∧ (wf_bytes buf → in_range (8 * size) default → in_range (8 * size) z);
  lib_pointer_safe buf p vo :
    accepted_by (VerifyTableStart buf p) → accepted_by (VerifyOffset buf p vo) →
    is_Some (GetPointer buf p vo);
  lib_str_safe buf p : accepted_by (VerifyString buf (Some p)) → is_Some (String_str buf p);
}.
End Specification.
Arguments FlatBuffersLibSpec : clear implicits.
Arguments FlatBuffersLibSpec {_}.
