(* ===== verification/MessagesGenerated.v ===== *)
(** * NightCommon/NightProtocol/messages_generated.h: the generated code

    A module per table: the offsets of its fields, its accessors, [Verify], the
    builder's methods and the [Create...] functions, written against
    [FlatBuffersLib].  A [const T*] is a [Pointer] into the buffer [buf].  The
    values these accessors read are the records of [Schema]. *)

From S2P Require Import Prelude Schema FlatBuffersLib.

(** ** Enumerations *)

Definition EnumValuesErrorCode : list Z :=
  [ErrorCode.NONE; ErrorCode.INVALID_NAME; ErrorCode.DUPLICATE_NAME; ErrorCode.ROOM_NOT_FOUND;
   ErrorCode.ROOM_FULL; ErrorCode.NOT_IN_ROOM; ErrorCode.INVALID_MESSAGE;
   ErrorCode.ALREADY_IN_ROOM; ErrorCode.INTERNAL_ERROR].

Definition EnumValuesMessagePayload : list Z :=
  [MessagePayload.NONE; MessagePayload.LoginRequest; MessagePayload.LoginResponse;
   MessagePayload.RoomListRequest; MessagePayload.RoomListResponse; MessagePayload.JoinRoomRequest;
   MessagePayload.JoinRoomResponse; MessagePayload.ChatSendRequest; MessagePayload.ChatBroadcast;
   MessagePayload.LeaveRoomRequest; MessagePayload.LeaveRoomResponse;
   MessagePayload.DisconnectRequest; MessagePayload.DisconnectResponse;
   MessagePayload.UserJoinedEvent; MessagePayload.UserLeftEvent; MessagePayload.SystemMessageEvent].

Definition EnumNamesMessagePayload : list string :=
  ["NONE"; "LoginRequest"; "LoginResponse"; "RoomListRequest"; "RoomListResponse";
   "JoinRoomRequest"; "JoinRoomResponse"; "ChatSendRequest"; "ChatBroadcast";
   "LeaveRoomRequest"; "LeaveRoomResponse"; "DisconnectRequest"; "DisconnectResponse";
   "UserJoinedEvent"; "UserLeftEvent"; "SystemMessageEvent"]%string.

Definition EnumNameMessagePayload (e : Z) : string :=
  if (e <? MessagePayload.NONE) || (MessagePayload.SystemMessageEvent <? e) then ""%string
  else EnumNamesMessagePayload !!! Z.to_nat e.

(** The trait of a table type: its tag in the union. *)
Class MessagePayloadTraits (T : Type) := enum_value : Z.
#[export] Instance traits_LoginRequest : MessagePayloadTraits LoginRequest := MessagePayload.LoginRequest.
#[export] Instance traits_LoginResponse : MessagePayloadTraits LoginResponse := MessagePayload.LoginResponse.
#[export] Instance traits_RoomListRequest : MessagePayloadTraits RoomListRequest := MessagePayload.RoomListRequest.
#[export] Instance traits_RoomListResponse : MessagePayloadTraits RoomListResponse := MessagePayload.RoomListResponse.
#[export] Instance traits_JoinRoomRequest : MessagePayloadTraits JoinRoomRequest := MessagePayload.JoinRoomRequest.
#[export] Instance traits_JoinRoomResponse : MessagePayloadTraits JoinRoomResponse := MessagePayload.JoinRoomResponse.
#[export] Instance traits_ChatSendRequest : MessagePayloadTraits ChatSendRequest := MessagePayload.ChatSendRequest.
#[export] Instance traits_ChatBroadcast : MessagePayloadTraits ChatBroadcast := MessagePayload.ChatBroadcast.
#[export] Instance traits_LeaveRoomRequest : MessagePayloadTraits LeaveRoomRequest := MessagePayload.LeaveRoomRequest.
#[export] Instance traits_LeaveRoomResponse : MessagePayloadTraits LeaveRoomResponse := MessagePayload.LeaveRoomResponse.
#[export] Instance traits_DisconnectRequest : MessagePayloadTraits DisconnectRequest := MessagePayload.DisconnectRequest.
#[export] Instance traits_DisconnectResponse : MessagePayloadTraits DisconnectResponse := MessagePayload.DisconnectResponse.
#[export] Instance traits_UserJoinedEvent : MessagePayloadTraits UserJoinedEvent := MessagePayload.UserJoinedEvent.
#[export] Instance traits_UserLeftEvent : MessagePayloadTraits UserLeftEvent := MessagePayload.UserLeftEvent.
#[export] Instance traits_SystemMessageEvent : MessagePayloadTraits SystemMessageEvent := MessagePayload.SystemMessageEvent.

(** [CreateString(const char* )]. *)
Definition create_c_string `{FlatBuffersLib} (s : string) (fbb : Builder) : Offset * Builder :=
  fbb_CreateString (c_str s) fbb.

(** ** Tables *)

Module UserInfo.
Definition VT_USER_ID : voffset := 4.
Definition VT_DISPLAY_NAME : voffset := 6.

Section Table.
Context `{FlatBuffersLib}.

Definition user_id (buf : bytes) (self : Pointer) : option Z :=
  GetField 4 buf self VT_USER_ID 0.
Definition display_name (buf : bytes) (self : Pointer) : option (option Pointer) :=
  GetPointer buf self VT_DISPLAY_NAME.
Definition Verify (buf : bytes) (self : Pointer) : Verification :=
  verify_and
    [VerifyTableStart buf self;
     VerifyField 4 buf self VT_USER_ID 4;
     VerifyOffset buf self VT_DISPLAY_NAME;
     verify_read (display_name buf self) (VerifyString buf);
     Verifier_EndTable].

Definition add_user_id (user_id : Z) (fbb_ : Builder) : Builder :=
  AddElement 4 VT_USER_ID user_id 0 fbb_.
Definition add_display_name (display_name : Offset) (fbb_ : Builder) : Builder :=
  AddOffset VT_DISPLAY_NAME display_name fbb_.
Definition Finish (start_ : Z) (fbb_ : Builder) : Offset * Builder := EndTable start_ fbb_.

Definition CreateUserInfo (user_id : Z) (display_name : Offset) (_fbb : Builder) : Offset * Builder :=
  let '(start_, _fbb) := StartTable _fbb in
  _fbb |> add_display_name display_name
       |> add_user_id user_id
       |> Finish start_.

Definition CreateUserInfoDirect (user_id : Z) (display_name : option string) (_fbb : Builder) : Offset * Builder :=
  let '(display_name__, _fbb) := from_option create_c_string (pair 0) display_name _fbb in
  CreateUserInfo user_id display_name__ _fbb.
End Table.
End UserInfo.

Module RoomInfo.
Definition VT_ROOM_ID : voffset := 4.
Definition VT_ROOM_NAME : voffset := 6.
Definition VT_USER_COUNT : voffset := 8.

Section Table.
Context `{FlatBuffersLib}.

Definition room_id (buf : bytes) (self : Pointer) : option Z :=
  GetField 4 buf self VT_ROOM_ID 0.
Definition room_name (buf : bytes) (self : Pointer) : option (option Pointer) :=
  GetPointer buf self VT_ROOM_NAME.
Definition user_count (buf : bytes) (self : Pointer) : option Z :=
  GetField 4 buf self VT_USER_COUNT 0.
Definition Verify (buf : bytes) (self : Pointer) : Verification :=
  verify_and
    [VerifyTableStart buf self;
     VerifyField 4 buf self VT_ROOM_ID 4;
     VerifyOffset buf self VT_ROOM_NAME;
     verify_read (room_name buf self) (VerifyString buf);
     VerifyField 4 buf self VT_USER_COUNT 4;
     Verifier_EndTable].

Definition add_room_id (room_id : Z) (fbb_ : Builder) : Builder :=
  AddElement 4 VT_ROOM_ID room_id 0 fbb_.
Definition add_room_name (room_name : Offset) (fbb_ : Builder) : Builder :=
  AddOffset VT_ROOM_NAME room_name fbb_.
Definition add_user_count (user_count : Z) (fbb_ : Builder) : Builder :=
  AddElement 4 VT_USER_COUNT user_count 0 fbb_.
Definition Finish (start_ : Z) (fbb_ : Builder) : Offset * Builder := EndTable start_ fbb_.

Definition CreateRoomInfo (room_id : Z) (room_name : Offset) (user_count : Z) (_fbb : Builder) : Offset * Builder :=
  let '(start_, _fbb) := StartTable _fbb in
  _fbb |> add_user_count user_count
       |> add_room_name room_name
       |> add_room_id room_id
       |> Finish start_.

Definition CreateRoomInfoDirect (room_id : Z) (room_name : option string) (user_count : Z) (_fbb : Builder) : Offset * Builder :=
  let '(room_name__, _fbb) := from_option create_c_string (pair 0) room_name _fbb in
  CreateRoomInfo room_id room_name__ user_count _fbb.
End Table.
End RoomInfo.

Module LoginRequest.
Definition VT_DISPLAY_NAME : voffset := 4.

Section Table.
Context `{FlatBuffersLib}.

Definition display_name (buf : bytes) (self : Pointer) : option (option Pointer) :=
  GetPointer buf self VT_DISPLAY_NAME.
Definition Verify (buf : bytes) (self : Pointer) : Verification :=
  verify_and
    [VerifyTableStart buf self;
     VerifyOffset buf self VT_DISPLAY_NAME;
     verify_read (display_name buf self) (VerifyString buf);
     Verifier_EndTable].

Definition add_display_name (display_name : Offset) (fbb_ : Builder) : Builder :=
  AddOffset VT_DISPLAY_NAME display_name fbb_.
Definition Finish (start_ : Z) (fbb_ : Builder) : Offset * Builder := EndTable start_ fbb_.

Definition CreateLoginRequest (display_name : Offset) (_fbb : Builder) : Offset * Builder :=
  let '(start_, _fbb) := StartTable _fbb in
  _fbb |> add_display_name display_name
       |> Finish start_.

Definition CreateLoginRequestDirect (display_name : option string) (_fbb : Builder) : Offset * Builder :=
  let '(display_name__, _fbb) := from_option create_c_string (pair 0) display_name _fbb in
  CreateLoginRequest display_name__ _fbb.
End Table.
End LoginRequest.

Module LoginResponse.
Definition VT_SUCCESS : voffset := 4.
Definition VT_ERROR_CODE : voffset := 6.
Definition VT_USER : voffset := 8.

Section Table.
Context `{FlatBuffersLib}.

Definition success (buf : bytes) (self : Pointer) : option bool :=
  value ← GetField 1 buf self VT_SUCCESS 0; Some (negb (value =? 0)).
Definition error_code (buf : bytes) (self : Pointer) : option Z :=
  GetField 2 buf self VT_ERROR_CODE 0.
Definition user (buf : bytes) (self : Pointer) : option (option Pointer) :=
  GetPointer buf self VT_USER.
Definition Verify (buf : bytes) (self : Pointer) : Verification :=
  verify_and
    [VerifyTableStart buf self;
     VerifyField 1 buf self VT_SUCCESS 1;
     VerifyField 2 buf self VT_ERROR_CODE 2;
     VerifyOffset buf self VT_USER;
     verify_read (user buf self) (VerifyTable (UserInfo.Verify buf));
     Verifier_EndTable].

Definition add_success (success : bool) (fbb_ : Builder) : Builder :=
  AddElement 1 VT_SUCCESS (if success then 1 else 0) 0 fbb_.
Definition add_error_code (error_code : Z) (fbb_ : Builder) : Builder :=
  AddElement 2 VT_ERROR_CODE error_code 0 fbb_.
Definition add_user (user : Offset) (fbb_ : Builder) : Builder :=
  AddOffset VT_USER user fbb_.
Definition Finish (start_ : Z) (fbb_ : Builder) : Offset * Builder := EndTable start_ fbb_.

Definition CreateLoginResponse (success : bool) (error_code : Z) (user : Offset) (_fbb : Builder) : Offset * Builder :=
  let '(start_, _fbb) := StartTable _fbb in
  _fbb |> add_user user
       |> add_error_code error_code
       |> add_success success
       |> Finish start_.
End Table.
End LoginResponse.

Module RoomListRequest.
Section Table.
Context `{FlatBuffersLib}.

Definition Verify (buf : bytes) (self : Pointer) : Verification :=
  verify_and
    [VerifyTableStart buf self;
     Verifier_EndTable].

Definition Finish (start_ : Z) (fbb_ : Builder) : Offset * Builder := EndTable start_ fbb_.

Definition CreateRoomListRequest (_fbb : Builder) : Offset * Builder :=
  let '(start_, _fbb) := StartTable _fbb in
  _fbb |> Finish start_.
End Table.
End RoomListRequest.

Module RoomListResponse.
Definition VT_ROOMS : voffset := 4.

Section Table.
Context `{FlatBuffersLib}.

Definition rooms (buf : bytes) (self : Pointer) : option (option Pointer) :=
  GetPointer buf self VT_ROOMS.
Definition Verify (buf : bytes) (self : Pointer) : Verification :=
  verify_and
    [VerifyTableStart buf self;
     VerifyOffset buf self VT_ROOMS;
     verify_read (rooms buf self) (VerifyVector buf);
     verify_read (rooms buf self) (VerifyVectorOfTables buf (RoomInfo.Verify buf));
     Verifier_EndTable].

Definition add_rooms (rooms : Offset) (fbb_ : Builder) : Builder :=
  AddOffset VT_ROOMS rooms fbb_.
Definition Finish (start_ : Z) (fbb_ : Builder) : Offset * Builder := EndTable start_ fbb_.

Definition CreateRoomListResponse (rooms : Offset) (_fbb : Builder) : Offset * Builder :=
  let '(start_, _fbb) := StartTable _fbb in
  _fbb |> add_rooms rooms
       |> Finish start_.

Definition CreateRoomListResponseDirect (rooms : option (list Offset)) (_fbb : Builder) : Offset * Builder :=
  let '(rooms__, _fbb) := from_option CreateVector (pair 0) rooms _fbb in
  CreateRoomListResponse rooms__ _fbb.
End Table.
End RoomListResponse.

Module JoinRoomRequest.
Definition VT_ROOM_ID : voffset := 4.

Section Table.
Context `{FlatBuffersLib}.

Definition room_id (buf : bytes) (self : Pointer) : option Z :=
  GetField 4 buf self VT_ROOM_ID 0.
Definition Verify (buf : bytes) (self : Pointer) : Verification :=
  verify_and
    [VerifyTableStart buf self;
     VerifyField 4 buf self VT_ROOM_ID 4;
     Verifier_EndTable].

Definition add_room_id (room_id : Z) (fbb_ : Builder) : Builder :=
  AddElement 4 VT_ROOM_ID room_id 0 fbb_.
Definition Finish (start_ : Z) (fbb_ : Builder) : Offset * Builder := EndTable start_ fbb_.

Definition CreateJoinRoomRequest (room_id : Z) (_fbb : Builder) : Offset * Builder :=
  let '(start_, _fbb) := StartTable _fbb in
  _fbb |> add_room_id room_id
       |> Finish start_.
End Table.
End JoinRoomRequest.

Module JoinRoomResponse.
Definition VT_SUCCESS : voffset := 4.
Definition VT_ERROR_CODE : voffset := 6.
Definition VT_ROOM : voffset := 8.

Section Table.
Context `{FlatBuffersLib}.

Definition success (buf : bytes) (self : Pointer) : option bool :=
  value ← GetField 1 buf self VT_SUCCESS 0; Some (negb (value =? 0)).
Definition error_code (buf : bytes) (self : Pointer) : option Z :=
  GetField 2 buf self VT_ERROR_CODE 0.
Definition room (buf : bytes) (self : Pointer) : option (option Pointer) :=
  GetPointer buf self VT_ROOM.
Definition Verify (buf : bytes) (self : Pointer) : Verification :=
  verify_and
    [VerifyTableStart buf self;
     VerifyField 1 buf self VT_SUCCESS 1;
     VerifyField 2 buf self VT_ERROR_CODE 2;
     VerifyOffset buf self VT_ROOM;
     verify_read (room buf self) (VerifyTable (RoomInfo.Verify buf));
     Verifier_EndTable].

Definition add_success (success : bool) (fbb_ : Builder) : Builder :=
  AddElement 1 VT_SUCCESS (if success then 1 else 0) 0 fbb_.
Definition add_error_code (error_code : Z) (fbb_ : Builder) : Builder :=
  AddElement 2 VT_ERROR_CODE error_code 0 fbb_.
Definition add_room (room : Offset) (fbb_ : Builder) : Builder :=
  AddOffset VT_ROOM room fbb_.
Definition Finish (start_ : Z) (fbb_ : Builder) : Offset * Builder := EndTable start_ fbb_.

Definition CreateJoinRoomResponse (success : bool) (error_code : Z) (room : Offset) (_fbb : Builder) : Offset * Builder :=
  let '(start_, _fbb) := StartTable _fbb in
  _fbb |> add_room room
       |> add_error_code error_code
       |> add_success success
       |> Finish start_.
End Table.
End JoinRoomResponse.

Module ChatSendRequest.
Definition VT_CONTENT : voffset := 4.

Section Table.
Context `{FlatBuffersLib}.

Definition content (buf : bytes) (self : Pointer) : option (option Pointer) :=
  GetPointer buf self VT_CONTENT.
Definition Verify (buf : bytes) (self : Pointer) : Verification :=
  verify_and
    [VerifyTableStart buf self;
     VerifyOffset buf self VT_CONTENT;
     verify_read (content buf self) (VerifyString buf);
     Verifier_EndTable].

Definition add_content (content : Offset) (fbb_ : Builder) : Builder :=
  AddOffset VT_CONTENT content fbb_.
Definition Finish (start_ : Z) (fbb_ : Builder) : Offset * Builder := EndTable start_ fbb_.

Definition CreateChatSendRequest (content : Offset) (_fbb : Builder) : Offset * Builder :=
  let '(start_, _fbb) := StartTable _fbb in
  _fbb |> add_content content
       |> Finish start_.

Definition CreateChatSendRequestDirect (content : option string) (_fbb : Builder) : Offset * Builder :=
  let '(content__, _fbb) := from_option create_c_string (pair 0) content _fbb in
  CreateChatSendRequest content__ _fbb.
End Table.
End ChatSendRequest.

Module ChatBroadcast.
Definition VT_ROOM_ID : voffset := 4.
Definition VT_SENDER_ID : voffset := 6.
Definition VT_SENDER_NAME : voffset := 8.
Definition VT_CONTENT : voffset := 10.
Definition VT_TIMESTAMP : voffset := 12.

Section Table.
Context `{FlatBuffersLib}.

Definition room_id (buf : bytes) (self : Pointer) : option Z :=
  GetField 4 buf self VT_ROOM_ID 0.
Definition sender_id (buf : bytes) (self : Pointer) : option Z :=
  GetField 4 buf self VT_SENDER_ID 0.
Definition sender_name (buf : bytes) (self : Pointer) : option (option Pointer) :=
  GetPointer buf self VT_SENDER_NAME.
Definition content (buf : bytes) (self : Pointer) : option (option Pointer) :=
  GetPointer buf self VT_CONTENT.
Definition timestamp (buf : bytes) (self : Pointer) : option Z :=
  GetField 8 buf self VT_TIMESTAMP 0.
Definition Verify (buf : bytes) (self : Pointer) : Verification :=
  verify_and
    [VerifyTableStart buf self;
     VerifyField 4 buf self VT_ROOM_ID 4;
     VerifyField 4 buf self VT_SENDER_ID 4;
     VerifyOffset buf self VT_SENDER_NAME;
     verify_read (sender_name buf self) (VerifyString buf);
     VerifyOffset buf self VT_CONTENT;
     verify_read (content buf self) (VerifyString buf);
     VerifyField 8 buf self VT_TIMESTAMP 8;
     Verifier_EndTable].

Definition add_room_id (room_id : Z) (fbb_ : Builder) : Builder :=
  AddElement 4 VT_ROOM_ID room_id 0 fbb_.
Definition add_sender_id (sender_id : Z) (fbb_ : Builder) : Builder :=
  AddElement 4 VT_SENDER_ID sender_id 0 fbb_.
Definition add_sender_name (sender_name : Offset) (fbb_ : Builder) : Builder :=
  AddOffset VT_SENDER_NAME sender_name fbb_.
Definition add_content (content : Offset) (fbb_ : Builder) : Builder :=
  AddOffset VT_CONTENT content fbb_.
Definition add_timestamp (timestamp : Z) (fbb_ : Builder) : Builder :=
  AddElement 8 VT_TIMESTAMP timestamp 0 fbb_.
Definition Finish (start_ : Z) (fbb_ : Builder) : Offset * Builder := EndTable start_ fbb_.

Definition CreateChatBroadcast (room_id : Z) (sender_id : Z) (sender_name : Offset) (content : Offset) (timestamp : Z) (_fbb : Builder) : Offset * Builder :=
  let '(start_, _fbb) := StartTable _fbb in
  _fbb |> add_timestamp timestamp
       |> add_content content
       |> add_sender_name sender_name
       |> add_sender_id sender_id
       |> add_room_id room_id
       |> Finish start_.

Definition CreateChatBroadcastDirect (room_id : Z) (sender_id : Z) (sender_name : option string) (content : option string) (timestamp : Z) (_fbb : Builder) : Offset * Builder :=
  let '(sender_name__, _fbb) := from_option create_c_string (pair 0) sender_name _fbb in
  let '(content__, _fbb) := from_option create_c_string (pair 0) content _fbb in
  CreateChatBroadcast room_id sender_id sender_name__ content__ timestamp _fbb.
End Table.
End ChatBroadcast.

Module LeaveRoomRequest.
Section Table.
Context `{FlatBuffersLib}.

Definition Verify (buf : bytes) (self : Pointer) : Verification :=
  verify_and
    [VerifyTableStart buf self;
     Verifier_EndTable].

Definition Finish (start_ : Z) (fbb_ : Builder) : Offset * Builder := EndTable start_ fbb_.

Definition CreateLeaveRoomRequest (_fbb : Builder) : Offset * Builder :=
  let '(start_, _fbb) := StartTable _fbb in
  _fbb |> Finish start_.
End Table.
End LeaveRoomRequest.

Module LeaveRoomResponse.
Definition VT_SUCCESS : voffset := 4.
Definition VT_ERROR_CODE : voffset := 6.

Section Table.
Context `{FlatBuffersLib}.

Definition success (buf : bytes) (self : Pointer) : option bool :=
  value ← GetField 1 buf self VT_SUCCESS 0; Some (negb (value =? 0)).
Definition error_code (buf : bytes) (self : Pointer) : option Z :=
  GetField 2 buf self VT_ERROR_CODE 0.
Definition Verify (buf : bytes) (self : Pointer) : Verification :=
  verify_and
    [VerifyTableStart buf self;
     VerifyField 1 buf self VT_SUCCESS 1;
     VerifyField 2 buf self VT_ERROR_CODE 2;
     Verifier_EndTable].

Definition add_success (success : bool) (fbb_ : Builder) : Builder :=
  AddElement 1 VT_SUCCESS (if success then 1 else 0) 0 fbb_.
Definition add_error_code (error_code : Z) (fbb_ : Builder) : Builder :=
  AddElement 2 VT_ERROR_CODE error_code 0 fbb_.
Definition Finish (start_ : Z) (fbb_ : Builder) : Offset * Builder := EndTable start_ fbb_.

Definition CreateLeaveRoomResponse (success : bool) (error_code : Z) (_fbb : Builder) : Offset * Builder :=
  let '(start_, _fbb) := StartTable _fbb in
  _fbb |> add_error_code error_code
       |> add_success success
       |> Finish start_.
End Table.
End LeaveRoomResponse.

Module DisconnectRequest.
Section Table.
Context `{FlatBuffersLib}.

Definition Verify (buf : bytes) (self : Pointer) : Verification :=
  verify_and
    [VerifyTableStart buf self;
     Verifier_EndTable].

Definition Finish (start_ : Z) (fbb_ : Builder) : Offset * Builder := EndTable start_ fbb_.

Definition CreateDisconnectRequest (_fbb : Builder) : Offset * Builder :=
  let '(start_, _fbb) := StartTable _fbb in
  _fbb |> Finish start_.
End Table.
End DisconnectRequest.

Module DisconnectResponse.
Definition VT_SUCCESS : voffset := 4.
Definition VT_ERROR_CODE : voffset := 6.

Section Table.
Context `{FlatBuffersLib}.

Definition success (buf : bytes) (self : Pointer) : option bool :=
  value ← GetField 1 buf self VT_SUCCESS 0; Some (negb (value =? 0)).
Definition error_code (buf : bytes) (self : Pointer) : option Z :=
  GetField 2 buf self VT_ERROR_CODE 0.
Definition Verify (buf : bytes) (self : Pointer) : Verification :=
  verify_and
    [VerifyTableStart buf self;
     VerifyField 1 buf self VT_SUCCESS 1;
     VerifyField 2 buf self VT_ERROR_CODE 2;
     Verifier_EndTable].

Definition add_success (success : bool) (fbb_ : Builder) : Builder :=
  AddElement 1 VT_SUCCESS (if success then 1 else 0) 0 fbb_.
Definition add_error_code (error_code : Z) (fbb_ : Builder) : Builder :=
  AddElement 2 VT_ERROR_CODE error_code 0 fbb_.
Definition Finish (start_ : Z) (fbb_ : Builder) : Offset * Builder := EndTable start_ fbb_.

Definition CreateDisconnectResponse (success : bool) (error_code : Z) (_fbb : Builder) : Offset * Builder :=
  let '(start_, _fbb) := StartTable _fbb in
  _fbb |> add_error_code error_code
       |> add_success success
       |> Finish start_.
End Table.
End DisconnectResponse.

Module UserJoinedEvent.
Definition VT_ROOM_ID : voffset := 4.
Definition VT_USER : voffset := 6.

Section Table.
Context `{FlatBuffersLib}.

Definition room_id (buf : bytes) (self : Pointer) : option Z :=
  GetField 4 buf self VT_ROOM_ID 0.
Definition user (buf : bytes) (self : Pointer) : option (option Pointer) :=
  GetPointer buf self VT_USER.
Definition Verify (buf : bytes) (self : Pointer) : Verification :=
  verify_and
    [VerifyTableStart buf self;
     VerifyField 4 buf self VT_ROOM_ID 4;
     VerifyOffset buf self VT_USER;
     verify_read (user buf self) (VerifyTable (UserInfo.Verify buf));
     Verifier_EndTable].

Definition add_room_id (room_id : Z) (fbb_ : Builder) : Builder :=
  AddElement 4 VT_ROOM_ID room_id 0 fbb_.
Definition add_user (user : Offset) (fbb_ : Builder) : Builder :=
  AddOffset VT_USER user fbb_.
Definition Finish (start_ : Z) (fbb_ : Builder) : Offset * Builder := EndTable start_ fbb_.

Definition CreateUserJoinedEvent (room_id : Z) (user : Offset) (_fbb : Builder) : Offset * Builder :=
  let '(start_, _fbb) := StartTable _fbb in
  _fbb |> add_user user
       |> add_room_id room_id
       |> Finish start_.
End Table.
End UserJoinedEvent.

Module UserLeftEvent.
Definition VT_ROOM_ID : voffset := 4.
Definition VT_USER : voffset := 6.

Section Table.
Context `{FlatBuffersLib}.

Definition room_id (buf : bytes) (self : Pointer) : option Z :=
  GetField 4 buf self VT_ROOM_ID 0.
Definition user (buf : bytes) (self : Pointer) : option (option Pointer) :=
  GetPointer buf self VT_USER.
Definition Verify (buf : bytes) (self : Pointer) : Verification :=
  verify_and
    [VerifyTableStart buf self;
     VerifyField 4 buf self VT_ROOM_ID 4;
     VerifyOffset buf self VT_USER;
     verify_read (user buf self) (VerifyTable (UserInfo.Verify buf));
     Verifier_EndTable].

Definition add_room_id (room_id : Z) (fbb_ : Builder) : Builder :=
  AddElement 4 VT_ROOM_ID room_id 0 fbb_.
Definition add_user (user : Offset) (fbb_ : Builder) : Builder :=
  AddOffset VT_USER user fbb_.
Definition Finish (start_ : Z) (fbb_ : Builder) : Offset * Builder := EndTable start_ fbb_.

Definition CreateUserLeftEvent (room_id : Z) (user : Offset) (_fbb : Builder) : Offset * Builder :=
  let '(start_, _fbb) := StartTable _fbb in
  _fbb |> add_user user
       |> add_room_id room_id
       |> Finish start_.
End Table.
End UserLeftEvent.

Module SystemMessageEvent.
Definition VT_ROOM_ID : voffset := 4.
Definition VT_CONTENT : voffset := 6.

Section Table.
Context `{FlatBuffersLib}.

Definition room_id (buf : bytes) (self : Pointer) : option Z :=
  GetField 4 buf self VT_ROOM_ID 0.
Definition content (buf : bytes) (self : Pointer) : option (option Pointer) :=
  GetPointer buf self VT_CONTENT.
Definition Verify (buf : bytes) (self : Pointer) : Verification :=
  verify_and
    [VerifyTableStart buf self;
     VerifyField 4 buf self VT_ROOM_ID 4;
     VerifyOffset buf self VT_CONTENT;
     verify_read (content buf self) (VerifyString buf);
     Verifier_EndTable].

Definition add_room_id (room_id : Z) (fbb_ : Builder) : Builder :=
  AddElement 4 VT_ROOM_ID room_id 0 fbb_.
Definition add_content (content : Offset) (fbb_ : Builder) : Builder :=
  AddOffset VT_CONTENT content fbb_.
Definition Finish (start_ : Z) (fbb_ : Builder) : Offset * Builder := EndTable start_ fbb_.

Definition CreateSystemMessageEvent (room_id : Z) (content : Offset) (_fbb : Builder) : Offset * Builder :=
  let '(start_, _fbb) := StartTable _fbb in
  _fbb |> add_content content
       |> add_room_id room_id
       |> Finish start_.

Definition CreateSystemMessageEventDirect (room_id : Z) (content : option string) (_fbb : Builder) : Offset * Builder :=
  let '(content__, _fbb) := from_option create_c_string (pair 0) content _fbb in
  CreateSystemMessageEvent room_id content__ _fbb.
End Table.
End SystemMessageEvent.

(** ** The union *)

Definition VerifyMessagePayload `{FlatBuffersLib} (buf : bytes) (obj : option Pointer) (type : Z)
    : Verification :=
  if type =? MessagePayload.NONE then λ v, Some (true, v)
  else if type =? MessagePayload.LoginRequest then VerifyTable (LoginRequest.Verify buf) obj
  else if type =? MessagePayload.LoginResponse then VerifyTable (LoginResponse.Verify buf) obj
  else if type =? MessagePayload.RoomListRequest then VerifyTable (RoomListRequest.Verify buf) obj
  else if type =? MessagePayload.RoomListResponse then VerifyTable (RoomListResponse.Verify buf) obj
  else if type =? MessagePayload.JoinRoomRequest then VerifyTable (JoinRoomRequest.Verify buf) obj
  else if type =? MessagePayload.JoinRoomResponse then VerifyTable (JoinRoomResponse.Verify buf) obj
  else if type =? MessagePayload.ChatSendRequest then VerifyTable (ChatSendRequest.Verify buf) obj
  else if type =? MessagePayload.ChatBroadcast then VerifyTable (ChatBroadcast.Verify buf) obj
  else if type =? MessagePayload.LeaveRoomRequest then VerifyTable (LeaveRoomRequest.Verify buf) obj
  else if type =? MessagePayload.LeaveRoomResponse then VerifyTable (LeaveRoomResponse.Verify buf) obj
  else if type =? MessagePayload.DisconnectRequest then VerifyTable (DisconnectRequest.Verify buf) obj
  else if type =? MessagePayload.DisconnectResponse then VerifyTable (DisconnectResponse.Verify buf) obj
  else if type =? MessagePayload.UserJoinedEvent then VerifyTable (UserJoinedEvent.Verify buf) obj
  else if type =? MessagePayload.UserLeftEvent then VerifyTable (UserLeftEvent.Verify buf) obj
  else if type =? MessagePayload.SystemMessageEvent then VerifyTable (SystemMessageEvent.Verify buf) obj
  else λ v, Some (true, v).

(** [values] and [types] are the elements of the two vectors, if they are there. *)
Fixpoint verify_payloads `{FlatBuffersLib} (buf : bytes) (values : list (option Pointer))
    (types : list Z) : Verification := λ v,
  match values, types with
  | value :: values, type :: types =>
      '(ok, v) ← VerifyMessagePayload buf value type v;
      if ok : bool then verify_payloads buf values types v else Some (false, v)
  | _, _ => Some (true, v)
  end.

Definition VerifyMessagePayloadVector `{FlatBuffersLib} (buf : bytes)
    (values : option (list (option Pointer))) (types : option (list Z)) : Verification := λ v,
  match values, types with
  | Some values, Some types =>
      if negb (zlen values =? zlen types) then Some (false, v)
      else verify_payloads buf values types v
  | None, None => Some (true, v)
  | _, _ => Some (false, v)
  end.

Module Message.
Definition VT_REQUEST_ID : voffset := 4.
Definition VT_PAYLOAD_TYPE : voffset := 6.
Definition VT_PAYLOAD : voffset := 8.

Section Table.
Context `{FlatBuffersLib}.

Definition request_id (buf : bytes) (self : Pointer) : option Z :=
  GetField 4 buf self VT_REQUEST_ID 0.
Definition payload_type (buf : bytes) (self : Pointer) : option Z :=
  GetField 1 buf self VT_PAYLOAD_TYPE 0.
Definition payload (buf : bytes) (self : Pointer) : option (option Pointer) :=
  GetPointer buf self VT_PAYLOAD.
(** The typed accessors compare the tag and cast the pointer. *)
Definition payload_as (tag : Z) (buf : bytes) (self : Pointer) : option (option Pointer) :=
  type ← payload_type buf self;
  if type =? tag then payload buf self else Some None.
Definition payload_as_LoginRequest (buf : bytes) (self : Pointer) : option (option Pointer) :=
  payload_as MessagePayload.LoginRequest buf self.
Definition payload_as_LoginResponse (buf : bytes) (self : Pointer) : option (option Pointer) :=
  payload_as MessagePayload.LoginResponse buf self.
Definition payload_as_RoomListRequest (buf : bytes) (self : Pointer) : option (option Pointer) :=
  payload_as MessagePayload.RoomListRequest buf self.
Definition payload_as_RoomListResponse (buf : bytes) (self : Pointer) : option (option Pointer) :=
  payload_as MessagePayload.RoomListResponse buf self.
Definition payload_as_JoinRoomRequest (buf : bytes) (self : Pointer) : option (option Pointer) :=
  payload_as MessagePayload.JoinRoomRequest buf self.
Definition payload_as_JoinRoomResponse (buf : bytes) (self : Pointer) : option (option Pointer) :=
  payload_as MessagePayload.JoinRoomResponse buf self.
Definition payload_as_ChatSendRequest (buf : bytes) (self : Pointer) : option (option Pointer) :=
  payload_as MessagePayload.ChatSendRequest buf self.
Definition payload_as_ChatBroadcast (buf : bytes) (self : Pointer) : option (option Pointer) :=
  payload_as MessagePayload.ChatBroadcast buf self.
Definition payload_as_LeaveRoomRequest (buf : bytes) (self : Pointer) : option (option Pointer) :=
  payload_as MessagePayload.LeaveRoomRequest buf self.
Definition payload_as_LeaveRoomResponse (buf : bytes) (self : Pointer) : option (option Pointer) :=
  payload_as MessagePayload.LeaveRoomResponse buf self.
Definition payload_as_DisconnectRequest (buf : bytes) (self : Pointer) : option (option Pointer) :=
  payload_as MessagePayload.DisconnectRequest buf self.
Definition payload_as_DisconnectResponse (buf : bytes) (self : Pointer) : option (option Pointer) :=
  payload_as MessagePayload.DisconnectResponse buf self.
Definition payload_as_UserJoinedEvent (buf : bytes) (self : Pointer) : option (option Pointer) :=
  payload_as MessagePayload.UserJoinedEvent buf self.
Definition payload_as_UserLeftEvent (buf : bytes) (self : Pointer) : option (option Pointer) :=
  payload_as MessagePayload.UserLeftEvent buf self.
Definition payload_as_SystemMessageEvent (buf : bytes) (self : Pointer) : option (option Pointer) :=
  payload_as MessagePayload.SystemMessageEvent buf self.

Definition Verify (buf : bytes) (self : Pointer) : Verification :=
  verify_and
    [VerifyTableStart buf self;
     VerifyField 4 buf self VT_REQUEST_ID 4;
     VerifyField 1 buf self VT_PAYLOAD_TYPE 1;
     VerifyOffset buf self VT_PAYLOAD;
     verify_read (payload buf self) (λ obj,
       verify_read (payload_type buf self) (VerifyMessagePayload buf obj));
     Verifier_EndTable].

Definition add_request_id (request_id : Z) (fbb_ : Builder) : Builder :=
  AddElement 4 VT_REQUEST_ID request_id 0 fbb_.
Definition add_payload_type (payload_type : Z) (fbb_ : Builder) : Builder :=
  AddElement 1 VT_PAYLOAD_TYPE payload_type 0 fbb_.
Definition add_payload (payload : Offset) (fbb_ : Builder) : Builder :=
  AddOffset VT_PAYLOAD payload fbb_.
Definition Finish (start_ : Z) (fbb_ : Builder) : Offset * Builder := EndTable start_ fbb_.

Definition CreateMessage (request_id : Z) (payload_type : Z) (payload : Offset) (_fbb : Builder) : Offset * Builder :=
  let '(start_, _fbb) := StartTable _fbb in
  _fbb |> add_payload payload
       |> add_request_id request_id
       |> add_payload_type payload_type
       |> Finish start_.
End Table.
End Message.

(** ** The root *)

Section Root.
Context `{FlatBuffersLib}.

Definition GetMessage (buf : bytes) : option Pointer := GetRoot buf.

Definition VerifyMessageBuffer (buf : bytes) : Verification := VerifyBuffer buf (Message.Verify buf).

Definition FinishMessageBuffer (root : Offset) (fbb : Builder) : Builder := fbb_Finish root fbb.

(** The size-prefixed forms, which the program does not call. *)
Definition GetSizePrefixedMessage (buf : bytes) : option Pointer := GetSizePrefixedRoot buf.

Definition VerifySizePrefixedMessageBuffer (buf : bytes) : Verification :=
  VerifySizePrefixedBuffer buf (Message.Verify buf).

Definition FinishSizePrefixedMessageBuffer (root : Offset) (fbb : Builder) : Builder :=
  fbb_FinishSizePrefixed root fbb.
End Root.
