(* ===== verification/MessagesSafety.v ===== *)
(** * Reading a verified buffer

    What the program reads from a received buffer, as one function: [read_message]
    follows every accessor of [MessagesGenerated] and yields the value in [Schema],
    or [None] when an access leaves the buffer.  Whatever bytes arrive, the
    verifier itself stays inside the buffer, and so do all accessors once it has
    accepted ([verified_reads_safe]). *)

From S2P Require Import Prelude Schema FlatBuffersLib MessagesGenerated.

(** ** Readers *)

Section Readers.
Context `{FlatBuffersLib}.

(** A pointer that may be null. *)
Definition read_opt {A} (read : Pointer → option A) (p : option Pointer) : option (option A) :=
  match p with
  | None => Some None
  | Some p => Some <$> read p
  end.

Definition read_tables {A} (read : bytes → Pointer → option A) (buf : bytes) (p : Pointer)
    : option (list A) :=
  ps ← Vector_elements buf p;
  mapM (read buf) ps.

Definition read_UserInfo (buf : bytes) (self : Pointer) : option UserInfo :=
  user_id ← UserInfo.user_id buf self;
  display_name ← UserInfo.display_name buf self;
  display_name ← read_opt (String_str buf) display_name;
  Some (mkUserInfo user_id display_name).

Definition read_RoomInfo (buf : bytes) (self : Pointer) : option RoomInfo :=
  room_id ← RoomInfo.room_id buf self;
  room_name ← RoomInfo.room_name buf self;
  room_name ← read_opt (String_str buf) room_name;
  user_count ← RoomInfo.user_count buf self;
  Some (mkRoomInfo room_id room_name user_count).

Definition read_LoginRequest (buf : bytes) (self : Pointer) : option LoginRequest :=
  display_name ← LoginRequest.display_name buf self;
  display_name ← read_opt (String_str buf) display_name;
  Some (mkLoginRequest display_name).

Definition read_LoginResponse (buf : bytes) (self : Pointer) : option LoginResponse :=
  success ← LoginResponse.success buf self;
  error_code ← LoginResponse.error_code buf self;
  user ← LoginResponse.user buf self;
  user ← read_opt (read_UserInfo buf) user;
  Some (mkLoginResponse success error_code user).

Definition read_RoomListRequest (buf : bytes) (self : Pointer) : option RoomListRequest :=
  Some mkRoomListRequest.

Definition read_RoomListResponse (buf : bytes) (self : Pointer) : option RoomListResponse :=
  rooms ← RoomListResponse.rooms buf self;
  rooms ← read_opt (read_tables read_RoomInfo buf) rooms;
  Some (mkRoomListResponse rooms).

Definition read_JoinRoomRequest (buf : bytes) (self : Pointer) : option JoinRoomRequest :=
  room_id ← JoinRoomRequest.room_id buf self;
  Some (mkJoinRoomRequest room_id).

Definition read_JoinRoomResponse (buf : bytes) (self : Pointer) : option JoinRoomResponse :=
  success ← JoinRoomResponse.success buf self;
  error_code ← JoinRoomResponse.error_code buf self;
  room ← JoinRoomResponse.room buf self;
  room ← read_opt (read_RoomInfo buf) room;
  Some (mkJoinRoomResponse success error_code room).

Definition read_ChatSendRequest (buf : bytes) (self : Pointer) : option ChatSendRequest :=
  content ← ChatSendRequest.content buf self;
  content ← read_opt (String_str buf) content;
  Some (mkChatSendRequest content).

Definition read_ChatBroadcast (buf : bytes) (self : Pointer) : option ChatBroadcast :=
  room_id ← ChatBroadcast.room_id buf self;
  sender_id ← ChatBroadcast.sender_id buf self;
  sender_name ← ChatBroadcast.sender_name buf self;
  sender_name ← read_opt (String_str buf) sender_name;
  content ← ChatBroadcast.content buf self;
  content ← read_opt (String_str buf) content;
  timestamp ← ChatBroadcast.timestamp buf self;
  Some (mkChatBroadcast room_id sender_id sender_name content timestamp).

Definition read_LeaveRoomRequest (buf : bytes) (self : Pointer) : option LeaveRoomRequest :=
  Some mkLeaveRoomRequest.

Definition read_LeaveRoomResponse (buf : bytes) (self : Pointer) : option LeaveRoomResponse :=
  success ← LeaveRoomResponse.success buf self;
  error_code ← LeaveRoomResponse.error_code buf self;
  Some (mkLeaveRoomResponse success error_code).

Definition read_DisconnectRequest (buf : bytes) (self : Pointer) : option DisconnectRequest :=
  Some mkDisconnectRequest.

Definition read_DisconnectResponse (buf : bytes) (self : Pointer) : option DisconnectResponse :=
  success ← DisconnectResponse.success buf self;
  error_code ← DisconnectResponse.error_code buf self;
  Some (mkDisconnectResponse success error_code).

Definition read_UserJoinedEvent (buf : bytes) (self : Pointer) : option UserJoinedEvent :=
  room_id ← UserJoinedEvent.room_id buf self;
  user ← UserJoinedEvent.user buf self;
  user ← read_opt (read_UserInfo buf) user;
  Some (mkUserJoinedEvent room_id user).

Definition read_UserLeftEvent (buf : bytes) (self : Pointer) : option UserLeftEvent :=
  room_id ← UserLeftEvent.room_id buf self;
  user ← UserLeftEvent.user buf self;
  user ← read_opt (read_UserInfo buf) user;
  Some (mkUserLeftEvent room_id user).

Definition read_SystemMessageEvent (buf : bytes) (self : Pointer) : option SystemMessageEvent :=
  room_id ← SystemMessageEvent.room_id buf self;
  content ← SystemMessageEvent.content buf self;
  content ← read_opt (String_str buf) content;
  Some (mkSystemMessageEvent room_id content).

(** The union: a tag and the pointer to its table. *)
Definition read_payload (buf : bytes) (obj : option Pointer) (type : Z) : option Payload :=
  if type =? MessagePayload.NONE then Some PNone
  else if type =? MessagePayload.LoginRequest then PLoginRequest <$> read_opt (read_LoginRequest buf) obj
  else if type =? MessagePayload.LoginResponse then PLoginResponse <$> read_opt (read_LoginResponse buf) obj
  else if type =? MessagePayload.RoomListRequest then PRoomListRequest <$> read_opt (read_RoomListRequest buf) obj
  else if type =? MessagePayload.RoomListResponse then PRoomListResponse <$> read_opt (read_RoomListResponse buf) obj
  else if type =? MessagePayload.JoinRoomRequest then PJoinRoomRequest <$> read_opt (read_JoinRoomRequest buf) obj
  else if type =? MessagePayload.JoinRoomResponse then PJoinRoomResponse <$> read_opt (read_JoinRoomResponse buf) obj
  else if type =? MessagePayload.ChatSendRequest then PChatSendRequest <$> read_opt (read_ChatSendRequest buf) obj
  else if type =? MessagePayload.ChatBroadcast then PChatBroadcast <$> read_opt (read_ChatBroadcast buf) obj
  else if type =? MessagePayload.LeaveRoomRequest then PLeaveRoomRequest <$> read_opt (read_LeaveRoomRequest buf) obj
  else if type =? MessagePayload.LeaveRoomResponse then PLeaveRoomResponse <$> read_opt (read_LeaveRoomResponse buf) obj
  else if type =? MessagePayload.DisconnectRequest then PDisconnectRequest <$> read_opt (read_DisconnectRequest buf) obj
  else if type =? MessagePayload.DisconnectResponse then PDisconnectResponse <$> read_opt (read_DisconnectResponse buf) obj
  else if type =? MessagePayload.UserJoinedEvent then PUserJoinedEvent <$> read_opt (read_UserJoinedEvent buf) obj
  else if type =? MessagePayload.UserLeftEvent then PUserLeftEvent <$> read_opt (read_UserLeftEvent buf) obj
  else if type =? MessagePayload.SystemMessageEvent then PSystemMessageEvent <$> read_opt (read_SystemMessageEvent buf) obj
  else Some (POther type).

Definition read_message (buf : bytes) (self : Pointer) : option Message :=
  request_id ← Message.request_id buf self;
  type ← Message.payload_type buf self;
  obj ← Message.payload buf self;
  payload ← read_payload buf obj type;
  Some (mkMessage request_id payload).
End Readers.

(** ** Accepted steps *)

Section Steps.
Context `{FlatBuffersLib}.

Lemma verify_nil_total : no_overrun (verify_and []).
Proof. intros v. by eexists. Qed.

Lemma verify_cons_total m ms :
  no_overrun m → (accepted_by m → no_overrun (verify_and ms)) → no_overrun (verify_and (m :: ms)).
Proof.
  intros Hm Hms v. simpl. destruct (Hm v) as [[[] v'] Heq]; rewrite Heq; simpl; [|by eexists].
  apply Hms. by exists v, v'.
Qed.

Lemma verify_cons_accepted m ms :
  accepted_by (verify_and (m :: ms)) → accepted_by m ∧ accepted_by (verify_and ms).
Proof.
  intros (v & v' & Heq). simpl in Heq. destruct (m v) as [[[] v1]|] eqn:Hm; [|done..].
  split; [by exists v, v1|by exists v1, v'].
Qed.

Lemma verify_read_total {A} (o : option A) (m : A → Verification) :
  is_Some o → (∀ a, o = Some a → no_overrun (m a)) → no_overrun (verify_read o m).
Proof. intros [a ->] Hm v. by apply Hm. Qed.

Lemma verify_read_accepted {A} (o : option A) (m : A → Verification) :
  accepted_by (verify_read o m) → ∃ a, o = Some a ∧ accepted_by (m a).
Proof. intros (v & v' & Heq). unfold verify_read in Heq. destruct o as [a|]; [|done]. by exists a; split; [|exists v, v']. Qed.

Lemma verify_each_total f ps : (∀ p, no_overrun (f p)) → no_overrun (verify_each f ps).
Proof.
  intros Hf. induction ps as [|p ps IH]; intros v; simpl; [by eexists|].
  destruct (Hf p v) as [[[] v'] ->]; simpl; [apply IH|by eexists].
Qed.

Lemma verify_each_accepted f ps :
  accepted_by (verify_each f ps) → Forall (λ p, accepted_by (f p)) ps.
Proof.
  induction ps as [|p ps IH]; [done|]. intros (v & v' & Heq). simpl in Heq.
  destruct (f p v) as [[[] v1]|] eqn:Hp; [|done..]. constructor; [by exists v, v1|].
  apply IH. by exists v1, v'.
Qed.

Lemma bind_Some {A B} (a : A) (f : A → option B) : Some a ≫= f = f a.
Proof. done. Qed.

Lemma mapM_read {A B} (W : Prop) (read : A → option B) (wf : B → Prop) (ps : list A) :
  Forall (λ p, ∃ a, read p = Some a ∧ (W → wf a)) ps →
  ∃ l, mapM read ps = Some l ∧ (W → Forall wf l).
Proof.
  induction 1 as [|p ps (a & Ha & Hwf) _ (l & Hl & Hall)]; [by exists []|].
  exists (a :: l). simpl. rewrite Ha. simpl. rewrite Hl. split; [done|]. constructor; auto.
Qed.

(** A table that can be verified, and read once it has been. *)
Record safe_table {A} (Verify : bytes → Pointer → Verification) (read : bytes → Pointer → option A)
    (wf : A → Prop) : Prop := {
  st_total buf p : no_overrun (Verify buf p);
  st_read buf p :
    accepted_by (Verify buf p) → ∃ a, read buf p = Some a ∧ (wf_bytes buf → wf a);
}.

Context `{!FlatBuffersLibSpec}.

Lemma start_total buf p : no_overrun (VerifyTableStart buf p).
Proof. apply (lib_total buf p None). Qed.
Lemma field_total buf p n vo align :
  accepted_by (VerifyTableStart buf p) → no_overrun (VerifyField n buf p vo align).
Proof. intros Hp. apply (lib_table_total buf p vo n align Hp). Qed.
Lemma offset_total buf p vo :
  accepted_by (VerifyTableStart buf p) → no_overrun (VerifyOffset buf p vo).
Proof. intros Hp. apply (lib_table_total buf p vo 0 0 Hp). Qed.
Lemma string_total buf q : no_overrun (VerifyString buf q).
Proof.
  destruct q as [p|]; [apply (lib_total buf p (Some p))|].
  intros v. rewrite lib_null_string. by eexists.
Qed.
Lemma vector_total buf q : no_overrun (VerifyVector buf q).
Proof.
  destruct q as [p|]; [apply (lib_total buf p (Some p))|].
  intros v. rewrite lib_null_vector. by eexists.
Qed.
Lemma end_total : no_overrun Verifier_EndTable.
Proof. intros v. destruct (lib_end_table v) as (v' & -> & _). by eexists. Qed.

Lemma pointer_accepted {A} (m : option Pointer → Verification) (read : Pointer → option A)
    (wf : A → Prop) (buf : bytes) (o : option (option Pointer)) :
  accepted_by (verify_read o m) →
  (∀ p, accepted_by (m (Some p)) → ∃ a, read p = Some a ∧ (wf_bytes buf → wf a)) →
  ∃ q a, o = Some q ∧ read_opt read q = Some a ∧ (wf_bytes buf → from_option wf True a).
Proof.
  intros (q & -> & Hq)%verify_read_accepted Hread. exists q.
  destruct q as [p|]; [|by exists None]. destruct (Hread p Hq) as (a & Ha & Hwf).
  exists (Some a). simpl. by rewrite Ha.
Qed.

Lemma string_accepted buf o :
  accepted_by (verify_read o (VerifyString buf)) →
  ∃ q s, o = Some q ∧ read_opt (String_str buf) q = Some s.
Proof.
  intros Hacc. destruct (pointer_accepted (VerifyString buf) (String_str buf) (λ _, True) buf o Hacc)
    as (q & s & Ho & Hs & _); [|by exists q, s].
  intros p Hp. destruct (lib_str_safe buf p Hp) as [s Hs]. by exists s.
Qed.

Section OneTable.
Context {A : Type} (Verify : bytes → Pointer → Verification) (read : bytes → Pointer → option A)
  (wf : A → Prop) (Hsafe : safe_table Verify read wf).

Lemma table_total buf o : is_Some o → no_overrun (verify_read o (VerifyTable (Verify buf))).
Proof.
  intros Ho. apply verify_read_total; [done|]. intros [p|] _ v; rewrite lib_table; [|by eexists].
  by apply (st_total _ _ _ Hsafe).
Qed.

Lemma table_accepted buf o :
  accepted_by (verify_read o (VerifyTable (Verify buf))) →
  ∃ q a, o = Some q ∧ read_opt (read buf) q = Some a ∧ (wf_bytes buf → from_option wf True a).
Proof.
  intros Hacc. apply (pointer_accepted _ _ wf buf o Hacc). intros p (v & v' & Heq).
  rewrite lib_table in Heq. apply (st_read _ _ _ Hsafe). by exists v, v'.
Qed.

Lemma tables_total buf o :
  accepted_by (verify_read o (VerifyVector buf)) →
  no_overrun (verify_read o (VerifyVectorOfTables buf (Verify buf))).
Proof.
  intros (q & -> & Hq)%verify_read_accepted. apply verify_read_total; [by eexists|].
  intros _ [= <-]. destruct q as [p|]; [|intros v; rewrite lib_null_tables; by eexists].
  destruct (lib_tables buf (Verify buf) p Hq) as (ps & _ & Heq). intros v. rewrite Heq.
  apply verify_each_total, (st_total _ _ _ Hsafe).
Qed.

Lemma tables_accepted buf o :
  accepted_by (verify_read o (VerifyVector buf)) →
  accepted_by (verify_read o (VerifyVectorOfTables buf (Verify buf))) →
  ∃ q l, o = Some q ∧ read_opt (read_tables read buf) q = Some l
    ∧ (wf_bytes buf → from_option (Forall wf) True l).
Proof.
  intros (q & -> & Hq)%verify_read_accepted (q' & [= <-] & Hacc)%verify_read_accepted. exists q.
  destruct q as [p|]; [|by exists None].
  destruct (lib_tables buf (Verify buf) p Hq) as (ps & Hps & Heq).
  destruct Hacc as (v & v' & Hacc). rewrite Heq in Hacc.
  destruct (mapM_read (wf_bytes buf) (read buf) wf ps) as (l & Hl & Hwf).
  { eapply Forall_impl; [apply (verify_each_accepted (Verify buf)); by exists v, v'|].
    intros p' Hp'. by apply (st_read _ _ _ Hsafe). }
  exists (Some l). simpl. unfold read_tables. rewrite Hps. simpl. by rewrite Hl.
Qed.
End OneTable.
End Steps.

(** ** Tables *)

(** One step of a table's [Verify] stays inside the buffer. *)
Ltac step_total :=
  lazymatch goal with
  | |- no_overrun (verify_and []) => apply verify_nil_total
  | |- no_overrun (verify_and (_ :: _)) => apply verify_cons_total; [|intros ?]
  | |- no_overrun (verify_read _ (VerifyString _)) =>
      apply verify_read_total; [eapply lib_pointer_safe; eassumption|intros; apply string_total]
  | |- no_overrun (verify_read _ (VerifyVector _)) =>
      apply verify_read_total; [eapply lib_pointer_safe; eassumption|intros; apply vector_total]
  | |- no_overrun (verify_read _ (VerifyTable _)) =>
      eapply table_total; [eauto with safe_tables|eapply lib_pointer_safe; eassumption]
  | |- no_overrun (verify_read _ (VerifyVectorOfTables _ _)) =>
      eapply tables_total; [eauto with safe_tables|eassumption]
  | |- no_overrun Verifier_EndTable => apply end_total
  | |- no_overrun (VerifyTableStart _ _) => apply start_total
  | |- no_overrun (VerifyField _ _ _ _ _) => apply field_total; assumption
  | |- no_overrun (VerifyOffset _ _ _) => apply offset_total; assumption
  end.

(** One accessor of a verified table. *)
Ltac step_read :=
  match goal with
  | H : accepted_by (verify_and (_ :: _)) |- _ => apply verify_cons_accepted in H as [? H]
  | Ht : accepted_by (VerifyTableStart ?buf ?p), Hf : accepted_by (VerifyField ?n ?buf ?p ?vo ?n)
    |- context [GetField ?n ?buf ?p ?vo ?d] =>
      let z := fresh "z" in let Hz := fresh "Hz" in
      destruct (lib_field_safe buf p n vo d Ht Hf) as (z & -> & Hz); rewrite ?bind_Some; clear Hf
  | Hf : accepted_by (verify_read ?o (VerifyString ?buf)) |- context [?o ≫= _] =>
      let q := fresh "q" in let s := fresh "s" in let Hs := fresh "Hs" in
      destruct (string_accepted buf o Hf) as (q & s & -> & Hs); rewrite ?bind_Some;
      rewrite Hs; rewrite ?bind_Some; clear Hf Hs
  | Hf : accepted_by (verify_read ?o (VerifyTable _)) |- context [?o ≫= _] =>
      let Hs := fresh "Hs" in
      eapply table_accepted in Hf as (? & ? & -> & Hs & ?); [|eauto with safe_tables];
      rewrite ?bind_Some; rewrite Hs; rewrite ?bind_Some; clear Hs
  | Hv : accepted_by (verify_read ?o (VerifyVector _)),
    Hf : accepted_by (verify_read ?o (VerifyVectorOfTables _ _)) |- context [?o ≫= _] =>
      let Hs := fresh "Hs" in
      eapply tables_accepted in Hf as (? & ? & -> & Hs & ?); [|eauto with safe_tables|exact Hv];
      rewrite ?bind_Some; rewrite Hs; rewrite ?bind_Some; clear Hs
  end.

(** A scalar with default 0 has the range of its size. *)
Ltac ranges Hb :=
  repeat match goal with
  | Hz : wf_bytes _ → in_range (8 * _) 0 → _ |- _ => specialize (Hz Hb ltac:(by split)); simpl in Hz
  | Hw : wf_bytes _ → from_option _ _ _ |- _ => specialize (Hw Hb)
  end.

Tactic Notation "safe_table_tac" reference(V) reference(r) :=
  split;
  [ intros buf p; unfold V; repeat step_total
  | intros buf p Hacc; unfold V in Hacc; unfold r;
    autounfold with accessors in *; repeat step_read;
    eexists; split; [reflexivity|intros Hb; ranges Hb; simpl; try done; try by split_and!] ].

Create HintDb safe_tables.
Create HintDb accessors.
#[export] Hint Unfold UserInfo.user_id UserInfo.display_name RoomInfo.room_id RoomInfo.room_name
  RoomInfo.user_count LoginRequest.display_name LoginResponse.success LoginResponse.error_code
  LoginResponse.user RoomListResponse.rooms JoinRoomRequest.room_id JoinRoomResponse.success
  JoinRoomResponse.error_code JoinRoomResponse.room ChatSendRequest.content
  ChatBroadcast.room_id ChatBroadcast.sender_id ChatBroadcast.sender_name ChatBroadcast.content
  ChatBroadcast.timestamp LeaveRoomResponse.success LeaveRoomResponse.error_code
  DisconnectResponse.success DisconnectResponse.error_code UserJoinedEvent.room_id
  UserJoinedEvent.user UserLeftEvent.room_id UserLeftEvent.user SystemMessageEvent.room_id
  SystemMessageEvent.content Message.request_id Message.payload_type Message.payload : accessors.

Section Tables.
Context `{FlatBuffersLib, !FlatBuffersLibSpec}.

Lemma UserInfo_safe : safe_table UserInfo.Verify read_UserInfo wf_user.
Proof. safe_table_tac UserInfo.Verify read_UserInfo. Qed.
#[local] Hint Resolve UserInfo_safe : safe_tables.
Lemma RoomInfo_safe : safe_table RoomInfo.Verify read_RoomInfo wf_room.
Proof. safe_table_tac RoomInfo.Verify read_RoomInfo. Qed.
#[local] Hint Resolve RoomInfo_safe : safe_tables.
Lemma LoginRequest_safe : safe_table LoginRequest.Verify read_LoginRequest (λ t, wf_payload (PLoginRequest (Some t))).
Proof. safe_table_tac LoginRequest.Verify read_LoginRequest. Qed.
Lemma LoginResponse_safe : safe_table LoginResponse.Verify read_LoginResponse (λ t, wf_payload (PLoginResponse (Some t))).
Proof. safe_table_tac LoginResponse.Verify read_LoginResponse. Qed.
Lemma RoomListRequest_safe : safe_table RoomListRequest.Verify read_RoomListRequest (λ t, wf_payload (PRoomListRequest (Some t))).
Proof. safe_table_tac RoomListRequest.Verify read_RoomListRequest. Qed.
Lemma RoomListResponse_safe : safe_table RoomListResponse.Verify read_RoomListResponse (λ t, wf_payload (PRoomListResponse (Some t))).
Proof. safe_table_tac RoomListResponse.Verify read_RoomListResponse. Qed.
Lemma JoinRoomRequest_safe : safe_table JoinRoomRequest.Verify read_JoinRoomRequest (λ t, wf_payload (PJoinRoomRequest (Some t))).
Proof. safe_table_tac JoinRoomRequest.Verify read_JoinRoomRequest. Qed.
Lemma JoinRoomResponse_safe : safe_table JoinRoomResponse.Verify read_JoinRoomResponse (λ t, wf_payload (PJoinRoomResponse (Some t))).
Proof. safe_table_tac JoinRoomResponse.Verify read_JoinRoomResponse. Qed.
Lemma ChatSendRequest_safe : safe_table ChatSendRequest.Verify read_ChatSendRequest (λ t, wf_payload (PChatSendRequest (Some t))).
Proof. safe_table_tac ChatSendRequest.Verify read_ChatSendRequest. Qed.
Lemma ChatBroadcast_safe : safe_table ChatBroadcast.Verify read_ChatBroadcast (λ t, wf_payload (PChatBroadcast (Some t))).
Proof. safe_table_tac ChatBroadcast.Verify read_ChatBroadcast. Qed.
Lemma LeaveRoomRequest_safe : safe_table LeaveRoomRequest.Verify read_LeaveRoomRequest (λ t, wf_payload (PLeaveRoomRequest (Some t))).
Proof. safe_table_tac LeaveRoomRequest.Verify read_LeaveRoomRequest. Qed.
Lemma LeaveRoomResponse_safe : safe_table LeaveRoomResponse.Verify read_LeaveRoomResponse (λ t, wf_payload (PLeaveRoomResponse (Some t))).
Proof. safe_table_tac LeaveRoomResponse.Verify read_LeaveRoomResponse. Qed.
Lemma DisconnectRequest_safe : safe_table DisconnectRequest.Verify read_DisconnectRequest (λ t, wf_payload (PDisconnectRequest (Some t))).
Proof. safe_table_tac DisconnectRequest.Verify read_DisconnectRequest. Qed.
Lemma DisconnectResponse_safe : safe_table DisconnectResponse.Verify read_DisconnectResponse (λ t, wf_payload (PDisconnectResponse (Some t))).
Proof. safe_table_tac DisconnectResponse.Verify read_DisconnectResponse. Qed.
Lemma UserJoinedEvent_safe : safe_table UserJoinedEvent.Verify read_UserJoinedEvent (λ t, wf_payload (PUserJoinedEvent (Some t))).
Proof. safe_table_tac UserJoinedEvent.Verify read_UserJoinedEvent. Qed.
Lemma UserLeftEvent_safe : safe_table UserLeftEvent.Verify read_UserLeftEvent (λ t, wf_payload (PUserLeftEvent (Some t))).
Proof. safe_table_tac UserLeftEvent.Verify read_UserLeftEvent. Qed.
Lemma SystemMessageEvent_safe : safe_table SystemMessageEvent.Verify read_SystemMessageEvent (λ t, wf_payload (PSystemMessageEvent (Some t))).
Proof. safe_table_tac SystemMessageEvent.Verify read_SystemMessageEvent. Qed.
#[local] Hint Resolve LoginRequest_safe LoginResponse_safe RoomListRequest_safe RoomListResponse_safe JoinRoomRequest_safe JoinRoomResponse_safe ChatSendRequest_safe
  ChatBroadcast_safe LeaveRoomRequest_safe LeaveRoomResponse_safe DisconnectRequest_safe DisconnectResponse_safe UserJoinedEvent_safe UserLeftEvent_safe SystemMessageEvent_safe : safe_tables.

(** *** The union and the root *)

Lemma payload_total buf obj type : no_overrun (VerifyMessagePayload buf obj type).
Proof.
  assert (∀ V, (∀ p, no_overrun (V p)) → no_overrun (VerifyTable V obj)) as Htable.
  { intros V HV v. rewrite lib_table. destruct obj; [apply HV|by eexists]. }
  unfold VerifyMessagePayload. repeat case_match; try (by intros v; eexists); apply Htable; intros p;
    eapply st_total; eauto with safe_tables.
Qed.

Lemma obj_accepted {A} V (read : bytes → Pointer → option A) wf buf obj :
  safe_table V read wf → accepted_by (VerifyTable (V buf) obj) →
  ∃ a, read_opt (read buf) obj = Some a ∧ (wf_bytes buf → from_option wf True a).
Proof.
  intros Hsafe Hacc. destruct (table_accepted V read wf Hsafe buf (Some obj)) as (q & a & Hq & Ha & Hwf).
  { destruct Hacc as (v & v' & Heq). by exists v, v'. }
  injection Hq as <-. by exists a.
Qed.

(** One alternative of the union. *)
Ltac payload_case :=
  match goal with
  | |- context [if ?a =? ?b then _ else _] =>
      destruct (Z.eqb_spec a b);
      [ intros Hacc; eapply obj_accepted in Hacc as (t & -> & Hwf); [|eauto with safe_tables];
        eexists; split; [reflexivity|]; intros Hb _; by destruct t; [apply Hwf|]
      |]
  end.

Lemma payload_accepted buf obj type :
  accepted_by (VerifyMessagePayload buf obj type) →
  ∃ p, read_payload buf obj type = Some p ∧ (wf_bytes buf → is_u8 type → wf_payload p).
Proof.
  unfold VerifyMessagePayload, read_payload. destruct (Z.eqb_spec type MessagePayload.NONE);
    [by exists PNone|]. repeat payload_case. intros _. exists (POther type). split; [done|].
  intros _ Ht. unfold in_range in Ht. change (2 ^ 8) with 256 in Ht. simpl.
  unfold MessagePayload.NONE, MessagePayload.LoginRequest, MessagePayload.LoginResponse,
    MessagePayload.RoomListRequest, MessagePayload.RoomListResponse, MessagePayload.JoinRoomRequest,
    MessagePayload.JoinRoomResponse, MessagePayload.ChatSendRequest, MessagePayload.ChatBroadcast,
    MessagePayload.LeaveRoomRequest, MessagePayload.LeaveRoomResponse,
    MessagePayload.DisconnectRequest, MessagePayload.DisconnectResponse,
    MessagePayload.UserJoinedEvent, MessagePayload.UserLeftEvent,
    MessagePayload.SystemMessageEvent in *. lia.
Qed.

Lemma Message_safe :
  safe_table Message.Verify read_message (λ m, is_u32 (request_id m) ∧ wf_payload (payload m)).
Proof.
  split.
  - intros buf p. unfold Message.Verify. repeat step_total.
    apply verify_read_total; [by eapply lib_pointer_safe|]. intros obj _.
    apply verify_read_total; [|intros; apply payload_total].
    destruct (lib_field_safe buf p 1 Message.VT_PAYLOAD_TYPE 0) as (z & Hz & _); [done..|]. by exists z.
  - intros buf p Hacc. unfold Message.Verify in Hacc. unfold read_message.
    unfold Message.request_id, Message.payload_type in *.
    repeat (apply verify_cons_accepted in Hacc as [? Hacc]).
    match goal with H : accepted_by (verify_read _ _) |- _ =>
      apply verify_read_accepted in H as (obj & -> & H);
      apply verify_read_accepted in H as (type & Ht & Hunion)
    end.
    destruct (lib_field_safe buf p 1 Message.VT_PAYLOAD_TYPE 0) as (z & Hz & Hr); [done..|].
    rewrite Ht in Hz |- *. injection Hz as <-. repeat step_read.
    destruct (payload_accepted buf obj type Hunion) as (pl & -> & Hpl).
    eexists. split; [reflexivity|]. intros Hb. ranges Hb. auto.
Qed.
End Tables.

(** *** The typed accessors *)

(** What [payload_as_X] of the buffer points to is what [payload_as_X] of the
    message that was read holds. *)
Section Typed.
Context `{FlatBuffersLib}.

Lemma payload_as_read {A} (read : bytes → Pointer → option A) (inject : option A → Payload)
    (tag : Z) (value : Message → option A) buf p m :
  (∀ obj, read_payload buf obj tag = inject <$> read_opt (read buf) obj) →
  (∀ q t, value (mkMessage q (inject t)) = t) →
  (∀ q obj type pl, type ≠ tag → read_payload buf obj type = Some pl → value (mkMessage q pl) = None) →
  read_message buf p = Some m →
  ∃ q, Message.payload_as tag buf p = Some q ∧ read_opt (read buf) q = Some (value m).
Proof.
  intros Htag Hvalue Hother Hm. unfold read_message in Hm. unfold Message.payload_as.
  destruct (Message.request_id buf p) as [q|]; [|done].
  destruct (Message.payload_type buf p) as [type|]; [|done].
  destruct (Message.payload buf p) as [obj|]; [|done]. rewrite !bind_Some in Hm. rewrite bind_Some.
  destruct (read_payload buf obj type) as [pl|] eqn:Hpl; [|done]. injection Hm as <-.
  destruct (Z.eqb_spec type tag) as [->|Hne].
  - exists obj. split; [done|]. rewrite Htag in Hpl.
    destruct (read_opt (read buf) obj) as [t|]; [|done]. injection Hpl as <-. by rewrite Hvalue.
  - exists None. split; [done|]. by rewrite (Hother q obj type pl).
Qed.

Lemma read_message_id buf p m :
  read_message buf p = Some m → Message.request_id buf p = Some (request_id m).
Proof.
  unfold read_message. destruct (Message.request_id buf p) as [q|]; [|done].
  destruct (Message.payload_type buf p) as [type|]; [|done].
  destruct (Message.payload buf p) as [obj|]; [|done]. rewrite !bind_Some.
  by destruct (read_payload buf obj type) as [pl|]; [intros [= <-]|].
Qed.

Lemma read_message_type buf p m :
  read_message buf p = Some m → Message.payload_type buf p = Some (payload_type m).
Proof.
  unfold read_message. destruct (Message.request_id buf p) as [q|]; [|done].
  destruct (Message.payload_type buf p) as [type|]; [|done].
  destruct (Message.payload buf p) as [obj|]; [|done]. rewrite !bind_Some.
  destruct (read_payload buf obj type) as [pl|] eqn:Hpl; [|done]. intros [= <-]. f_equal.
  unfold read_payload in Hpl.
  repeat match type of Hpl with
  | (if ?a =? ?b then _ else _) = _ =>
      destruct (Z.eqb_spec a b) as [->|_]; [try (destruct (read_opt _ obj)); by simplify_eq/=|]
  end.
  by injection Hpl as <-.
Qed.

(** The tag decides the alternative. *)
Ltac by_tag inject :=
  apply (payload_as_read _ inject);
  [ intros obj; reflexivity | done
  | intros q obj type pl Hne; unfold read_payload;
    repeat match goal with
    | |- (if ?a =? ?b then _ else _) = _ → _ =>
        destruct (Z.eqb_spec a b) as [?|_];
        [try congruence; try (destruct (read_opt _ obj); simpl; [by intros [= <-]|done]);
         by intros [= <-]|]
    end;
    by intros [= <-] ].

Lemma payload_as_LoginRequest_read buf p m :
  read_message buf p = Some m →
  ∃ q, Message.payload_as_LoginRequest buf p = Some q ∧ read_opt (read_LoginRequest buf) q = Some (payload_as_LoginRequest m).
Proof. by_tag PLoginRequest. Qed.
Lemma payload_as_LoginResponse_read buf p m :
  read_message buf p = Some m →
  ∃ q, Message.payload_as_LoginResponse buf p = Some q ∧ read_opt (read_LoginResponse buf) q = Some (payload_as_LoginResponse m).
Proof. by_tag PLoginResponse. Qed.
Lemma payload_as_RoomListResponse_read buf p m :
  read_message buf p = Some m →
  ∃ q, Message.payload_as_RoomListResponse buf p = Some q ∧ read_opt (read_RoomListResponse buf) q = Some (payload_as_RoomListResponse m).
Proof. by_tag PRoomListResponse. Qed.
Lemma payload_as_JoinRoomRequest_read buf p m :
  read_message buf p = Some m →
  ∃ q, Message.payload_as_JoinRoomRequest buf p = Some q ∧ read_opt (read_JoinRoomRequest buf) q = Some (payload_as_JoinRoomRequest m).
Proof. by_tag PJoinRoomRequest. Qed.
Lemma payload_as_JoinRoomResponse_read buf p m :
  read_message buf p = Some m →
  ∃ q, Message.payload_as_JoinRoomResponse buf p = Some q ∧ read_opt (read_JoinRoomResponse buf) q = Some (payload_as_JoinRoomResponse m).
Proof. by_tag PJoinRoomResponse. Qed.
Lemma payload_as_ChatSendRequest_read buf p m :
  read_message buf p = Some m →
  ∃ q, Message.payload_as_ChatSendRequest buf p = Some q ∧ read_opt (read_ChatSendRequest buf) q = Some (payload_as_ChatSendRequest m).
Proof. by_tag PChatSendRequest. Qed.
Lemma payload_as_ChatBroadcast_read buf p m :
  read_message buf p = Some m →
  ∃ q, Message.payload_as_ChatBroadcast buf p = Some q ∧ read_opt (read_ChatBroadcast buf) q = Some (payload_as_ChatBroadcast m).
Proof. by_tag PChatBroadcast. Qed.
Lemma payload_as_UserJoinedEvent_read buf p m :
  read_message buf p = Some m →
  ∃ q, Message.payload_as_UserJoinedEvent buf p = Some q ∧ read_opt (read_UserJoinedEvent buf) q = Some (payload_as_UserJoinedEvent m).
Proof. by_tag PUserJoinedEvent. Qed.
Lemma payload_as_UserLeftEvent_read buf p m :
  read_message buf p = Some m →
  ∃ q, Message.payload_as_UserLeftEvent buf p = Some q ∧ read_opt (read_UserLeftEvent buf) q = Some (payload_as_UserLeftEvent m).
Proof. by_tag PUserLeftEvent. Qed.
Lemma payload_as_SystemMessageEvent_read buf p m :
  read_message buf p = Some m →
  ∃ q, Message.payload_as_SystemMessageEvent buf p = Some q ∧ read_opt (read_SystemMessageEvent buf) q = Some (payload_as_SystemMessageEvent m).
Proof. by_tag PSystemMessageEvent. Qed.
End Typed.

Lemma accepted_reads `{FlatBuffersLib, !FlatBuffersLibSpec} (buf : bytes) :
  accepted_by (VerifyMessageBuffer buf) → wf_bytes buf →
  ∃ p m, GetMessage buf = Some p ∧ read_message buf p = Some m
    ∧ is_u32 (request_id m) ∧ wf_payload (payload m)
    ∧ Message.payload_type buf p = Some (payload_type m).
Proof.
  intros Hacc Hb. destruct (lib_buffer buf _ Hacc) as (p & Hp & Hm).
  destruct (st_read _ _ _ Message_safe buf p Hm) as (m & Hread & Hwf).
  destruct (Hwf Hb) as [Hq Hpl]. exists p, m. split_and!; try done. by apply read_message_type.
Qed.

(** C5. Received bytes are read safely.  Whatever bytes a connection delivers,
    [VerifyMessageBuffer] reads no byte outside them: no table's fields are
    looked up before that table has been checked, and no offset is followed before
    it has been; and when it accepts them, every accessor the program uses
    afterwards stays inside the buffer as well: the whole message can be read, its
    scalars have the range of their fields, and its payload is the alternative its
    tag announces. *)
Theorem verified_reads_safe `{FlatBuffersLib, !FlatBuffersLibSpec} (buf : bytes) :
  no_overrun (VerifyMessageBuffer buf)
  ∧ (accepted_by (VerifyMessageBuffer buf) → wf_bytes buf →
     ∃ p m, GetMessage buf = Some p ∧ read_message buf p = Some m
       ∧ is_u32 (request_id m) ∧ wf_payload (payload m)
       ∧ Message.payload_type buf p = Some (payload_type m)).
Proof.
  split; [apply lib_buffer_total, (st_total _ _ _ Message_safe)|apply accepted_reads].
Qed.
