(* ===== verification/MessagesBuilding.v ===== *)
(** * What the generated code writes can be verified and read back

    [build_message] is what the program does to send a message: the [Create...]
    functions of [MessagesGenerated] for its payload, [CreateMessage],
    [FinishMessageBuffer].  [rep_X b o t] says that offset [o] of the builder [b]
    holds the table [t].  Every [Create...] function establishes it, every
    [Verify] accepts it and every reader reads [t] back; so the generated code,
    over any library that satisfies [FlatBuffersLibSpec], is an instance of the
    interface [FlatBuffers] that the rest of the development uses. *)

From S2P Require Import Prelude Schema FlatBuffersLib MessagesGenerated MessagesSafety.

(** ** Building a table *)

Inductive FieldAdd :=
  | AddE (size : Z) (vo : voffset) (value : Z)
  | AddO (vo : voffset) (o : Offset).

Definition add_vo (a : FieldAdd) : voffset :=
  match a with AddE _ vo _ => vo | AddO vo _ => vo end.
Definition add_cost (a : FieldAdd) : Z :=
  match a with AddE size _ _ => 2 * size + 3 | AddO _ _ => 8 end.
Definition add_field (fs : list (voffset * FbField)) (a : FieldAdd) : list (voffset * FbField) :=
  match a with AddE size vo value => add_scalar size vo value 0 fs | AddO vo o => add_ref vo o fs end.
Definition fields_of (adds : list FieldAdd) : list (voffset * FbField) := foldl add_field [] adds.
Definition adds_cost (adds : list FieldAdd) : Z := foldr Z.add 0 (add_cost <$> adds).

Lemma field_at_add vo fs a : add_vo a ≠ vo → field_at vo (add_field fs a) = field_at vo fs.
Proof.
  intros Hne. destruct a as [size vo' value|vo' o]; simpl in *; unfold add_scalar, add_ref;
    case_match; [done| |done|]; simpl; by destruct (Z.eqb_spec vo' vo).
Qed.

Lemma field_at_adds vo fs adds :
  vo ∉ add_vo <$> adds → field_at vo (foldl add_field fs adds) = field_at vo fs.
Proof.
  revert fs. induction adds as [|a adds IH]; intros fs Hni; [done|]. csimpl in *.
  apply not_elem_of_cons in Hni as [Hne Hni]. rewrite IH by done. by apply field_at_add.
Qed.

(** What the last write to a field left, among fields written once. *)
Lemma field_at_elem fs adds a :
  NoDup (add_vo <$> adds) → a ∈ adds → field_at (add_vo a) fs = None →
  field_at (add_vo a) (foldl add_field fs adds) = field_at (add_vo a) (add_field [] a).
Proof.
  revert fs. induction adds as [|a' adds IH]; intros fs Hnd Ha Hfs; [by apply elem_of_nil in Ha|].
  csimpl in *. apply NoDup_cons in Hnd as [Hni Hnd]. apply elem_of_cons in Ha as [<-|Ha].
  - rewrite field_at_adds by done. destruct a as [size vo value|vo o]; simpl in *;
      unfold add_scalar, add_ref; case_match; try done; simpl; by rewrite Z.eqb_refl.
  - apply IH; [done..|]. rewrite field_at_add; [done|]. intros Heq. apply Hni. rewrite Heq.
    by apply list_elem_of_fmap_2.
Qed.

Lemma fields_scalar adds size vo value :
  NoDup (add_vo <$> adds) → AddE size vo value ∈ adds →
  get_scalar size vo 0 (fields_of adds) = Some value.
Proof.
  intros Hnd Ha. unfold get_scalar, fields_of.
  pose proof (field_at_elem [] adds (AddE size vo value) Hnd Ha eq_refl) as Hf. simpl in Hf.
  rewrite Hf. unfold add_scalar. destruct (Z.eqb_spec value 0) as [->|]; [done|]. simpl.
  by rewrite !Z.eqb_refl.
Qed.

Lemma fields_ref adds vo o :
  NoDup (add_vo <$> adds) → AddO vo o ∈ adds →
  get_ref vo (fields_of adds) = Some (if o =? 0 then None else Some o).
Proof.
  intros Hnd Ha. unfold get_ref, fields_of.
  pose proof (field_at_elem [] adds (AddO vo o) Hnd Ha eq_refl) as Hf. simpl in Hf.
  rewrite Hf. unfold add_ref. destruct (Z.eqb_spec o 0) as [->|]; [done|]. simpl.
  by rewrite Z.eqb_refl.
Qed.

Lemma fields_last adds last :
  Forall (λ a, add_vo a ≤ last) adds → Forall (λ f : voffset * FbField, f.1 ≤ last) (fields_of adds).
Proof.
  unfold fields_of. intros Hall.
  assert (∀ fs, Forall (λ f : voffset * FbField, f.1 ≤ last) fs →
    Forall (λ f : voffset * FbField, f.1 ≤ last) (foldl add_field fs adds)) as Hgen; [|by apply Hgen].
  induction Hall as [|a adds Ha _ IH]; intros fs Hfs; [done|]. simpl. apply IH.
  destruct a as [size vo value|vo o]; simpl; unfold add_scalar, add_ref; case_match;
    by try constructor.
Qed.

Section Building.
Context `{FlatBuffersLib, !FlatBuffersLibSpec}.
Implicit Types (b : Builder) (o : Offset).

Definition preserved b b' : Prop := ∀ o x, built b o x → built b' o x.

(** From [b] to [b'], at most [n] bytes more. *)
Record grew b b' (n : Z) : Prop := {
  gr_closed : closed_bld b';
  gr_built : preserved b b';
  gr_used : used b ≤ used b' ≤ used b + n;
}.

Lemma grew_trans b1 b2 b3 n1 n2 : grew b1 b2 n1 → grew b2 b3 n2 → grew b1 b3 (n1 + n2).
Proof.
  intros [_ H1 H2] [H3 H4 H5]. split; [done| |lia]. intros o x Hx. by apply H4, H1.
Qed.

Definition apply_add b (a : FieldAdd) : Builder :=
  match a with AddE size vo value => AddElement size vo value 0 b | AddO vo o => AddOffset vo o b end.

Definition add_ok b (a : FieldAdd) : Prop :=
  is_u16 (add_vo a) ∧
  match a with
  | AddE size _ value => scalar_size size ∧ in_range (8 * size) value
  | AddO _ o => o = 0 ∨ ∃ x, built b o x
  end.

Lemma add_ok_mono b b' a : preserved b b' → add_ok b a → add_ok b' a.
Proof. intros Hp [Hvo Ha]. split; [done|]. destruct a; [done|]. naive_solver. Qed.

Lemma add_cost_pos adds b : Forall (add_ok b) adds → 0 ≤ adds_cost adds.
Proof.
  unfold adds_cost. induction 1 as [|a adds [_ Ha] _ IH]; [done|]. csimpl.
  destruct a; simpl; [|lia]. destruct Ha as [[-> | [-> | [-> | ->]]] _]; lia.
Qed.

Lemma apply_adds start adds b fs :
  open_bld b start fs → NoDup (add_vo <$> adds) → Forall (λ a, field_at (add_vo a) fs = None) adds →
  Forall (add_ok b) adds → used b + adds_cost adds < FLATBUFFERS_MAX_BUFFER_SIZE →
  let b' := foldl apply_add b adds in
  open_bld b' start (foldl add_field fs adds) ∧ preserved b b'
  ∧ used b ≤ used b' ≤ used b + adds_cost adds.
Proof.
  revert b fs. induction adds as [|a adds IH]; intros b fs Hopen Hnd Hfs Hok Hu; simpl.
  { split_and!; [done|by intros o x|lia|unfold adds_cost; simpl; lia]. }
  apply Forall_cons in Hok as [Ha Hok]. apply Forall_cons in Hfs as [Hf Hfs].
  csimpl in Hnd. apply NoDup_cons in Hnd as [Hni Hnd].
  assert (adds_cost (a :: adds) = add_cost a + adds_cost adds) as Hcost by done.
  pose proof (add_cost_pos adds b Hok) as Hpos. rewrite Hcost in Hu |- *.
  assert (open_bld (apply_add b a) start (add_field fs a) ∧ preserved b (apply_add b a)
          ∧ used b ≤ used (apply_add b a) ≤ used b + add_cost a) as (Hopen1 & Hp1 & Hu1).
  { destruct a as [size vo value|vo o], Ha as [Hvo Ha]; simpl in *.
    - destruct Ha as [Hs Hr].
      destruct (lib_element size vo value 0 b start fs) as (? & ? & ?); [done..|lia|].
      split_and!; [done|done|lia|lia].
    - destruct (lib_offset vo o b start fs) as (? & ? & ?); [done..|lia|].
      split_and!; [done|done|lia|lia]. }
  destruct (IH (apply_add b a) (add_field fs a)) as (Hopen2 & Hp2 & Hu2); [done..| | |lia|].
  - apply Forall_forall. intros a' Ha'. rewrite field_at_add.
    + by apply (proj1 (Forall_forall _ _) Hfs).
    + intros Heq. apply Hni. rewrite Heq. by apply list_elem_of_fmap_2.
  - eapply Forall_impl; [exact Hok|]. intros a'. by apply add_ok_mono.
  - split_and!; [done| |lia|lia]. intros o x Hx. by apply Hp2, Hp1.
Qed.

(** [StartTable], the fields, [EndTable]. *)
Lemma create_table adds last b :
  closed_bld b → NoDup (add_vo <$> adds) → Forall (add_ok b) adds →
  4 ≤ last → Forall (λ a, add_vo a ≤ last) adds →
  used b + (adds_cost adds + last + 12) < FLATBUFFERS_MAX_BUFFER_SIZE →
  ∃ o b', (let '(start, b) := StartTable b in EndTable start (foldl apply_add b adds)) = (o, b')
    ∧ o ≠ 0 ∧ built b' o (FbTable (fields_of adds)) ∧ grew b b' (adds_cost adds + last + 12).
Proof.
  intros Hb Hnd Hok Hlast Hall Hu. destruct (lib_start b Hb) as (start & b1 & -> & Hopen & Hp1 & Hu1).
  destruct (apply_adds start adds b1 []) as (Hopen2 & Hp2 & Hu2); [done..| | |lia|].
  { apply Forall_forall. by intros a _. }
  { eapply Forall_impl; [exact Hok|]. intros a. by apply add_ok_mono. }
  destruct (lib_end last _ start _ Hopen2 Hlast (fields_last adds last Hall))
    as (o & b' & -> & Ho & Hcl & Hbuilt & Hp3 & Hu3); [lia|].
  exists o, b'. split_and!; try done. split; [done| |lia]. intros o' x Hx. by apply Hp3, Hp2, Hp1.
Qed.

(** ** Representation *)

(** [rep b o a]: the object at [o] stands for [a]. *)
Class Rep {A} (rep : Builder → Offset → A → Prop) : Prop := {
  rep_mono b b' o a : preserved b b' → rep b o a → rep b' o a;
  rep_built b o a : rep b o a → ∃ x, built b o x;
}.

Definition rep_string b o (s : string) : Prop := built b o (FbString s).
#[export] Instance rep_string_rep : Rep rep_string.
Proof. split; [intros b b' o s Hp; apply Hp|by eexists]. Qed.

Definition rep_list {A} (rep : Builder → Offset → A → Prop) b o (l : list A) : Prop :=
  ∃ os, built b o (FbVector os) ∧ Forall2 (rep b) os l.
#[export] Instance rep_list_rep {A} rep `{!@Rep A rep} : Rep (rep_list rep).
Proof.
  split.
  - intros b b' o l Hp (os & Hos & Hl). exists os. split; [by apply Hp|].
    eapply Forall2_impl; [exact Hl|]. intros o' a. by apply rep_mono.
  - intros b o l (os & Hos & _). by eexists.
Qed.

(** An offset that may be null. *)
Definition opt_ref {A} (rep : Builder → Offset → A → Prop) b o (x : option A) : Prop :=
  match x with None => o = 0 | Some a => o ≠ 0 ∧ rep b o a end.

(** A pointer field. *)
Definition has_ref {A} (rep : Builder → Offset → A → Prop) b (fs : list (voffset * FbField))
    (vo : voffset) (x : option A) : Prop :=
  ∃ r, get_ref vo fs = Some r ∧
    match r, x with None, None => True | Some o, Some a => rep b o a | _, _ => False end.

Section OneRep.
Context {A : Type} (rep : Builder → Offset → A → Prop) `{!Rep rep}.

Lemma opt_ref_mono b b' o x : preserved b b' → opt_ref rep b o x → opt_ref rep b' o x.
Proof. intros Hp. destruct x; simpl; [|done]. intros [??]. split; [done|by eapply rep_mono]. Qed.

Lemma opt_ref_ok b vo o x : is_u16 vo → opt_ref rep b o x → add_ok b (AddO vo o).
Proof.
  intros Hvo Hx. split; [done|]. destruct x as [a|]; [right|by left].
  destruct Hx as [_ Hx]. by apply rep_built in Hx.
Qed.

Lemma has_ref_mono b b' fs vo x : preserved b b' → has_ref rep b fs vo x → has_ref rep b' fs vo x.
Proof.
  intros Hp (r & Hr & Hx). exists r. split; [done|]. destruct r, x; try done. by eapply rep_mono.
Qed.

Lemma fields_has_ref adds b b' vo o x :
  NoDup (add_vo <$> adds) → AddO vo o ∈ adds → preserved b b' → opt_ref rep b o x →
  has_ref rep b' (fields_of adds) vo x.
Proof.
  intros Hnd Ha Hp Hx. eexists. split; [by apply fields_ref|].
  destruct x as [a|]; simpl in Hx; [destruct Hx as [Ho Hx]|subst o]; [|done].
  destruct (Z.eqb_spec o 0); [done|]. by eapply rep_mono.
Qed.
End OneRep.

(** A table whose fields [fs] stand for [a]. *)
Definition rep_table {A} (P : Builder → list (voffset * FbField) → A → Prop) b o (a : A) : Prop :=
  ∃ fs, built b o (FbTable fs) ∧ P b fs a.

Class RepFields {A} (P : Builder → list (voffset * FbField) → A → Prop) : Prop :=
  fields_mono b b' fs a : preserved b b' → P b fs a → P b' fs a.

#[export] Instance rep_table_rep {A} P `{!@RepFields A P} : Rep (rep_table P).
Proof.
  split.
  - intros b b' o a Hp (fs & Hb & Hfs). exists fs. split; [by apply Hp|by eapply fields_mono].
  - intros b o a (fs & Hb & _). by eexists.
Qed.

(** ** Building: [f] yields an offset for [x] with at most [n] bytes more *)

Record makes {A} (rep : Builder → Offset → A → Prop) (f : Builder → Offset * Builder) (n : Z)
    (x : option A) b : Prop := {
  makes_run :
    closed_bld b → used b + n < FLATBUFFERS_MAX_BUFFER_SIZE →
    ∃ o b', f b = (o, b') ∧ opt_ref rep b' o x ∧ grew b b' n;
}.

Section Makes.
Context {A B : Type} (repA : Builder → Offset → A → Prop) (repB : Builder → Offset → B → Prop).

Lemma makes_null b : makes repA (pair 0) 0 None b.
Proof. split. intros Hb _. exists 0, b. split_and!; try done. split; [done|by intros o x|lia]. Qed.

Lemma makes_mono f n n' x b : makes repA f n x b → n ≤ n' → makes repA f n' x b.
Proof.
  intros [Hf] Hn. split. intros Hb Hu. destruct (Hf Hb) as (o & b' & Heq & Hx & [Hc Hp Hu']); [lia|].
  exists o, b'. split_and!; [done|done|]. split; [done|done|lia].
Qed.

Lemma makes_bind f n1 x g n2 y b :
  0 ≤ n2 → makes repA f n1 x b →
  (∀ o b', preserved b b' → opt_ref repA b' o x → makes repB (g o) n2 y b') →
  makes repB (λ b, let '(o, b) := f b in g o b) (n1 + n2) y b.
Proof.
  intros Hn [Hf] Hg. split. intros Hb Hu. destruct (Hf Hb) as (o1 & b1 & -> & Hx & Hgr); [lia|].
  destruct (makes_run _ _ _ _ _ (Hg o1 b1 (gr_built _ _ _ Hgr) Hx) (gr_closed _ _ _ Hgr)) as (o & b' & -> & Hy & Hgr').
  { pose proof (gr_used _ _ _ Hgr). lia. }
  exists o, b'. split_and!; [done|done|by eapply grew_trans].
Qed.
End Makes.

Lemma makes_string (s : string) b : makes rep_string (fbb_CreateString s) (zsize s + 8) (Some s) b.
Proof.
  split. intros Hb Hu. destruct (lib_string s b Hb) as (o & b' & Heq & Ho & Hc & Hs & Hp & Hu'); [lia|].
  exists o, b'. split_and!; [done|done|]. split; [done|done|lia].
Qed.

(** [StartTable], the fields, [EndTable]. *)
Lemma makes_table {A} P (a : A) adds last b :
  bool_decide (NoDup (add_vo <$> adds)) = true → bool_decide (4 ≤ last) = true →
  forallb (λ a, add_vo a <=? last) adds = true → Forall (add_ok b) adds →
  (∀ b', preserved b b' → P b' (fields_of adds) a) →
  makes (rep_table P) (λ b, let '(start, b) := StartTable b in EndTable start (foldl apply_add b adds))
    (adds_cost adds + last + 12) (Some a) b.
Proof.
  intros Hnd%bool_decide_eq_true Hlast%bool_decide_eq_true Hall Hok HP. split. intros Hb Hu.
  destruct (create_table adds last b Hb Hnd Hok Hlast) as (o & b' & Heq & Ho & Hbt & Hgr); [|lia|].
  { apply Forall_forall. intros a' Ha'. rewrite forallb_forall in Hall.
    apply Z.leb_le, Hall. by apply list_elem_of_In. }
  exists o, b'. split_and!; [done| |done]. split; [done|]. exists (fields_of adds).
  split; [done|]. apply HP, (gr_built _ _ _ Hgr).
Qed.

Section MakesList.
Context {A : Type} (rep : Builder → Offset → A → Prop) `{!Rep rep}
  (f : A → Builder → Offset * Builder) (cost : A → Z).
Hypothesis cost_pos : ∀ a, 0 ≤ cost a.

(** One object after the other. *)
Fixpoint build_each (l : list A) b : list Offset * Builder :=
  match l with
  | [] => ([], b)
  | a :: l =>
      let '(o, b) := f a b in
      let '(os, b) := build_each l b in
      (o :: os, b)
  end.
Definition build_vector (l : list A) b : Offset * Builder :=
  let '(os, b) := build_each l b in CreateVector os b.

Definition list_cost (l : list A) : Z := foldr Z.add 0 (cost <$> l).

Lemma list_cost_pos l : 0 ≤ list_cost l.
Proof. unfold list_cost. induction l as [|a l IH]; csimpl; [done|]. specialize (cost_pos a). lia. Qed.

Lemma makes_each l b :
  Forall (λ a, ∀ b, makes rep (f a) (cost a) (Some a) b) l →
  closed_bld b → used b + list_cost l < FLATBUFFERS_MAX_BUFFER_SIZE →
  ∃ os b', build_each l b = (os, b') ∧ Forall2 (rep b') os l ∧ grew b b' (list_cost l).
Proof.
  intros Hall. revert b. induction Hall as [|a l Ha _ IH]; intros b Hb Hu.
  { exists [], b. split_and!; [done|constructor|]. split; [done|by intros o x|unfold list_cost; simpl; lia]. }
  pose proof (list_cost_pos l) as Hpos.
  assert (list_cost (a :: l) = cost a + list_cost l) as Hc by done. rewrite Hc in *. simpl.
  destruct (makes_run _ _ _ _ _ (Ha b) Hb) as (o & b1 & -> & [_ Ho] & Hgr); [lia|].
  destruct (IH b1) as (os & b' & -> & Hos & Hgr').
  { apply Hgr. } { pose proof (gr_used _ _ _ Hgr). lia. }
  exists (o :: os), b'. split_and!; [done| |by eapply grew_trans].
  constructor; [|done]. eapply rep_mono; [apply (gr_built _ _ _ Hgr')|done].
Qed.

Lemma makes_vector l b :
  Forall (λ a, ∀ b, makes rep (f a) (cost a) (Some a) b) l →
  makes (rep_list rep) (build_vector l) (list_cost l + (4 * zlen l + 8)) (Some l) b.
Proof.
  intros Hall. split. intros Hb Hu. unfold build_vector. pose proof (zlen_nonneg l) as Hl.
  destruct (makes_each l b Hall Hb) as (os & b1 & -> & Hos & Hgr); [lia|].
  assert (zlen os = zlen l) as Hlen by (unfold zlen; by rewrite (Forall2_length _ _ _ Hos)).
  destruct (lib_vector os b1) as (o & b' & -> & Ho & Hc & Hv & Hp & Hu'); [apply Hgr| | |].
  { eapply Forall2_Forall_l; [exact Hos|]. apply Forall_forall. intros a _ o Ha.
    by eapply rep_built. }
  { pose proof (gr_used _ _ _ Hgr). lia. }
  exists o, b'. split_and!; [done| |].
  - split; [done|]. exists os. split; [done|]. eapply Forall2_impl; [exact Hos|].
    intros o' a. by apply rep_mono.
  - eapply grew_trans; [done|]. split; [done|done|lia].
Qed.
End MakesList.
End Building.

(** ** The tables

    [fields_X b fs t]: the fields [fs] of a table in [b] are those of [t]. *)

Lemma distinct (l : list voffset) : bool_decide (NoDup l) = true → NoDup l.
Proof. by intros ?%bool_decide_eq_true. Qed.

Ltac fields_mono_tac fields :=
  intros b b' fs t Hp HP; unfold fields in *; repeat match goal with H : _ ∧ _ |- _ => destruct H end;
  split_and?; first [done | eapply has_ref_mono; [apply _|exact Hp|done]].

(** The fields a [Create...] function adds, each once, are those of the table. *)
Ltac created fields :=
  let b' := fresh "b'" in let Hp := fresh "Hp" in
  intros b' Hp; unfold fields; repeat match goal with |- _ ∧ _ => split end;
  first
    [ done
    | apply fields_scalar; [apply distinct; reflexivity|repeat constructor]
    | eapply fields_has_ref; [|apply distinct; reflexivity|repeat constructor|exact Hp|eassumption];
      apply _ ].

Ltac adds_ok :=
  repeat apply Forall_cons_2; [..|apply Forall_nil_2];
  first
    [ eapply opt_ref_ok; [|done|eassumption]; apply _
    | split; [done|split; [unfold scalar_size; simpl; lia|first [done|by case_match]]] ].

Ltac create fields adds last :=
  eapply makes_mono;
  [apply (makes_table _ _ adds last); [reflexivity|reflexivity|reflexivity|adds_ok|created fields]|done].

Section Tables.
Context `{FlatBuffersLib, !FlatBuffersLibSpec}.
Implicit Types (b : Builder) (o : Offset) (fs : list (voffset * FbField)).

Definition fields_UserInfo b fs (t : UserInfo) : Prop :=
  get_scalar 4 UserInfo.VT_USER_ID 0 fs = Some (ui_user_id t)
  ∧ has_ref rep_string b fs UserInfo.VT_DISPLAY_NAME (ui_display_name t).
Definition rep_UserInfo := rep_table fields_UserInfo.
#[export] Instance fields_UserInfo_mono : RepFields fields_UserInfo.
Proof. fields_mono_tac fields_UserInfo. Qed.
#[export] Instance rep_UserInfo_rep : Rep rep_UserInfo.
Proof. unfold rep_UserInfo. apply _. Qed.
Lemma makes_CreateUserInfo (user_id : Z) o_display_name display_name b :
  is_u32 user_id → opt_ref rep_string b o_display_name display_name → 
  makes rep_UserInfo (UserInfo.CreateUserInfo user_id o_display_name) 37 (Some (mkUserInfo user_id display_name)) b.
Proof. intros. create fields_UserInfo [AddO UserInfo.VT_DISPLAY_NAME o_display_name; AddE 4 UserInfo.VT_USER_ID user_id] 6. Qed.

Definition fields_RoomInfo b fs (t : RoomInfo) : Prop :=
  get_scalar 4 RoomInfo.VT_ROOM_ID 0 fs = Some (ri_room_id t)
  ∧ has_ref rep_string b fs RoomInfo.VT_ROOM_NAME (ri_room_name t)
  ∧ get_scalar 4 RoomInfo.VT_USER_COUNT 0 fs = Some (ri_user_count t).
Definition rep_RoomInfo := rep_table fields_RoomInfo.
#[export] Instance fields_RoomInfo_mono : RepFields fields_RoomInfo.
Proof. fields_mono_tac fields_RoomInfo. Qed.
#[export] Instance rep_RoomInfo_rep : Rep rep_RoomInfo.
Proof. unfold rep_RoomInfo. apply _. Qed.
Lemma makes_CreateRoomInfo (room_id : Z) o_room_name room_name (user_count : Z) b :
  is_u32 room_id → opt_ref rep_string b o_room_name room_name → is_u32 user_count → 
  makes rep_RoomInfo (RoomInfo.CreateRoomInfo room_id o_room_name user_count) 50 (Some (mkRoomInfo room_id room_name user_count)) b.
Proof. intros. create fields_RoomInfo [AddE 4 RoomInfo.VT_USER_COUNT user_count; AddO RoomInfo.VT_ROOM_NAME o_room_name; AddE 4 RoomInfo.VT_ROOM_ID room_id] 8. Qed.

Definition fields_LoginRequest b fs (t : LoginRequest) : Prop :=
  has_ref rep_string b fs LoginRequest.VT_DISPLAY_NAME (lq_display_name t).
Definition rep_LoginRequest := rep_table fields_LoginRequest.
#[export] Instance fields_LoginRequest_mono : RepFields fields_LoginRequest.
Proof. fields_mono_tac fields_LoginRequest. Qed.
#[export] Instance rep_LoginRequest_rep : Rep rep_LoginRequest.
Proof. unfold rep_LoginRequest. apply _. Qed.
Lemma makes_CreateLoginRequest o_display_name display_name b :
  opt_ref rep_string b o_display_name display_name → 
  makes rep_LoginRequest (LoginRequest.CreateLoginRequest o_display_name) 24 (Some (mkLoginRequest display_name)) b.
Proof. intros. create fields_LoginRequest [AddO LoginRequest.VT_DISPLAY_NAME o_display_name] 4. Qed.

Definition fields_LoginResponse b fs (t : LoginResponse) : Prop :=
  get_scalar 1 LoginResponse.VT_SUCCESS 0 fs = Some (if lr_success t then 1 else 0)
  ∧ get_scalar 2 LoginResponse.VT_ERROR_CODE 0 fs = Some (lr_error_code t)
  ∧ has_ref rep_UserInfo b fs LoginResponse.VT_USER (lr_user t).
Definition rep_LoginResponse := rep_table fields_LoginResponse.
#[export] Instance fields_LoginResponse_mono : RepFields fields_LoginResponse.
Proof. fields_mono_tac fields_LoginResponse. Qed.
#[export] Instance rep_LoginResponse_rep : Rep rep_LoginResponse.
Proof. unfold rep_LoginResponse. apply _. Qed.
Lemma makes_CreateLoginResponse (success : bool) (error_code : Z) o_user user b :
  is_u16 error_code → opt_ref rep_UserInfo b o_user user → 
  makes rep_LoginResponse (LoginResponse.CreateLoginResponse success error_code o_user) 40 (Some (mkLoginResponse success error_code user)) b.
Proof. intros. create fields_LoginResponse [AddO LoginResponse.VT_USER o_user; AddE 2 LoginResponse.VT_ERROR_CODE error_code; AddE 1 LoginResponse.VT_SUCCESS (if success then 1 else 0)] 8. Qed.

Definition fields_RoomListRequest b fs (t : RoomListRequest) : Prop :=
  True.
Definition rep_RoomListRequest := rep_table fields_RoomListRequest.
#[export] Instance fields_RoomListRequest_mono : RepFields fields_RoomListRequest.
Proof. fields_mono_tac fields_RoomListRequest. Qed.
#[export] Instance rep_RoomListRequest_rep : Rep rep_RoomListRequest.
Proof. unfold rep_RoomListRequest. apply _. Qed.
Lemma makes_CreateRoomListRequest  b :
  makes rep_RoomListRequest (RoomListRequest.CreateRoomListRequest) 16 (Some (mkRoomListRequest)) b.
Proof. intros. create fields_RoomListRequest (@nil FieldAdd) 4. Qed.

Definition fields_RoomListResponse b fs (t : RoomListResponse) : Prop :=
  has_ref (rep_list rep_RoomInfo) b fs RoomListResponse.VT_ROOMS (rl_rooms t).
Definition rep_RoomListResponse := rep_table fields_RoomListResponse.
#[export] Instance fields_RoomListResponse_mono : RepFields fields_RoomListResponse.
Proof. fields_mono_tac fields_RoomListResponse. Qed.
#[export] Instance rep_RoomListResponse_rep : Rep rep_RoomListResponse.
Proof. unfold rep_RoomListResponse. apply _. Qed.
Lemma makes_CreateRoomListResponse o_rooms rooms b :
  opt_ref (rep_list rep_RoomInfo) b o_rooms rooms → 
  makes rep_RoomListResponse (RoomListResponse.CreateRoomListResponse o_rooms) 24 (Some (mkRoomListResponse rooms)) b.
Proof. intros. create fields_RoomListResponse [AddO RoomListResponse.VT_ROOMS o_rooms] 4. Qed.

Definition fields_JoinRoomRequest b fs (t : JoinRoomRequest) : Prop :=
  get_scalar 4 JoinRoomRequest.VT_ROOM_ID 0 fs = Some (jq_room_id t).
Definition rep_JoinRoomRequest := rep_table fields_JoinRoomRequest.
#[export] Instance fields_JoinRoomRequest_mono : RepFields fields_JoinRoomRequest.
Proof. fields_mono_tac fields_JoinRoomRequest. Qed.
#[export] Instance rep_JoinRoomRequest_rep : Rep rep_JoinRoomRequest.
Proof. unfold rep_JoinRoomRequest. apply _. Qed.
Lemma makes_CreateJoinRoomRequest (room_id : Z) b :
  is_u32 room_id → 
  makes rep_JoinRoomRequest (JoinRoomRequest.CreateJoinRoomRequest room_id) 27 (Some (mkJoinRoomRequest room_id)) b.
Proof. intros. create fields_JoinRoomRequest [AddE 4 JoinRoomRequest.VT_ROOM_ID room_id] 4. Qed.

Definition fields_JoinRoomResponse b fs (t : JoinRoomResponse) : Prop :=
  get_scalar 1 JoinRoomResponse.VT_SUCCESS 0 fs = Some (if jr_success t then 1 else 0)
  ∧ get_scalar 2 JoinRoomResponse.VT_ERROR_CODE 0 fs = Some (jr_error_code t)
  ∧ has_ref rep_RoomInfo b fs JoinRoomResponse.VT_ROOM (jr_room t).
Definition rep_JoinRoomResponse := rep_table fields_JoinRoomResponse.
#[export] Instance fields_JoinRoomResponse_mono : RepFields fields_JoinRoomResponse.
Proof. fields_mono_tac fields_JoinRoomResponse. Qed.
#[export] Instance rep_JoinRoomResponse_rep : Rep rep_JoinRoomResponse.
Proof. unfold rep_JoinRoomResponse. apply _. Qed.
Lemma makes_CreateJoinRoomResponse (success : bool) (error_code : Z) o_room room b :
  is_u16 error_code → opt_ref rep_RoomInfo b o_room room → 
  makes rep_JoinRoomResponse (JoinRoomResponse.CreateJoinRoomResponse success error_code o_room) 40 (Some (mkJoinRoomResponse success error_code room)) b.
Proof. intros. create fields_JoinRoomResponse [AddO JoinRoomResponse.VT_ROOM o_room; AddE 2 JoinRoomResponse.VT_ERROR_CODE error_code; AddE 1 JoinRoomResponse.VT_SUCCESS (if success then 1 else 0)] 8. Qed.

Definition fields_ChatSendRequest b fs (t : ChatSendRequest) : Prop :=
  has_ref rep_string b fs ChatSendRequest.VT_CONTENT (cs_content t).
Definition rep_ChatSendRequest := rep_table fields_ChatSendRequest.
#[export] Instance fields_ChatSendRequest_mono : RepFields fields_ChatSendRequest.
Proof. fields_mono_tac fields_ChatSendRequest. Qed.
#[export] Instance rep_ChatSendRequest_rep : Rep rep_ChatSendRequest.
Proof. unfold rep_ChatSendRequest. apply _. Qed.
Lemma makes_CreateChatSendRequest o_content content b :
  opt_ref rep_string b o_content content → 
  makes rep_ChatSendRequest (ChatSendRequest.CreateChatSendRequest o_content) 24 (Some (mkChatSendRequest content)) b.
Proof. intros. create fields_ChatSendRequest [AddO ChatSendRequest.VT_CONTENT o_content] 4. Qed.

Definition fields_ChatBroadcast b fs (t : ChatBroadcast) : Prop :=
  get_scalar 4 ChatBroadcast.VT_ROOM_ID 0 fs = Some (cb_room_id t)
  ∧ get_scalar 4 ChatBroadcast.VT_SENDER_ID 0 fs = Some (cb_sender_id t)
  ∧ has_ref rep_string b fs ChatBroadcast.VT_SENDER_NAME (cb_sender_name t)
  ∧ has_ref rep_string b fs ChatBroadcast.VT_CONTENT (cb_content t)
  ∧ get_scalar 8 ChatBroadcast.VT_TIMESTAMP 0 fs = Some (cb_timestamp t).
Definition rep_ChatBroadcast := rep_table fields_ChatBroadcast.
#[export] Instance fields_ChatBroadcast_mono : RepFields fields_ChatBroadcast.
Proof. fields_mono_tac fields_ChatBroadcast. Qed.
#[export] Instance rep_ChatBroadcast_rep : Rep rep_ChatBroadcast.
Proof. unfold rep_ChatBroadcast. apply _. Qed.
Lemma makes_CreateChatBroadcast (room_id : Z) (sender_id : Z) o_sender_name sender_name o_content content (timestamp : Z) b :
  is_u32 room_id → is_u32 sender_id → opt_ref rep_string b o_sender_name sender_name → opt_ref rep_string b o_content content → is_u64 timestamp → 
  makes rep_ChatBroadcast (ChatBroadcast.CreateChatBroadcast room_id sender_id o_sender_name o_content timestamp) 81 (Some (mkChatBroadcast room_id sender_id sender_name content timestamp)) b.
Proof. intros. create fields_ChatBroadcast [AddE 8 ChatBroadcast.VT_TIMESTAMP timestamp; AddO ChatBroadcast.VT_CONTENT o_content; AddO ChatBroadcast.VT_SENDER_NAME o_sender_name; AddE 4 ChatBroadcast.VT_SENDER_ID sender_id; AddE 4 ChatBroadcast.VT_ROOM_ID room_id] 12. Qed.

Definition fields_LeaveRoomRequest b fs (t : LeaveRoomRequest) : Prop :=
  True.
Definition rep_LeaveRoomRequest := rep_table fields_LeaveRoomRequest.
#[export] Instance fields_LeaveRoomRequest_mono : RepFields fields_LeaveRoomRequest.
Proof. fields_mono_tac fields_LeaveRoomRequest. Qed.
#[export] Instance rep_LeaveRoomRequest_rep : Rep rep_LeaveRoomRequest.
Proof. unfold rep_LeaveRoomRequest. apply _. Qed.
Lemma makes_CreateLeaveRoomRequest  b :
  makes rep_LeaveRoomRequest (LeaveRoomRequest.CreateLeaveRoomRequest) 16 (Some (mkLeaveRoomRequest)) b.
Proof. intros. create fields_LeaveRoomRequest (@nil FieldAdd) 4. Qed.

Definition fields_LeaveRoomResponse b fs (t : LeaveRoomResponse) : Prop :=
  get_scalar 1 LeaveRoomResponse.VT_SUCCESS 0 fs = Some (if vr_success t then 1 else 0)
  ∧ get_scalar 2 LeaveRoomResponse.VT_ERROR_CODE 0 fs = Some (vr_error_code t).
Definition rep_LeaveRoomResponse := rep_table fields_LeaveRoomResponse.
#[export] Instance fields_LeaveRoomResponse_mono : RepFields fields_LeaveRoomResponse.
Proof. fields_mono_tac fields_LeaveRoomResponse. Qed.
#[export] Instance rep_LeaveRoomResponse_rep : Rep rep_LeaveRoomResponse.
Proof. unfold rep_LeaveRoomResponse. apply _. Qed.
Lemma makes_CreateLeaveRoomResponse (success : bool) (error_code : Z) b :
  is_u16 error_code → 
  makes rep_LeaveRoomResponse (LeaveRoomResponse.CreateLeaveRoomResponse success error_code) 30 (Some (mkLeaveRoomResponse success error_code)) b.
Proof. intros. create fields_LeaveRoomResponse [AddE 2 LeaveRoomResponse.VT_ERROR_CODE error_code; AddE 1 LeaveRoomResponse.VT_SUCCESS (if success then 1 else 0)] 6. Qed.

Definition fields_DisconnectRequest b fs (t : DisconnectRequest) : Prop :=
  True.
Definition rep_DisconnectRequest := rep_table fields_DisconnectRequest.
#[export] Instance fields_DisconnectRequest_mono : RepFields fields_DisconnectRequest.
Proof. fields_mono_tac fields_DisconnectRequest. Qed.
#[export] Instance rep_DisconnectRequest_rep : Rep rep_DisconnectRequest.
Proof. unfold rep_DisconnectRequest. apply _. Qed.
Lemma makes_CreateDisconnectRequest  b :
  makes rep_DisconnectRequest (DisconnectRequest.CreateDisconnectRequest) 16 (Some (mkDisconnectRequest)) b.
Proof. intros. create fields_DisconnectRequest (@nil FieldAdd) 4. Qed.

Definition fields_DisconnectResponse b fs (t : DisconnectResponse) : Prop :=
  get_scalar 1 DisconnectResponse.VT_SUCCESS 0 fs = Some (if dr_success t then 1 else 0)
  ∧ get_scalar 2 DisconnectResponse.VT_ERROR_CODE 0 fs = Some (dr_error_code t).
Definition rep_DisconnectResponse := rep_table fields_DisconnectResponse.
#[export] Instance fields_DisconnectResponse_mono : RepFields fields_DisconnectResponse.
Proof. fields_mono_tac fields_DisconnectResponse. Qed.
#[export] Instance rep_DisconnectResponse_rep : Rep rep_DisconnectResponse.
Proof. unfold rep_DisconnectResponse. apply _. Qed.
Lemma makes_CreateDisconnectResponse (success : bool) (error_code : Z) b :
  is_u16 error_code → 
  makes rep_DisconnectResponse (DisconnectResponse.CreateDisconnectResponse success error_code) 30 (Some (mkDisconnectResponse success error_code)) b.
Proof. intros. create fields_DisconnectResponse [AddE 2 DisconnectResponse.VT_ERROR_CODE error_code; AddE 1 DisconnectResponse.VT_SUCCESS (if success then 1 else 0)] 6. Qed.

Definition fields_UserJoinedEvent b fs (t : UserJoinedEvent) : Prop :=
  get_scalar 4 UserJoinedEvent.VT_ROOM_ID 0 fs = Some (uj_room_id t)
  ∧ has_ref rep_UserInfo b fs UserJoinedEvent.VT_USER (uj_user t).
Definition rep_UserJoinedEvent := rep_table fields_UserJoinedEvent.
#[export] Instance fields_UserJoinedEvent_mono : RepFields fields_UserJoinedEvent.
Proof. fields_mono_tac fields_UserJoinedEvent. Qed.
#[export] Instance rep_UserJoinedEvent_rep : Rep rep_UserJoinedEvent.
Proof. unfold rep_UserJoinedEvent. apply _. Qed.
Lemma makes_CreateUserJoinedEvent (room_id : Z) o_user user b :
  is_u32 room_id → opt_ref rep_UserInfo b o_user user → 
  makes rep_UserJoinedEvent (UserJoinedEvent.CreateUserJoinedEvent room_id o_user) 37 (Some (mkUserJoinedEvent room_id user)) b.
Proof. intros. create fields_UserJoinedEvent [AddO UserJoinedEvent.VT_USER o_user; AddE 4 UserJoinedEvent.VT_ROOM_ID room_id] 6. Qed.

Definition fields_UserLeftEvent b fs (t : UserLeftEvent) : Prop :=
  get_scalar 4 UserLeftEvent.VT_ROOM_ID 0 fs = Some (ul_room_id t)
  ∧ has_ref rep_UserInfo b fs UserLeftEvent.VT_USER (ul_user t).
Definition rep_UserLeftEvent := rep_table fields_UserLeftEvent.
#[export] Instance fields_UserLeftEvent_mono : RepFields fields_UserLeftEvent.
Proof. fields_mono_tac fields_UserLeftEvent. Qed.
#[export] Instance rep_UserLeftEvent_rep : Rep rep_UserLeftEvent.
Proof. unfold rep_UserLeftEvent. apply _. Qed.
Lemma makes_CreateUserLeftEvent (room_id : Z) o_user user b :
  is_u32 room_id → opt_ref rep_UserInfo b o_user user → 
  makes rep_UserLeftEvent (UserLeftEvent.CreateUserLeftEvent room_id o_user) 37 (Some (mkUserLeftEvent room_id user)) b.
Proof. intros. create fields_UserLeftEvent [AddO UserLeftEvent.VT_USER o_user; AddE 4 UserLeftEvent.VT_ROOM_ID room_id] 6. Qed.

Definition fields_SystemMessageEvent b fs (t : SystemMessageEvent) : Prop :=
  get_scalar 4 SystemMessageEvent.VT_ROOM_ID 0 fs = Some (sm_room_id t)
  ∧ has_ref rep_string b fs SystemMessageEvent.VT_CONTENT (sm_content t).
Definition rep_SystemMessageEvent := rep_table fields_SystemMessageEvent.
#[export] Instance fields_SystemMessageEvent_mono : RepFields fields_SystemMessageEvent.
Proof. fields_mono_tac fields_SystemMessageEvent. Qed.
#[export] Instance rep_SystemMessageEvent_rep : Rep rep_SystemMessageEvent.
Proof. unfold rep_SystemMessageEvent. apply _. Qed.
Lemma makes_CreateSystemMessageEvent (room_id : Z) o_content content b :
  is_u32 room_id → opt_ref rep_string b o_content content → 
  makes rep_SystemMessageEvent (SystemMessageEvent.CreateSystemMessageEvent room_id o_content) 37 (Some (mkSystemMessageEvent room_id content)) b.
Proof. intros. create fields_SystemMessageEvent [AddO SystemMessageEvent.VT_CONTENT o_content; AddE 4 SystemMessageEvent.VT_ROOM_ID room_id] 6. Qed.

(** ** The union and the message *)

Definition rep_payload b o (p : Payload) : Prop :=
  match p with
  | PNone | POther _ => o = 0
  | PLoginRequest t => opt_ref rep_LoginRequest b o t
  | PLoginResponse t => opt_ref rep_LoginResponse b o t
  | PRoomListRequest t => opt_ref rep_RoomListRequest b o t
  | PRoomListResponse t => opt_ref rep_RoomListResponse b o t
  | PJoinRoomRequest t => opt_ref rep_JoinRoomRequest b o t
  | PJoinRoomResponse t => opt_ref rep_JoinRoomResponse b o t
  | PChatSendRequest t => opt_ref rep_ChatSendRequest b o t
  | PChatBroadcast t => opt_ref rep_ChatBroadcast b o t
  | PLeaveRoomRequest t => opt_ref rep_LeaveRoomRequest b o t
  | PLeaveRoomResponse t => opt_ref rep_LeaveRoomResponse b o t
  | PDisconnectRequest t => opt_ref rep_DisconnectRequest b o t
  | PDisconnectResponse t => opt_ref rep_DisconnectResponse b o t
  | PUserJoinedEvent t => opt_ref rep_UserJoinedEvent b o t
  | PUserLeftEvent t => opt_ref rep_UserLeftEvent b o t
  | PSystemMessageEvent t => opt_ref rep_SystemMessageEvent b o t
  end.

Definition has_payload b fs (vo : voffset) (p : Payload) : Prop :=
  match p with
  | PNone | POther _ => get_ref vo fs = Some None
  | PLoginRequest t => has_ref rep_LoginRequest b fs vo t
  | PLoginResponse t => has_ref rep_LoginResponse b fs vo t
  | PRoomListRequest t => has_ref rep_RoomListRequest b fs vo t
  | PRoomListResponse t => has_ref rep_RoomListResponse b fs vo t
  | PJoinRoomRequest t => has_ref rep_JoinRoomRequest b fs vo t
  | PJoinRoomResponse t => has_ref rep_JoinRoomResponse b fs vo t
  | PChatSendRequest t => has_ref rep_ChatSendRequest b fs vo t
  | PChatBroadcast t => has_ref rep_ChatBroadcast b fs vo t
  | PLeaveRoomRequest t => has_ref rep_LeaveRoomRequest b fs vo t
  | PLeaveRoomResponse t => has_ref rep_LeaveRoomResponse b fs vo t
  | PDisconnectRequest t => has_ref rep_DisconnectRequest b fs vo t
  | PDisconnectResponse t => has_ref rep_DisconnectResponse b fs vo t
  | PUserJoinedEvent t => has_ref rep_UserJoinedEvent b fs vo t
  | PUserLeftEvent t => has_ref rep_UserLeftEvent b fs vo t
  | PSystemMessageEvent t => has_ref rep_SystemMessageEvent b fs vo t
  end.

Lemma has_payload_mono b b' fs vo p : preserved b b' → has_payload b fs vo p → has_payload b' fs vo p.
Proof. intros Hp. destruct p; simpl; try done; apply has_ref_mono; try done; apply _. Qed.

Lemma fields_has_payload adds b b' vo o p :
  NoDup (add_vo <$> adds) → AddO vo o ∈ adds → preserved b b' → rep_payload b o p →
  has_payload b' (fields_of adds) vo p.
Proof.
  intros Hnd Ha Hp Hrep. destruct p; simpl in *;
    try (eapply fields_has_ref; [|exact Hnd|exact Ha|exact Hp|exact Hrep]; apply _); subst o; by apply (fields_ref adds vo 0).
Qed.

Lemma rep_payload_ok b vo o p : is_u16 vo → rep_payload b o p → add_ok b (AddO vo o).
Proof.
  intros Hvo Hrep. destruct p; simpl in Hrep; try (eapply opt_ref_ok; [|done|exact Hrep]; apply _);
    (split; [done|by left]).
Qed.

Definition fields_Message b fs (m : Message) : Prop :=
  get_scalar 4 Message.VT_REQUEST_ID 0 fs = Some (request_id m)
  ∧ get_scalar 1 Message.VT_PAYLOAD_TYPE 0 fs = Some (payload_type m)
  ∧ has_payload b fs Message.VT_PAYLOAD (payload m).
Definition rep_Message := rep_table fields_Message.
#[export] Instance fields_Message_mono : RepFields fields_Message.
Proof.
  intros b b' fs m Hp (H1 & H2 & H3). split_and!; [done|done|by eapply has_payload_mono].
Qed.

Lemma makes_CreateMessage id type o p b :
  is_u32 id → is_u8 type → type = payload_type (mkMessage id p) → rep_payload b o p →
  makes rep_Message (Message.CreateMessage id type o) 44 (Some (mkMessage id p)) b.
Proof.
  intros Hid Ht -> Hp. eapply makes_mono; [apply (makes_table _ _
    [AddO Message.VT_PAYLOAD o; AddE 4 Message.VT_REQUEST_ID id;
     AddE 1 Message.VT_PAYLOAD_TYPE (payload_type (mkMessage id p))] 8);
     [reflexivity|reflexivity|reflexivity| |]|done].
  - apply Forall_cons_2; [by eapply rep_payload_ok|]. adds_ok.
  - intros b' Hpres. split_and!;
      try (apply fields_scalar; [apply distinct; reflexivity|repeat constructor]).
    eapply fields_has_payload; [apply distinct; reflexivity|repeat constructor|done|done].
Qed.
End Tables.

(** ** What the program builds

    The payload of a message, by the [Create...] functions the program passes to
    [BuildMessage].  A union without a table has a null offset. *)

Section Messages.
Context `{FlatBuffersLib}.

Definition build_string (s : option string) : Builder → Offset * Builder :=
  from_option fbb_CreateString (pair 0) s.

Definition build_UserInfo (t : UserInfo) (b : Builder) : Offset * Builder :=
  let '(display_name, b) := build_string (ui_display_name t) b in
  UserInfo.CreateUserInfo (ui_user_id t) display_name b.

Definition build_RoomInfo (t : RoomInfo) (b : Builder) : Offset * Builder :=
  let '(room_name, b) := build_string (ri_room_name t) b in
  RoomInfo.CreateRoomInfo (ri_room_id t) room_name (ri_user_count t) b.

Definition build_LoginRequest (t : LoginRequest) (b : Builder) : Offset * Builder :=
  let '(display_name, b) := build_string (lq_display_name t) b in
  LoginRequest.CreateLoginRequest display_name b.

Definition build_LoginResponse (t : LoginResponse) (b : Builder) : Offset * Builder :=
  let '(user, b) := from_option build_UserInfo (pair 0) (lr_user t) b in
  LoginResponse.CreateLoginResponse (lr_success t) (lr_error_code t) user b.

Definition build_RoomListResponse (t : RoomListResponse) (b : Builder) : Offset * Builder :=
  let '(rooms, b) := from_option (build_vector build_RoomInfo) (pair 0) (rl_rooms t) b in
  RoomListResponse.CreateRoomListResponse rooms b.

Definition build_JoinRoomResponse (t : JoinRoomResponse) (b : Builder) : Offset * Builder :=
  let '(room, b) := from_option build_RoomInfo (pair 0) (jr_room t) b in
  JoinRoomResponse.CreateJoinRoomResponse (jr_success t) (jr_error_code t) room b.

Definition build_ChatSendRequest (t : ChatSendRequest) (b : Builder) : Offset * Builder :=
  let '(content, b) := build_string (cs_content t) b in
  ChatSendRequest.CreateChatSendRequest content b.

Definition build_ChatBroadcast (t : ChatBroadcast) (b : Builder) : Offset * Builder :=
  let '(sender_name, b) := build_string (cb_sender_name t) b in
  let '(content, b) := build_string (cb_content t) b in
  ChatBroadcast.CreateChatBroadcast (cb_room_id t) (cb_sender_id t) sender_name content
    (cb_timestamp t) b.

Definition build_UserJoinedEvent (t : UserJoinedEvent) (b : Builder) : Offset * Builder :=
  let '(user, b) := from_option build_UserInfo (pair 0) (uj_user t) b in
  UserJoinedEvent.CreateUserJoinedEvent (uj_room_id t) user b.

Definition build_UserLeftEvent (t : UserLeftEvent) (b : Builder) : Offset * Builder :=
  let '(user, b) := from_option build_UserInfo (pair 0) (ul_user t) b in
  UserLeftEvent.CreateUserLeftEvent (ul_room_id t) user b.

Definition build_SystemMessageEvent (t : SystemMessageEvent) (b : Builder) : Offset * Builder :=
  let '(content, b) := build_string (sm_content t) b in
  SystemMessageEvent.CreateSystemMessageEvent (sm_room_id t) content b.

Definition build_payload (p : Payload) : Builder → Offset * Builder :=
  match p with
  | PLoginRequest (Some t) => build_LoginRequest t
  | PLoginResponse (Some t) => build_LoginResponse t
  | PRoomListRequest (Some t) => RoomListRequest.CreateRoomListRequest
  | PRoomListResponse (Some t) => build_RoomListResponse t
  | PJoinRoomRequest (Some t) => JoinRoomRequest.CreateJoinRoomRequest (jq_room_id t)
  | PJoinRoomResponse (Some t) => build_JoinRoomResponse t
  | PChatSendRequest (Some t) => build_ChatSendRequest t
  | PChatBroadcast (Some t) => build_ChatBroadcast t
  | PLeaveRoomRequest (Some t) => LeaveRoomRequest.CreateLeaveRoomRequest
  | PLeaveRoomResponse (Some t) =>
      LeaveRoomResponse.CreateLeaveRoomResponse (vr_success t) (vr_error_code t)
  | PDisconnectRequest (Some t) => DisconnectRequest.CreateDisconnectRequest
  | PDisconnectResponse (Some t) =>
      DisconnectResponse.CreateDisconnectResponse (dr_success t) (dr_error_code t)
  | PUserJoinedEvent (Some t) => build_UserJoinedEvent t
  | PUserLeftEvent (Some t) => build_UserLeftEvent t
  | PSystemMessageEvent (Some t) => build_SystemMessageEvent t
  | _ => pair 0
  end.

Definition build_message (m : Message) : bytes :=
  let builder := fbb_new in
  let '(payload, builder) := build_payload (payload m) builder in
  let '(message, builder) :=
    Message.CreateMessage (request_id m) (payload_type m) payload builder in
  GetBuffer (FinishMessageBuffer message builder).

(** The [...Direct] functions build the values of [Schema] of the same name. *)
Lemma CreateUserInfoDirect_builds id name :
  UserInfo.CreateUserInfoDirect id (Some name) = build_UserInfo (CreateUserInfoDirect id name).
Proof. reflexivity. Qed.

Lemma CreateRoomInfoDirect_builds id name count :
  RoomInfo.CreateRoomInfoDirect id (Some name) count
  = build_RoomInfo (CreateRoomInfoDirect id name count).
Proof. reflexivity. Qed.

Lemma CreateRoomListResponseDirect_builds rooms b :
  (let '(os, b) := build_each build_RoomInfo rooms b in
   RoomListResponse.CreateRoomListResponseDirect (Some os) b)
  = build_RoomListResponse (CreateRoomListResponseDirect rooms) b.
Proof.
  unfold build_RoomListResponse, RoomListResponse.CreateRoomListResponseDirect. simpl.
  unfold build_vector. by destruct (build_each build_RoomInfo rooms b).
Qed.

Lemma CreateChatBroadcastDirect_builds room_id sender_id name content timestamp :
  ChatBroadcast.CreateChatBroadcastDirect room_id sender_id (Some name) (Some content) timestamp
  = build_ChatBroadcast (CreateChatBroadcastDirect room_id sender_id name content timestamp).
Proof. reflexivity. Qed.

Lemma CreateSystemMessageEventDirect_builds room_id content :
  SystemMessageEvent.CreateSystemMessageEventDirect room_id (Some content)
  = build_SystemMessageEvent (CreateSystemMessageEventDirect room_id content).
Proof. reflexivity. Qed.
End Messages.

(** ** It is what it should be *)

Section Built.
Context `{FlatBuffersLib, !FlatBuffersLibSpec}.
Implicit Types (b : Builder).

Lemma makes_opt {A} (rep : Builder → Offset → A → Prop) f (cost : A → Z) x b :
  (∀ a, 0 ≤ cost a) → (∀ a, x = Some a → makes rep (f a) (cost a) (Some a) b) →
  makes rep (from_option f (pair 0) x) (from_option cost 0 x) x b.
Proof. intros Hc Hf. destruct x as [a|]; simpl; [by apply Hf|apply makes_null]. Qed.

Lemma text_size_nonneg s : 0 ≤ text_size s.
Proof. destruct s; simpl; [apply zsize_nonneg|done]. Qed.

Lemma makes_text s b : makes rep_string (build_string s) (text_size s + 8) s b.
Proof.
  destruct s as [s|]; simpl; [apply makes_string|]. eapply makes_mono; [apply makes_null|lia].
Qed.

Definition user_cost (t : UserInfo) : Z := text_size (ui_display_name t) + 8 + 37.
Definition room_cost (t : RoomInfo) : Z := text_size (ri_room_name t) + 8 + 50.

Lemma user_cost_pos t : 0 ≤ user_cost t.
Proof. unfold user_cost. pose proof (text_size_nonneg (ui_display_name t)). lia. Qed.
Lemma room_cost_pos t : 0 ≤ room_cost t.
Proof. unfold room_cost. pose proof (text_size_nonneg (ri_room_name t)). lia. Qed.

Lemma makes_then {A B} (repA : Builder → Offset → A → Prop) (repB : Builder → Offset → B → Prop)
    f n1 x g n2 y n b :
  makes repA f n1 x b →
  (∀ o b', preserved b b' → opt_ref repA b' o x → makes repB (g o) n2 y b') → 0 ≤ n2 → n1 + n2 ≤ n →
  makes repB (λ b, let '(o, b) := f b in g o b) n y b.
Proof. intros Hf Hg Hn2 Hn. eapply makes_mono; [by eapply makes_bind|done]. Qed.

(** A [Create...] function after one pointer field has been built. *)
Ltac then_create field create :=
  eapply makes_then; [by apply field|intros ?o ?b' ?Hp ?Ho; by apply create|done|simpl].

Lemma makes_UserInfo t b :
  wf_user t → makes rep_UserInfo (build_UserInfo t) (user_cost t) (Some t) b.
Proof.
  intros Ht. destruct t. then_create makes_text makes_CreateUserInfo. unfold user_cost. simpl. lia.
Qed.

Lemma makes_RoomInfo t b :
  wf_room t → makes rep_RoomInfo (build_RoomInfo t) (room_cost t) (Some t) b.
Proof.
  intros [Hi Hc]. destruct t. then_create makes_text makes_CreateRoomInfo. unfold room_cost. simpl. lia.
Qed.

Lemma makes_user u b :
  from_option wf_user True u →
  makes rep_UserInfo (from_option build_UserInfo (pair 0) u) (user_text u + 45) u b.
Proof.
  intros Hu. eapply makes_mono; [apply (makes_opt _ _ user_cost)|].
  - apply user_cost_pos.
  - intros t ->. by apply makes_UserInfo.
  - unfold user_text; destruct u; simpl; unfold user_cost; lia.
Qed.

Lemma makes_room r b :
  from_option wf_room True r →
  makes rep_RoomInfo (from_option build_RoomInfo (pair 0) r) (room_text r + 58) r b.
Proof.
  intros Hr. eapply makes_mono; [apply (makes_opt _ _ room_cost)|].
  - apply room_cost_pos.
  - intros t ->. by apply makes_RoomInfo.
  - unfold room_text; destruct r; simpl; unfold room_cost; lia.
Qed.

Lemma rooms_cost l :
  list_cost room_cost l = foldr Z.add 0 ((λ r, room_text (Some r)) <$> l) + 58 * zlen l.
Proof.
  induction l as [|r l IH]; [done|]. unfold list_cost, zlen in *. rewrite !fmap_cons. cbn [foldr length].
  rewrite IH. unfold room_cost, room_text. simpl. lia.
Qed.

Lemma makes_rooms rooms b :
  from_option (Forall wf_room) True rooms →
  makes (rep_list rep_RoomInfo) (from_option (build_vector build_RoomInfo) (pair 0) rooms)
    (foldr Z.add 0 ((λ r, room_text (Some r)) <$> default [] rooms) + 64 * zlen (default [] rooms) + 8)
    rooms b.
Proof.
  intros Hall. destruct rooms as [l|]; cbn [default from_option] in *.
  - eapply makes_mono; [apply (makes_vector _ _ room_cost room_cost_pos)|].
    + eapply Forall_impl; [exact Hall|]. intros r Hr b'. by apply makes_RoomInfo.
    + rewrite rooms_cost. unfold id. pose proof (zlen_nonneg l). lia.
  - eapply makes_mono; [apply makes_null|done].
Qed.

Definition payload_cost (p : Payload) : Z := 192 + payload_text p + 64 * payload_rooms p.

(** A table of the union, as one of its values. *)
Lemma makes_alternative {A} (rep : Builder → Offset → A → Prop) f t (inject : option A → Payload) b :
  makes rep f (payload_cost (inject t)) t b →
  (∀ b o, rep_payload b o (inject t) = opt_ref rep b o t) → closed_bld b →
  used b + payload_cost (inject t) < FLATBUFFERS_MAX_BUFFER_SIZE →
  ∃ o b', f b = (o, b') ∧ rep_payload b' o (inject t) ∧ grew b b' (payload_cost (inject t)).
Proof.
  intros [Hf] Hrep Hb Hu. destruct (Hf Hb Hu) as (o & b' & -> & Ho & Hgr). exists o, b'. by rewrite Hrep.
Qed.

Ltac alternative inject tac :=
  eapply (makes_alternative _ _ _ inject); [tac|reflexivity|done|done];
  unfold payload_cost, payload_text, payload_rooms; simpl; lia.
Ltac direct create := eapply makes_mono; [by apply create|].

Lemma makes_ChatBroadcast t b :
  wf_payload (PChatBroadcast (Some t)) →
  makes rep_ChatBroadcast (build_ChatBroadcast t)
    (text_size (cb_sender_name t) + text_size (cb_content t) + 97) (Some t) b.
Proof.
  intros (Hr & Hs & Ht). destruct t. pose proof (text_size_nonneg cb_content) as Hc.
  eapply (makes_then _ _ _ _ _ _ (text_size cb_content + 89)); [by apply makes_text| | |].
  - intros o b1 _ Ho. eapply (makes_then _ _ _ _ _ _ 81); [by apply makes_text| |done|simpl; lia].
    intros o' b2 Hp Ho'. apply makes_CreateChatBroadcast; try done. by eapply (opt_ref_mono _ b1).
  - lia.
  - simpl. lia.
Qed.

Lemma makes_payload p b :
  wf_payload p → closed_bld b → used b + payload_cost p < FLATBUFFERS_MAX_BUFFER_SIZE →
  ∃ o b', build_payload p b = (o, b') ∧ rep_payload b' o p ∧ grew b b' (payload_cost p).
Proof.
  intros Hwf Hb Hu.
  destruct p as [|[t|]|[t|]|[t|]|[t|]|[t|]|[t|]|[t|]|[t|]|[t|]|[t|]|[t|]|[t|]|[t|]|[t|]|[t|]|tag];
    try (exists 0, b; split_and!; [done|done|]; split; [done|by intros o x|];
         unfold payload_cost; simpl; lia);
    try (destruct t); simpl in Hwf;
    try (match goal with H : _ ∧ _ |- _ => destruct H end).
  - alternative PLoginRequest ltac:(then_create makes_text makes_CreateLoginRequest).
  - alternative PLoginResponse ltac:(then_create makes_user makes_CreateLoginResponse).
  - alternative PRoomListRequest ltac:(direct makes_CreateRoomListRequest).
  - alternative PRoomListResponse ltac:(then_create makes_rooms makes_CreateRoomListResponse).
  - alternative PJoinRoomRequest ltac:(direct makes_CreateJoinRoomRequest).
  - alternative PJoinRoomResponse ltac:(then_create makes_room makes_CreateJoinRoomResponse).
  - alternative PChatSendRequest ltac:(then_create makes_text makes_CreateChatSendRequest).
  - alternative PChatBroadcast ltac:(direct makes_ChatBroadcast).
  - alternative PLeaveRoomRequest ltac:(direct makes_CreateLeaveRoomRequest).
  - alternative PLeaveRoomResponse ltac:(direct makes_CreateLeaveRoomResponse).
  - alternative PDisconnectRequest ltac:(direct makes_CreateDisconnectRequest).
  - alternative PDisconnectResponse ltac:(direct makes_CreateDisconnectResponse).
  - alternative PUserJoinedEvent ltac:(then_create makes_user makes_CreateUserJoinedEvent).
  - alternative PUserLeftEvent ltac:(then_create makes_user makes_CreateUserLeftEvent).
  - alternative PSystemMessageEvent ltac:(then_create makes_text makes_CreateSystemMessageEvent).
Qed.

Lemma payload_type_u8 id p : wf_payload p → is_u8 (payload_type (mkMessage id p)).
Proof. unfold in_range. change (2 ^ 8) with 256. destruct p; intros Hp; first [by vm_compute | unfold payload_type; simpl in *; lia]. Qed.

(** A finished message: its root table, and its size. *)
Theorem build_message_built m :
  wf_message m →
  ∃ b root, build_message m = GetBuffer b ∧ finished b root ∧ rep_Message b root m
    ∧ wf_bytes (GetBuffer b) ∧ 0 < zlen (GetBuffer b) ≤ message_bound m.
Proof.
  intros (Hid & Hpl & Hsize). unfold message_bound in *. destruct lib_new as [Hnew Hnil].
  destruct (makes_payload (payload m) fbb_new) as (o & b1 & Hb1 & Ho & Hgr1); [done..| |].
  { unfold payload_cost, FLATBUFFERS_MAX_BUFFER_SIZE. lia. }
  destruct m as [id p]. simpl in *.
  destruct (makes_CreateMessage id (payload_type (mkMessage id p)) o p b1) as [Hm]; [done| |done|done|].
  { by apply payload_type_u8. }
  destruct Hm as (root & b2 & Hb2 & [Hroot Hrep] & Hgr2); [apply Hgr1| |].
  { pose proof (gr_used _ _ _ Hgr1). unfold payload_cost, FLATBUFFERS_MAX_BUFFER_SIZE in *. lia. }
  destruct Hrep as (fs & Hbt & Hfs).
  pose proof (gr_used _ _ _ Hgr1). pose proof (gr_used _ _ _ Hgr2).
  destruct (lib_finish root fs b2) as (Hfin & Hp & Hwf & Hlen); [apply Hgr2|done| |].
  { unfold payload_cost, FLATBUFFERS_MAX_BUFFER_SIZE in *. lia. }
  exists (fbb_Finish root b2), root. split_and!; [|done| |done| |].
  - unfold build_message. simpl. rewrite Hb1. cbn [payload_type payload request_id] in *. rewrite Hb2. done.
  - exists fs. split; [by apply Hp|by eapply fields_mono].
  - lia.
  - unfold payload_cost in *. lia.
Qed.
End Built.
