(* ===== verification/MessagesRoundtrip.v ===== *)
(** * What the generated code writes can be verified and read back

    Every [Verify] accepts the tables of [MessagesBuilding] and every reader of
    [MessagesSafety] yields the value they stand for; so the generated code, over
    any library that satisfies [FlatBuffersLibSpec], is an instance of the
    interface [FlatBuffers] that the rest of the development uses. *)

From S2P Require Import Prelude Schema FlatBuffersLib MessagesGenerated MessagesSafety MessagesBuilding.

(** ** Accepted verification steps *)

Section Accept.
Context `{FlatBuffersLib, !FlatBuffersLibSpec}.

(** [m] accepts, with [h] levels of depth and [n] tables to spare. *)
Definition accepts (n h : Z) (m : Verification) : Prop := ∀ v,
  depth v + h ≤ max_depth → tables v + n ≤ max_tables →
  ∃ v', m v = Some (true, v') ∧ depth v' = depth v ∧ tables v' ≤ tables v + n.

(** The rest of a table, up to its [EndTable]. *)
Definition accepts_end (n h : Z) (ms : list Verification) : Prop := ∀ v,
  depth v + h ≤ max_depth → tables v + n ≤ max_tables →
  ∃ v', verify_and ms v = Some (true, v') ∧ depth v' = depth v - 1 ∧ tables v' ≤ tables v + n.

Lemma accepts_true h m : (∀ v, m v = Some (true, v)) → accepts 0 h m.
Proof. intros Hm v _ _. exists v. split_and!; [done|done|lia]. Qed.

Lemma accepts_ext n h m m' : (∀ v, m v = m' v) → accepts n h m' → accepts n h m.
Proof. intros Hm Hm' v Hd Ht. rewrite Hm. by apply Hm'. Qed.

Lemma accepts_weaken n h n' h' m : accepts n h m → n ≤ n' → h ≤ h' → accepts n' h' m.
Proof.
  intros Hm Hn Hh v Hd Ht. destruct (Hm v) as (v' & ? & ? & ?); [lia|lia|].
  exists v'. split_and!; [done|done|lia].
Qed.

Lemma accepts_end_nil h : accepts_end 0 h [Verifier_EndTable].
Proof.
  intros v _ _. destruct (lib_end_table v) as (v' & Hv & Hd & Ht). exists v'. simpl. rewrite Hv. simpl.
  split_and!; [done|done|lia].
Qed.

Lemma accepts_end_cons n1 n2 h m ms :
  0 ≤ n2 → accepts n1 h m → accepts_end n2 h ms → accepts_end (n1 + n2) h (m :: ms).
Proof.
  intros Hn Hm Hms v Hd Ht. destruct (Hm v) as (v1 & Hv1 & Hd1 & Ht1); [lia|lia|].
  destruct (Hms v1) as (v2 & Hv2 & Hd2 & Ht2); [lia|lia|].
  exists v2. simpl. rewrite Hv1. simpl. split_and!; [done|lia|lia].
Qed.

Lemma accepts_end_last n h m : accepts n h m → accepts_end n h [m; Verifier_EndTable].
Proof.
  intros Hm. replace n with (n + 0) by lia. apply accepts_end_cons; [done|done|apply accepts_end_nil].
Qed.

(** A step that accepts and changes nothing. *)
Lemma accepts_end_true n h m ms :
  (∀ v, m v = Some (true, v)) → accepts_end n h ms → accepts_end n h (m :: ms).
Proof. intros Hm Hms v Hd Ht. simpl. rewrite Hm. simpl. by apply Hms. Qed.

Lemma accepts_each (f : Pointer → Verification) (ps : list Pointer) (n h : Z) :
  Forall (λ p, accepts n h (f p)) ps → 0 ≤ n → accepts (n * zlen ps) h (verify_each f ps).
Proof.
  intros Hall Hn. induction Hall as [|p ps Hp Hps IH]; intros v Hd Ht.
  { exists v. split_and!; [done|done|]. unfold zlen. simpl. lia. }
  assert (zlen (p :: ps) = zlen ps + 1) as Hlen by (unfold zlen; simpl; lia). rewrite Hlen in *.
  pose proof (zlen_nonneg ps).
  destruct (Hp v) as (v1 & Hv1 & Hd1 & Ht1); [lia|nia|].
  destruct (IH v1) as (v2 & Hv2 & Hd2 & Ht2); [lia|nia|].
  exists v2. simpl. rewrite Hv1. simpl. split_and!; [done|lia|nia].
Qed.

Section Finished.
Context (b : Builder) (root : Offset) (Hfin : finished b root).
Local Abbreviation buf := (GetBuffer b).
Local Abbreviation ptr := (place (GetBuffer b)).

Lemma accepts_table o fs n h ms :
  built b o (FbTable fs) → 0 ≤ n → 0 ≤ h → accepts_end n h ms →
  accepts (1 + n) (h + 1) (verify_and (VerifyTableStart buf (ptr o) :: ms)).
Proof.
  intros Hb Hn Hh Hms v Hd Ht.
  destruct (lib_table_start b root o fs v Hfin Hb) as (v1 & Hv1 & Hd1 & Ht1); [lia|lia|].
  destruct (Hms v1) as (v2 & Hv2 & Hd2 & Ht2); [lia|lia|].
  exists v2. simpl. rewrite Hv1. simpl. split_and!; [done|lia|lia].
Qed.

(** ** A table that reads back *)

Record good_table {A} (rep : Builder → Offset → A → Prop) (read : bytes → Pointer → option A)
    (Verify : bytes → Pointer → Verification) (n : A → Z) (h : Z) : Prop := {
  gt_count a : 0 ≤ n a;
  gt_read o a : rep b o a → read buf (ptr o) = Some a;
  gt_verify o a : rep b o a → accepts (n a) h (Verify buf (ptr o));
}.

Lemma has_scalar o fs size vo z :
  built b o (FbTable fs) → get_scalar size vo 0 fs = Some z →
  GetField size buf (ptr o) vo 0 = Some z ∧ ∀ v, VerifyField size buf (ptr o) vo size v = Some (true, v).
Proof. by apply (lib_field b root). Qed.

Lemma has_pointer {A} (rep : Builder → Offset → A → Prop) o fs vo x :
  built b o (FbTable fs) → has_ref rep b fs vo x →
  ∃ r, GetPointer buf (ptr o) vo = Some (ptr <$> r)
    ∧ (∀ v, VerifyOffset buf (ptr o) vo v = Some (true, v))
    ∧ match r, x with None, None => True | Some o, Some a => rep b o a | _, _ => False end.
Proof.
  intros Hb (r & Hr & Hx). exists r. destruct (lib_pointer b root o fs vo r) as [Hp Hv]; [done..|].
  by split_and!.
Qed.

Lemma has_string o fs vo x :
  built b o (FbTable fs) → has_ref rep_string b fs vo x →
  ∃ q, GetPointer buf (ptr o) vo = Some q ∧ read_opt (String_str buf) q = Some x
    ∧ (∀ v, VerifyOffset buf (ptr o) vo v = Some (true, v)) ∧ (∀ v, VerifyString buf q v = Some (true, v)).
Proof.
  intros Hb (r & Hr & Hv & Hx)%(has_pointer _ o); [|done]. exists (ptr <$> r).
  destruct r as [o'|], x as [s|]; simpl in *; try done.
  - destruct (lib_str b root o' s) as [Hs Hvs]; [done..|]. by rewrite Hs.
  - split_and!; [done..|]. intros v. apply lib_null_string.
Qed.

Section OneTable.
Context {A : Type} (rep : Builder → Offset → A → Prop) (read : bytes → Pointer → option A)
  (Verify : bytes → Pointer → Verification) (n : A → Z) (h : Z)
  (Hgood : good_table rep read Verify n h).

Lemma has_table o fs vo x :
  built b o (FbTable fs) → has_ref rep b fs vo x →
  ∃ q, GetPointer buf (ptr o) vo = Some q ∧ read_opt (read buf) q = Some x
    ∧ (∀ v, VerifyOffset buf (ptr o) vo v = Some (true, v))
    ∧ accepts (from_option n 0 x) h (VerifyTable (Verify buf) q).
Proof.
  intros Hb (r & Hr & Hv & Hx)%(has_pointer _ o); [|done]. exists (ptr <$> r).
  destruct r as [o'|], x as [a|]; simpl in *; try done.
  - rewrite (gt_read _ _ _ _ _ Hgood o' a Hx). split_and!; [done..|].
    eapply accepts_ext; [intros v; apply lib_table|]. by apply (gt_verify _ _ _ _ _ Hgood).
  - split_and!; [done..|]. apply accepts_true. intros v. by rewrite lib_table.
Qed.

Lemma has_tables o fs vo x N :
  built b o (FbTable fs) → has_ref (rep_list rep) b fs vo x → (∀ a, n a ≤ N) → 0 ≤ N →
  ∃ q, GetPointer buf (ptr o) vo = Some q ∧ read_opt (read_tables read buf) q = Some x
    ∧ (∀ v, VerifyOffset buf (ptr o) vo v = Some (true, v)) ∧ (∀ v, VerifyVector buf q v = Some (true, v))
    ∧ accepts (N * zlen (default [] x)) h (VerifyVectorOfTables buf (Verify buf) q).
Proof.
  intros Hb (r & Hr & Hv & Hx)%(has_pointer _ o) HN HN0; [|done]. exists (ptr <$> r).
  destruct r as [o'|], x as [l|]; simpl in *; try done.
  - destruct Hx as (os & Hos & Hl). destruct (lib_elements b root o' os) as [Hel Hvv]; [done..|].
    unfold read_tables. rewrite Hel. simpl. split_and!; [done| |done|done|].
    + apply fmap_Some. exists l. split; [|done]. apply mapM_Some, Forall2_fmap_l.
      eapply Forall2_impl; [exact Hl|]. intros o1 a Ha. by apply (gt_read _ _ _ _ _ Hgood).
    + destruct (lib_tables buf (Verify buf) (ptr o')) as (ps & Hps & Heq); [by exists verifier_new, verifier_new|].
      rewrite Hel in Hps. injection Hps as <-. eapply accepts_ext; [exact Heq|].
      assert (zlen (ptr <$> os) = zlen l) as Hlen.
      { unfold zlen. rewrite length_fmap. by rewrite (Forall2_length _ _ _ Hl). }
      pose proof (accepts_each (Verify buf) (ptr <$> os) N h) as Hacc. rewrite Hlen in Hacc.
      apply Hacc; [|done]. apply Forall_fmap. eapply Forall2_Forall_l; [exact Hl|].
      apply Forall_forall. intros a _ o1 Ha. simpl.
      eapply accepts_weaken; [by apply (gt_verify _ _ _ _ _ Hgood o1 a)|apply HN|lia].
  - split_and!; [done..| |].
    + intros v. apply lib_null_vector.
    + eapply accepts_weaken; [apply accepts_true; intros v; apply lib_null_tables| |reflexivity].
      unfold zlen. simpl. lia.
Qed.
End OneTable.

(** *** Every table *)

Create HintDb good_tables.

(** What a field of the table at [o] yields to the accessors and the verifier. *)
Ltac fields_of_table :=
  repeat match goal with
  | H : _ ∧ _ |- _ => destruct H
  | Hb : built b ?o (FbTable ?fs), H : get_scalar _ _ _ ?fs = Some _ |- _ =>
      apply (has_scalar o fs _ _ _ Hb) in H as [? ?]
  | Hb : built b ?o (FbTable ?fs), H : has_ref rep_string b ?fs _ _ |- _ =>
      apply (has_string o fs _ _ Hb) in H as (? & ? & ? & ? & ?)
  | Hb : built b ?o (FbTable ?fs), H : has_ref (rep_list _) b ?fs _ _ |- _ =>
      eapply (has_tables _ _ _ _ _) with (N := 1) in H as (? & ? & ? & ? & ? & ?);
      [|eauto with good_tables|exact Hb|done|done]
  | Hb : built b ?o (FbTable ?fs), H : has_ref _ b ?fs _ _ |- _ =>
      eapply (has_table _ _ _ _ _) in H as (? & ? & ? & ? & ?); [|eauto with good_tables|exact Hb]
  end.

Ltac reads_back :=
  repeat match goal with
  | H : GetField _ _ _ _ _ = Some _ |- _ => rewrite H; rewrite ?bind_Some; clear H
  | H : GetPointer _ _ _ = Some _ |- _ => rewrite H; rewrite ?bind_Some; clear H
  | H : read_opt _ _ = Some _ |- _ => rewrite H; rewrite ?bind_Some; clear H
  end.

Ltac accepted :=
  repeat match goal with H : GetPointer _ _ _ = Some _ |- _ => rewrite H; clear H end;
  repeat first
    [ apply (accepts_end_nil 0)
    | apply accepts_end_true; [assumption|]
    | apply accepts_end_last; eassumption ].

(** The tables and levels a table needs; levels not fixed by a nested table are none. *)
Ltac budget :=
  try reflexivity;
  match goal with
  | |- context [from_option (λ _, 1) 0 ?x] => destruct x; simpl; lia
  | |- context [zlen ?l] => pose proof (zlen_nonneg l); lia
  | |- _ => lia
  end.

Tactic Notation "good_table_tac" reference(T) reference(read) reference(fields) :=
  split;
  [ intros ?; budget
  | intros o t (fs & Hb & HP); unfold fields in HP; unfold read; autounfold with accessors;
    fields_of_table; reads_back; destruct t; simpl; try case_match; reflexivity
  | intros o t (fs & Hb & HP); unfold fields in HP; unfold T; autounfold with accessors;
    fields_of_table; eapply accepts_weaken;
    [eapply (accepts_table o fs); [exact Hb| | |accepted]|..]; budget ].

Lemma UserInfo_good : good_table rep_UserInfo read_UserInfo UserInfo.Verify (λ _, 1) 1.
Proof. good_table_tac UserInfo.Verify read_UserInfo fields_UserInfo. Qed.
#[local] Hint Resolve UserInfo_good : good_tables.
Lemma RoomInfo_good : good_table rep_RoomInfo read_RoomInfo RoomInfo.Verify (λ _, 1) 1.
Proof. good_table_tac RoomInfo.Verify read_RoomInfo fields_RoomInfo. Qed.
#[local] Hint Resolve RoomInfo_good : good_tables.
Lemma LoginRequest_good : good_table rep_LoginRequest read_LoginRequest LoginRequest.Verify (λ _, 1) 1.
Proof. good_table_tac LoginRequest.Verify read_LoginRequest fields_LoginRequest. Qed.
Lemma LoginResponse_good : good_table rep_LoginResponse read_LoginResponse LoginResponse.Verify (λ _, 2) 2.
Proof. good_table_tac LoginResponse.Verify read_LoginResponse fields_LoginResponse. Qed.
Lemma RoomListRequest_good : good_table rep_RoomListRequest read_RoomListRequest RoomListRequest.Verify (λ _, 1) 1.
Proof. good_table_tac RoomListRequest.Verify read_RoomListRequest fields_RoomListRequest. Qed.
Lemma RoomListResponse_good : good_table rep_RoomListResponse read_RoomListResponse RoomListResponse.Verify (λ t, 1 + zlen (default [] (rl_rooms t))) 2.
Proof. good_table_tac RoomListResponse.Verify read_RoomListResponse fields_RoomListResponse. Qed.
Lemma JoinRoomRequest_good : good_table rep_JoinRoomRequest read_JoinRoomRequest JoinRoomRequest.Verify (λ _, 1) 1.
Proof. good_table_tac JoinRoomRequest.Verify read_JoinRoomRequest fields_JoinRoomRequest. Qed.
Lemma JoinRoomResponse_good : good_table rep_JoinRoomResponse read_JoinRoomResponse JoinRoomResponse.Verify (λ _, 2) 2.
Proof. good_table_tac JoinRoomResponse.Verify read_JoinRoomResponse fields_JoinRoomResponse. Qed.
Lemma ChatSendRequest_good : good_table rep_ChatSendRequest read_ChatSendRequest ChatSendRequest.Verify (λ _, 1) 1.
Proof. good_table_tac ChatSendRequest.Verify read_ChatSendRequest fields_ChatSendRequest. Qed.
Lemma ChatBroadcast_good : good_table rep_ChatBroadcast read_ChatBroadcast ChatBroadcast.Verify (λ _, 1) 1.
Proof. good_table_tac ChatBroadcast.Verify read_ChatBroadcast fields_ChatBroadcast. Qed.
Lemma LeaveRoomRequest_good : good_table rep_LeaveRoomRequest read_LeaveRoomRequest LeaveRoomRequest.Verify (λ _, 1) 1.
Proof. good_table_tac LeaveRoomRequest.Verify read_LeaveRoomRequest fields_LeaveRoomRequest. Qed.
Lemma LeaveRoomResponse_good : good_table rep_LeaveRoomResponse read_LeaveRoomResponse LeaveRoomResponse.Verify (λ _, 1) 1.
Proof. good_table_tac LeaveRoomResponse.Verify read_LeaveRoomResponse fields_LeaveRoomResponse. Qed.
Lemma DisconnectRequest_good : good_table rep_DisconnectRequest read_DisconnectRequest DisconnectRequest.Verify (λ _, 1) 1.
Proof. good_table_tac DisconnectRequest.Verify read_DisconnectRequest fields_DisconnectRequest. Qed.
Lemma DisconnectResponse_good : good_table rep_DisconnectResponse read_DisconnectResponse DisconnectResponse.Verify (λ _, 1) 1.
Proof. good_table_tac DisconnectResponse.Verify read_DisconnectResponse fields_DisconnectResponse. Qed.
Lemma UserJoinedEvent_good : good_table rep_UserJoinedEvent read_UserJoinedEvent UserJoinedEvent.Verify (λ _, 2) 2.
Proof. good_table_tac UserJoinedEvent.Verify read_UserJoinedEvent fields_UserJoinedEvent. Qed.
Lemma UserLeftEvent_good : good_table rep_UserLeftEvent read_UserLeftEvent UserLeftEvent.Verify (λ _, 2) 2.
Proof. good_table_tac UserLeftEvent.Verify read_UserLeftEvent fields_UserLeftEvent. Qed.
Lemma SystemMessageEvent_good : good_table rep_SystemMessageEvent read_SystemMessageEvent SystemMessageEvent.Verify (λ _, 1) 1.
Proof. good_table_tac SystemMessageEvent.Verify read_SystemMessageEvent fields_SystemMessageEvent. Qed.
#[local] Hint Resolve LoginRequest_good LoginResponse_good RoomListRequest_good RoomListResponse_good JoinRoomRequest_good JoinRoomResponse_good ChatSendRequest_good ChatBroadcast_good LeaveRoomRequest_good LeaveRoomResponse_good DisconnectRequest_good DisconnectResponse_good UserJoinedEvent_good UserLeftEvent_good SystemMessageEvent_good : good_tables.

(** *** The union and the message *)

(** A tag outside the union. *)
Lemma other_read q tag :
  16 ≤ tag → read_payload buf q tag = Some (POther tag)
    ∧ VerifyMessagePayload buf q tag = λ v, Some (true, v).
Proof.
  intros Ht. assert (∀ k, k < 16 → (tag =? k) = false) as Hk.
  { intros k Hk. apply Z.eqb_neq. lia. }
  unfold read_payload, VerifyMessagePayload. by rewrite !Hk.
Qed.

(** An alternative of the union, from its table. *)
Lemma good_alternative {A} rep read Verify n h (t : option A) (inject : option A → Payload) tag o fs vo :
  @good_table A rep read Verify n h → built b o (FbTable fs) → has_ref rep b fs vo t →
  (∀ q, read_payload buf q tag = inject <$> read_opt (read buf) q) →
  (∀ q, VerifyMessagePayload buf q tag = VerifyTable (Verify buf) q) → h ≤ 2 →
  from_option n 0 t ≤ 2 + payload_rooms (inject t) →
  ∃ q, GetPointer buf (ptr o) vo = Some q ∧ read_payload buf q tag = Some (inject t)
    ∧ (∀ v, VerifyOffset buf (ptr o) vo v = Some (true, v))
    ∧ accepts (2 + payload_rooms (inject t)) 2 (VerifyMessagePayload buf q tag).
Proof.
  intros Hgood Hb Ht Hread Hverify Hh Hn.
  destruct (has_table _ _ _ _ _ Hgood o fs vo t Hb Ht) as (q & Hq & Hr & Ho & Hv).
  exists q. rewrite Hread, Hverify, Hr. split_and!; [done..|]. by eapply accepts_weaken.
Qed.

Lemma has_union o fs vo id p :
  built b o (FbTable fs) → has_payload b fs vo p → wf_payload p →
  ∃ q, GetPointer buf (ptr o) vo = Some q
    ∧ read_payload buf q (payload_type (mkMessage id p)) = Some p
    ∧ (∀ v, VerifyOffset buf (ptr o) vo v = Some (true, v))
    ∧ accepts (2 + payload_rooms p) 2 (VerifyMessagePayload buf q (payload_type (mkMessage id p))).
Proof.
  intros Hb Hp Hwf.
  destruct p; simpl in Hp;
    try (eapply good_alternative; [eauto with good_tables|exact Hb|exact Hp|reflexivity|reflexivity|done|];
         destruct t as [t|]; unfold payload_rooms; simpl; [|done];
         try match goal with |- context [zlen ?l] => pose proof (zlen_nonneg l) end; lia).
  - destruct (lib_pointer b root o fs vo None Hfin Hb Hp) as [Hq Hv]. exists None.
    split_and!; [done..|]. eapply accepts_weaken; [by apply accepts_true|done|reflexivity].
  - destruct (lib_pointer b root o fs vo None Hfin Hb Hp) as [Hq Hv]. exists None.
    destruct (other_read None tag) as [Hr Hvp]; [apply Hwf|].
    change (payload_type (mkMessage id (POther tag))) with tag. rewrite Hr, Hvp.
    split_and!; [done..|]. eapply accepts_weaken; [by apply accepts_true|done|reflexivity].
Qed.

Lemma Message_read o m :
  rep_Message b o m → wf_payload (payload m) → read_message buf (ptr o) = Some m.
Proof.
  intros (fs & Hb & Hid & Ht & Hp) Hwf. destruct m as [id p]. simpl in *.
  destruct (has_union o fs _ id p Hb Hp Hwf) as (q & Hq & Hr & _).
  apply (has_scalar o fs _ _ _ Hb) in Hid as [Hid _]. apply (has_scalar o fs _ _ _ Hb) in Ht as [Ht _].
  unfold read_message, Message.request_id, Message.payload_type, Message.payload.
  rewrite Hid, bind_Some, Ht, bind_Some, Hq, bind_Some. by rewrite Hr.
Qed.

Lemma Message_verify o m :
  rep_Message b o m → wf_payload (payload m) →
  accepts (3 + payload_rooms (payload m)) 3 (Message.Verify buf (ptr o)).
Proof.
  intros (fs & Hb & Hid & Ht & Hp) Hwf. destruct m as [id p]. simpl in *.
  destruct (has_union o fs _ id p Hb Hp Hwf) as (q & Hq & _ & Ho & Hv).
  apply (has_scalar o fs _ _ _ Hb) in Hid as [_ Hid]. apply (has_scalar o fs _ _ _ Hb) in Ht as [Ht Htv].
  unfold Message.Verify, Message.payload, Message.payload_type. rewrite Hq, Ht.
  assert (0 ≤ payload_rooms p) by (destruct p as [| | | |[]| | | | | | | | | | | |]; try done; apply zlen_nonneg).
  eapply accepts_weaken; [apply (accepts_table o fs (2 + payload_rooms p) 2 _ Hb); [lia|done|]|lia|done].
  do 3 (apply accepts_end_true; [assumption|]). by apply accepts_end_last.
Qed.
End Finished.
End Accept.

(** ** The generated code implements the interface *)

Section Generated.
Context `{FlatBuffersLib}.

(** [VerifiedMessage] makes a fresh verifier; [GetRoot] of a buffer that was not
    verified is left to the library, here a default. *)
Definition verify_message (data : bytes) : bool :=
  match VerifyMessageBuffer data verifier_new with Some (ok, _) => ok | None => false end.
Definition root_message (data : bytes) : Message :=
  default (mkMessage 0 PNone) (p ← GetMessage data; read_message data p).

Definition generated_flatbuffers : FlatBuffers := {|
  fb_build := build_message;
  fb_verify := verify_message;
  fb_root := root_message;
|}.

Context `{!FlatBuffersLibSpec}.

Lemma payload_text_nonneg p : 0 ≤ payload_text p.
Proof.
  assert (∀ u, 0 ≤ user_text u) as Hu by (intros [u|]; simpl; [apply text_size_nonneg|done]).
  assert (∀ r, 0 ≤ room_text r) as Hr by (intros [r|]; simpl; [apply text_size_nonneg|done]).
  assert (∀ l, 0 ≤ foldr Z.add 0 ((λ r, room_text (Some r)) <$> l)) as Hl.
  { induction l as [|r l IH]; [done|]. rewrite fmap_cons. cbn [foldr]. specialize (Hr (Some r)). lia. }
  pose proof text_size_nonneg.
  destruct p as [|[]|[]|[]|[]|[]|[]|[]|[t|]|[]|[]|[]|[]|[]|[]|[]|]; simpl payload_text; try done; auto.
  apply Z.add_nonneg_nonneg; auto.
Qed.

(** A message the program sends: its size, and what the receiver's verifier and
    accessors make of it. *)
Lemma build_message_reads m :
  wf_message m →
  wf_bytes (build_message m) ∧ 0 < zlen (build_message m) ≤ message_bound m
  ∧ (∃ v, VerifyMessageBuffer (build_message m) verifier_new = Some (true, v))
  ∧ ∃ p, GetMessage (build_message m) = Some p ∧ read_message (build_message m) p = Some m.
Proof.
  intros Hm. destruct (build_message_built m Hm) as (b & root & -> & Hfin & Hrep & Hb & Hlen).
  destruct Hm as (_ & Hwf & Hsize). split_and!; [done|lia|lia| |].
  - destruct lib_verifier_new as [Hd Ht].
    destruct (Message_verify b root Hfin root m Hrep Hwf verifier_new) as (v' & Hv & _).
    { rewrite Hd. done. }
    { rewrite Ht. unfold message_bound in Hsize. pose proof (payload_text_nonneg (payload m)).
      unfold max_tables. lia. }
    exists v'. unfold VerifyMessageBuffer. by rewrite (lib_verify_root b root _ Hfin).
  - exists (place (GetBuffer b) root). split; [by apply lib_root|].
    by apply (Message_read b root Hfin root m Hrep Hwf).
Qed.

Lemma build_message_parses m :
  wf_message m →
  verify_message (build_message m) = true ∧ root_message (build_message m) = m.
Proof.
  intros Hm. destruct (build_message_reads m Hm) as (_ & _ & (v & Hv) & p & Hp & Hr).
  unfold verify_message, root_message. by rewrite Hv, Hp, bind_Some, Hr.
Qed.

Lemma generated_spec : @FlatBuffersSpec generated_flatbuffers.
Proof.
  split.
  - intros m Hm. apply (build_message_reads m Hm).
  - intros m Hm. apply (build_message_parses m Hm).
  - intros m Hm. apply (build_message_parses m Hm).
  - intros m Hm. apply (build_message_reads m Hm).
  - intros l Hl Hv. unfold fb_verify in Hv. simpl in Hv. unfold verify_message in Hv.
    destruct (VerifyMessageBuffer l verifier_new) as [[ok v']|] eqn:Heq; [|done]. subst ok.
    destruct (accepted_reads l) as (p & m & Hp & Hm & Hid & _); [by exists verifier_new, v'|done|].
    simpl. unfold root_message. by rewrite Hp, bind_Some, Hm.
Qed.

(** C4. What is written is what is read.  Over any FlatBuffers library that keeps
    its documented promises, the bytes that the [Create...] functions,
    [CreateMessage] and [FinishMessageBuffer] leave for a message fit its bound;
    [VerifyMessageBuffer] accepts them; the root has the request id and the tag
    that were written, the typed accessors of the payload agree with the value
    sent, and reading every field gives the message back. *)
Theorem generated_roundtrip m :
  wf_message m →
  let buf := build_message m in
  wf_bytes buf ∧ 0 < zlen buf ≤ message_bound m
  ∧ (∃ v, VerifyMessageBuffer buf verifier_new = Some (true, v))
  ∧ ∃ p, GetMessage buf = Some p
      ∧ Message.request_id buf p = Some (request_id m)
      ∧ Message.payload_type buf p = Some (payload_type m)
      ∧ (∃ q, Message.payload_as_ChatBroadcast buf p = Some q
           ∧ read_opt (read_ChatBroadcast buf) q = Some (payload_as_ChatBroadcast m))
      ∧ read_message buf p = Some m.
Proof.
  intros Hm buf. destruct (build_message_reads m Hm) as (Hb & Hlen & Hv & p & Hp & Hr).
  split_and!; [done|apply Hlen|apply Hlen|done|]. exists p.
  split_and!; [done|by apply read_message_id|by apply read_message_type|by apply payload_as_ChatBroadcast_read|done].
Qed.
End Generated.
