(* ===== verification/Codec.v ===== *)
(** * Encoders and decoders

    Combinators for self-delimiting encodings, with their round trip: numbers,
    pairs, lists and strings as bytes.  They model no code of the
    program; [HeapLibrary] is written with them. *)

From S2P Require Import Prelude Schema.

(** ** Encoders, decoders and their round trip *)

(** [get (put a ++ rest)] reads back [a] and leaves [rest]; [put a] consists of
    bytes and has at most [bound a] of them. *)
Record Coder (A : Type) := mkCoder {
  put : A → bytes;
  get : bytes → option (A * bytes);
  ok : A → Prop;
  bound : A → Z;
}.
Arguments put {A}. Arguments get {A}. Arguments ok {A}. Arguments bound {A}.

Class CoderSpec {A} (c : Coder A) : Prop := {
  get_put a rest : ok c a → get c (put c a ++ rest) = Some (a, rest);
  put_bytes a : ok c a → wf_bytes (put c a);
  put_bound a : ok c a → zlen (put c a) ≤ bound c a;
}.

(** Little-endian numbers of [n] bytes. *)
Fixpoint put_num (n : nat) (z : Z) : bytes :=
  match n with
  | O => []
  | S n => z mod 256 :: put_num n (z / 256)
  end.

Fixpoint get_num (n : nat) (l : bytes) : option (Z * bytes) :=
  match n with
  | O => Some (0, l)
  | S n =>
      match l with
      | [] => None
      | b :: l => '(v, l) ← get_num n l; Some (b + 256 * v, l)
      end
  end.

Definition num (n : nat) : Coder Z :=
  mkCoder _ (put_num n) (get_num n) (λ z, 0 ≤ z < 256 ^ Z.of_nat n) (λ _, Z.of_nat n).

#[export] Instance num_spec n : CoderSpec (num n).
Proof.
  split; simpl.
  - induction n as [|n IH]; intros z rest Hz; simpl.
    { repeat f_equal. simpl in Hz. lia. }
    assert (0 ≤ z / 256 < 256 ^ Z.of_nat n).
    { rewrite Nat2Z.inj_succ, Z.pow_succ_r in Hz by lia. dlia. }
    rewrite IH by done. simpl. repeat f_equal. dlia.
  - intros z _. revert z. induction n as [|n IH]; intros z; simpl; constructor; [|done].
    unfold in_range. change (2 ^ 8) with 256. dlia.
  - intros z _. revert z. unfold zlen. induction n as [|n IH]; intros z; simpl length; [lia|].
    specialize (IH (z / 256)). lia.
Qed.

#[local] Arguments put_num : simpl never.
#[local] Arguments get_num : simpl never.

Definition pair_c {A B} (ca : Coder A) (cb : Coder B) : Coder (A * B) :=
  mkCoder _ (λ ab, put ca ab.1 ++ put cb ab.2)
    (λ l, '(a, l) ← get ca l; '(b, l) ← get cb l; Some ((a, b), l))
    (λ ab, ok ca ab.1 ∧ ok cb ab.2) (λ ab, bound ca ab.1 + bound cb ab.2).

#[export] Instance pair_spec {A B} (ca : Coder A) (cb : Coder B) :
  CoderSpec ca → CoderSpec cb → CoderSpec (pair_c ca cb).
Proof.
  intros Ha Hb. split; simpl; intros [a b]; simpl.
  - intros rest [? ?]. rewrite <-app_assoc, get_put by done. simpl.
    by rewrite get_put.
  - intros [? ?]. apply Forall_app. split; by apply put_bytes.
  - intros [Hoa Hob]. rewrite zlen_app.
    pose proof (put_bound (c := ca) a Hoa). pose proof (put_bound (c := cb) b Hob). lia.
Qed.

(** Transport along an encoding of [B] as [A]. *)
Definition iso_c {A B} (f : B → A) (g : A → B) (ca : Coder A) : Coder B :=
  mkCoder _ (λ b, put ca (f b)) (λ l, '(a, l) ← get ca l; Some (g a, l))
    (λ b, ok ca (f b) ∧ g (f b) = b) (λ b, bound ca (f b)).

#[export] Instance iso_spec {A B} (f : B → A) (g : A → B) (ca : Coder A) :
  CoderSpec ca → CoderSpec (iso_c f g ca).
Proof.
  intros Ha. split; simpl.
  - intros b rest [? Hgf]. rewrite get_put by done. simpl. by rewrite Hgf.
  - intros b [? _]. by apply put_bytes.
  - intros b [? _]. by apply put_bound.
Qed.

Fixpoint put_list {A} (ca : Coder A) (l : list A) : bytes :=
  match l with [] => [] | a :: l => put ca a ++ put_list ca l end.
Fixpoint get_list {A} (ca : Coder A) (n : nat) (b : bytes) : option (list A * bytes) :=
  match n with
  | O => Some ([], b)
  | S n => '(a, b) ← get ca b; '(l, b) ← get_list ca n b; Some (a :: l, b)
  end.

Definition list_c {A} (ca : Coder A) : Coder (list A) :=
  mkCoder _ (λ l, put_num 4 (zlen l) ++ put_list ca l)
    (λ b, '(n, b) ← get_num 4 b; get_list ca (Z.to_nat n) b)
    (λ l, zlen l < 2 ^ 32 ∧ Forall (ok ca) l)
    (λ l, 4 + foldr Z.add 0 (bound ca <$> l)).

#[export] Instance list_spec {A} (ca : Coder A) : CoderSpec ca → CoderSpec (list_c ca).
Proof.
  intros Ha. split; unfold list_c; cbn [put get ok bound].
  - intros l rest [Hl Hok]. rewrite <-app_assoc.
    assert (get_num 4 (put_num 4 (zlen l) ++ (put_list ca l ++ rest))
            = Some (zlen l, put_list ca l ++ rest)) as ->.
    { apply (get_put (c := num 4)). simpl. pose proof (zlen_nonneg l). lia. }
    cbn [mbind option_bind]. unfold zlen. rewrite Nat2Z.id. clear Hl.
    induction Hok as [|a l Hoka Hok IH]; simpl; [done|].
    rewrite <-app_assoc, get_put by done. simpl. by rewrite IH.
  - intros l [Hl Hok]. apply Forall_app. split.
    { apply (put_bytes (c := num 4)). simpl. pose proof (zlen_nonneg l). lia. }
    induction Hok; simpl; [done|]. apply Forall_app. split; [by apply put_bytes|].
    apply IHHok. unfold zlen in *. simpl in Hl. lia.
  - intros l [Hl Hok]. rewrite zlen_app. change (zlen (put_num 4 (zlen l))) with 4.
    assert (zlen (put_list ca l) ≤ foldr Z.add 0 (bound ca <$> l)); [|lia].
    clear Hl. induction Hok as [|a l Hoka Hok IH]; [done|].
    csimpl. rewrite zlen_app. pose proof (put_bound (c := ca) a Hoka). lia.
Qed.

(** ** Strings *)

Definition byte_of_ascii (a : Ascii.ascii) : Z := Z.of_N (Ascii.N_of_ascii a).
Definition ascii_of_byte (z : Z) : Ascii.ascii := Ascii.ascii_of_N (Z.to_N z).

Definition string_c : Coder string :=
  iso_c (λ s, byte_of_ascii <$> String.list_ascii_of_string s)
        (λ l, String.string_of_list_ascii (ascii_of_byte <$> l)) (list_c (num 1)).

Lemma byte_of_ascii_range a : 0 ≤ byte_of_ascii a < 256.
Proof. unfold byte_of_ascii. pose proof (Ascii.N_ascii_bounded a). lia. Qed.

Lemma ascii_of_byte_of_ascii a : ascii_of_byte (byte_of_ascii a) = a.
Proof. unfold ascii_of_byte, byte_of_ascii. by rewrite N2Z.id, Ascii.ascii_N_embedding. Qed.

Lemma string_bytes s :
  String.string_of_list_ascii (ascii_of_byte <$> (byte_of_ascii <$> String.list_ascii_of_string s)) = s.
Proof.
  rewrite <-list_fmap_compose.
  assert (∀ l, (ascii_of_byte ∘ byte_of_ascii) <$> l = l) as ->.
  { intros l. induction l as [|a l IH]; csimpl; [done|].
    by rewrite IH, ascii_of_byte_of_ascii. }
  apply String.string_of_list_ascii_of_string.
Qed.

Lemma length_list_ascii s : length (String.list_ascii_of_string s) = String.length s.
Proof. induction s; simpl; by f_equal. Qed.

Lemma string_ok s : zsize s < 2 ^ 32 → ok string_c s.
Proof.
  intros Hs. split; [|apply string_bytes]. split.
  - unfold zlen. by rewrite length_fmap, length_list_ascii.
  - apply Forall_fmap, Forall_forall. intros a _. apply byte_of_ascii_range.
Qed.

Lemma string_bound s : bound string_c s = 4 + zsize s.
Proof.
  change (bound string_c s)
    with (4 + foldr Z.add 0
            (bound (num 1) <$> (byte_of_ascii <$> String.list_ascii_of_string s))).
  unfold zsize. f_equal. induction s as [|a s IH]; [done|]. csimpl in *. rewrite IH. lia.
Qed.
