(* ===== verification/HeapLibrary.v ===== *)
(** * A concrete library for the FlatBuffers interface

    The development is generic in the FlatBuffers library ([FlatBuffersLib]).
    This file shows that what it assumes of that library can be met: a buffer is
    a list of objects, written one after the other, and an offset is a position
    in that list.  It models no code of the program; the witnesses compute with
    the generated code over it. *)

From S2P Require Import Prelude Schema FlatBuffersLib MessagesGenerated MessagesSafety MessagesBuilding MessagesRoundtrip Codec.

#[local] Arguments put_num : simpl never.
#[local] Arguments get_num : simpl never.

(** ** Objects as bytes *)

Definition field_ok (f : voffset * FbField) : Prop :=
  is_u16 f.1 ∧
  match f.2 with
  | FbScalar size value => scalar_size size ∧ in_range (8 * size) value
  | FbRef o => is_u32 o
  end.

Definition field_size (f : voffset * FbField) : Z :=
  match f.2 with FbScalar size _ => size + 3 | FbRef _ => 7 end.

(** A scalar is tagged with its size, a reference with 0. *)
Definition put_field (f : voffset * FbField) : bytes :=
  put_num 2 f.1 ++
  match f.2 with
  | FbScalar size value => put_num 1 size ++ put_num (Z.to_nat size) value
  | FbRef o => put_num 1 0 ++ put_num 4 o
  end.

Definition get_field (l : bytes) : option ((voffset * FbField) * bytes) :=
  '(vo, l) ← get_num 2 l;
  '(tag, l) ← get_num 1 l;
  if tag =? 0 then '(o, l) ← get_num 4 l; Some ((vo, FbRef o), l)
  else '(value, l) ← get_num (Z.to_nat tag) l; Some ((vo, FbScalar tag value), l).

Definition field_c : Coder (voffset * FbField) :=
  mkCoder _ put_field get_field field_ok field_size.

Lemma get_put_num n z rest :
  0 ≤ z < 256 ^ Z.of_nat n → get_num n (put_num n z ++ rest) = Some (z, rest).
Proof. apply (get_put (c := num n)). Qed.

Lemma scalar_fits size z :
  scalar_size size → in_range (8 * size) z → 0 ≤ z < 256 ^ Z.of_nat (Z.to_nat size).
Proof. by intros [-> | [-> | [-> | ->]]] Hz. Qed.

#[export] Instance field_spec : CoderSpec field_c.
Proof.
  split; cbn [put get ok bound field_c].
  - intros [vo f] rest [Hvo Hf]. simpl in Hvo, Hf. unfold put_field, get_field. simpl fst.
    rewrite <-app_assoc, get_put_num by exact Hvo. cbn [mbind option_bind snd].
    destruct f as [size value|o]; rewrite <-app_assoc.
    + destruct Hf as [Hs Hv]. rewrite get_put_num by (destruct Hs as [-> | [-> | [-> | ->]]]; simpl; lia).
      cbn [mbind option_bind]. destruct (Z.eqb_spec size 0); [destruct Hs as [? | [? | [? | ?]]]; lia|].
      rewrite get_put_num by (by apply scalar_fits). done.
    + rewrite get_put_num by done. cbn [mbind option_bind]. by rewrite get_put_num.
  - intros [vo f] [Hvo Hf]. unfold put_field. cbn [fst snd] in *.
    apply Forall_app_2; [by apply (put_bytes (c := num 2))|].
    destruct f as [size value|o]; apply Forall_app_2.
    + apply (put_bytes (c := num 1)). destruct Hf as [[-> | [-> | [-> | ->]]] _]; simpl; lia.
    + apply (put_bytes (c := num _)). exact (scalar_fits _ _ (proj1 Hf) (proj2 Hf)).
    + apply (put_bytes (c := num 1)). simpl. lia.
    + apply (put_bytes (c := num 4)). exact Hf.
  - intros [vo f] [Hvo Hf]. unfold put_field, field_size. cbn [fst snd] in *. rewrite zlen_app.
    assert (∀ n z, zlen (put_num n z) = Z.of_nat n) as Hlen.
    { intros n. induction n as [|n IH]; intros z; [done|]. unfold zlen in *.
      change (put_num (S n) z) with (z mod 256 :: put_num n (z / 256)). rewrite length_cons.
      specialize (IH (z / 256)). lia. }
    rewrite Hlen. destruct f as [size value|o]; rewrite zlen_app, !Hlen; [|lia].
    destruct Hf as [[-> | [-> | [-> | ->]]] _]; simpl; lia.
Qed.

Definition object_ok (x : FbObject) : Prop :=
  match x with
  | FbString s => ok string_c s
  | FbTable fs => ok (list_c field_c) fs
  | FbVector os => ok (list_c (num 4)) os
  end.

Definition object_size (x : FbObject) : Z :=
  match x with
  | FbString s => 1 + bound string_c s
  | FbTable fs => 1 + bound (list_c field_c) fs
  | FbVector os => 1 + bound (list_c (num 4)) os
  end.

Definition put_object (x : FbObject) : bytes :=
  match x with
  | FbString s => 0 :: put string_c s
  | FbTable fs => 1 :: put (list_c field_c) fs
  | FbVector os => 2 :: put (list_c (num 4)) os
  end.

Definition get_object (l : bytes) : option (FbObject * bytes) :=
  match l with
  | 0 :: l => '(s, l) ← get string_c l; Some (FbString s, l)
  | 1 :: l => '(fs, l) ← get (list_c field_c) l; Some (FbTable fs, l)
  | 2 :: l => '(os, l) ← get (list_c (num 4)) l; Some (FbVector os, l)
  | _ => None
  end.

Definition object_c : Coder FbObject := mkCoder _ put_object get_object object_ok object_size.

#[export] Instance object_spec : CoderSpec object_c.
Proof.
  assert (∀ x (l : bytes), zlen (x :: l) = 1 + zlen l) as Hcons
    by (intros; unfold zlen; rewrite length_cons; lia).
  split; cbn [put get ok bound object_c]; intros [s|fs|os]; unfold put_object, object_ok, object_size.
  - intros rest Hok. cbn [get_object app]. by rewrite (get_put (c := string_c)).
  - intros rest Hok. cbn [get_object app]. by rewrite (get_put (c := list_c field_c)).
  - intros rest Hok. cbn [get_object app]. by rewrite (get_put (c := list_c (num 4))).
  - intros Hok. constructor; [done|by apply (put_bytes (c := string_c))].
  - intros Hok. constructor; [done|by apply (put_bytes (c := list_c field_c))].
  - intros Hok. constructor; [done|by apply (put_bytes (c := list_c (num 4)))].
  - intros Hok. rewrite Hcons. pose proof (put_bound (c := string_c) s Hok). lia.
  - intros Hok. rewrite Hcons. pose proof (put_bound (c := list_c field_c) fs Hok). lia.
  - intros Hok. rewrite Hcons. pose proof (put_bound (c := list_c (num 4)) os Hok). lia.
Qed.

(** A buffer: the offset of the root and the objects. *)
Definition buffer_c : Coder (Z * list FbObject) := pair_c (num 4) (list_c object_c).

Definition decode_buffer (l : bytes) : option (Z * list FbObject) :=
  '(b, rest) ← get buffer_c l;
  if rest is [] then Some b else None.

Lemma decode_put_buffer b : ok buffer_c b → decode_buffer (put buffer_c b) = Some b.
Proof.
  intros Hok. unfold decode_buffer. rewrite <-(app_nil_r (put buffer_c b)).
  by rewrite (get_put (c := buffer_c)).
Qed.

(** ** The library *)

Record HeapBuilder := mkHeapBuilder {
  hb_heap : list FbObject;
  hb_open : list (voffset * FbField);
  hb_root : Offset;
}.

Definition push (x : FbObject) (b : HeapBuilder) : Offset * HeapBuilder :=
  (zlen (hb_heap b) + 1, mkHeapBuilder (hb_heap b ++ [x]) [] (hb_root b)).

Definition object_at (heap : list FbObject) (o : Offset) : option FbObject :=
  if o <=? 0 then None else heap !! Z.to_nat (o - 1).

(** A pointer: the objects of its buffer, and an offset. *)
Definition HeapPointer : Type := list FbObject * Offset.

Definition table_of (p : HeapPointer) : option (list (voffset * FbField)) :=
  match object_at p.1 p.2 with Some (FbTable fs) => Some fs | _ => None end.
Definition string_of (p : HeapPointer) : option string :=
  match object_at p.1 p.2 with Some (FbString s) => Some s | _ => None end.
Definition elements_of (p : HeapPointer) : option (list HeapPointer) :=
  match object_at p.1 p.2 with Some (FbVector os) => Some (pair p.1 <$> os) | _ => None end.

Definition scalar_there (size : Z) (vo : voffset) (fs : list (voffset * FbField)) : bool :=
  match field_at vo fs with
  | None => true
  | Some (FbScalar size' value) => (size' =? size) && bool_decide (in_range (8 * size) value)
  | Some (FbRef _) => false
  end.

(** Depth and tables so far. *)
Definition HeapVerifier : Type := Z * Z.

Definition verdict {A} (o : option A) (v : HeapVerifier) : option (bool * HeapVerifier) :=
  Some (bool_decide (is_Some o), v).

Fixpoint each_pointer (f : HeapPointer → HeapVerifier → option (bool * HeapVerifier))
    (ps : list HeapPointer) (v : HeapVerifier) : option (bool * HeapVerifier) :=
  match ps with
  | [] => Some (true, v)
  | p :: ps =>
      '(ok, v) ← f p v;
      if ok : bool then each_pointer f ps v else Some (false, v)
  end.

#[export] Instance heap_library : FlatBuffersLib := {|
  Builder := HeapBuilder;
  Pointer := HeapPointer;
  Verifier := HeapVerifier;
  fbb_new := mkHeapBuilder [] [] 0;
  StartTable b := (0, mkHeapBuilder (hb_heap b) [] (hb_root b));
  AddElement size vo value default b :=
    mkHeapBuilder (hb_heap b) (add_scalar size vo value default (hb_open b)) (hb_root b);
  AddOffset vo o b := mkHeapBuilder (hb_heap b) (add_ref vo o (hb_open b)) (hb_root b);
  EndTable _ b := push (FbTable (hb_open b)) b;
  fbb_CreateString s b := push (FbString s) b;
  CreateVector os b := push (FbVector os) b;
  fbb_Finish o b := mkHeapBuilder (hb_heap b) [] o;
  fbb_FinishSizePrefixed o b := mkHeapBuilder (hb_heap b) [] o;
  GetBuffer b := put buffer_c (hb_root b, hb_heap b);
  GetRoot buf := option_map (λ '(root, heap), (heap, root)) (decode_buffer buf);
  GetSizePrefixedRoot buf :=
    option_map (λ '(root, heap), (heap, root)) (decode_buffer buf);
  GetField size _ p vo default := table_of p ≫= get_scalar size vo default;
  GetPointer _ p vo := option_map (fmap (pair p.1)) (table_of p ≫= get_ref vo);
  String_str _ p := string_of p;
  Vector_elements _ p := elements_of p;
  verifier_new := (0, 0);
  VerifyTableStart _ p v :=
    if bool_decide (is_Some (table_of p)) && (v.1 <? max_depth) && (v.2 <? max_tables)
    then Some (true, (v.1 + 1, v.2 + 1)) else Some (false, v);
  VerifyField size _ p vo _ v := fs ← table_of p; Some (scalar_there size vo fs, v);
  VerifyOffset _ p vo v := fs ← table_of p; verdict (get_ref vo fs) v;
  VerifyString _ p v := match p with None => Some (true, v) | Some p => verdict (string_of p) v end;
  VerifyVector _ p v := match p with None => Some (true, v) | Some p => verdict (elements_of p) v end;
  Verifier_EndTable v := Some (true, (v.1 - 1, v.2));
  VerifyTable f p v := match p with None => Some (true, v) | Some p => f p v end;
  VerifyVectorOfTables _ f p v :=
    match p with
    | None => Some (true, v)
    | Some p => match elements_of p with None => Some (false, v) | Some ps => each_pointer f ps v end
    end;
  VerifyBuffer buf f v :=
    match decode_buffer buf with None => Some (false, v) | Some (root, heap) => f (heap, root) v end;
  VerifySizePrefixedBuffer buf f v :=
    match decode_buffer buf with
    | None => Some (false, v)
    | Some (root, heap) => f (heap, root) v
    end;
|}.

(** ** It keeps the promises *)

Definition objects_size (heap : list FbObject) : Z := foldr Z.add 0 (object_size <$> heap).
Definition fields_size (fs : list (voffset * FbField)) : Z := foldr Z.add 0 (field_size <$> fs).
Definition heap_used (b : HeapBuilder) : Z := objects_size (hb_heap b) + fields_size (hb_open b).

Record heap_ok (b : HeapBuilder) : Prop := {
  ho_objects : Forall object_ok (hb_heap b);
  ho_fields : Forall field_ok (hb_open b);
  ho_used : heap_used b < FLATBUFFERS_MAX_BUFFER_SIZE;
}.

Definition heap_built (b : HeapBuilder) (o : Offset) (x : FbObject) : Prop :=
  object_at (hb_heap b) o = Some x.

Lemma field_size_pos f : field_ok f → 0 < field_size f.
Proof. intros [_ Hf]. unfold field_size. destruct f.2; [|lia]. destruct Hf as [[-> | [-> | [-> | ->]]] _]; lia. Qed.

Lemma fields_size_len fs : Forall field_ok fs → zlen fs ≤ fields_size fs.
Proof.
  induction 1 as [|f fs Hf _ IH]; [done|]. unfold fields_size, zlen in *. rewrite fmap_cons. cbn [foldr length].
  pose proof (field_size_pos f Hf). lia.
Qed.

Lemma object_size_pos x : object_ok x → 0 < object_size x.
Proof.
  destruct x as [s|fs|os]; intros Hx; unfold object_size.
  - rewrite string_bound. pose proof (zsize_nonneg s). lia.
  - change (bound (list_c field_c) fs) with (4 + fields_size fs). destruct Hx as [_ Hx].
    pose proof (fields_size_len fs Hx). pose proof (zlen_nonneg fs). lia.
  - change (bound (list_c (num 4)) os) with (4 + foldr Z.add 0 ((λ _, 4) <$> os)).
    assert (0 ≤ foldr Z.add 0 ((λ _, 4) <$> os)); [|lia]. clear Hx.
    induction os as [|o os IH]; [done|]. rewrite fmap_cons. cbn [foldr]. lia.
Qed.

Lemma objects_size_len heap : Forall object_ok heap → zlen heap ≤ objects_size heap.
Proof.
  induction 1 as [|x heap Hx _ IH]; [done|]. unfold objects_size, zlen in *. rewrite fmap_cons. cbn [foldr length].
  pose proof (object_size_pos x Hx). lia.
Qed.

Lemma objects_size_snoc heap x : objects_size (heap ++ [x]) = objects_size heap + object_size x.
Proof.
  unfold objects_size. induction heap as [|y heap IH]; [simpl; lia|].
  rewrite <-app_comm_cons, !fmap_cons. cbn [foldr]. rewrite IH. lia.
Qed.

Lemma object_at_last heap x : object_at (heap ++ [x]) (zlen heap + 1) = Some x.
Proof.
  unfold object_at, zlen. destruct (Z.leb_spec (Z.of_nat (length heap) + 1) 0); [lia|].
  replace (Z.to_nat (Z.of_nat (length heap) + 1 - 1)) with (length heap) by lia.
  by apply list_lookup_middle.
Qed.

Lemma object_at_app heap k o x : object_at heap o = Some x → object_at (heap ++ k) o = Some x.
Proof. unfold object_at. case_match; [done|]. apply lookup_app_l_Some. Qed.

Lemma object_at_range heap o x : object_at heap o = Some x → 0 < o ≤ zlen heap.
Proof.
  unfold object_at, zlen. destruct (Z.leb_spec o 0); [done|]. intros Hx%lookup_lt_Some. lia.
Qed.

Lemma heap_ok_push b x :
  heap_ok b → object_ok x → hb_open b = [] →
  heap_used b + object_size x < FLATBUFFERS_MAX_BUFFER_SIZE → heap_ok (push x b).2.
Proof.
  intros [Ho _ _] Hx Hopen Hu. split; simpl; [apply Forall_app_2; [done|by constructor]|done|].
  unfold heap_used in *. rewrite Hopen in Hu. simpl. rewrite objects_size_snoc.
  unfold fields_size in *. simpl in *. lia.
Qed.

Lemma push_used b x :
  hb_open b = [] → heap_used (push x b).2 = heap_used b + object_size x.
Proof.
  intros Hopen. unfold heap_used. rewrite Hopen. simpl. rewrite objects_size_snoc.
  unfold fields_size. simpl. lia.
Qed.

(** Pushing an object: where it is, and what was there stays. *)
Lemma push_built b x : heap_built (push x b).2 (push x b).1 x.
Proof. apply object_at_last. Qed.
Lemma push_preserved b x o y : heap_built b o y → heap_built (push x b).2 o y.
Proof. apply object_at_app. Qed.
Lemma push_offset b x : (push x b).1 ≠ 0.
Proof. simpl. pose proof (zlen_nonneg (hb_heap b)). lia. Qed.

Lemma built_u32 b o x : heap_ok b → heap_built b o x → is_u32 o.
Proof.
  intros [Ho Hf Hu] Hx%object_at_range. pose proof (objects_size_len _ Ho).
  pose proof (fields_size_len _ Hf). pose proof (zlen_nonneg (hb_open b)).
  unfold heap_used, FLATBUFFERS_MAX_BUFFER_SIZE in *. unfold in_range. lia.
Qed.

(** Opening a field of the table under construction. *)
Lemma heap_ok_field b f :
  heap_ok b → field_ok f → heap_used b + field_size f < FLATBUFFERS_MAX_BUFFER_SIZE →
  let b' := mkHeapBuilder (hb_heap b) (f :: hb_open b) (hb_root b) in
  heap_ok b' ∧ heap_used b' = heap_used b + field_size f.
Proof.
  intros [Ho Hfs Hu] Hf Hn b'.
  assert (heap_used b' = heap_used b + field_size f) as Heq.
  { unfold heap_used, fields_size, b'. cbn [hb_open hb_heap]. rewrite fmap_cons. cbn [foldr]. lia. }
  split; [|done]. split; [done|by constructor|lia].
Qed.

Lemma buffer_ok b : heap_ok b → is_u32 (hb_root b) → ok buffer_c (hb_root b, hb_heap b).
Proof.
  intros [Ho Hf Hu] Hr. split; [exact Hr|]. split; [|done].
  pose proof (objects_size_len _ Ho). pose proof (fields_size_len _ Hf).
  pose proof (zlen_nonneg (hb_open b)). change (zlen (hb_heap b) < 2 ^ 32).
  unfold heap_used, FLATBUFFERS_MAX_BUFFER_SIZE in *. lia.
Qed.

Definition heap_finished (b : HeapBuilder) (root : Offset) : Prop :=
  heap_ok b ∧ hb_root b = root ∧ is_u32 root.

Definition heap_place (buf : bytes) (o : Offset) : HeapPointer :=
  (from_option snd [] (decode_buffer buf), o).

Lemma heap_place_finished b root o :
  heap_finished b root → heap_place (put buffer_c (hb_root b, hb_heap b)) o = (hb_heap b, o).
Proof.
  intros (Hok & Hroot & Hr). unfold heap_place. rewrite decode_put_buffer; [done|].
  apply buffer_ok; [done|by rewrite Hroot].
Qed.

Lemma scalar_there_ok size vo d fs z :
  Forall field_ok fs → get_scalar size vo d fs = Some z → scalar_there size vo fs = true.
Proof.
  intros Hfs. unfold get_scalar, scalar_there. induction Hfs as [|[vo' f] fs [Hvo Hf] _ IH]; [done|]. simpl.
  destruct (vo' =? vo); [|done]. destruct f as [size' value|o]; [|done]. simpl in Hf.
  destruct (Z.eqb_spec size' size) as [->|]; [|done]. intros _. simpl.
  by apply bool_decide_eq_true, Hf.
Qed.

Lemma scalar_there_get size vo d fs :
  scalar_there size vo fs = true →
  ∃ z, get_scalar size vo d fs = Some z ∧ (in_range (8 * size) d → in_range (8 * size) z).
Proof.
  unfold scalar_there, get_scalar. destruct (field_at vo fs) as [[size' value|o]|]; [|done|by exists d].
  intros [-> Hv%bool_decide_eq_true]%andb_true_iff. by exists value.
Qed.

Lemma verdict_accepted {A} (o : option A) v v' : verdict o v = Some (true, v') → is_Some o.
Proof. unfold verdict. intros [= Ho _]. by apply bool_decide_eq_true in Ho. Qed.

Lemma each_pointer_eq f ps v : each_pointer f ps v = verify_each f ps v.
Proof.
  revert v. induction ps as [|p ps IH]; intros v; simpl; [done|].
  destruct (f p v) as [[[] v']|]; simpl; [apply IH|done..].
Qed.

(** *** The builder *)

Definition heap_closed (b : HeapBuilder) : Prop := heap_ok b ∧ hb_open b = [].
Definition heap_open (b : HeapBuilder) (_ : Z) (fs : list (voffset * FbField)) : Prop :=
  heap_ok b ∧ hb_open b = fs.

Lemma heap_push x b :
  heap_closed b → object_ok x → heap_used b + object_size x < FLATBUFFERS_MAX_BUFFER_SIZE →
  ∃ o b', push x b = (o, b') ∧ o ≠ 0 ∧ heap_closed b' ∧ heap_built b' o x
    ∧ (∀ o x, heap_built b o x → heap_built b' o x) ∧ heap_used b' = heap_used b + object_size x.
Proof.
  intros [Hok Hopen] Hx Hu. exists (push x b).1, (push x b).2.
  split_and!; [done|apply push_offset| |apply push_built| |by apply push_used].
  - split; [by apply heap_ok_push|done].
  - intros o y. apply push_preserved.
Qed.

Lemma vector_size os : object_size (FbVector os) = 5 + 4 * zlen os.
Proof.
  change (object_size (FbVector os)) with (1 + (4 + foldr Z.add 0 ((λ _ : Z, 4) <$> os))).
  unfold zlen. induction os as [|o os IH]; [done|]. rewrite fmap_cons. cbn [foldr length]. lia.
Qed.

Lemma heap_element size vo value default b start fs :
  heap_open b start fs → scalar_size size → is_u16 vo → in_range (8 * size) value →
  heap_used b + 2 * size + 3 < FLATBUFFERS_MAX_BUFFER_SIZE →
  let b' := mkHeapBuilder (hb_heap b) (add_scalar size vo value default (hb_open b)) (hb_root b) in
  heap_open b' start (add_scalar size vo value default fs)
  ∧ (∀ o x, heap_built b o x → heap_built b' o x)
  ∧ heap_used b ≤ heap_used b' ≤ heap_used b + 2 * size + 3.
Proof.
  intros [Hok Hfs] Hs Hvo Hv Hu. subst fs. assert (0 < size) by (destruct Hs as [-> | [-> | [-> | ->]]]; lia).
  unfold add_scalar. destruct (value =? default).
  - simpl. split_and!; [by split; [destruct Hok|]|done|unfold heap_used; simpl; lia..].
  - destruct (heap_ok_field b (vo, FbScalar size value) Hok) as [Hok' Hu']; [done| |].
    { unfold field_size. simpl. lia. }
    unfold field_size in Hu'. simpl in *. split_and!; [done|done|lia|lia].
Qed.

Lemma heap_offset vo o b start fs :
  heap_open b start fs → is_u16 vo → o = 0 ∨ (∃ x, heap_built b o x) →
  heap_used b + 8 < FLATBUFFERS_MAX_BUFFER_SIZE →
  let b' := mkHeapBuilder (hb_heap b) (add_ref vo o (hb_open b)) (hb_root b) in
  heap_open b' start (add_ref vo o fs) ∧ (∀ o x, heap_built b o x → heap_built b' o x)
  ∧ heap_used b ≤ heap_used b' ≤ heap_used b + 8.
Proof.
  intros [Hok Hfs] Hvo Ho Hu. subst fs. unfold add_ref. destruct (Z.eqb_spec o 0) as [->|Hne].
  - simpl. split_and!; [by split; [destruct Hok|]|done|unfold heap_used; simpl; lia..].
  - destruct Ho as [Ho|[x Hx]]; [done|].
    destruct (heap_ok_field b (vo, FbRef o) Hok) as [Hok' Hu'].
    { split; [done|]. by eapply built_u32. }
    { unfold field_size. simpl. lia. }
    unfold field_size in Hu'. simpl in *. split_and!; [done|done|lia|lia].
Qed.

Ltac used := unfold heap_used in *; cbn [hb_heap hb_open] in *; change (fields_size []) with 0 in *; lia.

Lemma heap_end last b start fs :
  heap_open b start fs → 4 ≤ last → heap_used b + last + 12 < FLATBUFFERS_MAX_BUFFER_SIZE →
  ∃ o b', push (FbTable (hb_open b)) b = (o, b') ∧ o ≠ 0 ∧ heap_closed b' ∧ heap_built b' o (FbTable fs)
    ∧ (∀ o x, heap_built b o x → heap_built b' o x)
    ∧ heap_used b ≤ heap_used b' ≤ heap_used b + last + 12.
Proof.
  intros [[Ho Hf Hu] <-] Hlast Hn. pose proof (fields_size_len _ Hf). pose proof (zlen_nonneg (hb_open b)).
  assert (object_size (FbTable (hb_open b)) = 5 + fields_size (hb_open b)) as Hsize
    by (change (object_size (FbTable (hb_open b))) with (1 + (4 + fields_size (hb_open b))); lia).
  pose proof (objects_size_len _ Ho). pose proof (zlen_nonneg (hb_heap b)).
  destruct (heap_push (FbTable (hb_open b)) (mkHeapBuilder (hb_heap b) [] (hb_root b)))
    as (o & b' & Heq & Hne & Hc & Hb & Hp & Hu').
  - split; [|done]. split; [done|done|]. used.
  - split; [|done]. change (zlen (hb_open b) < 2 ^ 32). unfold FLATBUFFERS_MAX_BUFFER_SIZE in *. used.
  - rewrite Hsize. used.
  - rewrite Hsize in Hu'. exists o, b'. split_and!; try done; used.
Qed.

Lemma heap_finish root fs b :
  heap_closed b → heap_built b root (FbTable fs) → heap_used b + 12 < FLATBUFFERS_MAX_BUFFER_SIZE →
  let b' := mkHeapBuilder (hb_heap b) [] root in
  heap_finished b' root ∧ (∀ o x, heap_built b o x → heap_built b' o x)
  ∧ wf_bytes (put buffer_c (hb_root b', hb_heap b')) ∧ 0 < zlen (put buffer_c (hb_root b', hb_heap b')) ≤ heap_used b + 12.
Proof.
  intros [Hok Hopen] Hroot Hu b'. pose proof (built_u32 b root _ Hok Hroot) as Hr.
  assert (heap_ok b') as Hok'.
  { destruct Hok as [Ho Hf Hn]. split; [done|done|]. unfold heap_used in *. by rewrite Hopen in Hn. }
  pose proof (buffer_ok b' Hok' Hr) as Hbuf. split_and!; [by split_and!|done|by apply put_bytes| |].
  - change (put buffer_c (hb_root b', hb_heap b'))
      with (put_num 4 root ++ put (list_c object_c) (hb_heap b)).
    rewrite zlen_app. change (zlen (put_num 4 root)) with 4.
    pose proof (zlen_nonneg (put (list_c object_c) (hb_heap b))). lia.
  - pose proof (put_bound (c := buffer_c) _ Hbuf) as Hbd.
    change (bound buffer_c (hb_root b', hb_heap b')) with (4 + (4 + objects_size (hb_heap b))) in Hbd.
    unfold heap_used. rewrite Hopen. change (fields_size []) with 0. lia.
Qed.

Lemma heap_push_within x b n :
  heap_closed b → object_ok x → object_size x ≤ n → heap_used b + n < FLATBUFFERS_MAX_BUFFER_SIZE →
  ∃ o b', push x b = (o, b') ∧ o ≠ 0 ∧ heap_closed b' ∧ heap_built b' o x
    ∧ (∀ o x, heap_built b o x → heap_built b' o x) ∧ heap_used b ≤ heap_used b' ≤ heap_used b + n.
Proof.
  intros Hb Hx Hn Hu. pose proof (object_size_pos x Hx).
  destruct (heap_push x b Hb Hx) as (o & b' & Heq & Ho & Hc & Hbt & Hp & Hu'); [lia|].
  exists o, b'. split_and!; try done; lia.
Qed.

Lemma heap_used_nonneg b : heap_ok b → 0 ≤ heap_used b.
Proof.
  intros [Ho Hf _]. pose proof (objects_size_len _ Ho). pose proof (fields_size_len _ Hf).
  pose proof (zlen_nonneg (hb_heap b)). pose proof (zlen_nonneg (hb_open b)). unfold heap_used. lia.
Qed.

Lemma object_fields_ok b o fs : heap_ok b → heap_built b o (FbTable fs) → Forall field_ok fs.
Proof.
  intros [Ho _ _]. unfold heap_built, object_at. case_match; [done|]. intros Hfs%list_elem_of_lookup_2.
  by destruct (proj1 (Forall_forall _ _) Ho _ Hfs).
Qed.

(** *** The library *)

#[export, refine] Instance heap_library_spec : FlatBuffersLibSpec := {|
  closed_bld := heap_closed;
  open_bld := heap_open;
  built := heap_built;
  used := heap_used;
  finished := heap_finished;
  place := heap_place;
  depth v := v.1;
  tables v := v.2;
|}.
Proof.
  - split; [|done]. by split.
  - intros s b Hb Hu.
    cut (object_ok (FbString s) ∧ object_size (FbString s) ≤ zsize s + 8).
    { intros [Hx Hn]. destruct (heap_push_within _ b _ Hb Hx Hn) as (o & b' & H'); [lia|].
      exists o, b'. naive_solver lia. }
    split.
    + apply string_ok. pose proof (heap_used_nonneg b (proj1 Hb)).
      unfold FLATBUFFERS_MAX_BUFFER_SIZE in Hu. lia.
    + unfold object_size. rewrite string_bound. lia.
  - intros os b Hb Hos Hu.
    cut (object_ok (FbVector os) ∧ object_size (FbVector os) ≤ 4 * zlen os + 8).
    { intros [Hx Hn]. destruct (heap_push_within _ b _ Hb Hx Hn) as (o & b' & H'); [lia|].
      exists o, b'. naive_solver lia. }
    split.
    + pose proof (heap_used_nonneg b (proj1 Hb)). pose proof (zlen_nonneg os).
      split; [unfold FLATBUFFERS_MAX_BUFFER_SIZE in Hu; lia|].
      eapply Forall_impl; [exact Hos|]. intros o [x Hx]. apply (built_u32 b o x); [apply Hb|done].
    + rewrite vector_size. lia.
  - intros b [Hok Hopen]. exists 0, (mkHeapBuilder (hb_heap b) [] (hb_root b)).
    split_and!; [done|split; [|done]|done|unfold heap_used; by rewrite Hopen].
    destruct Hok as [Ho Hf Hu]. split; [done|done|]. unfold heap_used in *. by rewrite Hopen in Hu.
  - intros size vo value default b start fs Hb _. by apply heap_element.
  - intros vo o b start fs Hb _. by apply heap_offset.
  - intros last b start fs Hb Hlast _. by apply (heap_end last b start fs).
  - intros root fs b. apply heap_finish.
  - intros b root Hfin. cbn [GetRoot GetBuffer heap_library].
    rewrite (heap_place_finished b root root Hfin). destruct Hfin as (Hok & <- & Hr).
    by rewrite decode_put_buffer by (by apply buffer_ok).
  - intros b root o fs size vo default z Hfin Hb Hz.
    cbn [GetField VerifyField GetBuffer heap_library]. rewrite (heap_place_finished b root o Hfin).
    unfold table_of. cbn [fst snd]. unfold heap_built in Hb. rewrite Hb. split; [done|]. intros v. simpl.
    rewrite (scalar_there_ok size vo default fs z); [done| |done].
    by apply (object_fields_ok b o); [apply Hfin|].
  - intros b root o fs vo r Hfin Hb Hr.
    cbn [GetPointer VerifyOffset GetBuffer heap_library].
    assert (∀ o, heap_place (put buffer_c (hb_root b, hb_heap b)) o = (hb_heap b, o)) as Hplace
      by (intros; by eapply heap_place_finished).
    rewrite Hplace. unfold table_of. cbn [fst snd]. unfold heap_built in Hb. rewrite Hb.
    cbn [mbind option_bind]. rewrite Hr. split.
    + simpl. f_equal. destruct r; [|done]. simpl. by rewrite Hplace.
    + intros v. unfold verdict. by rewrite bool_decide_eq_true_2.
  - intros b root o s Hfin Hb. cbn [String_str VerifyString GetBuffer heap_library].
    rewrite (heap_place_finished b root o Hfin). unfold string_of. cbn [fst snd].
    unfold heap_built in Hb. rewrite Hb. split; [done|]. intros v. unfold verdict.
    by rewrite bool_decide_eq_true_2.
  - intros b root o os Hfin Hb. cbn [Vector_elements VerifyVector GetBuffer heap_library].
    assert (∀ o, heap_place (put buffer_c (hb_root b, hb_heap b)) o = (hb_heap b, o)) as Hplace
      by (intros; by eapply heap_place_finished).
    rewrite Hplace. unfold elements_of. cbn [fst snd]. unfold heap_built in Hb. rewrite Hb. split.
    + f_equal. apply list_fmap_ext. intros i o' _. by rewrite Hplace.
    + intros v. unfold verdict. by rewrite bool_decide_eq_true_2.
  - intros b root o fs [d t] Hfin Hb Hd Ht. cbn [VerifyTableStart GetBuffer heap_library fst snd] in *.
    rewrite (heap_place_finished b root o Hfin). unfold table_of. cbn [fst snd].
    unfold heap_built in Hb. rewrite Hb. rewrite bool_decide_eq_true_2 by done.
    rewrite (proj2 (Z.ltb_lt _ _) Hd), (proj2 (Z.ltb_lt _ _) Ht). by exists (d + 1, t + 1).
  - intros b root f Hfin. cbn [VerifyBuffer GetBuffer heap_library].
    rewrite (heap_place_finished b root root Hfin). destruct Hfin as (Hok & <- & Hr).
    by rewrite decode_put_buffer by (by apply buffer_ok).
  - done.
  - intros v. by exists (v.1 - 1, v.2).
  - done.
  - done.
  - intros f [p|] v; done.
  - done.
  - intros buf f p (v & v' & Hacc). apply verdict_accepted in Hacc as [ps Hps]. exists ps.
    split; [done|]. intros v1. simpl. rewrite Hps. apply each_pointer_eq.
  - intros buf p q. unfold no_overrun. simpl.
    split_and!; intros v; try case_match; unfold verdict; by eexists.
  - intros buf p vo size align (v & v' & Hs). unfold no_overrun. simpl in *.
    destruct (table_of p) as [fs|]; [|done]. simpl. unfold verdict. split; intros v1; by eexists.
  - intros buf f Hf v. simpl. destruct (decode_buffer buf) as [[root heap]|]; [apply Hf|by eexists].
  - intros buf f (v & v' & Hacc). simpl in *. destruct (decode_buffer buf) as [[root heap]|]; [|done].
    exists (heap, root). split; [done|by exists v, v'].
  - intros buf p size vo default (v & v' & Hs) (v1 & v1' & Hf). simpl in *.
    destruct (table_of p) as [fs|]; [|done]. simpl in Hf. injection Hf as Hf _.
    destruct (scalar_there_get size vo default fs Hf) as (z & Hz & Hr). by exists z.
  - intros buf p vo _ (v & v' & Hacc). simpl in *.
    destruct (table_of p) as [fs|]; [|done]. simpl in *. apply verdict_accepted in Hacc as [r ->]. by eexists.
  - intros buf p (v & v' & Hacc). simpl in *. by apply verdict_accepted in Hacc.
Qed.

(** The generated code over this library: what the witnesses send and receive. *)
Definition plain_codec : FlatBuffers := generated_flatbuffers.

Lemma plain_codec_spec : @FlatBuffersSpec plain_codec.
Proof. apply generated_spec. Qed.

(** ** The theorems about the generated code, at a chat message *)

Definition a_broadcast : Message :=
  mkMessage 7 (PChatBroadcast (Some (mkChatBroadcast 1 2 (Some "ann"%string) (Some "hello"%string) 99))).

Lemma generated_roundtrip_witness :
  wf_message a_broadcast
  ∧ ∃ p, GetMessage (build_message a_broadcast) = Some p
      ∧ read_message (build_message a_broadcast) p = Some a_broadcast.
Proof.
  assert (wf_message a_broadcast) as Hm by (split_and!; done).
  split; [exact Hm|]. destruct (generated_roundtrip a_broadcast Hm) as (_ & _ & _ & p & Hp & H).
  exists p. split; [exact Hp|apply H].
Defined.

Lemma verified_reads_safe_witness :
  accepted_by (VerifyMessageBuffer (build_message a_broadcast))
  ∧ ∃ p m, GetMessage (build_message a_broadcast) = Some p
      ∧ read_message (build_message a_broadcast) p = Some m ∧ wf_payload (payload m).
Proof.
  assert (accepted_by (VerifyMessageBuffer (build_message a_broadcast))) as Hacc
    by (exists (0, 0), (0, 2); vm_compute; reflexivity).
  split; [exact Hacc|].
  destruct (proj2 (verified_reads_safe (build_message a_broadcast)) Hacc) as (p & m & Hp & Hm & _ & Hwf & _).
  - by apply (bool_decide_unpack _); vm_compute.
  - exists p, m. split_and!; [exact Hp|exact Hm|exact Hwf].
Defined.
