(* ===== verification/ServerTypes.v ===== *)
(** * NightServer/ServerTypes.h: server state, events and outgoing messages

    [std::unordered_set<uint32_t>] is a [gset Z]; [ServerEvent] is the variant of
    the nine event structs, one constructor each. *)

From S2P Require Import Prelude.

Definition no_room_id : Z := 0.

Record SessionState := mkSessionState {
  ss_session_id : Z;
  ss_user_id : Z;
  ss_display_name : string;
  ss_room_id : Z;
  ss_logged_in : bool;
}.

Record RoomState := mkRoomState {
  rm_room_id : Z;
  rm_room_name : string;
  rm_members : gset Z;
}.

#[export] Instance SessionState_eq_dec : EqDecision SessionState.
Proof. solve_decision. Defined.
#[export] Instance RoomState_eq_dec : EqDecision RoomState.
Proof. solve_decision. Defined.

Inductive ServerEvent :=
  | SessionConnectedEvent (session_id : Z)
  | SessionDisconnectedEvent (session_id : Z)
  | InvalidPacketEvent (session_id : Z) (message : string)
  | LoginRequestEvent (session_id request_id : Z) (display_name : string)
  | RoomListRequestEvent (session_id request_id : Z)
  | JoinRoomRequestEvent (session_id request_id room_id : Z)
  | ChatSendRequestEvent (session_id request_id : Z) (content : string)
  | LeaveRoomRequestEvent (session_id request_id : Z)
  | DisconnectRequestEvent (session_id request_id : Z).

Record OutgoingMessage := mkOutgoingMessage {
  om_session_id : Z;
  om_payload : bytes;
}.

(** The session an event comes from. *)
Definition event_session (ev : ServerEvent) : Z :=
  match ev with
  | SessionConnectedEvent k | SessionDisconnectedEvent k | InvalidPacketEvent k _
  | LoginRequestEvent k _ _ | RoomListRequestEvent k _ | JoinRoomRequestEvent k _ _
  | ChatSendRequestEvent k _ _ | LeaveRoomRequestEvent k _ | DisconnectRequestEvent k _ => k
  end.

(** The request id an event carries; 0 where it has none. *)
Definition event_request (ev : ServerEvent) : Z :=
  match ev with
  | SessionConnectedEvent _ | SessionDisconnectedEvent _ | InvalidPacketEvent _ _ => 0
  | LoginRequestEvent _ q _ | RoomListRequestEvent _ q | JoinRoomRequestEvent _ q _
  | ChatSendRequestEvent _ q _ | LeaveRoomRequestEvent _ q | DisconnectRequestEvent _ q => q
  end.
