(* ===== verification/RoomSystem.v ===== *)
(** * NightServer/RoomSystem.h, RoomSystem.cpp: the registry

    The registry of sessions and rooms.  The two [unordered_map]s are [gmap]s
    and [RoomState::members] a [gset]; a pointer returned by [FindSession] or
    [FindRoom] stays valid while its element is in the map, so a write through
    it is an update of the map at its key.  The order in which an unordered
    container is walked is unspecified and may differ at every walk: it is the
    argument [order] of the operations that walk one. *)

From S2P Require Import Prelude ServerTypes.

Record RoomSystem := mkRoomSystem {
  sessions_ : gmap Z SessionState;
  rooms_ : gmap Z RoomState;
}.

#[export] Instance RoomSystem_eq_dec : EqDecision RoomSystem.
Proof. solve_decision. Defined.

(** Member updates of the records. *)
Definition set_room_id (r : Z) (s : SessionState) : SessionState :=
  mkSessionState (ss_session_id s) (ss_user_id s) (ss_display_name s) r (ss_logged_in s).
Definition set_login (name : string) (s : SessionState) : SessionState :=
  mkSessionState (ss_session_id s) (ss_user_id s) name (ss_room_id s) true.
Definition members_insert (k : Z) (r : RoomState) : RoomState :=
  mkRoomState (rm_room_id r) (rm_room_name r) ({[k]} ∪ rm_members r).
Definition members_erase (k : Z) (r : RoomState) : RoomState :=
  mkRoomState (rm_room_id r) (rm_room_name r) (rm_members r ∖ {[k]}).

Definition upd_session (k : Z) (f : SessionState → SessionState) (rs : RoomSystem)
    : RoomSystem :=
  mkRoomSystem (alter f k (sessions_ rs)) (rooms_ rs).
Definition upd_room (k : Z) (f : RoomState → RoomState) (rs : RoomSystem) : RoomSystem :=
  mkRoomSystem (sessions_ rs) (alter f k (rooms_ rs)).

(** ** Operations *)

Definition room_system_init : RoomSystem :=
  mkRoomSystem ∅
    (<[1001 := mkRoomState 1001 "Lobby" ∅]>
     (<[1002 := mkRoomState 1002 "Dev" ∅]>
      (<[1003 := mkRoomState 1003 "Chat" ∅]> ∅))).

(** [try_emplace]: nothing happens when the key is taken. *)
Definition AddSession (session_id : Z) (rs : RoomSystem) : RoomSystem :=
  match sessions_ rs !! session_id with
  | Some _ => rs
  | None =>
      mkRoomSystem
        (<[session_id := mkSessionState session_id session_id "" no_room_id false]>
           (sessions_ rs))
        (rooms_ rs)
  end.

Definition FindSession (session_id : Z) (rs : RoomSystem) : option SessionState :=
  sessions_ rs !! session_id.

Definition FindRoom (room_id : Z) (rs : RoomSystem) : option RoomState :=
  rooms_ rs !! room_id.

Definition RemoveSessionFromCurrentRoom (session_id : Z) (rs : RoomSystem) : RoomSystem :=
  match FindSession session_id rs with
  | None => rs
  | Some session =>
      if ss_room_id session =? no_room_id then rs
      else
        let rs :=
          match FindRoom (ss_room_id session) rs with
          | Some _ => upd_room (ss_room_id session) (members_erase session_id) rs
          | None => rs
          end in
        upd_session session_id (set_room_id no_room_id) rs
  end.

Definition RemoveSession (session_id : Z) (rs : RoomSystem) : RoomSystem :=
  let rs := RemoveSessionFromCurrentRoom session_id rs in
  mkRoomSystem (delete session_id (sessions_ rs)) (rooms_ rs).

Definition MoveSessionToRoom (session_id room_id : Z) (rs : RoomSystem) : RoomSystem :=
  match FindSession session_id rs, FindRoom room_id rs with
  | Some session, Some _ =>
      let rs :=
        if negb (ss_room_id session =? no_room_id) && negb (ss_room_id session =? room_id)
        then RemoveSessionFromCurrentRoom session_id rs
        else rs in
      rs |> upd_room room_id (members_insert session_id)
         |> upd_session session_id (set_room_id room_id)
  | _, _ => rs
  end.

Definition SetLoggedIn (session_id : Z) (display_name : string) (rs : RoomSystem)
    : RoomSystem :=
  match FindSession session_id rs with
  | None => rs
  | Some _ => upd_session session_id (set_login display_name) rs
  end.

(** The loop over [sessions_]; its result does not depend on the order. *)
Definition IsDisplayNameTaken (display_name : string) (except_session_id : Z)
    (rs : RoomSystem) : bool :=
  existsb
    (λ '(session_id, session),
       if session_id =? except_session_id then false
       else ss_logged_in session && bool_decide (ss_display_name session = display_name))
    (map_to_list (sessions_ rs)).

Definition GetRoomMembers (order : gset Z → list Z) (room_id : Z)
    (exclude_session_id : option Z) (rs : RoomSystem) : list SessionState :=
  match FindRoom room_id rs with
  | None => []
  | Some room =>
      omap
        (λ member_session_id,
           if decide (exclude_session_id = Some member_session_id) then None
           else FindSession member_session_id rs)
        (order (rm_members room))
  end.

Definition Rooms (rs : RoomSystem) : gmap Z RoomState := rooms_ rs.

(** ** Well-formedness

    Keys agree with the ids stored in the elements, no room has the id that
    means "no room", and membership is consistent in both directions: a
    session's [room_id] names an existing room that lists it, and every listed
    member is a session whose [room_id] is that room. *)

Record rs_wf (rs : RoomSystem) : Prop := {
  rs_wf_session k s :
    sessions_ rs !! k = Some s → ss_session_id s = k ∧ ss_user_id s = k;
  rs_wf_room r rm : rooms_ rs !! r = Some rm → rm_room_id rm = r ∧ r ≠ no_room_id;
  rs_wf_in_room k s :
    sessions_ rs !! k = Some s → ss_room_id s ≠ no_room_id →
    ∃ rm, rooms_ rs !! ss_room_id s = Some rm ∧ k ∈ rm_members rm;
  rs_wf_member r rm k :
    rooms_ rs !! r = Some rm → k ∈ rm_members rm →
    ∃ s, sessions_ rs !! k = Some s ∧ ss_room_id s = r;
}.

(** ** What each operation does to the two maps *)

Section MapEquations.
Implicit Types (rs : RoomSystem) (k r : Z).

Lemma set_room_id_same s : set_room_id (ss_room_id s) s = s.
Proof. by destruct s. Qed.

Lemma set_room_id_twice a b s : set_room_id a (set_room_id b s) = set_room_id a s.
Proof. done. Qed.

Lemma members_erase_absent k rm : k ∉ rm_members rm → members_erase k rm = rm.
Proof.
  intros Hk. destruct rm as [i n m]; simpl in *. unfold members_erase; simpl.
  f_equal. set_solver.
Qed.

Lemma members_insert_erase k rm : members_insert k (members_erase k rm) = members_insert k rm.
Proof.
  unfold members_insert, members_erase; simpl. f_equal.
  apply set_eq. intros x. destruct (decide (x = k)); set_solver.
Qed.

(** A session is a member of its own room only. *)
Lemma rs_wf_elsewhere rs k s r rm :
  rs_wf rs → sessions_ rs !! k = Some s → rooms_ rs !! r = Some rm →
  ss_room_id s ≠ r → k ∉ rm_members rm.
Proof.
  intros Hwf Hs Hrm Hne Hk.
  destruct (rs_wf_member rs Hwf r rm k Hrm Hk) as (s' & Hs' & ?). congruence.
Qed.

Lemma rs_wf_absent rs k r rm :
  rs_wf rs → sessions_ rs !! k = None → rooms_ rs !! r = Some rm → k ∉ rm_members rm.
Proof.
  intros Hwf Hs Hrm Hk. destruct (rs_wf_member rs Hwf r rm k Hrm Hk) as (? & ? & ?).
  congruence.
Qed.

Lemma sessions_leave k rs :
  sessions_ (RemoveSessionFromCurrentRoom k rs)
  = alter (set_room_id no_room_id) k (sessions_ rs).
Proof.
  unfold RemoveSessionFromCurrentRoom, FindSession.
  destruct (sessions_ rs !! k) as [s|] eqn:Hs; [|by rewrite alter_id by congruence].
  destruct (Z.eqb_spec (ss_room_id s) no_room_id) as [E|E].
  - symmetry. apply alter_id. intros s' Hs'. simplify_eq.
    rewrite <-E. apply set_room_id_same.
  - by destruct (FindRoom _ _).
Qed.

Lemma rooms_leave k rs :
  rs_wf rs →
  rooms_ (RemoveSessionFromCurrentRoom k rs) = members_erase k <$> rooms_ rs.
Proof.
  intros Hwf. apply map_eq; intros r. rewrite lookup_fmap.
  assert (∀ rm, rooms_ rs !! r = Some rm → k ∉ rm_members rm →
            rooms_ rs !! r = members_erase k <$> rooms_ rs !! r) as Hskip.
  { intros rm -> Hk. simpl. by rewrite members_erase_absent. }
  unfold RemoveSessionFromCurrentRoom, FindSession, FindRoom.
  destruct (sessions_ rs !! k) as [s|] eqn:Hs.
  - destruct (Z.eqb_spec (ss_room_id s) no_room_id) as [E|E].
    + destruct (rooms_ rs !! r) as [rm|] eqn:Hr; [|done].
      apply (Hskip rm); [done|]. eapply rs_wf_elsewhere; eauto.
      destruct (rs_wf_room rs Hwf r rm Hr). congruence.
    + destruct (rs_wf_in_room rs Hwf k s Hs E) as (rm & Hrm & Hk). rewrite Hrm. simpl.
      rewrite lookup_alter. case_decide as Hr; [by subst|].
      destruct (rooms_ rs !! r) as [rm'|] eqn:Hr'; [|done].
      apply (Hskip rm'); [done|]. eapply rs_wf_elsewhere; eauto.
  - destruct (rooms_ rs !! r) as [rm|] eqn:Hr; [|done].
    apply (Hskip rm); [done|]. eapply rs_wf_absent; eauto.
Qed.

Lemma sessions_move k r rs :
  is_Some (rooms_ rs !! r) →
  sessions_ (MoveSessionToRoom k r rs) = alter (set_room_id r) k (sessions_ rs).
Proof.
  intros [rm Hr]. unfold MoveSessionToRoom, FindSession, FindRoom. rewrite Hr.
  destruct (sessions_ rs !! k) as [s|] eqn:Hs; [|by rewrite alter_id by congruence].
  simpl. destruct (_ && _); [|done]. rewrite sessions_leave.
  apply map_eq; intros k'. rewrite !lookup_alter.
  repeat case_decide; try done. by destruct (sessions_ rs !! k).
Qed.

Lemma rooms_move k r rs :
  rs_wf rs → is_Some (sessions_ rs !! k) →
  rooms_ (MoveSessionToRoom k r rs)
  = alter (members_insert k) r
      (if decide (is_Some (rooms_ rs !! r)) then members_erase k <$> rooms_ rs
       else rooms_ rs).
Proof.
  intros Hwf [s Hs]. unfold MoveSessionToRoom, FindSession, FindRoom. rewrite Hs.
  destruct (rooms_ rs !! r) as [rm|] eqn:Hr.
  2:{ rewrite decide_False by (intros [? ?]; done). by rewrite alter_id by congruence. }
  rewrite decide_True by eauto. simpl.
  destruct (Z.eqb_spec (ss_room_id s) r) as [E|E].
  - rewrite andb_false_r. apply map_eq; intros r'. rewrite !lookup_alter, !lookup_fmap.
    case_decide as Hrr.
    + subst r'. rewrite Hr. simpl. by rewrite members_insert_erase.
    + destruct (rooms_ rs !! r') as [rm'|] eqn:Hr'; simpl; [|done].
      rewrite members_erase_absent; [done|]. eapply rs_wf_elsewhere; eauto. congruence.
  - destruct (Z.eqb_spec (ss_room_id s) no_room_id) as [E'|E']; simpl.
    + apply map_eq; intros r'. rewrite !lookup_alter, !lookup_fmap.
      assert (∀ rm', rooms_ rs !! r' = Some rm' → members_erase k rm' = rm') as Hid.
      { intros rm' Hr'. apply members_erase_absent. eapply rs_wf_elsewhere; eauto.
        destruct (rs_wf_room rs Hwf r' rm' Hr'). congruence. }
      case_decide as Hrr.
      * subst r'. rewrite Hr. simpl. by rewrite members_insert_erase.
      * destruct (rooms_ rs !! r') as [rm'|] eqn:Hr'; simpl; [|done].
        by rewrite Hid.
    + by rewrite rooms_leave.
Qed.
End MapEquations.

(** ** Abstract specification: presence

    What the registry promises, without rooms and member sets: a map from each
    connected session to the room it is in ([no_room_id] for none).  The member
    set of a room is the inverse image of that room. *)

Abbreviation Presence := (gmap Z Z).

Definition presence (rs : RoomSystem) : Presence := ss_room_id <$> sessions_ rs.

Definition occupants (r : Z) (p : Presence) : gset Z :=
  dom (filter (λ kr, kr.2 = r) p).

Inductive rs_op :=
  | OpAdd (k : Z)
  | OpRemove (k : Z)
  | OpLeave (k : Z)
  | OpMove (k r : Z)
  | OpLogin (k : Z) (name : string).

Definition rs_apply (rs : RoomSystem) (op : rs_op) : RoomSystem :=
  match op with
  | OpAdd k => AddSession k rs
  | OpRemove k => RemoveSession k rs
  | OpLeave k => RemoveSessionFromCurrentRoom k rs
  | OpMove k r => MoveSessionToRoom k r rs
  | OpLogin k name => SetLoggedIn k name rs
  end.

Definition spec_apply (rooms : gset Z) (p : Presence) (op : rs_op) : Presence :=
  match op with
  | OpAdd k => match p !! k with Some _ => p | None => <[k := no_room_id]> p end
  | OpRemove k => delete k p
  | OpLeave k => alter (λ _, no_room_id) k p
  | OpMove k r => if decide (r ∈ rooms) then alter (λ _, r) k p else p
  | OpLogin _ _ => p
  end.

(** The simulation relation: ids agree with keys, every room of the presence map
    exists, and each member set is the room's inverse image. *)
Record rs_refines (rs : RoomSystem) (p : Presence) : Prop := {
  rr_presence : presence rs = p;
  rr_session k s : sessions_ rs !! k = Some s → ss_session_id s = k ∧ ss_user_id s = k;
  rr_room r rm : rooms_ rs !! r = Some rm →
    rm_room_id rm = r ∧ r ≠ no_room_id ∧ rm_members rm = occupants r p;
  rr_exists k r : p !! k = Some r → r ≠ no_room_id → is_Some (rooms_ rs !! r);
}.

Section Refinement.
Implicit Types (rs : RoomSystem) (k r : Z) (p : Presence).

Lemma elem_of_occupants k r p : k ∈ occupants r p ↔ p !! k = Some r.
Proof.
  unfold occupants. rewrite elem_of_dom. split.
  - intros [r' [Hp ?]%map_lookup_filter_Some]. simpl in *. by subst.
  - intros Hp. exists r. by apply map_lookup_filter_Some.
Qed.

Lemma lookup_presence rs k : presence rs !! k = ss_room_id <$> sessions_ rs !! k.
Proof. apply lookup_fmap. Qed.

Lemma rs_refines_wf rs p : rs_refines rs p → rs_wf rs.
Proof.
  intros [<- Hs Hr He]. split.
  - apply Hs.
  - intros r rm Hrm. destruct (Hr r rm Hrm) as (? & ? & ?). done.
  - intros k s Hks Hne. assert (presence rs !! k = Some (ss_room_id s)) as Hp
      by (by rewrite lookup_presence, Hks).
    destruct (He k _ Hp Hne) as [rm Hrm]. exists rm. split; [done|].
    destruct (Hr _ _ Hrm) as (_ & _ & ->). by apply elem_of_occupants.
  - intros r rm k Hrm Hk. destruct (Hr _ _ Hrm) as (_ & _ & Hm).
    rewrite Hm, elem_of_occupants, lookup_presence in Hk.
    destruct (sessions_ rs !! k) as [s|]; [|done]. simplify_eq/=. eauto.
Qed.

Lemma rs_wf_refines rs : rs_wf rs → rs_refines rs (presence rs).
Proof.
  intros Hwf. split; [done|by apply Hwf|..].
  - intros r rm Hrm. destruct (rs_wf_room rs Hwf r rm Hrm). do 2 (split; [done|]).
    apply set_eq; intros k. rewrite elem_of_occupants, lookup_presence. split.
    + intros Hk. destruct (rs_wf_member rs Hwf r rm k Hrm Hk) as (s & -> & <-). done.
    + intros Hk. destruct (sessions_ rs !! k) as [s|] eqn:Hs; simplify_eq/=.
      destruct (rs_wf_in_room rs Hwf k s Hs) as (rm' & ? & ?); [congruence|]. congruence.
  - intros k r Hp Hne. rewrite lookup_presence in Hp.
    destruct (sessions_ rs !! k) as [s|] eqn:Hs; simplify_eq/=.
    destruct (rs_wf_in_room rs Hwf k s Hs Hne) as (rm & -> & _). eauto.
Qed.

Lemma presence_alter f g k rs :
  (∀ s, ss_room_id (f s) = g (ss_room_id s)) →
  ss_room_id <$> alter f k (sessions_ rs) = alter g k (presence rs).
Proof.
  intros Hfg. apply map_eq; intros k'.
  rewrite lookup_fmap, !lookup_alter, !lookup_presence.
  case_decide; [|done]. destruct (sessions_ rs !! k); simpl; [|done]. by rewrite Hfg.
Qed.
End Refinement.

Section Simulation.
Implicit Types (rs : RoomSystem) (k r : Z) (p : Presence).

(** A change of the session map that keeps ids, with the rooms' members
    updated to the new inverse images, keeps the relation. *)
Lemma refines_update rs rs' p' :
  presence rs' = p' →
  (∀ k s, sessions_ rs' !! k = Some s → ss_session_id s = k ∧ ss_user_id s = k) →
  dom (rooms_ rs') = dom (rooms_ rs) →
  (∀ r rm', rooms_ rs' !! r = Some rm' → ∃ rm, rooms_ rs !! r = Some rm ∧
     rm_room_id rm' = rm_room_id rm ∧
     ∀ k, k ∈ rm_members rm' ↔ p' !! k = Some r) →
  (∀ k r, p' !! k = Some r → r ≠ no_room_id → r ∈ dom (rooms_ rs)) →
  rs_wf rs → rs_refines rs' p'.
Proof.
  intros Hp Hs Hdom Hr He Hwf. split; [done|done|..].
  - intros r rm' Hrm'. destruct (Hr r rm' Hrm') as (rm & Hrm & Hid & Hm).
    destruct (rs_wf_room rs Hwf r rm Hrm). split; [congruence|]. split; [done|].
    apply set_eq; intros k. by rewrite elem_of_occupants.
  - intros k r Hk Hne. apply elem_of_dom. rewrite Hdom. by apply (He k).
Qed.

Lemma ids_alter f k rs :
  rs_wf rs → (∀ s, ss_session_id (f s) = ss_session_id s ∧ ss_user_id (f s) = ss_user_id s) →
  ∀ k' s, alter f k (sessions_ rs) !! k' = Some s → ss_session_id s = k' ∧ ss_user_id s = k'.
Proof.
  intros Hwf Hf k' s. rewrite lookup_alter. case_decide; [|by apply Hwf].
  subst. destruct (sessions_ rs !! k') as [s0|] eqn:Hs0; [|done].
  intros [= <-]. destruct (Hf s0) as [-> ->]. by apply Hwf.
Qed.

Lemma wf_members rs r rm k :
  rs_wf rs → rooms_ rs !! r = Some rm → k ∈ rm_members rm ↔ presence rs !! k = Some r.
Proof.
  intros Hwf Hrm. destruct (rr_room _ _ (rs_wf_refines rs Hwf) r rm Hrm) as (_ & _ & ->).
  apply elem_of_occupants.
Qed.

Lemma wf_exists rs k r :
  rs_wf rs → presence rs !! k = Some r → r ≠ no_room_id → r ∈ dom (rooms_ rs).
Proof.
  intros Hwf Hk Hne. apply elem_of_dom.
  by apply (rr_exists _ _ (rs_wf_refines rs Hwf) k r).
Qed.

Lemma leave_refines k rs :
  rs_wf rs →
  rs_refines (RemoveSessionFromCurrentRoom k rs) (alter (λ _, no_room_id) k (presence rs)).
Proof.
  intros Hwf. apply (refines_update rs); [..|done].
  - unfold presence at 1. rewrite sessions_leave. by apply presence_alter.
  - intros k' s. rewrite sessions_leave. by apply ids_alter.
  - rewrite rooms_leave by done. apply dom_fmap_L.
  - intros r rm'. rewrite rooms_leave, lookup_fmap by done.
    destruct (rooms_ rs !! r) as [rm|] eqn:Hrm; [|done]. intros [= <-].
    exists rm. split; [done|]. split; [done|]. intros k'. simpl.
    rewrite elem_of_difference, elem_of_singleton, (wf_members rs r rm k'), lookup_alter by done.
    destruct (rs_wf_room rs Hwf r rm Hrm) as [_ Hr0].
    case_decide as E; [subst|naive_solver].
    split; [naive_solver|]. destruct (presence rs !! k'); naive_solver.
  - intros k' r. rewrite lookup_alter. case_decide; [|by apply wf_exists].
    destruct (presence rs !! k); naive_solver.
Qed.

Lemma move_refines k r rs :
  rs_wf rs → r ∈ dom (rooms_ rs) →
  rs_refines (MoveSessionToRoom k r rs) (alter (λ _, r) k (presence rs)).
Proof.
  intros Hwf Hr. pose proof Hr as Hr'. apply elem_of_dom in Hr'.
  destruct (sessions_ rs !! k) as [s|] eqn:Hs.
  2:{ unfold MoveSessionToRoom, FindSession. rewrite Hs.
      rewrite alter_id' by (by rewrite lookup_presence, Hs). by apply rs_wf_refines. }
  apply (refines_update rs); [..|done].
  - unfold presence at 1. rewrite sessions_move by done. by apply presence_alter.
  - intros k' s'. rewrite sessions_move by done. by apply ids_alter.
  - rewrite rooms_move, decide_True, dom_alter_L by eauto. apply dom_fmap_L.
  - intros r' rm'. rewrite rooms_move, decide_True, lookup_alter, !lookup_fmap by eauto.
    intros Hrm'.
    assert (∃ rm, rooms_ rs !! r' = Some rm ∧ rm_room_id rm' = rm_room_id rm ∧
      rm_members rm' = if decide (r = r') then {[k]} ∪ rm_members rm ∖ {[k]}
                       else rm_members rm ∖ {[k]}) as (rm & Hrm & Hid & Hm).
    { revert Hrm'. destruct (decide (r = r')) as [<-|].
      - destruct (rooms_ rs !! r) as [rm|]; simpl; intros; simplify_eq/=; by eexists.
      - destruct (rooms_ rs !! r') as [rm|]; simpl; intros; simplify_eq/=; by eexists. }
    exists rm. split; [done|]. split; [done|]. intros k'. rewrite Hm, lookup_alter.
    pose proof (wf_members rs r' rm k' Hwf Hrm) as Hwm.
    assert (presence rs !! k = Some (ss_room_id s)) as Hpk
      by (by rewrite lookup_presence, Hs).
    destruct (decide (k = k')) as [<-|]; [rewrite Hpk; simpl|];
      destruct (decide (r = r')); set_solver.
  - intros k' r'. rewrite lookup_alter. case_decide; [|by apply wf_exists].
    destruct (presence rs !! k); simpl; [|done]. by intros [= <-].
Qed.

Lemma remove_refines k rs :
  rs_wf rs → rs_refines (RemoveSession k rs) (delete k (presence rs)).
Proof.
  intros Hwf. pose proof (leave_refines k rs Hwf) as Hl.
  pose proof (rs_refines_wf _ _ Hl) as Hwf'.
  assert (presence (RemoveSession k rs) = delete k (presence rs)) as Hp.
  { unfold RemoveSession, presence; simpl. rewrite sessions_leave, fmap_delete.
    rewrite (presence_alter _ (λ _, no_room_id)) by done.
    apply map_eq; intros k'. destruct (decide (k = k')) as [<-|].
    - by rewrite !lookup_delete_eq.
    - by rewrite !lookup_delete_ne, lookup_alter_ne by done. }
  apply (refines_update (RemoveSessionFromCurrentRoom k rs)); [done|..|done].
  - intros k' s. simpl. rewrite lookup_delete. case_decide; [done|]. by apply Hwf'.
  - done.
  - intros r rm Hrm. exists rm. split; [done|]. split; [done|]. intros k'.
    rewrite (wf_members _ r rm k' Hwf' Hrm), (rr_presence _ _ Hl), lookup_alter, lookup_delete.
    destruct (rs_wf_room _ Hwf' r rm Hrm) as [_ Hr0].
    case_decide; [|done]. subst. destruct (presence rs !! k'); naive_solver.
  - intros k' r. rewrite lookup_delete. case_decide; [done|]. intros Hk Hne.
    apply (wf_exists _ k' r Hwf'); [|done]. rewrite (rr_presence _ _ Hl).
    by rewrite lookup_alter_ne.
Qed.

Lemma add_refines k rs :
  rs_wf rs →
  rs_refines (AddSession k rs)
    (match presence rs !! k with Some _ => presence rs
     | None => <[k := no_room_id]> (presence rs) end).
Proof.
  intros Hwf. unfold AddSession. rewrite lookup_presence.
  destruct (sessions_ rs !! k) as [s|] eqn:Hs; simpl; [by apply rs_wf_refines|].
  assert (presence rs !! k = None) as Hpk by (by rewrite lookup_presence, Hs).
  apply (refines_update rs); [..|done].
  - apply fmap_insert.
  - intros k' s. simpl. rewrite lookup_insert. case_decide; [|by apply Hwf].
    intros [= <-]. by subst.
  - done.
  - intros r rm Hrm. exists rm. split; [done|]. split; [done|]. intros k'.
    rewrite (wf_members rs r rm k' Hwf Hrm), lookup_insert.
    destruct (rs_wf_room rs Hwf r rm Hrm) as [_ Hr0].
    case_decide; [|done]. subst. rewrite Hpk. naive_solver.
  - intros k' r. rewrite lookup_insert. case_decide; [naive_solver|by apply wf_exists].
Qed.

Lemma login_refines k name rs :
  rs_wf rs → rs_refines (SetLoggedIn k name rs) (presence rs).
Proof.
  intros Hwf. unfold SetLoggedIn, FindSession.
  destruct (sessions_ rs !! k) as [s|] eqn:Hs; [|by apply rs_wf_refines].
  apply (refines_update rs); [..|done].
  - unfold presence at 1; simpl. rewrite (presence_alter _ id) by done.
    apply alter_id. done.
  - by apply ids_alter.
  - done.
  - intros r rm Hrm. exists rm. split; [done|]. split; [done|]. intros k'.
    by apply wf_members.
  - intros k' r. by apply wf_exists.
Qed.
End Simulation.

(** ** The registry implements presence *)

Lemma dom_rooms_apply op rs : rs_wf rs → dom (rooms_ (rs_apply rs op)) = dom (rooms_ rs).
Proof.
  intros Hwf. destruct op as [k|k|k|k r|k name]; simpl.
  - unfold AddSession. by destruct (_ !! _).
  - rewrite rooms_leave by done. apply dom_fmap_L.
  - rewrite rooms_leave by done. apply dom_fmap_L.
  - destruct (sessions_ rs !! k) as [s|] eqn:Hs.
    + rewrite rooms_move, dom_alter_L by eauto. case_decide; [apply dom_fmap_L|done].
    + unfold MoveSessionToRoom, FindSession. by rewrite Hs.
  - unfold SetLoggedIn. by destruct (FindSession _ _).
Qed.

Lemma rs_apply_refines op rs :
  rs_wf rs →
  rs_refines (rs_apply rs op) (spec_apply (dom (rooms_ rs)) (presence rs) op).
Proof.
  intros Hwf. destruct op as [k|k|k|k r|k name]; simpl.
  - by apply add_refines.
  - by apply remove_refines.
  - by apply leave_refines.
  - case_decide as Hr; [by apply move_refines|].
    unfold MoveSessionToRoom, FindRoom. apply not_elem_of_dom in Hr. rewrite Hr.
    destruct (FindSession k rs); by apply rs_wf_refines.
  - by apply login_refines.
Qed.

Lemma rs_apply_wf op rs : rs_wf rs → rs_wf (rs_apply rs op).
Proof. intros Hwf. eapply rs_refines_wf, rs_apply_refines; done. Qed.

Lemma room_system_init_refines : rs_refines room_system_init ∅.
Proof.
  split.
  - done.
  - done.
  - intros r rm. simpl. rewrite !lookup_insert.
    repeat case_decide; intros; simplify_eq/=; try done;
      by rewrite lookup_empty in *.
  - intros k r. by rewrite lookup_empty.
Qed.

Definition initial_rooms : gset Z := {[1001; 1002; 1003]}.

(** C28. Refinement of the room registry: after any sequence of session
    connections, removals, room moves, room exits and logins, the registry
    represents exactly the presence map of the abstract specification: each
    session is in at most one room, the member set of every room is the set
    of sessions whose current room it is, stored ids agree with their keys,
    and the rooms are still the three initial ones. *)
Theorem room_system_refines_presence (ops : list rs_op) :
  let rs := foldl rs_apply room_system_init ops in
  rs_refines rs (foldl (spec_apply initial_rooms) ∅ ops)
  ∧ dom (rooms_ rs) = initial_rooms.
Proof.
  induction ops as [|op ops [IH Hdom]] using rev_ind; simpl.
  - split; [apply room_system_init_refines|reflexivity].
  - rewrite !foldl_app. simpl. set (rs := foldl rs_apply room_system_init ops) in *.
    pose proof (rs_refines_wf _ _ IH) as Hwf. split.
    + rewrite <-(rr_presence _ _ IH), <-Hdom. by apply rs_apply_refines.
    + by rewrite dom_rooms_apply.
Qed.

(** ** Queries *)

Lemma IsDisplayNameTaken_spec name except rs :
  IsDisplayNameTaken name except rs = true
  ↔ ∃ k s, k ≠ except ∧ sessions_ rs !! k = Some s ∧ ss_logged_in s = true
           ∧ ss_display_name s = name.
Proof.
  unfold IsDisplayNameTaken. rewrite existsb_exists. split.
  - intros ([k s] & Hin & Hb).
    apply list_elem_of_In, elem_of_map_to_list in Hin.
    revert Hb. destruct (Z.eqb_spec k except); [done|].
    rewrite andb_true_iff, bool_decide_eq_true. intros [Hl Hn]. by exists k, s.
  - intros (k & s & Hne & Hs & Hl & Hn). exists (k, s). split.
    + by apply list_elem_of_In, elem_of_map_to_list.
    + destruct (Z.eqb_spec k except); [done|].
      by rewrite Hl, bool_decide_eq_true_2.
Qed.

Section Members.
Context (order : gset Z → list Z) (order_perm : ∀ s, order s ≡ₚ elements s).
Implicit Types (rs : RoomSystem) (r k : Z).

Lemma elem_of_order s k : k ∈ order s ↔ k ∈ s.
Proof. by rewrite order_perm, elem_of_elements. Qed.

Lemma NoDup_order s : NoDup (order s).
Proof. rewrite order_perm. apply NoDup_elements. Qed.

(** The members returned are the sessions in the room, except the excluded
    one. *)
Lemma elem_of_GetRoomMembers r ex rs s :
  rs_wf rs → is_Some (rooms_ rs !! r) → r ≠ no_room_id →
  s ∈ GetRoomMembers order r ex rs
  ↔ sessions_ rs !! ss_session_id s = Some s ∧ ss_room_id s = r
    ∧ ex ≠ Some (ss_session_id s).
Proof.
  intros Hwf [rm Hrm] Hr0. unfold GetRoomMembers, FindRoom, FindSession. rewrite Hrm.
  rewrite list_elem_of_omap. split.
  - intros (k & Hk & Hs). apply elem_of_order in Hk. case_decide as He; [done|].
    destruct (rs_wf_session rs Hwf k s Hs) as [<- _].
    destruct (rs_wf_member rs Hwf r rm _ Hrm Hk) as (s' & ? & ?).
    simplify_eq. done.
  - intros (Hs & Hr & He). exists (ss_session_id s). split.
    + apply elem_of_order. destruct (rs_wf_in_room rs Hwf _ _ Hs) as (rm' & Hrm' & Hk).
      { congruence. } congruence.
    + by rewrite decide_False.
Qed.

Lemma GetRoomMembers_NoDup r ex rs :
  rs_wf rs → NoDup (ss_session_id <$> GetRoomMembers order r ex rs).
Proof.
  intros Hwf. unfold GetRoomMembers, FindSession.
  destruct (FindRoom r rs) as [rm|]; [|constructor].
  pose proof (NoDup_order (rm_members rm)) as Hnd.
  induction (order (rm_members rm)) as [|k l IH]; [constructor|].
  apply NoDup_cons in Hnd as [Hk Hnd]. simpl.
  case_decide; [by apply IH|].
  destruct (sessions_ rs !! k) as [s|] eqn:Hs; simpl; [|by apply IH].
  apply NoDup_cons. split; [|by apply IH].
  rewrite list_elem_of_fmap. intros (s' & Heq & Hin).
  apply list_elem_of_omap in Hin as (k' & Hk' & Hs'). case_decide; [done|].
  destruct (rs_wf_session rs Hwf k s Hs) as [? _].
  destruct (rs_wf_session rs Hwf k' s' Hs') as [? _]. congruence.
Qed.
End Members.
