(* ===== verification/GameLogicSystem.v ===== *)
(** * NightServer/GameLogicSystem.h, GameLogicSystem.cpp: the chat logic

    One definition per handler and per [Queue...] function.  A handler returns
    [None] where the code would dereference a null pointer.  What the handlers
    read from outside the program state is the class [Environment]: the system
    clock, and the order in which an unordered container is walked; each of
    these reads may give a different answer, so they are indexed by
    [env_reads_], the number of reads made so far.  Console output is left
    out, except that the pointers it dereferences are checked. *)

From S2P Require Import Prelude Schema ServerTypes RoomSystem.

Definition max_display_name_bytes : Z := 32.
Definition max_chat_message_bytes : Z := 512.
Definition max_protocol_payload_bytes : Z := 2048.

(** The outside world of the game thread. *)
Class Environment := {
  (** milliseconds since the epoch at the [n]-th read of [system_clock] *)
  system_clock : nat → Z;
  (** the order of the [n]-th walk over an [unordered_set] / [unordered_map] *)
  members_walk : nat → gset Z → list Z;
  rooms_walk : nat → gmap Z RoomState → list (Z * RoomState);
}.

(** A walk visits every element once. *)
Class EnvironmentSpec `{Environment} : Prop := {
  members_walk_perm n s : members_walk n s ≡ₚ elements s;
  rooms_walk_perm n m : rooms_walk n m ≡ₚ map_to_list m;
}.

Record GameLogicSystem := mkGameLogicSystem {
  room_system_ : RoomSystem;
  outgoing_messages_ : list OutgoingMessage;
  pending_disconnects_ : list Z;
  env_reads_ : nat;
}.

Definition game_logic_init (rs : RoomSystem) : GameLogicSystem :=
  mkGameLogicSystem rs [] [] 0.

Definition set_room_system (rs : RoomSystem) (gl : GameLogicSystem) : GameLogicSystem :=
  mkGameLogicSystem rs (outgoing_messages_ gl) (pending_disconnects_ gl) (env_reads_ gl).

Definition env_read (gl : GameLogicSystem) : GameLogicSystem :=
  mkGameLogicSystem (room_system_ gl) (outgoing_messages_ gl) (pending_disconnects_ gl)
    (S (env_reads_ gl)).

Section GameLogic.
Context `{FlatBuffers, Environment}.
Implicit Types (gl : GameLogicSystem).

Definition CurrentTimestampMs (n : nat) : Z := to_u64 (system_clock n).

Definition TakeOutgoingMessages gl : list OutgoingMessage * GameLogicSystem :=
  (outgoing_messages_ gl,
   mkGameLogicSystem (room_system_ gl) [] (pending_disconnects_ gl) (env_reads_ gl)).

Definition TakePendingDisconnects gl : list Z * GameLogicSystem :=
  (pending_disconnects_ gl,
   mkGameLogicSystem (room_system_ gl) (outgoing_messages_ gl) [] (env_reads_ gl)).

Definition BuildUserInfo (session : SessionState) : UserInfo :=
  CreateUserInfoDirect (ss_user_id session) (ss_display_name session).

Definition BuildRoomInfo (room : RoomState) : RoomInfo :=
  CreateRoomInfoDirect (rm_room_id room) (rm_room_name room)
    (to_u32 (Z.of_nat (size (rm_members room)))).

Definition QueueMessage (session_id : Z) (payload : bytes) gl : GameLogicSystem :=
  if (zlen payload =? 0) || (max_protocol_payload_bytes <? zlen payload) then gl
  else
    mkGameLogicSystem (room_system_ gl)
      (outgoing_messages_ gl ++ [mkOutgoingMessage session_id payload])
      (pending_disconnects_ gl) (env_reads_ gl).

Definition QueueLoginResponse (session_id request_id : Z) (success : bool)
    (error_code : Z) (session : option SessionState) gl : GameLogicSystem :=
  let user := if success then BuildUserInfo <$> session else None in
  QueueMessage session_id
    (BuildMessage request_id (PLoginResponse (Some (mkLoginResponse success error_code user))))
    gl.

Definition QueueRoomListResponse (session_id request_id : Z) gl : GameLogicSystem :=
  let rooms := (λ '(_, room), BuildRoomInfo room)
                 <$> rooms_walk (env_reads_ gl) (Rooms (room_system_ gl)) in
  QueueMessage session_id
    (BuildMessage request_id (PRoomListResponse (Some (CreateRoomListResponseDirect rooms))))
    (env_read gl).

Definition QueueJoinRoomResponse (session_id request_id : Z) (success : bool)
    (error_code : Z) (room : option RoomState) gl : GameLogicSystem :=
  let room_info := if success then BuildRoomInfo <$> room else None in
  QueueMessage session_id
    (BuildMessage request_id
       (PJoinRoomResponse (Some (mkJoinRoomResponse success error_code room_info))))
    gl.

Definition QueueLeaveRoomResponse (session_id request_id : Z) (success : bool)
    (error_code : Z) gl : GameLogicSystem :=
  QueueMessage session_id
    (BuildMessage request_id
       (PLeaveRoomResponse (Some (mkLeaveRoomResponse success error_code))))
    gl.

Definition QueueDisconnectResponse (session_id request_id : Z) (success : bool)
    (error_code : Z) gl : GameLogicSystem :=
  QueueMessage session_id
    (BuildMessage request_id
       (PDisconnectResponse (Some (mkDisconnectResponse success error_code))))
    gl.

Definition QueueChatBroadcast (session_id room_id : Z) (sender : SessionState)
    (content : string) gl : GameLogicSystem :=
  QueueMessage session_id
    (BuildMessage 0
       (PChatBroadcast (Some (CreateChatBroadcastDirect room_id (ss_user_id sender)
          (ss_display_name sender) content (CurrentTimestampMs (env_reads_ gl))))))
    (env_read gl).

Definition QueueUserJoinedEvent (session_id room_id : Z) (joined_user : SessionState) gl
    : GameLogicSystem :=
  QueueMessage session_id
    (BuildMessage 0
       (PUserJoinedEvent (Some (mkUserJoinedEvent room_id (Some (BuildUserInfo joined_user))))))
    gl.

Definition QueueUserLeftEvent (session_id room_id : Z) (left_user : SessionState) gl
    : GameLogicSystem :=
  QueueMessage session_id
    (BuildMessage 0
       (PUserLeftEvent (Some (mkUserLeftEvent room_id (Some (BuildUserInfo left_user))))))
    gl.

Definition QueueSystemMessage (session_id room_id : Z) (content : string) gl
    : GameLogicSystem :=
  QueueMessage session_id
    (BuildMessage 0
       (PSystemMessageEvent (Some (CreateSystemMessageEventDirect room_id content))))
    gl.
End GameLogic.

(** ** Handlers *)

Section Handlers.
Context `{FlatBuffers, Environment}.
Implicit Types (gl : GameLogicSystem).

(** [room_system_.GetRoomMembers(room_id, exclude)]: one walk over the set. *)
Definition get_room_members (room_id : Z) (exclude : option Z) gl
    : list SessionState * GameLogicSystem :=
  (GetRoomMembers (members_walk (env_reads_ gl)) room_id exclude (room_system_ gl),
   env_read gl).

Definition find_session (session_id : Z) gl : option SessionState :=
  FindSession session_id (room_system_ gl).

Definition NotifyRoomLeave (session : SessionState) gl : GameLogicSystem :=
  if (ss_room_id session =? no_room_id) || negb (ss_logged_in session) then gl
  else
    let '(remaining_members, gl) :=
      get_room_members (ss_room_id session) (Some (ss_session_id session)) gl in
    foldl (λ gl member,
             QueueUserLeftEvent (ss_session_id member) (ss_room_id session) session gl)
      gl remaining_members.

Definition HandleSessionConnected (session_id : Z) gl : option GameLogicSystem :=
  Some (set_room_system (AddSession session_id (room_system_ gl)) gl).

Definition HandleSessionDisconnected (session_id : Z) gl : option GameLogicSystem :=
  let gl :=
    match find_session session_id gl with
    | Some session => NotifyRoomLeave session gl
    | None => gl
    end in
  Some (set_room_system (RemoveSession session_id (room_system_ gl)) gl).

Definition HandleInvalidPacket (session_id : Z) (message : string) gl
    : option GameLogicSystem :=
  Some (QueueSystemMessage session_id 0 message gl).

Definition HandleLoginRequest (session_id request_id : Z) (display_name : string) gl
    : option GameLogicSystem :=
  match find_session session_id gl with
  | None => Some gl
  | Some _ =>
      if zsize display_name =? 0
      then Some (QueueLoginResponse session_id request_id false ErrorCode.INVALID_NAME None gl)
      else if max_display_name_bytes <? zsize display_name
      then Some (QueueLoginResponse session_id request_id false ErrorCode.INVALID_NAME None gl)
      else if IsDisplayNameTaken display_name session_id (room_system_ gl)
      then Some (QueueLoginResponse session_id request_id false ErrorCode.DUPLICATE_NAME None gl)
      else
        let gl := set_room_system (SetLoggedIn session_id display_name (room_system_ gl)) gl in
        let session := find_session session_id gl in
        let gl := QueueLoginResponse session_id request_id true ErrorCode.NONE session gl in
        _ ← session;
        Some gl
  end.

Definition HandleRoomListRequest (session_id request_id : Z) gl : option GameLogicSystem :=
  Some (QueueRoomListResponse session_id request_id gl).

Definition HandleJoinRoomRequest (session_id request_id room_id : Z) gl
    : option GameLogicSystem :=
  match find_session session_id gl, FindRoom room_id (room_system_ gl) with
  | None, _ => Some gl
  | Some session, room =>
      if negb (ss_logged_in session)
      then Some (QueueJoinRoomResponse session_id request_id false ErrorCode.INVALID_NAME None gl)
      else
      match room with
      | None =>
          Some (QueueJoinRoomResponse session_id request_id false ErrorCode.ROOM_NOT_FOUND None gl)
      | Some _ =>
          if ss_room_id session =? room_id
          then Some (QueueJoinRoomResponse session_id request_id false
                       ErrorCode.ALREADY_IN_ROOM room gl)
          else
          let gl :=
            if negb (ss_room_id session =? no_room_id)
            then
              let gl := NotifyRoomLeave session gl in
              set_room_system (RemoveSessionFromCurrentRoom session_id (room_system_ gl)) gl
            else gl in
          let '(existing_members, gl) := get_room_members room_id None gl in
          let gl := set_room_system (MoveSessionToRoom session_id room_id (room_system_ gl)) gl in
          let session := find_session session_id gl in
          let room := FindRoom room_id (room_system_ gl) in
          let gl := QueueJoinRoomResponse session_id request_id true ErrorCode.NONE room gl in
          room ← room;
          let gl := QueueSystemMessage session_id (rm_room_id room)
                      (rm_room_name room +:+ " 방에 입장했습니다.") gl in
          foldl (λ ogl other_session,
                   gl ← ogl;
                   if negb (ss_logged_in other_session) then Some gl
                   else
                     session ← session;
                     Some (gl
                       |> QueueUserJoinedEvent (ss_session_id other_session)
                            (rm_room_id room) session
                       |> QueueUserJoinedEvent session_id (rm_room_id room) other_session))
            (Some gl) existing_members
      end
  end.

Definition HandleChatSendRequest (session_id request_id : Z) (content : string) gl
    : option GameLogicSystem :=
  match find_session session_id gl with
  | None => Some gl
  | Some session =>
      if negb (ss_logged_in session) then Some gl
      else if ss_room_id session =? no_room_id
      then Some (QueueSystemMessage session_id 0
                   "채팅을 보내기 전에 먼저 방에 입장해야 합니다." gl)
      else if zsize content =? 0
      then Some (QueueSystemMessage session_id (ss_room_id session)
                   "빈 메시지는 전송할 수 없습니다." gl)
      else if max_chat_message_bytes <? zsize content
      then Some (QueueSystemMessage session_id (ss_room_id session)
                   "메시지가 너무 깁니다." gl)
      else
        let '(members, gl) := get_room_members (ss_room_id session) None gl in
        Some (foldl (λ gl member,
                       QueueChatBroadcast (ss_session_id member) (ss_room_id session)
                         session content gl)
                gl members)
  end.

Definition HandleLeaveRoomRequest (session_id request_id : Z) gl : option GameLogicSystem :=
  match find_session session_id gl with
  | None => Some gl
  | Some session =>
      if ss_room_id session =? no_room_id
      then Some (QueueLeaveRoomResponse session_id request_id false ErrorCode.NOT_IN_ROOM gl)
      else
        let room_id := ss_room_id session in
        let gl := NotifyRoomLeave session gl in
        let gl := set_room_system
                    (RemoveSessionFromCurrentRoom session_id (room_system_ gl)) gl in
        Some (gl |> QueueLeaveRoomResponse session_id request_id true ErrorCode.NONE
                 |> QueueSystemMessage session_id room_id "방에서 퇴장했습니다.")
  end.

Definition HandleDisconnectRequest (session_id request_id : Z) gl : option GameLogicSystem :=
  let gl := QueueDisconnectResponse session_id request_id true ErrorCode.NONE gl in
  let gl :=
    match find_session session_id gl with
    | Some session => NotifyRoomLeave session gl
    | None => gl
    end in
  let gl := set_room_system (RemoveSession session_id (room_system_ gl)) gl in
  Some (mkGameLogicSystem (room_system_ gl) (outgoing_messages_ gl)
          (pending_disconnects_ gl ++ [session_id]) (env_reads_ gl)).

(** [std::visit] over the event variant. *)
Definition handle_event gl (ev : ServerEvent) : option GameLogicSystem :=
  match ev with
  | SessionConnectedEvent k => HandleSessionConnected k gl
  | SessionDisconnectedEvent k => HandleSessionDisconnected k gl
  | InvalidPacketEvent k message => HandleInvalidPacket k message gl
  | LoginRequestEvent k q name => HandleLoginRequest k q name gl
  | RoomListRequestEvent k q => HandleRoomListRequest k q gl
  | JoinRoomRequestEvent k q r => HandleJoinRoomRequest k q r gl
  | ChatSendRequestEvent k q content => HandleChatSendRequest k q content gl
  | LeaveRoomRequestEvent k q => HandleLeaveRoomRequest k q gl
  | DisconnectRequestEvent k q => HandleDisconnectRequest k q gl
  end.

Definition Update (events : list ServerEvent) gl : option GameLogicSystem :=
  foldl (λ ogl event, ogl ≫= λ gl, handle_event gl event) (Some gl) events.
End Handlers.

(** An outside world for concrete runs: a stopped clock, and walks in the order
    in which the maps list their elements. *)
Definition plain_environment : Environment := {|
  system_clock _ := 0;
  members_walk _ s := elements s;
  rooms_walk _ m := map_to_list m;
|}.

Lemma plain_environment_spec : @EnvironmentSpec plain_environment.
Proof. done. Qed.

(** Another one: a running clock, and the opposite orders. *)
Definition other_environment : Environment := {|
  system_clock n := 1700000000000 + Z.of_nat n;
  members_walk _ s := reverse (elements s);
  rooms_walk _ m := reverse (map_to_list m);
|}.

Lemma other_environment_spec : @EnvironmentSpec other_environment.
Proof. split; intros; apply reverse_Permutation. Qed.
