(* ===== verification/ChatSpec.v ===== *)
(** * The chat protocol: an abstract specification of the server's event handling

    What [GameLogicSystem] together with [RoomSystem] promises, without member
    sets, pointers, container walks or byte buffers.  The state is the map from
    session ids to session states; the rooms are a fixed map from ids to names;
    a step consumes one event and yields the messages to send, in order, and
    the sessions to disconnect.  The order in which the members of a room are
    notified is left open.  [GameLogicRefinement] proves that the handlers
    implement these steps; [ChatInvariant], [ChatViews] and [ChatFacts] prove
    what follows from them. *)

From S2P Require Import Prelude Schema ServerTypes.

Abbreviation Chat := (gmap Z SessionState).
Abbreviation RoomNames := (gmap Z string).

(** ** Messages *)

Definition user_info (s : SessionState) : UserInfo :=
  mkUserInfo (ss_user_id s) (Some (c_str (ss_display_name s))).

(** The sessions whose room is [r]. *)
Definition in_room (c : Chat) (r : Z) : gset Z :=
  dom (filter (λ ks, ss_room_id ks.2 = r) c).

Definition room_info (c : Chat) (r : Z) (name : string) : RoomInfo :=
  mkRoomInfo r (Some (c_str name)) (to_u32 (Z.of_nat (size (in_room c r)))).

Definition msg_login (q : Z) (code : Z) (u : option UserInfo) : Message :=
  mkMessage q (PLoginResponse
    (Some (mkLoginResponse (bool_decide (code = ErrorCode.NONE)) code u))).
Definition msg_join (q : Z) (code : Z) (r : option RoomInfo) : Message :=
  mkMessage q (PJoinRoomResponse
    (Some (mkJoinRoomResponse (bool_decide (code = ErrorCode.NONE)) code r))).
Definition msg_leave (q : Z) (code : Z) : Message :=
  mkMessage q (PLeaveRoomResponse
    (Some (mkLeaveRoomResponse (bool_decide (code = ErrorCode.NONE)) code))).
Definition msg_disconnect (q : Z) : Message :=
  mkMessage q (PDisconnectResponse (Some (mkDisconnectResponse true ErrorCode.NONE))).
Definition msg_room_list (q : Z) (rooms : list RoomInfo) : Message :=
  mkMessage q (PRoomListResponse (Some (mkRoomListResponse (Some rooms)))).
Definition msg_system (r : Z) (text : string) : Message :=
  mkMessage 0 (PSystemMessageEvent (Some (mkSystemMessageEvent r (Some (c_str text))))).
Definition msg_joined (r : Z) (s : SessionState) : Message :=
  mkMessage 0 (PUserJoinedEvent (Some (mkUserJoinedEvent r (Some (user_info s))))).
Definition msg_left (r : Z) (s : SessionState) : Message :=
  mkMessage 0 (PUserLeftEvent (Some (mkUserLeftEvent r (Some (user_info s))))).
Definition msg_chat (s : SessionState) (content : string) (timestamp : Z) : Message :=
  mkMessage 0 (PChatBroadcast (Some (mkChatBroadcast (ss_room_id s) (ss_user_id s)
    (Some (c_str (ss_display_name s))) (Some (c_str content)) timestamp))).

(** ** Notifications *)

(** [l] lists the sessions in room [r] other than [ex], each once. *)
Definition members_of (c : Chat) (r : Z) (ex : option Z) (l : list SessionState) : Prop :=
  NoDup (ss_session_id <$> l) ∧
  ∀ s, s ∈ l ↔ c !! ss_session_id s = Some s ∧ ss_room_id s = r
               ∧ ex ≠ Some (ss_session_id s).

(** The others in the room are told that [s] leaves. *)
Definition left_msgs (s : SessionState) (l : list SessionState) : list (Z * Message) :=
  (λ m, (ss_session_id m, msg_left (ss_room_id s) s)) <$> l.

Inductive notify_leave (c : Chat) (s : SessionState) : list (Z * Message) → Prop :=
  | notify_leave_none :
      ss_room_id s = no_room_id ∨ ss_logged_in s = false → notify_leave c s []
  | notify_leave_room l :
      ss_room_id s ≠ no_room_id → ss_logged_in s = true →
      members_of c (ss_room_id s) (Some (ss_session_id s)) l →
      notify_leave c s (left_msgs s l).

(** The newcomer and each logged-in member learn of each other. *)
Definition joined_msgs (s : SessionState) (l : list SessionState) : list (Z * Message) :=
  mjoin ((λ m, if ss_logged_in m
               then [(ss_session_id m, msg_joined (ss_room_id s) s);
                     (ss_session_id s, msg_joined (ss_room_id s) m)]
               else []) <$> l).

Definition chat_msgs (s : SessionState) (content : string) (l : list SessionState)
    (ts : list Z) : list (Z * Message) :=
  zip_with (λ m t, (ss_session_id m, msg_chat s content t)) l ts.

Definition new_session (k : Z) : SessionState := mkSessionState k k "" no_room_id false.
Definition logged_in_as (name : string) (s : SessionState) : SessionState :=
  mkSessionState (ss_session_id s) (ss_user_id s) name (ss_room_id s) true.
Definition moved_to (r : Z) (s : SessionState) : SessionState :=
  mkSessionState (ss_session_id s) (ss_user_id s) (ss_display_name s) r (ss_logged_in s).

Definition name_taken (c : Chat) (k : Z) (name : string) : Prop :=
  ∃ k' s, k' ≠ k ∧ c !! k' = Some s ∧ ss_logged_in s = true ∧ ss_display_name s = name.

(** Byte lengths the server accepts. *)
Definition valid_name (name : string) : Prop := 0 < zsize name ≤ 32.
Definition valid_content (content : string) : Prop := 0 < zsize content ≤ 512.

(** ** Steps *)

Section Step.
Context (rooms : RoomNames).

Inductive chat_step (c : Chat) :
    ServerEvent → Chat → list (Z * Message) → list Z → Prop :=
  (** connection and disconnection *)
  | step_connect k :
      c !! k = None →
      chat_step c (SessionConnectedEvent k) (<[k := new_session k]> c) [] []
  | step_connect_again k :
      is_Some (c !! k) → chat_step c (SessionConnectedEvent k) c [] []
  | step_disconnected k s msgs :
      c !! k = Some s → notify_leave c s msgs →
      chat_step c (SessionDisconnectedEvent k) (delete k c) msgs []
  | step_disconnected_unknown k :
      c !! k = None → chat_step c (SessionDisconnectedEvent k) c [] []
  | step_invalid k text :
      chat_step c (InvalidPacketEvent k text) c [(k, msg_system 0 text)] []
  (** login *)
  | step_login_unknown k q name :
      c !! k = None → chat_step c (LoginRequestEvent k q name) c [] []
  | step_login_invalid k q name :
      is_Some (c !! k) → ¬ valid_name name →
      chat_step c (LoginRequestEvent k q name) c
        [(k, msg_login q ErrorCode.INVALID_NAME None)] []
  | step_login_duplicate k q name :
      is_Some (c !! k) → valid_name name → name_taken c k name →
      chat_step c (LoginRequestEvent k q name) c
        [(k, msg_login q ErrorCode.DUPLICATE_NAME None)] []
  | step_login k q name s :
      c !! k = Some s → valid_name name → ¬ name_taken c k name →
      chat_step c (LoginRequestEvent k q name) (<[k := logged_in_as name s]> c)
        [(k, msg_login q ErrorCode.NONE (Some (user_info (logged_in_as name s))))] []
  (** rooms *)
  | step_room_list k q infos :
      infos ≡ₚ (λ rn, room_info c rn.1 rn.2) <$> map_to_list rooms →
      chat_step c (RoomListRequestEvent k q) c [(k, msg_room_list q infos)] []
  | step_join_unknown k q r :
      c !! k = None → chat_step c (JoinRoomRequestEvent k q r) c [] []
  | step_join_not_logged_in k q r s :
      c !! k = Some s → ss_logged_in s = false →
      chat_step c (JoinRoomRequestEvent k q r) c
        [(k, msg_join q ErrorCode.INVALID_NAME None)] []
  | step_join_no_room k q r s :
      c !! k = Some s → ss_logged_in s = true → rooms !! r = None →
      chat_step c (JoinRoomRequestEvent k q r) c
        [(k, msg_join q ErrorCode.ROOM_NOT_FOUND None)] []
  | step_join_again k q r s :
      c !! k = Some s → ss_logged_in s = true → is_Some (rooms !! r) → ss_room_id s = r →
      chat_step c (JoinRoomRequestEvent k q r) c
        [(k, msg_join q ErrorCode.ALREADY_IN_ROOM None)] []
  | step_join k q r s name leave l :
      c !! k = Some s → ss_logged_in s = true → rooms !! r = Some name →
      ss_room_id s ≠ r → notify_leave c s leave → members_of c r None l →
      let c' := <[k := moved_to r s]> c in
      chat_step c (JoinRoomRequestEvent k q r) c'
        (leave ++ [(k, msg_join q ErrorCode.NONE (Some (room_info c' r name)));
                   (k, msg_system r (name +:+ " 방에 입장했습니다."))]
           ++ joined_msgs (moved_to r s) l) []
  | step_leave_unknown k q :
      c !! k = None → chat_step c (LeaveRoomRequestEvent k q) c [] []
  | step_leave_no_room k q s :
      c !! k = Some s → ss_room_id s = no_room_id →
      chat_step c (LeaveRoomRequestEvent k q) c
        [(k, msg_leave q ErrorCode.NOT_IN_ROOM)] []
  | step_leave k q s leave :
      c !! k = Some s → ss_room_id s ≠ no_room_id → notify_leave c s leave →
      chat_step c (LeaveRoomRequestEvent k q) (<[k := moved_to no_room_id s]> c)
        (leave ++ [(k, msg_leave q ErrorCode.NONE);
                   (k, msg_system (ss_room_id s) "방에서 퇴장했습니다.")]) []
  (** chat *)
  | step_chat_ignored k q content :
      (∀ s, c !! k = Some s → ss_logged_in s = false) →
      chat_step c (ChatSendRequestEvent k q content) c [] []
  | step_chat_no_room k q content s :
      c !! k = Some s → ss_logged_in s = true → ss_room_id s = no_room_id →
      chat_step c (ChatSendRequestEvent k q content) c
        [(k, msg_system 0 "채팅을 보내기 전에 먼저 방에 입장해야 합니다.")] []
  | step_chat_empty k q content s :
      c !! k = Some s → ss_logged_in s = true → ss_room_id s ≠ no_room_id →
      zsize content = 0 →
      chat_step c (ChatSendRequestEvent k q content) c
        [(k, msg_system (ss_room_id s) "빈 메시지는 전송할 수 없습니다.")] []
  | step_chat_long k q content s :
      c !! k = Some s → ss_logged_in s = true → ss_room_id s ≠ no_room_id →
      512 < zsize content →
      chat_step c (ChatSendRequestEvent k q content) c
        [(k, msg_system (ss_room_id s) "메시지가 너무 깁니다.")] []
  | step_chat k q content s l ts :
      c !! k = Some s → ss_logged_in s = true → ss_room_id s ≠ no_room_id →
      valid_content content → members_of c (ss_room_id s) None l →
      length ts = length l → Forall (in_range 64) ts →
      chat_step c (ChatSendRequestEvent k q content) c (chat_msgs s content l ts) []
  (** disconnect on request *)
  | step_disconnect k q s leave :
      c !! k = Some s → notify_leave c s leave →
      chat_step c (DisconnectRequestEvent k q) (delete k c)
        ((k, msg_disconnect q) :: leave) [k]
  | step_disconnect_unknown k q :
      c !! k = None →
      chat_step c (DisconnectRequestEvent k q) c [(k, msg_disconnect q)] [k].

(** A run of the server on a sequence of events: the messages and the
    disconnections of all its steps. *)
Inductive chat_run (c : Chat) :
    list ServerEvent → Chat → list (Z * Message) → list Z → Prop :=
  | chat_run_nil : chat_run c [] c [] []
  | chat_run_snoc evs ev c1 c2 msgs1 msgs2 ds1 ds2 :
      chat_run c evs c1 msgs1 ds1 → chat_step c1 ev c2 msgs2 ds2 →
      chat_run c (evs ++ [ev]) c2 (msgs1 ++ msgs2) (ds1 ++ ds2).
End Step.
