(* ===== verification/ChatInvariant.v ===== *)
(** * Invariants of the chat specification

    [chat_wf] holds of every state the server can reach: ids agree with keys,
    only logged-in sessions are in rooms, logged-in names are valid and
    distinct.  [fits] says that a message can be built and is small enough to be
    queued; every message of a step fits. *)

From S2P Require Import Prelude Schema ServerTypes ChatSpec.

(** ** The state invariant *)

Lemma elem_of_in_room c k r :
  k ∈ in_room c r ↔ ∃ s, c !! k = Some s ∧ ss_room_id s = r.
Proof.
  unfold in_room. rewrite elem_of_dom. unfold is_Some.
  setoid_rewrite map_lookup_filter_Some. done.
Qed.

Record session_ok (rooms : RoomNames) (k : Z) (s : SessionState) : Prop := {
  so_id : ss_session_id s = k;
  so_user : ss_user_id s = k;
  so_name : ss_logged_in s = true → valid_name (ss_display_name s);
  so_anonymous : ss_logged_in s = false → ss_room_id s = no_room_id ∧ ss_display_name s = ""%string;
  so_room : ss_room_id s ≠ no_room_id → is_Some (rooms !! ss_room_id s);
}.

Record chat_wf (rooms : RoomNames) (c : Chat) : Prop := {
  cw_session k s : c !! k = Some s → session_ok rooms k s;
  cw_name k s : c !! k = Some s → ss_logged_in s = true → ¬ name_taken c k (ss_display_name s);
}.

Section Invariant.
Context (rooms : RoomNames).
Implicit Types (c : Chat) (k r : Z) (s : SessionState).

Lemma chat_wf_empty : chat_wf rooms ∅.
Proof. split; intros k s; by rewrite lookup_empty. Qed.

(** Storing an acceptable session whose name, if logged in, nobody else has. *)
Lemma chat_wf_insert c k s :
  chat_wf rooms c → session_ok rooms k s →
  (ss_logged_in s = true → ¬ name_taken c k (ss_display_name s)) →
  chat_wf rooms (<[k := s]> c).
Proof.
  intros [Hs Hn] Hok Hnew. split.
  - intros k' s'. rewrite lookup_insert. case_decide as E; [|apply Hs].
    intros [= <-]. by rewrite <-E.
  - intros k' s'. rewrite lookup_insert. case_decide as E.
    + intros [= <-] Hl (k2 & s2 & Hne & Hs2 & Hl2 & Heq). subst k'.
      rewrite lookup_insert_ne in Hs2 by done. apply Hnew; [done|]. exists k2, s2. done.
    + intros Hs' Hl (k2 & s2 & Hne & Hs2 & Hl2 & Heq).
      rewrite lookup_insert in Hs2. case_decide as E2.
      * simplify_eq. apply Hnew; [done|]. exists k', s'. done.
      * apply (Hn k' s'); [done..|]. exists k2, s2. done.
Qed.

Lemma chat_wf_delete c k : chat_wf rooms c → chat_wf rooms (delete k c).
Proof.
  intros [Hs Hn]. split.
  - intros k' s' Hs'. apply lookup_delete_Some in Hs' as [_ ?]. by apply Hs.
  - intros k' s' Hs' Hl (k2 & s2 & Hne & Hs2 & Hl2 & Heq).
    apply lookup_delete_Some in Hs' as [_ ?]. apply lookup_delete_Some in Hs2 as [_ ?].
    apply (Hn k' s'); [done..|]. exists k2, s2. done.
Qed.

Lemma new_session_ok k : session_ok rooms k (new_session k).
Proof. split; done. Qed.

Lemma logged_in_ok k name s :
  valid_name name → session_ok rooms k s → session_ok rooms k (logged_in_as name s).
Proof. intros Hn [Hi Hu Hv Ha Hr]. by split. Qed.

Lemma moved_ok k r s :
  ss_logged_in s = true ∨ r = no_room_id → (r ≠ no_room_id → is_Some (rooms !! r)) →
  session_ok rooms k s → session_ok rooms k (moved_to r s).
Proof.
  intros Hl Hr [Hi Hu Hv Ha _]. split; simpl; try done. intros E.
  destruct Hl as [?|?]; [congruence|]. split; [done|by apply Ha].
Qed.

Lemma chat_step_wf c ev c' msgs ds :
  chat_wf rooms c → chat_step rooms c ev c' msgs ds → chat_wf rooms c'.
Proof.
  intros Hwf Hstep. destruct Hstep; try done; try by apply chat_wf_delete.
  - apply chat_wf_insert; [done|apply new_session_ok|done].
  - apply chat_wf_insert; [done| |done].
    apply logged_in_ok; [done|]. by apply (cw_session rooms c).
  - apply chat_wf_insert; [done| |].
    + apply moved_ok; [by left|by intros _; eexists|]. by apply (cw_session rooms c).
    + simpl. intros _. by apply (cw_name rooms c).
  - apply chat_wf_insert; [done| |].
    + apply moved_ok; [by right|done|]. by apply (cw_session rooms c).
    + simpl. intros Hl. by apply (cw_name rooms c).
Qed.

Lemma chat_run_wf c evs c' msgs ds :
  chat_wf rooms c → chat_run rooms c evs c' msgs ds → chat_wf rooms c'.
Proof. intros Hwf. induction 1; [done|]. eauto using chat_step_wf. Qed.

(** *** Session ids are those the transport assigned *)

Definition keys_u32 c : Prop := ∀ k, is_Some (c !! k) → is_u32 k.

Definition event_wf (ev : ServerEvent) : Prop :=
  is_u32 (event_session ev) ∧ is_u32 (event_request ev) ∧
  match ev with InvalidPacketEvent _ text => zsize text ≤ 1024 | _ => True end.

Lemma chat_step_keys c ev c' msgs ds :
  is_u32 (event_session ev) → keys_u32 c → chat_step rooms c ev c' msgs ds → keys_u32 c'.
Proof.
  intros Hk Hc Hstep.
  assert (∀ k s, is_u32 k → keys_u32 (<[k := s]> c)) as Hins.
  { intros k s Hu k' Hk'. rewrite lookup_insert in Hk'. case_decide; [by subst|by apply Hc]. }
  assert (∀ k, keys_u32 (delete k c)) as Hdel.
  { intros k k' [s Hk']. apply lookup_delete_Some in Hk' as [_ ?]. apply Hc. eauto. }
  destruct Hstep; simpl in Hk; first [done | by apply Hins | by apply Hdel].
Qed.

(** An event touches its own session only. *)
Lemma chat_step_frame c ev c' msgs ds k :
  chat_step rooms c ev c' msgs ds → k ≠ event_session ev → c' !! k = c !! k.
Proof.
  intros Hstep Hk. destruct Hstep; simpl in Hk; try done;
    try (by apply lookup_insert_ne); by apply lookup_delete_ne.
Qed.
End Invariant.

(** ** Message sizes *)

Definition fits (m : Message) : Prop := wf_message m ∧ message_bound m ≤ 2048.

(** Few rooms with short names, as the server sets up. *)
Definition small_rooms (rooms : RoomNames) : Prop :=
  (size rooms ≤ 8)%nat ∧ ∀ r name, rooms !! r = Some name → is_u32 r ∧ zsize name ≤ 64.

Lemma fits_intro q p :
  is_u32 q → wf_payload p → payload_text p ≤ 1200 → payload_rooms p ≤ 8 →
  fits (mkMessage q p).
Proof.
  intros Hq Hp Ht Hr. assert (message_bound (mkMessage q p) ≤ 2048)
    by (unfold message_bound; cbn [payload]; lia).
  split; [|done]. split_and!; [done..|lia].
Qed.

Lemma zsize_app s t : zsize (s +:+ t) = zsize s + zsize t.
Proof.
  unfold zsize. induction s as [|a s IH]; [done|].
  cbn [String.length String.append]. change (String a s +:+ t) with (String a (s +:+ t)).
  cbn [String.length]. lia.
Qed.

Section Fits.
Context (rooms : RoomNames) (c : Chat).
Context (Hwf : chat_wf rooms c) (Hkeys : keys_u32 c) (Hrooms : small_rooms rooms).

Implicit Types (k r q : Z) (s : SessionState).

Definition code_ok (code : Z) : Prop := 0 ≤ code ≤ 8.

Lemma code_u16 code : code_ok code → is_u16 code.
Proof. unfold code_ok. width. Qed.

Lemma u32_0 : is_u32 0.
Proof. done. Qed.

(** The name of a session of [c] is at most 32 bytes, also as a C string. *)
Lemma name_small k s : c !! k = Some s → zsize (ss_display_name s) ≤ 32.
Proof.
  intros Hs. destruct (cw_session _ _ Hwf k s Hs) as [_ _ Hv Ha _].
  destruct (ss_logged_in s); [by destruct Hv|]. by destruct Ha as [_ ->].
Qed.

Lemma user_small k s :
  zsize (ss_display_name s) ≤ 32 → ss_user_id s = k → is_u32 k →
  wf_user (user_info s) ∧ 0 ≤ user_text (Some (user_info s)) ≤ 32.
Proof.
  intros Hn Hu Hk. pose proof (c_str_size (ss_display_name s)).
  pose proof (zsize_nonneg (c_str (ss_display_name s))).
  split; [by unfold wf_user, user_info; rewrite <-Hu in Hk|simpl; lia].
Qed.

Lemma lookup_user k s :
  c !! k = Some s → wf_user (user_info s) ∧ 0 ≤ user_text (Some (user_info s)) ≤ 32.
Proof.
  intros Hs. apply (user_small k); [by apply (name_small k)| |].
  - by apply (cw_session _ _ Hwf k s Hs).
  - apply Hkeys. eauto.
Qed.

Lemma room_u32 k s : c !! k = Some s → is_u32 (ss_room_id s).
Proof.
  intros Hs. destruct (decide (ss_room_id s = no_room_id)) as [->|Hne]; [done|].
  destruct (so_room _ _ _ (cw_session _ _ Hwf k s Hs) Hne) as [name Hr].
  by apply Hrooms in Hr as [? _].
Qed.

Lemma fits_login q code u :
  is_u32 q → code_ok code → from_option wf_user True u → 0 ≤ user_text u ≤ 32 →
  fits (msg_login q code u).
Proof.
  intros Hq Hc Hu Ht. apply fits_intro; [done| |simpl; lia|done].
  split; [by apply code_u16|done].
Qed.

Lemma fits_join q code ri :
  is_u32 q → code_ok code → from_option wf_room True ri → 0 ≤ room_text ri ≤ 64 →
  fits (msg_join q code ri).
Proof.
  intros Hq Hc Hu Ht. apply fits_intro; [done| |simpl; lia|done].
  split; [by apply code_u16|done].
Qed.

Lemma fits_leave q code : is_u32 q → code_ok code → fits (msg_leave q code).
Proof. intros Hq Hc. by apply fits_intro; [|apply code_u16| |]. Qed.

Lemma fits_disconnect q : is_u32 q → fits (msg_disconnect q).
Proof. intros Hq. by apply fits_intro. Qed.

Lemma fits_system r text : is_u32 r → zsize text ≤ 1200 → fits (msg_system r text).
Proof.
  intros Hr Ht. pose proof (c_str_size text). apply fits_intro; [done..|simpl; lia|done].
Qed.

Lemma fits_joined r s :
  is_u32 r → wf_user (user_info s) → 0 ≤ user_text (Some (user_info s)) ≤ 32 →
  fits (msg_joined r s).
Proof. intros Hr Hu Ht. apply fits_intro; [done| |simpl in *; lia|done]. by split. Qed.

Lemma fits_left r s :
  is_u32 r → wf_user (user_info s) → 0 ≤ user_text (Some (user_info s)) ≤ 32 →
  fits (msg_left r s).
Proof. intros Hr Hu Ht. apply fits_intro; [done| |simpl in *; lia|done]. by split. Qed.

Lemma fits_chat k s content t :
  c !! k = Some s → zsize content ≤ 512 → is_u64 t → fits (msg_chat s content t).
Proof.
  intros Hs Hc Ht. pose proof (name_small k s Hs).
  pose proof (c_str_size (ss_display_name s)). pose proof (c_str_size content).
  apply fits_intro; [done| |simpl; lia|done].
  split_and!; [by apply (room_u32 k)| |done].
  destruct (cw_session _ _ Hwf k s Hs) as [_ Hu _ _ _]. simpl. rewrite Hu.
  apply Hkeys. eauto.
Qed.

Lemma room_info_wf c' r name :
  rooms !! r = Some name →
  wf_room (room_info c' r name) ∧ 0 ≤ room_text (Some (room_info c' r name)) ≤ 64.
Proof.
  intros Hr. apply Hrooms in Hr as [Hu Hn]. pose proof (c_str_size name).
  pose proof (zsize_nonneg (c_str name)).
  split; [split; [done|by apply wrap_range]|simpl; lia].
Qed.
End Fits.

#[export] Hint Resolve u32_0 fits_login fits_join fits_leave fits_disconnect fits_system
  fits_joined fits_left fits_chat : night.

(** ** Every message of a step fits *)

Lemma members_of_lookup c r ex l s :
  members_of c r ex l → s ∈ l → c !! ss_session_id s = Some s.
Proof. intros [_ Hl] Hs. by apply Hl. Qed.

Lemma Forall_zip_with {A B C} (f : A → B → C) (P : C → Prop) l k :
  (∀ x y, x ∈ l → y ∈ k → P (f x y)) → Forall P (zip_with f l k).
Proof.
  revert k. induction l as [|x l IH]; intros [|y k] Hf; simpl; try constructor.
  - apply Hf; constructor.
  - apply IH. intros; apply Hf; by constructor.
Qed.

Lemma foldr_bound {A} (f : A → Z) n l :
  (∀ x, x ∈ l → f x ≤ n) → foldr Z.add 0 (f <$> l) ≤ n * zlen l.
Proof.
  unfold zlen. induction l as [|x l IH]; intros Hf; [simpl; lia|].
  assert (f x ≤ n) by (apply Hf; constructor).
  assert (foldr Z.add 0 (f <$> l) ≤ n * Z.of_nat (length l))
    by (apply IH; intros; apply Hf; by constructor).
  csimpl. lia.
Qed.

(** One goal per message of a concrete list. *)
Ltac each_message :=
  repeat first [ apply Forall_nil; exact I | apply Forall_cons; split ]; simpl.

Section StepFits.
Context (rooms : RoomNames).
Context (Hrooms : small_rooms rooms).
Implicit Types (c : Chat) (k r q : Z) (s : SessionState).

Lemma fits_left_msgs c k s l :
  chat_wf rooms c → keys_u32 c → c !! k = Some s →
  Forall (fits ∘ snd) (left_msgs s l).
Proof.
  intros Hwf Hkeys Hs. apply Forall_fmap, Forall_forall. intros m _. simpl.
  destruct (lookup_user rooms c Hwf Hkeys k s Hs) as [Hu Ht].
  apply fits_left; [|done..]. by apply (room_u32 rooms c Hwf Hrooms k).
Qed.

Lemma fits_notify c k s msgs :
  chat_wf rooms c → keys_u32 c → c !! k = Some s → notify_leave c s msgs →
  Forall (fits ∘ snd) msgs.
Proof.
  intros Hwf Hkeys Hs. destruct 1; [constructor|]. by apply (fits_left_msgs c k).
Qed.

Lemma fits_joined_msgs c r s l :
  chat_wf rooms c → keys_u32 c → is_u32 r →
  wf_user (user_info s) → 0 ≤ user_text (Some (user_info s)) ≤ 32 → ss_room_id s = r →
  (∀ m, m ∈ l → c !! ss_session_id m = Some m) →
  Forall (fits ∘ snd) (joined_msgs s l).
Proof.
  intros Hwf Hkeys Hr Hu Ht Hsr Hl. unfold joined_msgs. rewrite Hsr.
  apply Forall_join, Forall_fmap, Forall_forall. intros m Hm. simpl.
  destruct (ss_logged_in m); [|constructor].
  destruct (lookup_user rooms c Hwf Hkeys _ m (Hl m Hm)) as [Hum Htm].
  each_message; by apply fits_joined.
Qed.

Lemma fits_room_list q c infos :
  is_u32 q → infos ≡ₚ (λ rn, room_info c rn.1 rn.2) <$> map_to_list rooms →
  fits (msg_room_list q infos).
Proof.
  intros Hq Hinfos.
  assert (Forall (λ i, wf_room i ∧ room_text (Some i) ≤ 64) infos) as Hall.
  { rewrite Hinfos. apply Forall_fmap, Forall_forall. intros [r name] Hin.
    apply elem_of_map_to_list in Hin.
    destruct (room_info_wf rooms Hrooms c r name Hin). simpl in *. split; [done|lia]. }
  assert (zlen infos ≤ 8) as Hlen.
  { unfold zlen. rewrite Hinfos, length_fmap, length_map_to_list. destruct Hrooms. lia. }
  rewrite Forall_and in Hall. destruct Hall as [Hw Ht].
  apply fits_intro; [done|done| |done].
  pose proof (foldr_bound (λ i : RoomInfo, room_text (Some i)) 64 infos) as Hb.
  cbn [payload_text msg_room_list default rl_rooms from_option id]. rewrite Forall_forall in Ht.
  specialize (Hb Ht). lia.
Qed.

Lemma chat_step_fits c ev c' msgs ds :
  chat_wf rooms c → keys_u32 c → event_wf ev → chat_step rooms c ev c' msgs ds →
  Forall (fits ∘ snd) msgs.
Proof.
  intros Hwf Hkeys (Hk & Hq & Hev) Hstep. destruct Hstep; simpl in Hk, Hq, Hev;
    try (by each_message; apply fits_login);
    try (by each_message; apply fits_join);
    try (by each_message; apply fits_leave);
    try (by each_message; apply fits_disconnect);
    try (by each_message; apply fits_system).
  - by apply (fits_notify c k s).
  - each_message. apply fits_system; [done|lia].
  - each_message.
    assert (wf_user (user_info (logged_in_as name s))
            ∧ 0 ≤ user_text (Some (user_info (logged_in_as name s))) ≤ 32) as [Hu Ht].
    { apply (user_small k); [apply H0| |done].
      by apply (cw_session rooms c Hwf k s). }
    by apply fits_login.
  - each_message. by apply (fits_room_list q c).
  - assert (is_u32 r ∧ zsize name ≤ 64) as [Hr Hname] by (by apply Hrooms).
    assert (zsize " 방에 입장했습니다." ≤ 64) by by_compute.
    destruct (room_info_wf rooms Hrooms c' r name) as [Hi Ht]; [done|].
    destruct (lookup_user rooms c Hwf Hkeys k s) as [Hu Hut]; [done|].
    apply Forall_app. split; [by apply (fits_notify c k s)|].
    apply Forall_cons. split; [by apply fits_join|].
    apply Forall_cons. split; [apply fits_system; [done|rewrite zsize_app; lia]|].
    apply (fits_joined_msgs c r); try done. intros m Hm. by eapply members_of_lookup.
  - apply Forall_app. split; [by apply (fits_notify c k s)|].
    each_message; [by apply fits_leave|].
    apply fits_system; [by apply (room_u32 rooms c Hwf Hrooms k)|done].
  - each_message. apply fits_system; [by apply (room_u32 rooms c Hwf Hrooms k)|done].
  - each_message. apply fits_system; [by apply (room_u32 rooms c Hwf Hrooms k)|done].
  - apply Forall_zip_with. intros m t _ Ht'. simpl.
    apply (fits_chat rooms c Hwf Hkeys Hrooms k); [done|apply H2|].
    by eapply Forall_forall in H5.
  - apply Forall_cons. split; [by apply fits_disconnect|by apply (fits_notify c k s)].
Qed.

(** All of a run. *)
Lemma chat_run_fits c evs c' msgs ds :
  chat_wf rooms c → keys_u32 c → Forall event_wf evs → chat_run rooms c evs c' msgs ds →
  Forall (fits ∘ snd) msgs ∧ chat_wf rooms c' ∧ keys_u32 c'.
Proof.
  intros Hwf Hkeys Hevs Hrun. induction Hrun as [|evs ev c1 c2 msgs1 msgs2 ds1 ds2 Hrun IH Hstep];
    [done|].
  apply Forall_app in Hevs as [Hevs [Hev _]%Forall_cons].
  destruct (IH Hevs) as (Hm & Hwf1 & Hk1). split_and!.
  - apply Forall_app. split; [done|]. by eapply chat_step_fits.
  - by eapply chat_step_wf.
  - eapply chat_step_keys; [apply Hev|done..].
Qed.
End StepFits.
