(* ===== verification/NetworkSystem.v ===== *)
(** * NightServer/NetworkSystem.h, NetworkSystem.cpp: packets to events

    [Receive] drains the transport's packet queue, [receive_next] is one turn of
    its loop.  The I/O threads fill the queue meanwhile; [NightServer] lets them.
    When they do not, every turn removes a packet, and the fuel
    [S (length (tr_pending s))] is enough ([receive_loop_spec]).  [Flush] sends
    the queued messages and then the disconnections. *)

From S2P Require Import Prelude Protocol Schema ServerTypes Packet ChatSpec ChatInvariant.

Section NetworkSystem.
Context `{FlatBuffers}.

(** [DecodeProtocolPacket]: the events so far and the one it adds, if any.
    [GetRoot] of a verified buffer is never null. *)
Definition DecodeProtocolPacket (session_id : Z) (data : bytes) (events : list ServerEvent)
    : list ServerEvent :=
  if negb (fb_verify data)
  then events ++ [InvalidPacketEvent session_id
                    "수신 데이터가 Message 스키마와 일치하지 않습니다."]
  else
    let message := fb_root data in
    let request_id := request_id message in
    if payload_type message =? MessagePayload.LoginRequest then
      match payload_as_LoginRequest message with
      | None => events
      | Some request =>
          events ++ [LoginRequestEvent session_id request_id (ToUtf8 (lq_display_name request))]
      end
    else if payload_type message =? MessagePayload.RoomListRequest then
      events ++ [RoomListRequestEvent session_id request_id]
    else if payload_type message =? MessagePayload.JoinRoomRequest then
      match payload_as_JoinRoomRequest message with
      | None => events
      | Some request =>
          events ++ [JoinRoomRequestEvent session_id request_id (jq_room_id request)]
      end
    else if payload_type message =? MessagePayload.ChatSendRequest then
      match payload_as_ChatSendRequest message with
      | None => events
      | Some request =>
          events ++ [ChatSendRequestEvent session_id request_id (ToUtf8 (cs_content request))]
      end
    else if payload_type message =? MessagePayload.LeaveRoomRequest then
      events ++ [LeaveRoomRequestEvent session_id request_id]
    else if payload_type message =? MessagePayload.DisconnectRequest then
      events ++ [DisconnectRequestEvent session_id request_id]
    else
      events ++ [InvalidPacketEvent session_id "서버가 처리하지 않는 payload 타입입니다."].

(** The switch over the packet type. *)
Definition receive_packet (events : list ServerEvent) (packet : Packet) : list ServerEvent :=
  match pkt_type packet with
  | Connect => events ++ [SessionConnectedEvent (pkt_session_id packet)]
  | Disconnect => events ++ [SessionDisconnectedEvent (pkt_session_id packet)]
  | Data => DecodeProtocolPacket (pkt_session_id packet) (pkt_data packet) events
  end.

Context {S : Type} `{ServerTransport S}.

(** One turn of the [while] loop of [Receive]; [None] when it ends. *)
Definition receive_next (events : list ServerEvent) (server_ : S) : option (list ServerEvent * S) :=
  match tr_poll_packet server_ with
  | None => None
  | Some (packet, server_) => Some (receive_packet events packet, server_)
  end.

(** The loop when nothing else happens to the queue; [None] is out of fuel. *)
Fixpoint receive_loop (fuel : nat) (events : list ServerEvent) (server_ : S)
    : option (list ServerEvent * S) :=
  match fuel with
  | O => None
  | Datatypes.S fuel =>
      match receive_next events server_ with
      | None => Some (events, server_)
      | Some (events, server_) => receive_loop fuel events server_
      end
  end.

Definition Receive (fuel : nat) (server_ : S) : option (list ServerEvent * S) :=
  receive_loop fuel [] (tr_update server_).

Definition Flush (outgoing_messages : list OutgoingMessage) (pending_disconnects : list Z)
    (server_ : S) : S :=
  let server_ :=
    foldl (λ server_ message, tr_send (om_session_id message) (om_payload message) server_)
      server_ outgoing_messages in
  foldl (λ server_ session_id, tr_disconnect session_id server_) server_ pending_disconnects.

(** ** Facts *)

(** The events one packet stands for. *)
Definition packet_events (packet : Packet) : list ServerEvent := receive_packet [] packet.

(** A verified packet is decoded from its message alone. *)
Definition DecodeProtocolPacket_message (k : Z) (m : Message) : list ServerEvent :=
  match payload m with
  | PLoginRequest (Some t) => [LoginRequestEvent k (request_id m) (ToUtf8 (lq_display_name t))]
  | PRoomListRequest _ => [RoomListRequestEvent k (request_id m)]
  | PJoinRoomRequest (Some t) => [JoinRoomRequestEvent k (request_id m) (jq_room_id t)]
  | PChatSendRequest (Some t) => [ChatSendRequestEvent k (request_id m) (ToUtf8 (cs_content t))]
  | PLeaveRoomRequest _ => [LeaveRoomRequestEvent k (request_id m)]
  | PDisconnectRequest _ => [DisconnectRequestEvent k (request_id m)]
  | PLoginRequest None | PJoinRoomRequest None | PChatSendRequest None => []
  | _ => [InvalidPacketEvent k "서버가 처리하지 않는 payload 타입입니다."]
  end.

Lemma DecodeProtocolPacket_verified k data :
  fb_verify data = true → wf_payload (payload (fb_root data)) →
  DecodeProtocolPacket k data [] = DecodeProtocolPacket_message k (fb_root data).
Proof.
  intros Hv Hwf. unfold DecodeProtocolPacket, DecodeProtocolPacket_message.
  rewrite Hv. cbn [negb].
  destruct (fb_root data) as [q p]; destruct p as [|[]|[]|[]|[]|[]|[]|[]|[]|[]|[]|[]|[]|[]|[]|[]|tag];
    try done. cbn [payload wf_payload] in Hwf.
  unfold payload_type, payload_as_LoginRequest, payload_as_JoinRoomRequest,
    payload_as_ChatSendRequest. cbn [payload request_id].
  repeat (match goal with |- context [?a =? ?b] => destruct (Z.eqb_spec a b) end;
    [unfold MessagePayload.LoginRequest, MessagePayload.RoomListRequest,
       MessagePayload.JoinRoomRequest, MessagePayload.ChatSendRequest,
       MessagePayload.LeaveRoomRequest, MessagePayload.DisconnectRequest in *; lia|]). done.
Qed.

Lemma DecodeProtocolPacket_app k data events :
  DecodeProtocolPacket k data events = events ++ DecodeProtocolPacket k data [].
Proof.
  unfold DecodeProtocolPacket. destruct (negb _); [done|].
  repeat (destruct (_ =? _); [try done; case_match; by rewrite ?app_nil_r|]). done.
Qed.

Lemma receive_packet_app events packet :
  receive_packet events packet = events ++ packet_events packet.
Proof.
  unfold packet_events, receive_packet. destruct (pkt_type packet); [done..|].
  apply DecodeProtocolPacket_app.
Qed.

Lemma packet_events_at_most_one packet : (length (packet_events packet) ≤ 1)%nat.
Proof.
  unfold packet_events, receive_packet. destruct (pkt_type packet); simpl; [lia..|].
  unfold DecodeProtocolPacket. destruct (negb _); simpl; [lia|].
  repeat (destruct (_ =? _); [try (case_match; simpl; lia); simpl; lia|]). simpl. lia.
Qed.

Lemma packet_events_session packet ev :
  ev ∈ packet_events packet → event_session ev = pkt_session_id packet.
Proof.
  unfold packet_events, receive_packet, DecodeProtocolPacket.
  intros Hev. repeat case_match; simpl in Hev;
    repeat match goal with
    | Hev : _ ∈ [] |- _ => by apply not_elem_of_nil in Hev
    | Hev : _ ∈ [_] |- _ => apply list_elem_of_singleton in Hev as ->
    end; done.
Qed.

(** Events decoded from bytes received by the transport are well formed. *)
Lemma packet_events_wf `{!FlatBuffersSpec} packet :
  is_u32 (pkt_session_id packet) → wf_bytes (pkt_data packet) →
  Forall event_wf (packet_events packet).
Proof.
  intros Hk Hb. unfold packet_events, receive_packet, DecodeProtocolPacket.
  pose proof (fb_root_request_id (pkt_data packet) Hb) as Hq.
  destruct (pkt_type packet); [by apply Forall_singleton; split_and!..|].
  destruct (fb_verify (pkt_data packet)); cbn [negb].
  2:{ apply Forall_singleton. split_and!; [apply Hk|done|by_compute]. }
  specialize (Hq eq_refl).
  repeat (destruct (_ =? _); [try case_match; first [ by apply Forall_nil
                                | by apply Forall_singleton; split_and! ]|]).
  apply Forall_singleton. split_and!; [apply Hk|done|by_compute].
Qed.

(** A turn takes the oldest packet. *)
Lemma receive_next_spec `{!ServerTransportSpec S} server_ events :
  match tr_pending server_ with
  | [] => receive_next events server_ = None
  | packet :: rest =>
      ∃ server', receive_next events server_ = Some (events ++ packet_events packet, server')
                 ∧ tr_pending server' = rest
  end.
Proof.
  unfold receive_next. pose proof (tr_poll_spec server_) as Hpoll.
  destruct (tr_pending server_) as [|packet rest]; [by rewrite Hpoll|].
  destruct Hpoll as (server' & -> & Hrest). exists server'. by rewrite receive_packet_app.
Qed.

Lemma receive_loop_spec `{!ServerTransportSpec S} server_ events :
  ∃ server', receive_loop (Datatypes.S (length (tr_pending server_))) events server_
      = Some (events ++ mjoin (packet_events <$> tr_pending server_), server')
    ∧ tr_pending server' = [].
Proof.
  remember (tr_pending server_) as ps eqn:Hps. revert server_ events Hps.
  induction ps as [|p ps IH]; intros server_ events Hps;
    pose proof (receive_next_spec server_ events) as Hnext; rewrite <-Hps in Hnext.
  - exists server_. simpl. rewrite Hnext, app_nil_r. done.
  - destruct Hnext as (s' & Heq & Hs').
    destruct (IH s' (events ++ packet_events p) (eq_sym Hs')) as (s2 & Hr & Hp2).
    exists s2. split; [|done]. cbn [length]. cbn [receive_loop]. rewrite Heq.
    change (receive_loop (Datatypes.S (length ps)) (events ++ packet_events p) s'
            = Some (events ++ mjoin (packet_events <$> p :: ps), s2)).
    rewrite Hr. csimpl. by rewrite <-app_assoc.
Qed.
End NetworkSystem.
