(* ===== verification/ChatProtocolClient.v ===== *)
(** * NightClient/ChatProtocolClient.h, ChatProtocolClient.cpp: the chat client

    Requests are built with the next request id and handed to the transport
    client ([NightNetwork::Client], the interface [ClientTransport]); received
    packets are decoded into [ChatProtocolEvent]s.  [Client::create] is the
    argument [created] of [Connect]. *)

From S2P Require Import Prelude Protocol Schema.

Record ChatRoomInfo := mkChatRoomInfo {
  cr_room_id : Z;
  cr_room_name : string;
  cr_user_count : Z;
}.

Inductive ChatProtocolEvent :=
  | ChatLoginSucceededEvent (display_name : string)
  | ChatLoginFailedEvent (error_message : string)
  | ChatRoomListEvent (rooms : list ChatRoomInfo)
  | ChatJoinRoomSucceededEvent (room : ChatRoomInfo)
  | ChatJoinRoomFailedEvent (error_message : string)
  | ChatMessageReceivedEvent (room_id : Z) (sender_name content : string)
  | ChatUserJoinedEvent (room_id : Z) (display_name : string)
  | ChatUserLeftEvent (room_id : Z) (display_name : string)
  | ChatSystemMessageEvent (room_id : Z) (content : string)
  | ChatProtocolErrorEvent (message : string).

(** The transport client as the chat client uses it. *)
Class ClientTransport (C : Type) := {
  cl_update : C → C;
  cl_is_connected : C → bool;
  cl_poll_packet : C → option (bytes * C);
  cl_send : bytes → C → C;
  (** the received payloads waiting to be polled *)
  cl_pending : C → list bytes;
}.

Class ClientTransportSpec (C : Type) `{ClientTransport C} : Prop := {
  cl_poll_spec (c : C) :
    match cl_pending c with
    | [] => cl_poll_packet c = None
    | p :: rest => ∃ c', cl_poll_packet c = Some (p, c') ∧ cl_pending c' = rest
    end;
}.

Record ChatProtocolClient (C : Type) := mkChatProtocolClient {
  client_ : option C;
  next_request_id_ : Z;
}.
Arguments mkChatProtocolClient {C}. Arguments client_ {C}. Arguments next_request_id_ {C}.

Definition ToChatRoomInfo (room : RoomInfo) : ChatRoomInfo :=
  mkChatRoomInfo (ri_room_id room) (ToUtf8 (ri_room_name room)) (ri_user_count room).

Section ChatProtocolClient.
Context {C : Type} `{ClientTransport C} `{FlatBuffers}.
Implicit Types (self : ChatProtocolClient C).

Definition chat_client_init : ChatProtocolClient C := mkChatProtocolClient None 1.

Definition Connect (created : expected C string) self : expected (ChatProtocolClient C) string :=
  match created with
  | inr error => inr error
  | inl client => inl (mkChatProtocolClient (Some client) 1)
  end.

Definition Disconnect self : ChatProtocolClient C :=
  mkChatProtocolClient None (next_request_id_ self).

Definition IsConnected self : bool :=
  match client_ self with Some client => cl_is_connected client | None => false end.

Definition Update self : ChatProtocolClient C :=
  match client_ self with
  | Some client => mkChatProtocolClient (Some (cl_update client)) (next_request_id_ self)
  | None => self
  end.

(** [next_request_id_++] on a [uint32_t]. *)
Definition NextRequestId self : Z * ChatProtocolClient C :=
  (next_request_id_ self,
   mkChatProtocolClient (client_ self) (to_u32 (next_request_id_ self + 1))).

Definition SendBuffer (data : bytes) self : ChatProtocolClient C :=
  match client_ self with
  | None => self
  | Some client =>
      if zlen data =? 0 then self
      else mkChatProtocolClient (Some (cl_send data client)) (next_request_id_ self)
  end.

Definition SendLoginRequest (display_name : string) self : ChatProtocolClient C :=
  match client_ self with
  | None => self
  | Some _ =>
      let '(request_id, self) := NextRequestId self in
      SendBuffer (BuildMessage request_id
                    (PLoginRequest (Some (mkLoginRequest (Some display_name))))) self
  end.

Definition SendRoomListRequest self : ChatProtocolClient C :=
  match client_ self with
  | None => self
  | Some _ =>
      let '(request_id, self) := NextRequestId self in
      SendBuffer (BuildMessage request_id (PRoomListRequest (Some mkRoomListRequest))) self
  end.

Definition SendJoinRoomRequest (room_id : Z) self : ChatProtocolClient C :=
  match client_ self with
  | None => self
  | Some _ =>
      let '(request_id, self) := NextRequestId self in
      SendBuffer (BuildMessage request_id
                    (PJoinRoomRequest (Some (mkJoinRoomRequest room_id)))) self
  end.

Definition SendChatRequest (text : string) self : ChatProtocolClient C :=
  match client_ self with
  | None => self
  | Some _ =>
      let '(request_id, self) := NextRequestId self in
      SendBuffer (BuildMessage request_id
                    (PChatSendRequest (Some (mkChatSendRequest (Some text))))) self
  end.

Definition DecodePacket (data : bytes) : list ChatProtocolEvent :=
  if zlen data =? 0 then []
  else
    match VerifiedMessage data with
    | None => [ChatProtocolErrorEvent "Received data does not match the Message schema."]
    | Some message =>
        if payload_type message =? MessagePayload.LoginResponse then
          match payload_as_LoginResponse message with
          | None => []
          | Some response =>
              if lr_success response
              then [ChatLoginSucceededEvent
                      (match lr_user response with
                       | Some user => ToUtf8 (ui_display_name user)
                       | None => ""%string
                       end)]
              else [ChatLoginFailedEvent (ToErrorString (lr_error_code response))]
          end
        else if payload_type message =? MessagePayload.RoomListResponse then
          match payload_as_RoomListResponse message with
          | None => []
          | Some response =>
              [ChatRoomListEvent (ToChatRoomInfo <$> default [] (rl_rooms response))]
          end
        else if payload_type message =? MessagePayload.JoinRoomResponse then
          match payload_as_JoinRoomResponse message with
          | None => []
          | Some response =>
              match jr_success response, jr_room response with
              | true, Some room => [ChatJoinRoomSucceededEvent (ToChatRoomInfo room)]
              | _, _ => [ChatJoinRoomFailedEvent (ToErrorString (jr_error_code response))]
              end
          end
        else if payload_type message =? MessagePayload.ChatBroadcast then
          match payload_as_ChatBroadcast message with
          | None => []
          | Some broadcast =>
              [ChatMessageReceivedEvent (cb_room_id broadcast) (ToUtf8 (cb_sender_name broadcast))
                 (ToUtf8 (cb_content broadcast))]
          end
        else if payload_type message =? MessagePayload.UserJoinedEvent then
          match payload_as_UserJoinedEvent message with
          | Some (mkUserJoinedEvent room_id (Some user)) =>
              [ChatUserJoinedEvent room_id (ToUtf8 (ui_display_name user))]
          | _ => []
          end
        else if payload_type message =? MessagePayload.UserLeftEvent then
          match payload_as_UserLeftEvent message with
          | Some (mkUserLeftEvent room_id (Some user)) =>
              [ChatUserLeftEvent room_id (ToUtf8 (ui_display_name user))]
          | _ => []
          end
        else if payload_type message =? MessagePayload.SystemMessageEvent then
          match payload_as_SystemMessageEvent message with
          | None => []
          | Some event => [ChatSystemMessageEvent (sm_room_id event) (ToUtf8 (sm_content event))]
          end
        else []
    end.

(** The [while] loop of [PollEvents]; [None] is out of fuel. *)
Fixpoint poll_loop (fuel : nat) (events : list ChatProtocolEvent) (client : C)
    : option (list ChatProtocolEvent * C) :=
  match fuel with
  | O => None
  | S fuel =>
      match cl_poll_packet client with
      | None => Some (events, client)
      | Some (packet, client) => poll_loop fuel (events ++ DecodePacket packet) client
      end
  end.

Definition PollEvents (fuel : nat) self : option (list ChatProtocolEvent * ChatProtocolClient C) :=
  match client_ self with
  | None => Some ([], self)
  | Some client =>
      '(events, client) ← poll_loop fuel [] client;
      Some (events, mkChatProtocolClient (Some client) (next_request_id_ self))
  end.

Definition CreateMockEvents : list ChatProtocolEvent :=
  [ChatRoomListEvent
     [mkChatRoomInfo 1001 "Lobby" 12; mkChatRoomInfo 1002 "Dev" 5; mkChatRoomInfo 1003 "Chat" 8];
   ChatSystemMessageEvent 1001 "Schema-based chat UI skeleton is ready."].

(** ** Facts *)

(** The loop of [PollEvents] ends: one poll per waiting packet and one more. *)
Lemma poll_loop_spec `{!ClientTransportSpec C} client events :
  ∃ client', poll_loop (S (length (cl_pending client))) events client
      = Some (events ++ mjoin (DecodePacket <$> cl_pending client), client')
    ∧ cl_pending client' = [].
Proof.
  remember (cl_pending client) as ps eqn:Hps. revert client events Hps.
  induction ps as [|p ps IH]; intros client events Hps;
    pose proof (cl_poll_spec client) as Hpoll; rewrite <-Hps in Hpoll.
  - exists client. simpl. rewrite Hpoll, app_nil_r. done.
  - destruct Hpoll as (c' & Heq & Hc'). destruct (IH c' (events ++ DecodePacket p) (eq_sym Hc'))
      as (c2 & Hr & Hp2). exists c2. split; [|done].
    cbn [length]. cbn [poll_loop]. rewrite Heq.
    change (poll_loop (S (length ps)) (events ++ DecodePacket p) c'
            = Some (events ++ mjoin (DecodePacket <$> p :: ps), c2)).
    rewrite Hr. csimpl. by rewrite <-app_assoc.
Qed.

(** A request reaches the transport as a message of at most 256 bytes more than
    its text. *)
Lemma send_request `{!FlatBuffersSpec} client q p :
  is_u32 q → wf_payload p → payload_rooms p = 0 → payload_text p ≤ 1792 →
  ∃ data, SendBuffer (BuildMessage q p) (mkChatProtocolClient (Some client) (to_u32 (q + 1)))
            = mkChatProtocolClient (Some (cl_send data client)) (to_u32 (q + 1))
    ∧ 0 < zlen data ≤ MAX_PAYLOAD_SIZE ∧ wf_bytes data
    ∧ fb_verify data = true ∧ fb_root data = mkMessage q p.
Proof.
  intros Hq Hp Hr Ht. exists (fb_build (mkMessage q p)).
  assert (message_bound (mkMessage q p) ≤ MAX_PAYLOAD_SIZE) as Hb
    by (unfold message_bound, MAX_PAYLOAD_SIZE; cbn [payload]; lia).
  assert (wf_message (mkMessage q p)) as Hm
    by (split_and!; [done..|unfold MAX_PAYLOAD_SIZE in *; lia]).
  pose proof (fb_build_size _ Hm) as Hs. unfold SendBuffer, BuildMessage. simpl.
  destruct (Z.eqb_spec (zlen (fb_build (mkMessage q p))) 0); [lia|].
  split_and!; [done|lia|lia|by apply fb_build_bytes|by apply fb_verify_build|by apply fb_root_build].
Qed.
End ChatProtocolClient.
