(* ===== verification/ChatViews.v ===== *)
(** * What a client can reconstruct from its messages

    A client learns who is with it in its room only from the messages sent to
    it: a successful join response puts it in a room with nobody known, joined
    and left events add and remove one user.  [views_ok] says that in the
    server's state the view so reconstructed by each session that is in a room
    is exact; every step preserves it. *)

From S2P Require Import Prelude Schema ServerTypes ChatSpec ChatInvariant.

Record View := mkView {
  vw_room : Z;
  vw_others : gset Z;
}.

Definition no_view : View := mkView no_room_id ∅.

Definition view_message (v : View) (m : Message) : View :=
  match payload m with
  | PJoinRoomResponse (Some (mkJoinRoomResponse true _ (Some info))) =>
      mkView (ri_room_id info) ∅
  | PLeaveRoomResponse (Some (mkLeaveRoomResponse true _)) => no_view
  | PUserJoinedEvent (Some (mkUserJoinedEvent r (Some u))) =>
      if r =? vw_room v then mkView r ({[ui_user_id u]} ∪ vw_others v) else v
  | PUserLeftEvent (Some (mkUserLeftEvent r (Some u))) =>
      if r =? vw_room v then mkView r (vw_others v ∖ {[ui_user_id u]}) else v
  | _ => v
  end.

Definition view_of (ms : list Message) : View := foldl view_message no_view ms.

(** The messages for one session. *)
Definition sent_to (k : Z) (msgs : list (Z * Message)) : list Message :=
  omap (λ km : Z * Message, if decide (km.1 = k) then Some km.2 else None) msgs.

(** A message that changes no view. *)
Definition quiet (m : Message) : Prop := ∀ v, view_message v m = v.

Definition views_ok (c : Chat) (msgs : list (Z * Message)) : Prop :=
  ∀ k s, c !! k = Some s → ss_room_id s ≠ no_room_id →
    view_of (sent_to k msgs) = mkView (ss_room_id s) (in_room c (ss_room_id s) ∖ {[k]}).

(** ** Who is sent what *)

Section SentTo.
Implicit Types (k : Z) (s m : SessionState) (l : list SessionState).

Lemma sent_to_app k msgs1 msgs2 :
  sent_to k (msgs1 ++ msgs2) = sent_to k msgs1 ++ sent_to k msgs2.
Proof. apply omap_app. Qed.

Lemma sent_to_nil k msgs : k ∉ msgs.*1 → sent_to k msgs = [].
Proof.
  induction msgs as [|[k' m] msgs IH]; [done|]. csimpl. intros Hk.
  apply not_elem_of_cons in Hk as [Hne Hk]. unfold sent_to in *. csimpl.
  rewrite decide_False by done. by apply IH.
Qed.

(** One message to each of a list of distinct sessions. *)
Lemma sent_to_each (f : SessionState → Message) l k :
  NoDup (ss_session_id <$> l) →
  sent_to k ((λ m, (ss_session_id m, f m)) <$> l)
  = match list_find (λ m, ss_session_id m = k) l with
    | Some (_, m) => [f m] | None => [] end.
Proof.
  induction l as [|m l IH]; [done|]. csimpl. intros [Hm Hnd]%NoDup_cons.
  unfold sent_to in *. csimpl. case_decide as E.
  - f_equal. rewrite <-E. apply sent_to_nil.
    intros Hin. apply Hm. rewrite <-list_fmap_compose in Hin. exact Hin.
  - rewrite (IH Hnd). by destruct (list_find _ l) as [[? ?]|].
Qed.

Lemma sent_to_member (f : SessionState → Message) c r ex l k s :
  members_of c r ex l → (∀ s', c !! k = Some s' → ss_session_id s' = k) →
  c !! k = Some s →
  sent_to k ((λ m, (ss_session_id m, f m)) <$> l)
  = if decide (ss_room_id s = r ∧ ex ≠ Some k) then [f s] else [].
Proof.
  intros [Hnd Hl] Hid Hs. pose proof (Hid s Hs) as Hk.
  rewrite sent_to_each by done.
  destruct (list_find _ l) as [[i m]|] eqn:Hf.
  - apply list_find_Some in Hf as (Hm & E & _). apply list_elem_of_lookup_2, Hl in Hm.
    destruct Hm as (Hm & Hr & Hex). rewrite E in *. simplify_eq.
    by rewrite decide_True.
  - apply list_find_None in Hf. rewrite decide_False; [done|]. intros [Hr Hex].
    rewrite Forall_forall in Hf. apply (Hf s); [|done]. apply Hl. by rewrite Hk.
Qed.

Lemma sent_to_stranger (f : SessionState → Message) c r ex l k :
  members_of c r ex l → (c !! k = None ∨ ex = Some k) →
  sent_to k ((λ m, (ss_session_id m, f m)) <$> l) = [].
Proof.
  intros [Hnd Hl] Hk. apply sent_to_nil. rewrite <-list_fmap_compose.
  rewrite list_elem_of_fmap. intros (m & Heq & Hm). simpl in Heq. subst k.
  apply Hl in Hm as (Hm & _ & Hex). destruct Hk; congruence.
Qed.

Lemma view_of_app ms1 ms2 : view_of (ms1 ++ ms2) = foldl view_message (view_of ms1) ms2.
Proof. apply foldl_app. Qed.

Lemma foldl_quiet v ms : Forall quiet ms → foldl view_message v ms = v.
Proof. induction 1 as [|m ms Hm _ IH] in v |- *; simpl; [done|]. by rewrite Hm. Qed.

Lemma sent_to_quiet k msgs : Forall (quiet ∘ snd) msgs → Forall quiet (sent_to k msgs).
Proof.
  induction 1 as [|[k' m] msgs Hm _ IH]; [constructor|].
  unfold sent_to in *. csimpl. case_decide; [by constructor|done].
Qed.
End SentTo.

(** ** Membership after a change of one session *)

Section Membership.
Implicit Types (c : Chat) (k r : Z) (s : SessionState).

Lemma in_room_delete c k r : in_room (delete k c) r = in_room c r ∖ {[k]}.
Proof.
  apply set_eq; intros k'. rewrite elem_of_difference, elem_of_singleton, !elem_of_in_room.
  setoid_rewrite lookup_delete_Some. naive_solver.
Qed.

Lemma in_room_insert c k s r :
  in_room (<[k := s]> c) r
  = if decide (ss_room_id s = r) then {[k]} ∪ in_room c r else in_room c r ∖ {[k]}.
Proof.
  apply set_eq; intros k'. rewrite elem_of_in_room.
  setoid_rewrite lookup_insert_Some.
  case_decide; rewrite ?elem_of_union, ?elem_of_difference, elem_of_singleton,
    elem_of_in_room; destruct (decide (k' = k)); naive_solver.
Qed.

Lemma in_room_insert_same c k s s' r :
  c !! k = Some s → ss_room_id s' = ss_room_id s → in_room (<[k := s']> c) r = in_room c r.
Proof.
  intros Hs Hr. rewrite in_room_insert, Hr. apply set_eq; intros k'.
  case_decide as E; rewrite ?elem_of_union, ?elem_of_difference, elem_of_singleton,
    elem_of_in_room; destruct (decide (k' = k)); naive_solver.
Qed.

Lemma not_in_room c k s r : c !! k = Some s → ss_room_id s ≠ r → k ∉ in_room c r.
Proof. intros Hs Hr. rewrite elem_of_in_room. naive_solver. Qed.

Lemma difference_absent (X : gset Z) k : k ∉ X → X ∖ {[k]} = X.
Proof. intros. set_solver. Qed.

Lemma add_others (X : gset Z) k k' :
  k' ≠ k → {[k]} ∪ X ∖ {[k]} ∖ {[k']} = ({[k]} ∪ X) ∖ {[k']}.
Proof.
  intros Hne. apply set_eq; intros x.
  rewrite elem_of_union, !elem_of_difference, elem_of_union, !elem_of_singleton.
  destruct (decide (x = k)) as [->|]; naive_solver.
Qed.

Lemma members_set rooms c r l :
  chat_wf rooms c → members_of c r None l →
  list_to_set (ss_user_id <$> l) = in_room c r.
Proof.
  intros Hwf [_ Hl]. apply set_eq; intros k.
  rewrite elem_of_list_to_set, list_elem_of_fmap, elem_of_in_room. split.
  - intros (m & -> & Hm). apply Hl in Hm as (Hm & Hr & _).
    pose proof (cw_session _ _ Hwf _ m Hm) as [Hi Hu _ _ _].
    exists m. by rewrite Hu.
  - intros (m & Hm & Hr). pose proof (cw_session _ _ Hwf k m Hm) as [Hi Hu _ _ _].
    exists m. split; [done|]. apply Hl. by rewrite Hi.
Qed.
End Membership.

(** ** The notifications update the views *)

Section Updates.
Context (rooms : RoomNames).
Implicit Types (c : Chat) (k r : Z) (s : SessionState) (X : gset Z).

Lemma view_left r s X :
  view_message (mkView r X) (msg_left r s) = mkView r (X ∖ {[ss_user_id s]}).
Proof. unfold view_message; simpl. by rewrite Z.eqb_refl. Qed.

Lemma view_joined r s X :
  view_message (mkView r X) (msg_joined r s) = mkView r ({[ss_user_id s]} ∪ X).
Proof. unfold view_message; simpl. by rewrite Z.eqb_refl. Qed.

Lemma views_joined r l X :
  foldl view_message (mkView r X) (msg_joined r <$> l)
  = mkView r (list_to_set (ss_user_id <$> l) ∪ X).
Proof.
  revert X. induction l as [|m l IH]; intros X; csimpl.
  - f_equal. set_solver.
  - rewrite view_joined, IH. f_equal. set_solver.
Qed.

(** Everybody else in the room of [s] removes [s]. *)
Lemma notify_views c k s msgs k' s' :
  chat_wf rooms c → c !! k = Some s → notify_leave c s msgs →
  c !! k' = Some s' → ss_room_id s' ≠ no_room_id → k' ≠ k →
  foldl view_message (mkView (ss_room_id s') (in_room c (ss_room_id s') ∖ {[k']}))
    (sent_to k' msgs)
  = mkView (ss_room_id s') (in_room c (ss_room_id s') ∖ {[k]} ∖ {[k']}).
Proof.
  intros Hwf Hs Hn Hs' Hr' Hne. pose proof (cw_session _ _ Hwf k s Hs) as Hok.
  destruct Hn as [Hno|l Hr Hl Hm].
  - rewrite (difference_absent _ k); [done|]. apply (not_in_room c k s); [done|].
    destruct Hno as [?|Ha]; [congruence|].
    destruct (so_anonymous _ _ _ Hok Ha). congruence.
  - unfold left_msgs. erewrite (sent_to_member _ c (ss_room_id s) _ l k' s'); [|done| |done].
    2:{ intros s'' Hs''. by destruct (cw_session _ _ Hwf k' s'' Hs''). }
    destruct Hok as [Hi Hu _ _ _]. case_decide as Hd.
    + destruct Hd as [-> _]. simpl. rewrite view_left, Hu. f_equal. set_solver.
    + rewrite (difference_absent _ k); [done|]. apply (not_in_room c k s); [done|].
      intros E. apply Hd. split; [done|]. congruence.
Qed.

Lemma sent_to_joined c k r s l k' :
  members_of c r None l → (∀ m, m ∈ l → ss_logged_in m = true) → ss_room_id s = r →
  ss_session_id s = k → k' ≠ k →
  sent_to k' (joined_msgs s l) = sent_to k' ((λ m, (ss_session_id m, msg_joined r s)) <$> l).
Proof.
  intros _ Hl Hr Hk Hne. unfold joined_msgs. rewrite Hr, Hk.
  induction l as [|m l IH]; [done|]. csimpl. rewrite (Hl m) by constructor.
  rewrite sent_to_app, IH by (intros; apply Hl; by constructor).
  unfold sent_to. csimpl. rewrite (decide_False (P := k = k')) by done.
  by case_decide.
Qed.

Lemma sent_to_newcomer k r s l :
  (∀ m, m ∈ l → ss_logged_in m = true ∧ ss_session_id m ≠ k) → ss_room_id s = r →
  ss_session_id s = k → sent_to k (joined_msgs s l) = msg_joined r <$> l.
Proof.
  intros Hl Hr Hk. unfold joined_msgs. rewrite Hr, Hk.
  induction l as [|m l IH]; [done|]. csimpl. destruct (Hl m) as [-> Hm]; [constructor|].
  rewrite sent_to_app, IH by (intros; apply Hl; by constructor).
  unfold sent_to. csimpl. rewrite decide_False, decide_True by done. done.
Qed.
End Updates.

(** ** Every step keeps the views exact *)

Section Steps.
Context (rooms : RoomNames) (Hnone : rooms !! no_room_id = None).
Implicit Types (c : Chat) (k r : Z) (s : SessionState) (msgs : list (Z * Message)).

(** Steps that move nobody and send nothing that matters. *)
Lemma views_quiet c c' msgs msgs2 :
  views_ok c msgs → Forall (quiet ∘ snd) msgs2 →
  (∀ k s', c' !! k = Some s' → ss_room_id s' ≠ no_room_id →
     ∃ s, c !! k = Some s ∧ ss_room_id s = ss_room_id s') →
  (∀ r, r ≠ no_room_id → in_room c' r = in_room c r) →
  views_ok c' (msgs ++ msgs2).
Proof.
  intros Hv Hq Hc Hr k s' Hs' Hr'. destruct (Hc k s' Hs' Hr') as (s & Hs & E).
  rewrite sent_to_app, view_of_app, foldl_quiet by (by apply sent_to_quiet).
  rewrite Hr, <-E in * by done. by apply Hv.
Qed.

Lemma views_same c msgs msgs2 :
  views_ok c msgs → Forall (quiet ∘ snd) msgs2 → views_ok c (msgs ++ msgs2).
Proof. intros Hv Hq. apply (views_quiet c); eauto. Qed.

(** Session [k] leaves its room; the other messages all go to [k]. *)
Lemma views_gone c c' msgs k s pre leave post :
  chat_wf rooms c → views_ok c msgs → c !! k = Some s → notify_leave c s leave →
  (∀ k', k' ≠ k → c' !! k' = c !! k') →
  (∀ s', c' !! k = Some s' → ss_room_id s' = no_room_id) →
  (∀ r, r ≠ no_room_id → in_room c' r = in_room c r ∖ {[k]}) →
  (∀ k', k' ≠ k → k' ∉ pre.*1) → (∀ k', k' ≠ k → k' ∉ post.*1) →
  views_ok c' (msgs ++ pre ++ leave ++ post).
Proof.
  intros Hwf Hv Hs Hn Hother Hk Hin Hpre Hpost k' s' Hs' Hr'.
  assert (k' ≠ k) as Hne by (intros ->; by apply Hr', Hk).
  rewrite Hother in Hs' by done.
  rewrite !sent_to_app, (sent_to_nil k' pre), (sent_to_nil k' post) by auto.
  rewrite app_nil_r. cbn [app]. rewrite view_of_app, (Hv k' s'), Hin by done.
  by apply (notify_views rooms c k s).
Qed.

Lemma in_room_logged_in c k s r :
  chat_wf rooms c → c !! k = Some s → ss_room_id s = r → r ≠ no_room_id →
  ss_logged_in s = true.
Proof.
  intros Hwf Hs Hr Hne. destruct (ss_logged_in s) eqn:Hl; [done|].
  destruct (so_anonymous _ _ _ (cw_session _ _ Hwf k s Hs) Hl). congruence.
Qed.

Lemma quiet_login q code u : quiet (msg_login q code u).
Proof. done. Qed.
Lemma quiet_system r text : quiet (msg_system r text).
Proof. done. Qed.
Lemma quiet_chat s content t : quiet (msg_chat s content t).
Proof. done. Qed.
Lemma quiet_room_list q infos : quiet (msg_room_list q infos).
Proof. done. Qed.
Lemma quiet_disconnect q : quiet (msg_disconnect q).
Proof. done. Qed.
Lemma quiet_join_failed q code : code ≠ ErrorCode.NONE → quiet (msg_join q code None).
Proof. intros Hc v. unfold view_message; simpl. by case_bool_decide. Qed.
Lemma quiet_leave_failed q code : code ≠ ErrorCode.NONE → quiet (msg_leave q code).
Proof. intros Hc v. unfold view_message; simpl. by case_bool_decide. Qed.
Lemma sent_to_self k m1 m2 : sent_to k [(k, m1); (k, m2)] = [m1; m2].
Proof. unfold sent_to. csimpl. by rewrite !decide_True by done. Qed.

Lemma view_entered v q c r name :
  view_message v (msg_join q ErrorCode.NONE (Some (room_info c r name))) = mkView r ∅.
Proof. done. Qed.

(** Session [k] moves to room [r]. *)
Lemma views_join c msgs k s r name leave q l :
  chat_wf rooms c → views_ok c msgs → c !! k = Some s → rooms !! r = Some name →
  ss_room_id s ≠ r → notify_leave c s leave → members_of c r None l →
  let c' := <[k := moved_to r s]> c in
  views_ok c' (msgs ++ leave ++ [(k, msg_join q ErrorCode.NONE (Some (room_info c' r name)));
                   (k, msg_system r (name +:+ " 방에 입장했습니다."))]
           ++ joined_msgs (moved_to r s) l).
Proof.
  intros Hwf Hv Hs Hname Hr Hn Hl c' k' s' Hs' Hr'.
  assert (r ≠ no_room_id) as Hr0 by congruence.
  pose proof (cw_session _ _ Hwf k s Hs) as [Hi Hu _ _ _].
  assert (∀ m, m ∈ l → ss_logged_in m = true ∧ ss_session_id m ≠ k) as Hmem.
  { intros m Hm. apply Hl in Hm as (Hm & Hmr & _). split.
    - by apply (in_room_logged_in c (ss_session_id m) m r).
    - intros E. rewrite E in Hm. congruence. }
  rewrite !sent_to_app, view_of_app, foldl_app. unfold c' in Hs' |- *.
  destruct (decide (k' = k)) as [->|Hne].
  - rewrite lookup_insert_eq in Hs'. injection Hs' as <-. simpl ss_room_id.
    rewrite (sent_to_newcomer k r) by (by try apply Hi).
    rewrite foldl_app, sent_to_self. cbn [foldl]. rewrite quiet_system, view_entered.
    rewrite views_joined, (members_set rooms c r) by done. f_equal.
    rewrite in_room_insert. simpl. rewrite decide_True by done.
    pose proof (not_in_room c k s r Hs Hr). set_solver.
  - rewrite lookup_insert_ne in Hs' by done. rewrite (Hv k' s') by done.
    rewrite (notify_views rooms c k s _ k' s') by done.
    rewrite foldl_app, (sent_to_nil k' [_; _]).
    2:{ csimpl. rewrite !not_elem_of_cons. split_and!; [done..|apply not_elem_of_nil]. }
    cbn [foldl].
    rewrite (sent_to_joined c k r (moved_to r s) l k'); [|done|by apply Hmem|done..].
    rewrite (sent_to_member _ c r None l k' s'); [|done| |done].
    2:{ intros s'' Hs''. by destruct (cw_session _ _ Hwf k' s'' Hs''). }
    rewrite in_room_insert. simpl ss_room_id. case_decide as Hd.
    + destruct Hd as [-> _]. rewrite decide_True by done. simpl.
      rewrite view_joined. simpl. rewrite Hu. f_equal. by apply add_others.
    + rewrite decide_False; [done|]. intros E. apply Hd. by split.
Qed.

Lemma chat_step_views c ev c' msgs msgs2 ds :
  chat_wf rooms c → views_ok c msgs → chat_step rooms c ev c' msgs2 ds →
  views_ok c' (msgs ++ msgs2).
Proof.
  intros Hwf Hv Hstep. destruct Hstep;
    try (apply views_same; [done|];
         repeat first [ apply Forall_nil; exact I | apply Forall_cons; split ];
         unfold compose; cbn [snd];
         first [ apply quiet_login | apply quiet_system | apply quiet_room_list
               | apply quiet_disconnect | by apply quiet_join_failed
               | by apply quiet_leave_failed ]).
  - apply (views_quiet c); [done|constructor|..].
    + intros k' s'. rewrite lookup_insert. case_decide; [by intros [= <-]|by eauto].
    + intros r Hr. rewrite in_room_insert. rewrite decide_False by (simpl; congruence).
      apply difference_absent. rewrite elem_of_in_room. intros (s & ? & ?). congruence.
  - rewrite <-(app_nil_r msgs0). apply (views_gone c _ msgs k s []); try done.
    + intros k' Hne. by rewrite lookup_delete_ne.
    + intros s'. by rewrite lookup_delete_eq.
    + intros r _. apply in_room_delete.
    + intros k' _. apply not_elem_of_nil.
    + intros k' _. apply not_elem_of_nil.
  - apply (views_quiet c); [done|by apply Forall_singleton; eapply quiet_login|..].
    + intros k' s'. rewrite lookup_insert. case_decide; [|by eauto].
      subst k'. intros [= <-]. by eauto.
    + intros r _. by apply (in_room_insert_same c k s).
  - by apply views_join.
  - apply (views_gone c _ msgs k s []); try done.
    + intros k' Hne. by rewrite lookup_insert_ne.
    + intros s'. rewrite lookup_insert_eq. by intros [= <-].
    + intros r Hr. rewrite in_room_insert. by rewrite decide_False by done.
    + intros k' _. apply not_elem_of_nil.
    + intros k' Hne. csimpl. rewrite !not_elem_of_cons. split_and!; [done..|apply not_elem_of_nil].
  - apply views_same; [done|]. apply Forall_zip_with. intros m t _ _. apply quiet_chat.
  - rewrite <-(app_nil_r leave). apply (views_gone c _ msgs k s [_]); try done.
    + intros k' Hne. by rewrite lookup_delete_ne.
    + intros s'. by rewrite lookup_delete_eq.
    + intros r _. apply in_room_delete.
    + intros k' Hne. csimpl. rewrite not_elem_of_cons. split; [done|apply not_elem_of_nil].
    + intros k' _. apply not_elem_of_nil.
Qed.

Lemma chat_run_views c evs c' msgs ds msgs0 :
  chat_wf rooms c → views_ok c msgs0 → chat_run rooms c evs c' msgs ds →
  views_ok c' (msgs0 ++ msgs).
Proof.
  intros Hwf Hv Hrun. induction Hrun as [|evs ev c1 c2 msgs1 msgs2 ds1 ds2 Hrun IH Hstep].
  - by rewrite app_nil_r.
  - rewrite app_assoc. eapply chat_step_views; [|done..]. by eapply chat_run_wf.
Qed.
End Steps.
