(* ===== verification/ChatFacts.v ===== *)
(** * Consequences of a single step of the chat specification

    Who receives the messages of a step, how requests are answered, and that the
    outcome does not depend on what the specification leaves open. *)

From S2P Require Import Prelude Schema ServerTypes ChatSpec ChatInvariant.

(** The payload type of the answer to a request; chat messages and transport
    events have none. *)
Definition answer_type (ev : ServerEvent) : option Z :=
  match ev with
  | LoginRequestEvent _ _ _ => Some MessagePayload.LoginResponse
  | RoomListRequestEvent _ _ => Some MessagePayload.RoomListResponse
  | JoinRoomRequestEvent _ _ _ => Some MessagePayload.JoinRoomResponse
  | LeaveRoomRequestEvent _ _ => Some MessagePayload.LeaveRoomResponse
  | DisconnectRequestEvent _ _ => Some MessagePayload.DisconnectResponse
  | _ => None
  end.

(** A message the server sends on its own account. *)
Definition unsolicited (m : Message) : Prop :=
  request_id m = 0 ∧
  (payload_type m = MessagePayload.ChatBroadcast
   ∨ payload_type m = MessagePayload.UserJoinedEvent
   ∨ payload_type m = MessagePayload.UserLeftEvent
   ∨ payload_type m = MessagePayload.SystemMessageEvent).

Definition answers (ev : ServerEvent) (km : Z * Message) : Prop :=
  km.1 = event_session ev ∧ request_id km.2 = event_request ev
  ∧ answer_type ev = Some (payload_type km.2).

(** Sessions that share a room with session [k] in [c]. *)
Definition roommates (c : Chat) (k : Z) : gset Z :=
  match c !! k with
  | Some s => if decide (ss_room_id s = no_room_id) then ∅ else in_room c (ss_room_id s)
  | None => ∅
  end.

Section Answers.
Context (rooms : RoomNames).
Implicit Types (c : Chat) (k r q : Z) (s : SessionState).

Lemma unsolicited_left s l : Forall (unsolicited ∘ snd) (left_msgs s l).
Proof.
  apply Forall_fmap, Forall_forall. intros m _. split; [done|]. right; right; by left.
Qed.

Lemma unsolicited_notify c s msgs :
  notify_leave c s msgs → Forall (unsolicited ∘ snd) msgs.
Proof. destruct 1; [constructor|apply unsolicited_left]. Qed.

Lemma unsolicited_joined s l : Forall (unsolicited ∘ snd) (joined_msgs s l).
Proof.
  apply Forall_join, Forall_fmap, Forall_forall. intros m _. simpl.
  destruct (ss_logged_in m); [|constructor].
  rewrite !Forall_cons, Forall_nil. do 2 (split; [split; [done|right; by left]|]). done.
Qed.

Lemma unsolicited_system k r text : (unsolicited ∘ snd) (k, msg_system r text).
Proof. split; [done|]. do 3 right. done. Qed.

(** A request of a connected session is answered exactly once. *)
Lemma chat_step_answer c ev c' msgs ds :
  chat_step rooms c ev c' msgs ds → is_Some (answer_type ev) →
  is_Some (c !! event_session ev) →
  ∃ l1 km l2, msgs = l1 ++ km :: l2 ∧ answers ev km
    ∧ Forall (unsolicited ∘ snd) (l1 ++ l2).
Proof.
  intros Hstep [t Ht] [s0 Hs0]. destruct Hstep; simpl in Ht, Hs0; try done;
    try congruence;
    try (eexists [], _, []; split; [reflexivity|]; split; [done|constructor]; fail).
  - eexists leave, _, _. split; [reflexivity|]. split; [done|].
    apply Forall_app. split; [by eapply unsolicited_notify|].
    apply Forall_cons. split; [apply unsolicited_system|apply unsolicited_joined].
  - eexists leave, _, _. split; [reflexivity|]. split; [done|].
    apply Forall_app. split; [by eapply unsolicited_notify|].
    apply Forall_cons. split; [apply unsolicited_system|constructor].
  - eexists [], _, _. split; [reflexivity|]. split; [done|].
    by eapply unsolicited_notify.
Qed.

(** Chat messages and transport events are never answered. *)
Lemma chat_step_unsolicited c ev c' msgs ds :
  chat_step rooms c ev c' msgs ds → answer_type ev = None → Forall (unsolicited ∘ snd) msgs.
Proof.
  intros Hstep Ht. destruct Hstep; try done;
    try (apply Forall_cons; split; [apply unsolicited_system|constructor]).
  - by eapply unsolicited_notify.
  - apply Forall_zip_with. intros. split; [done|by left].
Qed.
End Answers.

(** ** Recipients *)

Section Recipients.
Context (rooms : RoomNames).
Implicit Types (c : Chat) (k r q : Z) (s : SessionState) (X : gset Z).

Definition all_to X (msgs : list (Z * Message)) : Prop := Forall (λ km, km.1 ∈ X) msgs.

Lemma members_in c r ex l m :
  members_of c r ex l → m ∈ l → ss_session_id m ∈ in_room c r.
Proof. intros [_ Hl] Hm. apply Hl in Hm as (? & ? & _). apply elem_of_in_room. eauto. Qed.

Lemma notify_to c k s msgs :
  c !! k = Some s → notify_leave c s msgs → all_to (roommates c k) msgs.
Proof.
  intros Hs. destruct 1 as [|l Hr Hl Hm]; [constructor|].
  apply Forall_fmap, Forall_forall. intros m Hin. simpl. unfold roommates.
  rewrite Hs, decide_False by done. by eapply members_in.
Qed.

Lemma joined_to c k r s l :
  members_of c r None l → ss_session_id s = k →
  all_to ({[k]} ∪ in_room c r) (joined_msgs s l).
Proof.
  intros Hl Hk. apply Forall_join, Forall_fmap, Forall_forall. intros m Hin. simpl.
  destruct (ss_logged_in m); [|constructor]. pose proof (members_in c r None l m Hl Hin).
  rewrite !Forall_cons, Forall_nil. simpl. split_and!; [set_solver..|done].
Qed.

Lemma all_to_weaken X Y msgs : all_to X msgs → X ⊆ Y → all_to Y msgs.
Proof. intros HX HY. eapply Forall_impl; [done|]. intros km Hkm. set_solver. Qed.

Lemma all_to_self k m X : k ∈ X → all_to X [(k, m)].
Proof. intros. by repeat constructor. Qed.

(** Only the session of the event and those sharing its room, before or after
    the step, are sent anything. *)
Lemma chat_step_recipients c ev c' msgs ds :
  chat_wf rooms c → rooms !! no_room_id = None → chat_step rooms c ev c' msgs ds →
  all_to ({[event_session ev]} ∪ roommates c (event_session ev)
            ∪ roommates c' (event_session ev)) msgs.
Proof.
  intros Hwf H0 Hstep. destruct Hstep; simpl; try (by apply Forall_nil);
    try (apply all_to_self; set_solver).
  - eapply all_to_weaken; [by eapply notify_to|set_solver].
  - apply Forall_app. split.
    { eapply all_to_weaken; [by eapply notify_to|set_solver]. }
    apply Forall_cons. split; [simpl; set_solver|].
    apply Forall_cons. split; [simpl; set_solver|].
    assert (roommates c' k = {[k]} ∪ in_room c r) as ->.
    { unfold roommates, c'. rewrite lookup_insert_eq. simpl.
      rewrite decide_False by congruence. apply set_eq; intros x.
      rewrite elem_of_union, elem_of_singleton, !elem_of_in_room.
      setoid_rewrite lookup_insert_Some. destruct (decide (x = k)); naive_solver. }
    eapply all_to_weaken; [apply (joined_to c k r); [done|]|set_solver].
    simpl. by apply (cw_session _ _ Hwf k s).
  - apply Forall_app. split.
    { eapply all_to_weaken; [by eapply notify_to|set_solver]. }
    apply Forall_cons. split; [simpl; set_solver|]. apply all_to_self. set_solver.
  - apply Forall_zip_with. intros m t Hm _. simpl. unfold roommates at 1. rewrite H.
    rewrite decide_False by done. pose proof (members_in _ _ _ _ _ H4 Hm). set_solver.
  - apply Forall_cons. split; [simpl; set_solver|].
    eapply all_to_weaken; [by eapply notify_to|set_solver].
Qed.
End Recipients.

(** ** What a step leaves open *)

Section Determinism.
Context (rooms : RoomNames).
Implicit Types (c : Chat).

(** The next state and the disconnections are determined by the state and the
    event. *)
Lemma chat_step_det c ev c1 c2 msgs1 msgs2 ds1 ds2 :
  chat_step rooms c ev c1 msgs1 ds1 → chat_step rooms c ev c2 msgs2 ds2 →
  c1 = c2 ∧ ds1 = ds2.
Proof.
  intros Hs1 Hs2. destruct Hs1; inversion Hs2; subst; try done;
    repeat match goal with
    | H : is_Some _ |- _ => destruct H as [? H]
    end; simplify_eq; try done; exfalso; clear Hs2;
    unfold valid_content, valid_name in *;
    first [ congruence | lia | tauto | by (edestruct (H s)) | by naive_solver congruence ].
Qed.

Lemma chat_run_nil_inv c c2 msgs ds :
  chat_run rooms c [] c2 msgs ds → c2 = c ∧ msgs = [] ∧ ds = [].
Proof. intros Hrun. inversion Hrun as [|evs ? ? ? ? ? ? ? ? ? Heq]; [done|by destruct evs]. Qed.

Lemma chat_run_snoc_inv c evs ev c2 msgs ds :
  chat_run rooms c (evs ++ [ev]) c2 msgs ds →
  ∃ c1 msgs1 msgs2 ds1 ds2, chat_run rooms c evs c1 msgs1 ds1
    ∧ chat_step rooms c1 ev c2 msgs2 ds2 ∧ msgs = msgs1 ++ msgs2 ∧ ds = ds1 ++ ds2.
Proof.
  intros Hrun. inversion Hrun as [Heq|evs' ev' c1 c2' ms1 ms2 d1 d2 Hr Hs Heq]; subst.
  - by destruct evs.
  - apply app_inj_tail in Heq as [-> ->]. eauto 10.
Qed.

Lemma chat_run_det c evs c1 c2 msgs1 msgs2 ds1 ds2 :
  chat_run rooms c evs c1 msgs1 ds1 → chat_run rooms c evs c2 msgs2 ds2 →
  c1 = c2 ∧ ds1 = ds2.
Proof.
  revert c1 c2 msgs1 msgs2 ds1 ds2.
  induction evs as [|ev evs IH] using rev_ind; intros * H1 H2.
  - apply chat_run_nil_inv in H1 as (-> & _ & ->). by apply chat_run_nil_inv in H2 as (-> & _ & ->).
  - apply chat_run_snoc_inv in H1 as (a & ? & ? & ? & ? & H1 & S1 & -> & ->).
    apply chat_run_snoc_inv in H2 as (b & ? & ? & ? & ? & H2 & S2 & -> & ->).
    destruct (IH _ _ _ _ _ _ H1 H2) as [-> ->].
    by destruct (chat_step_det _ _ _ _ _ _ _ _ S1 S2) as [-> ->].
Qed.
End Determinism.

(** ** Inversion: which step an event takes *)

Ltac step_inv Hstep :=
  inversion Hstep; simplify_eq;
  repeat match goal with
  | H : is_Some _ |- _ => destruct H as [? H]
  | H : ∀ s, ?c !! ?k = Some s → _, H' : ?c !! ?k = Some ?x |- _ => specialize (H x H')
  end; simplify_eq; try congruence.

Section Inversion.
Context (rooms : RoomNames).
Implicit Types (c : Chat) (k r q : Z) (s : SessionState).

Lemma chat_accepted_inv c k q content c' msgs ds s :
  chat_step rooms c (ChatSendRequestEvent k q content) c' msgs ds →
  c !! k = Some s → ss_logged_in s = true → ss_room_id s ≠ no_room_id →
  valid_content content →
  c' = c ∧ ds = [] ∧ ∃ l ts, members_of c (ss_room_id s) None l ∧ length ts = length l
    ∧ Forall (in_range 64) ts ∧ msgs = chat_msgs s content l ts.
Proof.
  unfold valid_content. intros Hstep Hs Hl Hr Hv. step_inv Hstep; try lia. eauto 10.
Qed.

Lemma departure_inv c ev k c' msgs ds s :
  ev = SessionDisconnectedEvent k ∨ (∃ q, ev = DisconnectRequestEvent k q) →
  chat_step rooms c ev c' msgs ds → c !! k = Some s →
  c' = delete k c
  ∧ ds = (if answer_type ev is Some _ then [k] else [])
  ∧ ∃ pre leave, msgs = pre ++ leave ∧ notify_leave c s leave
    ∧ Forall (λ km, km.1 = k ∧ payload_type km.2 = MessagePayload.DisconnectResponse) pre.
Proof.
  intros [->|[q ->]] Hstep Hs; step_inv Hstep.
  - do 2 (split; [done|]). exists [], msgs. by split_and!.
  - do 2 (split; [done|]). eexists [_], leave. split_and!; [done|done|]. by repeat constructor.
Qed.

(** The two decisions of the server as functions of its state. *)
Lemma login_inv c k q name c' msgs ds s code :
  chat_step rooms c (LoginRequestEvent k q name) c' msgs ds → c !! k = Some s →
  (code = ErrorCode.INVALID_NAME ∧ ¬ valid_name name)
  ∨ (code = ErrorCode.DUPLICATE_NAME ∧ valid_name name ∧ name_taken c k name)
  ∨ (code = ErrorCode.NONE ∧ valid_name name ∧ ¬ name_taken c k name) →
  let accepted := bool_decide (code = ErrorCode.NONE) in
  c' = (if accepted then <[k := logged_in_as name s]> c else c)
  ∧ msgs = [(k, msg_login q code
                  (if accepted then Some (user_info (logged_in_as name s)) else None))].
Proof.
  intros Hstep Hs Hcode.
  destruct Hcode as [[-> ?]|[(-> & ? & ?)|(-> & ? & ?)]]; step_inv Hstep; try done; tauto.
Qed.

Lemma join_inv c k q r c' msgs ds s :
  chat_step rooms c (JoinRoomRequestEvent k q r) c' msgs ds → c !! k = Some s →
  match ss_logged_in s, rooms !! r with
  | false, _ => c' = c ∧ msgs = [(k, msg_join q ErrorCode.INVALID_NAME None)]
  | true, None => c' = c ∧ msgs = [(k, msg_join q ErrorCode.ROOM_NOT_FOUND None)]
  | true, Some name =>
      if decide (ss_room_id s = r)
      then c' = c ∧ msgs = [(k, msg_join q ErrorCode.ALREADY_IN_ROOM None)]
      else c' = <[k := moved_to r s]> c ∧ ∃ leave l,
        notify_leave c s leave ∧ members_of c r None l
        ∧ msgs = leave ++ [(k, msg_join q ErrorCode.NONE (Some (room_info c' r name)));
                           (k, msg_system r (name +:+ " 방에 입장했습니다."))]
                   ++ joined_msgs (moved_to r s) l
  end.
Proof.
  intros Hstep Hs. inversion Hstep; simplify_eq;
    repeat match goal with
    | H : is_Some _ |- _ => destruct H as [? H]
    | H : ?x = _ |- context [match ?x with _ => _ end] => rewrite H
    end; rewrite ?decide_True, ?decide_False by done; eauto 10.
Qed.
End Inversion.
