(* ===== verification/GameLogicRefinement.v ===== *)
(** * The game logic implements the chat specification

    [encode_all] turns the messages of a specification step into what
    [QueueMessage] puts in [outgoing_messages_]; [advance] is the effect of a
    group of [Queue...] calls.  The main theorem is a forward simulation: every
    handler, run on a well-formed registry, terminates without dereferencing a
    null pointer and performs a step of [ChatSpec.chat_step]. *)

From S2P Require Import Prelude Schema HeapLibrary ServerTypes RoomSystem GameLogicSystem ChatSpec ChatInvariant.

(** The rooms of the registry, by name. *)
Definition room_names (rs : RoomSystem) : RoomNames := rm_room_name <$> rooms_ rs.

Section Effects.
Context `{FlatBuffers, Environment}.
Implicit Types (gl : GameLogicSystem) (msgs : list (Z * Message)).

(** The outgoing form of a message, if [QueueMessage] keeps it. *)
Definition encode (km : Z * Message) : option OutgoingMessage :=
  let b := fb_build km.2 in
  if (zlen b =? 0) || (max_protocol_payload_bytes <? zlen b) then None
  else Some (mkOutgoingMessage km.1 b).

Definition encode_all (msgs : list (Z * Message)) : list OutgoingMessage := omap encode msgs.

Lemma encode_all_app msgs1 msgs2 :
  encode_all (msgs1 ++ msgs2) = encode_all msgs1 ++ encode_all msgs2.
Proof. apply omap_app. Qed.

(** [n] reads of the environment and the messages [msgs]. *)
Definition advance (n : nat) msgs gl : GameLogicSystem :=
  mkGameLogicSystem (room_system_ gl) (outgoing_messages_ gl ++ encode_all msgs)
    (pending_disconnects_ gl) (n + env_reads_ gl).

Lemma advance_0 gl : advance 0 [] gl = gl.
Proof. destruct gl. unfold advance; simpl. by rewrite app_nil_r. Qed.

Lemma advance_advance n1 n2 msgs1 msgs2 gl :
  advance n2 msgs2 (advance n1 msgs1 gl) = advance (n2 + n1) (msgs1 ++ msgs2) gl.
Proof.
  unfold advance; simpl. by rewrite encode_all_app, app_assoc, Nat.add_assoc.
Qed.

Lemma advance_set_room_system n msgs rs gl :
  set_room_system rs (advance n msgs gl) = advance n msgs (set_room_system rs gl).
Proof. done. Qed.

Lemma room_system_advance n msgs gl : room_system_ (advance n msgs gl) = room_system_ gl.
Proof. done. Qed.

Lemma room_system_set rs gl : room_system_ (set_room_system rs gl) = rs.
Proof. done. Qed.

Lemma set_room_system_same gl : set_room_system (room_system_ gl) gl = gl.
Proof. by destruct gl. Qed.

Lemma env_read_advance gl : env_read gl = advance 1 [] gl.
Proof. destruct gl. unfold advance; simpl. by rewrite app_nil_r. Qed.

Lemma QueueMessage_advance k m gl : QueueMessage k (fb_build m) gl = advance 0 [(k, m)] gl.
Proof.
  unfold QueueMessage, advance, encode_all, encode; simpl.
  destruct (_ || _); [|done]. destruct gl; simpl. by rewrite app_nil_r.
Qed.

(** Each [Queue...] function as messages of the specification. *)
Lemma QueueLoginResponse_failed k q code u gl :
  code ≠ ErrorCode.NONE →
  QueueLoginResponse k q false code u gl = advance 0 [(k, msg_login q code None)] gl.
Proof.
  intros Hc. unfold QueueLoginResponse, BuildMessage, msg_login.
  rewrite bool_decide_eq_false_2 by done. apply QueueMessage_advance.
Qed.

Lemma QueueLoginResponse_ok k q s gl :
  QueueLoginResponse k q true ErrorCode.NONE (Some s) gl
  = advance 0 [(k, msg_login q ErrorCode.NONE (Some (user_info s)))] gl.
Proof. apply QueueMessage_advance. Qed.

Lemma QueueJoinRoomResponse_failed k q code r gl :
  code ≠ ErrorCode.NONE →
  QueueJoinRoomResponse k q false code r gl = advance 0 [(k, msg_join q code None)] gl.
Proof.
  intros Hc. unfold QueueJoinRoomResponse, BuildMessage, msg_join.
  rewrite bool_decide_eq_false_2 by done. apply QueueMessage_advance.
Qed.

Lemma QueueJoinRoomResponse_ok k q rm gl :
  QueueJoinRoomResponse k q true ErrorCode.NONE (Some rm) gl
  = advance 0 [(k, msg_join q ErrorCode.NONE (Some (BuildRoomInfo rm)))] gl.
Proof. apply QueueMessage_advance. Qed.

Lemma QueueLeaveRoomResponse_advance k q code gl :
  QueueLeaveRoomResponse k q (bool_decide (code = ErrorCode.NONE)) code gl
  = advance 0 [(k, msg_leave q code)] gl.
Proof. apply QueueMessage_advance. Qed.

Lemma QueueDisconnectResponse_advance k q gl :
  QueueDisconnectResponse k q true ErrorCode.NONE gl = advance 0 [(k, msg_disconnect q)] gl.
Proof. apply QueueMessage_advance. Qed.

Lemma QueueSystemMessage_advance k r text gl :
  QueueSystemMessage k r text gl = advance 0 [(k, msg_system r text)] gl.
Proof. apply QueueMessage_advance. Qed.

Lemma QueueUserJoinedEvent_advance k r s gl :
  QueueUserJoinedEvent k r s gl = advance 0 [(k, msg_joined r s)] gl.
Proof. apply QueueMessage_advance. Qed.

Lemma QueueUserLeftEvent_advance k r s gl :
  QueueUserLeftEvent k r s gl = advance 0 [(k, msg_left r s)] gl.
Proof. apply QueueMessage_advance. Qed.

Lemma QueueChatBroadcast_advance k s content gl :
  QueueChatBroadcast k (ss_room_id s) s content gl
  = advance 1 [(k, msg_chat s content (CurrentTimestampMs (env_reads_ gl)))] gl.
Proof.
  unfold QueueChatBroadcast, BuildMessage. rewrite env_read_advance.
  rewrite QueueMessage_advance, advance_advance. done.
Qed.

(** The notification loops. *)
Lemma left_loop s l gl :
  foldl (λ gl m, QueueUserLeftEvent (ss_session_id m) (ss_room_id s) s gl) gl l
  = advance 0 (left_msgs s l) gl.
Proof.
  revert gl. induction l as [|m l IH]; intros gl; simpl; [by rewrite advance_0|].
  by rewrite IH, QueueUserLeftEvent_advance, advance_advance.
Qed.

Lemma joined_loop s l gl :
  foldl (λ ogl m, gl ← ogl;
           if negb (ss_logged_in m) then Some gl
           else session ← Some s;
                Some (QueueUserJoinedEvent (ss_session_id s) (ss_room_id s) m
                        (QueueUserJoinedEvent (ss_session_id m) (ss_room_id s) session gl)))
    (Some gl) l
  = Some (advance 0 (joined_msgs s l) gl).
Proof.
  revert gl. induction l as [|m l IH]; intros gl; [by rewrite advance_0|].
  simpl. unfold joined_msgs. simpl. destruct (ss_logged_in m); simpl; [|apply IH].
  rewrite IH, !QueueUserJoinedEvent_advance, !advance_advance. done.
Qed.

Lemma chat_loop s content l gl :
  foldl (λ gl m, QueueChatBroadcast (ss_session_id m) (ss_room_id s) s content gl) gl l
  = advance (length l)
      (chat_msgs s content l (CurrentTimestampMs <$> seq (env_reads_ gl) (length l))) gl.
Proof.
  revert gl. induction l as [|m l IH]; intros gl; simpl; [by rewrite advance_0|].
  rewrite IH, QueueChatBroadcast_advance, advance_advance. simpl.
  by rewrite Nat.add_1_r.
Qed.
End Effects.

Section Registry.
Implicit Types (rs : RoomSystem) (k r : Z).

Lemma members_in_room rs r rm :
  rs_wf rs → rooms_ rs !! r = Some rm → rm_members rm = in_room (sessions_ rs) r.
Proof.
  intros Hwf Hrm. apply set_eq; intros k.
  rewrite elem_of_in_room, (wf_members rs r rm k Hwf Hrm), lookup_presence.
  destruct (sessions_ rs !! k) as [s|]; naive_solver.
Qed.

Lemma BuildRoomInfo_spec rs r rm :
  rs_wf rs → rooms_ rs !! r = Some rm →
  BuildRoomInfo rm = room_info (sessions_ rs) r (rm_room_name rm).
Proof.
  intros Hwf Hrm. unfold BuildRoomInfo, room_info, CreateRoomInfoDirect.
  destruct (rs_wf_room rs Hwf r rm Hrm) as [-> _].
  by rewrite (members_in_room rs r rm).
Qed.

Lemma lookup_room_names rs r : room_names rs !! r = rm_room_name <$> rooms_ rs !! r.
Proof. apply lookup_fmap. Qed.

Lemma sessions_remove k rs : sessions_ (RemoveSession k rs) = delete k (sessions_ rs).
Proof.
  unfold RemoveSession; simpl. rewrite sessions_leave.
  apply map_eq; intros k'. rewrite !lookup_delete, lookup_alter.
  by repeat case_decide.
Qed.

Lemma sessions_login k name rs :
  sessions_ (SetLoggedIn k name rs) = alter (set_login name) k (sessions_ rs).
Proof.
  unfold SetLoggedIn, FindSession.
  destruct (sessions_ rs !! k) eqn:Hs; [done|]. by rewrite alter_id'.
Qed.

Lemma alter_insert_lookup {A} (f : A → A) k (m : gmap Z A) x :
  m !! k = Some x → alter f k m = <[k := f x]> m.
Proof.
  intros Hx. apply map_eq; intros k'. rewrite lookup_alter, lookup_insert.
  case_decide; [|done]. by rewrite Hx.
Qed.

(** The operations keep the rooms' names. *)
Lemma room_names_leave k rs :
  rs_wf rs → room_names (RemoveSessionFromCurrentRoom k rs) = room_names rs.
Proof.
  intros Hwf. unfold room_names. rewrite rooms_leave, <-map_fmap_compose by done.
  by apply map_fmap_ext.
Qed.

Lemma room_names_remove k rs : rs_wf rs → room_names (RemoveSession k rs) = room_names rs.
Proof. apply room_names_leave. Qed.

Lemma room_names_move k r rs :
  rs_wf rs → is_Some (sessions_ rs !! k) →
  room_names (MoveSessionToRoom k r rs) = room_names rs.
Proof.
  intros Hwf Hs. unfold room_names. rewrite rooms_move by done.
  apply map_eq; intros r'. rewrite !lookup_fmap, lookup_alter.
  destruct (decide (r = r')) as [<-|]; case_decide; rewrite ?lookup_fmap;
    [destruct (rooms_ rs !! r)..|destruct (rooms_ rs !! r')|]; done.
Qed.

Context (order : gset Z → list Z) (order_perm : ∀ s, order s ≡ₚ elements s).

Lemma GetRoomMembers_members_of rs r ex :
  rs_wf rs → is_Some (rooms_ rs !! r) →
  members_of (sessions_ rs) r ex (GetRoomMembers order r ex rs).
Proof.
  intros Hwf [rm Hrm]. destruct (rs_wf_room rs Hwf r rm Hrm) as [_ Hr0]. split.
  - by apply GetRoomMembers_NoDup.
  - intros s. apply elem_of_GetRoomMembers; eauto.
Qed.
End Registry.

(** Members of a room other than the one [k] is moved out of. *)
Lemma members_of_ext c c' r ex l :
  (∀ k s, (c !! k = Some s ∧ ss_room_id s = r) ↔ (c' !! k = Some s ∧ ss_room_id s = r)) →
  members_of c r ex l → members_of c' r ex l.
Proof.
  intros Hc [Hnd Hl]. split; [done|]. intros s. rewrite Hl.
  specialize (Hc (ss_session_id s) s). naive_solver.
Qed.

Lemma name_taken_spec name k rs :
  IsDisplayNameTaken name k rs = true ↔ name_taken (sessions_ rs) k name.
Proof. apply IsDisplayNameTaken_spec. Qed.

(** ** The simulation *)

#[local] Arguments RemoveSession : simpl never.
#[local] Arguments RemoveSessionFromCurrentRoom : simpl never.
#[local] Arguments MoveSessionToRoom : simpl never.

Section Simulation.
Context `{FlatBuffers, EnvironmentSpec}.
Implicit Types (gl : GameLogicSystem).

(** [gl'] results from [gl] by a step of the specification on [ev]. *)
Definition implements gl (ev : ServerEvent) gl' : Prop :=
  ∃ msgs ds,
    chat_step (room_names (room_system_ gl)) (sessions_ (room_system_ gl)) ev
      (sessions_ (room_system_ gl')) msgs ds
    ∧ outgoing_messages_ gl' = outgoing_messages_ gl ++ encode_all msgs
    ∧ pending_disconnects_ gl' = pending_disconnects_ gl ++ ds
    ∧ rs_wf (room_system_ gl')
    ∧ room_names (room_system_ gl') = room_names (room_system_ gl).

(** A handler that changes the registry to [rs'] and queues [msgs]. *)
Lemma implements_advance gl ev n msgs rs' :
  chat_step (room_names (room_system_ gl)) (sessions_ (room_system_ gl)) ev
    (sessions_ rs') msgs [] →
  rs_wf rs' → room_names rs' = room_names (room_system_ gl) →
  implements gl ev (set_room_system rs' (advance n msgs gl)).
Proof. intros. exists msgs, []. simpl. by rewrite app_nil_r. Qed.

(** A handler that leaves the registry alone. *)
Lemma implements_quiet gl ev n msgs :
  rs_wf (room_system_ gl) →
  chat_step (room_names (room_system_ gl)) (sessions_ (room_system_ gl)) ev
    (sessions_ (room_system_ gl)) msgs [] →
  implements gl ev (advance n msgs gl).
Proof. intros. exists msgs, []. simpl. by rewrite app_nil_r. Qed.

Lemma implements_nothing gl ev :
  rs_wf (room_system_ gl) →
  chat_step (room_names (room_system_ gl)) (sessions_ (room_system_ gl)) ev
    (sessions_ (room_system_ gl)) [] [] →
  implements gl ev gl.
Proof. intros. rewrite <-(advance_0 gl) at 2. by apply implements_quiet. Qed.

Lemma NotifyRoomLeave_spec s gl :
  rs_wf (room_system_ gl) →
  sessions_ (room_system_ gl) !! ss_session_id s = Some s →
  ∃ n msgs, NotifyRoomLeave s gl = advance n msgs gl
            ∧ notify_leave (sessions_ (room_system_ gl)) s msgs.
Proof.
  intros Hwf Hs. unfold NotifyRoomLeave.
  destruct (Z.eqb_spec (ss_room_id s) no_room_id) as [E|E]; simpl.
  { exists 0%nat, []. rewrite advance_0. split; [done|]. constructor. by left. }
  destruct (ss_logged_in s) eqn:El; simpl.
  2:{ exists 0%nat, []. rewrite advance_0. split; [done|]. constructor. by right. }
  rewrite left_loop, env_read_advance, advance_advance.
  eexists _, _. split; [done|]. apply notify_leave_room; [done..|].
  apply GetRoomMembers_members_of; [apply members_walk_perm|done|].
  destruct (rs_wf_in_room _ Hwf _ _ Hs E) as (rm & -> & _). eauto.
Qed.

(** Leave notification followed by a removal from the room or the registry. *)
Lemma connected_spec k gl :
  rs_wf (room_system_ gl) →
  ∃ gl', HandleSessionConnected k gl = Some gl'
         ∧ implements gl (SessionConnectedEvent k) gl'.
Proof.
  intros Hwf. eexists. split; [done|].
  rewrite <-(advance_0 gl) at 3.
  apply implements_advance; [|by apply (rs_apply_wf (OpAdd k))|];
    unfold AddSession; destruct (_ !! _) eqn:Hs; try done.
  - apply step_connect_again. by rewrite Hs.
  - by apply step_connect.
Qed.

Lemma disconnected_spec k gl :
  rs_wf (room_system_ gl) →
  ∃ gl', HandleSessionDisconnected k gl = Some gl'
         ∧ implements gl (SessionDisconnectedEvent k) gl'.
Proof.
  intros Hwf. eexists. split; [done|].
  unfold find_session, FindSession.
  pose proof (rs_apply_wf (OpRemove k) _ Hwf) as Hwf'.
  destruct (sessions_ (room_system_ gl) !! k) as [s|] eqn:Hs.
  - destruct (rs_wf_session _ Hwf k s Hs) as [Hid _].
    destruct (NotifyRoomLeave_spec s gl) as (n & msgs & -> & Hn); [done|by rewrite Hid|].
    apply implements_advance; [|done|by apply room_names_remove].
    rewrite room_system_advance, sessions_remove. by apply (step_disconnected _ _ _ s).
  - rewrite <-(advance_0 gl) at 3.
    apply implements_advance; [|done|by apply room_names_remove].
    rewrite sessions_remove, delete_id by done. by apply step_disconnected_unknown.
Qed.

Lemma login_spec k q name gl :
  rs_wf (room_system_ gl) →
  ∃ gl', HandleLoginRequest k q name gl = Some gl'
         ∧ implements gl (LoginRequestEvent k q name) gl'.
Proof.
  intros Hwf. unfold HandleLoginRequest, find_session, FindSession.
  destruct (sessions_ (room_system_ gl) !! k) as [s|] eqn:Hs.
  2:{ eexists. split; [done|]. apply implements_nothing; [done|]. by constructor. }
  pose proof (zsize_nonneg name) as Hz.
  destruct (Z.eqb_spec (zsize name) 0) as [E|E].
  { eexists. split; [done|]. rewrite QueueLoginResponse_failed by done.
    apply implements_quiet; [done|]. constructor; [by rewrite Hs|]. unfold valid_name; lia. }
  unfold max_display_name_bytes. destruct (Z.ltb_spec 32 (zsize name)) as [E'|E'].
  { eexists. split; [done|]. rewrite QueueLoginResponse_failed by done.
    apply implements_quiet; [done|]. constructor; [by rewrite Hs|]. unfold valid_name; lia. }
  assert (valid_name name) as Hv by (unfold valid_name; lia).
  destruct (IsDisplayNameTaken name k (room_system_ gl)) eqn:Ht.
  { eexists. split; [done|]. rewrite QueueLoginResponse_failed by done.
    apply implements_quiet; [done|]. apply name_taken_spec in Ht.
    constructor; [by rewrite Hs|done..]. }
  rewrite !room_system_set, (sessions_login k name), lookup_alter_eq, Hs. simpl.
  eexists. split; [done|].
  rewrite QueueLoginResponse_ok, <-advance_set_room_system.
  apply implements_advance.
  - rewrite sessions_login, (alter_insert_lookup _ _ _ s) by done.
    apply step_login; [done..|]. rewrite <-name_taken_spec. congruence.
  - by apply (rs_apply_wf (OpLogin k name)).
  - unfold SetLoggedIn. by destruct (FindSession _ _).
Qed.

Lemma invalid_spec k text gl :
  rs_wf (room_system_ gl) →
  ∃ gl', HandleInvalidPacket k text gl = Some gl'
         ∧ implements gl (InvalidPacketEvent k text) gl'.
Proof.
  intros Hwf. eexists. split; [done|]. rewrite QueueSystemMessage_advance.
  apply implements_quiet; [done|]. constructor.
Qed.

Lemma room_infos_spec n rs :
  rs_wf rs →
  (λ '(_, room), BuildRoomInfo room) <$> rooms_walk n (Rooms rs)
  ≡ₚ (λ rn, room_info (sessions_ rs) rn.1 rn.2) <$> map_to_list (room_names rs).
Proof.
  intros Hwf. unfold room_names. rewrite map_to_list_fmap, <-list_fmap_compose.
  rewrite rooms_walk_perm. unfold Rooms. eapply (reflexive_eq (R:=(≡ₚ))).
  apply list_fmap_ext. intros i [r rm] Hi. simpl. apply BuildRoomInfo_spec; [done|].
  apply elem_of_map_to_list. by apply list_elem_of_lookup_2 with i.
Qed.

Lemma room_list_spec k q gl :
  rs_wf (room_system_ gl) →
  ∃ gl', HandleRoomListRequest k q gl = Some gl'
         ∧ implements gl (RoomListRequestEvent k q) gl'.
Proof.
  intros Hwf. eexists. split; [done|].
  unfold QueueRoomListResponse, BuildMessage.
  rewrite QueueMessage_advance, env_read_advance, advance_advance.
  apply implements_quiet; [done|]. apply step_room_list. by apply room_infos_spec.
Qed.

Lemma leave_spec k q gl :
  rs_wf (room_system_ gl) →
  ∃ gl', HandleLeaveRoomRequest k q gl = Some gl'
         ∧ implements gl (LeaveRoomRequestEvent k q) gl'.
Proof.
  intros Hwf. unfold HandleLeaveRoomRequest, find_session, FindSession.
  destruct (sessions_ (room_system_ gl) !! k) as [s|] eqn:Hs.
  2:{ eexists. split; [done|]. apply implements_nothing; [done|]. by constructor. }
  destruct (Z.eqb_spec (ss_room_id s) no_room_id) as [E|E].
  { eexists. split; [done|].
    rewrite (QueueLeaveRoomResponse_advance k q ErrorCode.NOT_IN_ROOM).
    apply implements_quiet; [done|]. by apply (step_leave_no_room _ _ _ _ s). }
  destruct (rs_wf_session _ Hwf k s Hs) as [Hid _].
  destruct (NotifyRoomLeave_spec s gl) as (n & msgs & -> & Hn); [done|by rewrite Hid|].
  eexists. split; [done|].
  rewrite (QueueLeaveRoomResponse_advance k q ErrorCode.NONE), QueueSystemMessage_advance.
  rewrite advance_set_room_system, !advance_advance, <-advance_set_room_system.
  apply implements_advance.
  - rewrite room_system_advance, sessions_leave, (alter_insert_lookup _ _ _ s) by done.
    by apply step_leave.
  - by apply (rs_apply_wf (OpLeave k)).
  - by apply room_names_leave.
Qed.

Lemma disconnect_spec k q gl :
  rs_wf (room_system_ gl) →
  ∃ gl', HandleDisconnectRequest k q gl = Some gl'
         ∧ implements gl (DisconnectRequestEvent k q) gl'.
Proof.
  intros Hwf. eexists. split; [done|].
  rewrite QueueDisconnectResponse_advance. unfold find_session, FindSession.
  rewrite room_system_advance. pose proof (rs_apply_wf (OpRemove k) _ Hwf) as Hwf'.
  destruct (sessions_ (room_system_ gl) !! k) as [s|] eqn:Hs.
  - destruct (rs_wf_session _ Hwf k s Hs) as [Hid _].
    destruct (NotifyRoomLeave_spec s (advance 0 [(k, msg_disconnect q)] gl))
      as (n & msgs & -> & Hn); [done|by rewrite Hid|].
    rewrite advance_advance. exists ((k, msg_disconnect q) :: msgs), [k].
    split_and!; [|done..|by apply room_names_remove].
    cbn [room_system_ set_room_system advance]. rewrite sessions_remove. by apply (step_disconnect _ _ _ _ s).
  - exists [(k, msg_disconnect q)], [k].
    split_and!; [|done..|by apply room_names_remove].
    cbn [room_system_ set_room_system advance]. rewrite sessions_remove, delete_id by done. by apply step_disconnect_unknown.
Qed.

Lemma chat_spec k q content gl :
  rs_wf (room_system_ gl) →
  ∃ gl', HandleChatSendRequest k q content gl = Some gl'
         ∧ implements gl (ChatSendRequestEvent k q content) gl'.
Proof.
  intros Hwf. unfold HandleChatSendRequest, find_session, FindSession.
  destruct (sessions_ (room_system_ gl) !! k) as [s|] eqn:Hs.
  2:{ eexists. split; [done|]. apply implements_nothing; [done|].
      apply step_chat_ignored. congruence. }
  destruct (ss_logged_in s) eqn:Hl; simpl.
  2:{ eexists. split; [done|]. apply implements_nothing; [done|].
      apply step_chat_ignored. congruence. }
  destruct (Z.eqb_spec (ss_room_id s) no_room_id) as [E|E].
  { eexists. split; [done|]. rewrite QueueSystemMessage_advance.
    apply implements_quiet; [done|]. by apply (step_chat_no_room _ _ _ _ _ s). }
  pose proof (zsize_nonneg content) as Hz.
  destruct (Z.eqb_spec (zsize content) 0) as [E0|E0].
  { eexists. split; [done|]. rewrite QueueSystemMessage_advance.
    apply implements_quiet; [done|]. by apply step_chat_empty. }
  unfold max_chat_message_bytes. destruct (Z.ltb_spec 512 (zsize content)) as [E5|E5].
  { eexists. split; [done|]. rewrite QueueSystemMessage_advance.
    apply implements_quiet; [done|]. by apply step_chat_long. }
  eexists. split; [done|]. rewrite chat_loop, env_read_advance, advance_advance.
  apply implements_quiet; [done|].
  apply step_chat; [done..| | | |].
  - unfold valid_content; lia.
  - apply GetRoomMembers_members_of; [apply members_walk_perm|done|].
    destruct (rs_wf_in_room _ Hwf _ _ Hs E) as (rm & -> & _). eauto.
  - by rewrite length_fmap, length_seq.
  - apply Forall_fmap, Forall_forall. intros i _. by apply wrap_range.
Qed.

(** The common tail of a successful join, from the point where the session is
    in no room or was never in one: [gl] has left the old room already. *)
Lemma join_tail k q r name s0 gl :
  rs_wf (room_system_ gl) →
  sessions_ (room_system_ gl) !! k = Some s0 →
  room_names (room_system_ gl) !! r = Some name →
  let rs' := MoveSessionToRoom k r (room_system_ gl) in
  let members := GetRoomMembers (members_walk (env_reads_ gl)) r None (room_system_ gl) in
  let gl1 := set_room_system rs' (env_read gl) in
  ∃ gl',
    (let gl2 := QueueJoinRoomResponse k q true ErrorCode.NONE (FindRoom r rs') gl1 in
     room ← FindRoom r rs';
     let gl3 := QueueSystemMessage k (rm_room_id room)
                  (rm_room_name room +:+ " 방에 입장했습니다.") gl2 in
     foldl (λ ogl other_session,
              gl ← ogl;
              if negb (ss_logged_in other_session) then Some gl
              else
                session ← FindSession k rs';
                Some (gl
                  |> QueueUserJoinedEvent (ss_session_id other_session)
                       (rm_room_id room) session
                  |> QueueUserJoinedEvent k (rm_room_id room) other_session))
       (Some gl3) members) = Some gl'
    ∧ gl' = set_room_system rs' (advance 1
              ([(k, msg_join q ErrorCode.NONE (Some (room_info (sessions_ rs') r name)));
                (k, msg_system r (name +:+ " 방에 입장했습니다."))]
               ++ joined_msgs (moved_to r s0) members) gl).
Proof.
  intros Hwf Hs Hname rs' members gl1.
  rewrite lookup_room_names in Hname.
  destruct (rooms_ (room_system_ gl) !! r) as [rm0|] eqn:Hr0; [|done].
  assert (rs_wf rs') as Hwf' by (by apply (rs_apply_wf (OpMove k r))).
  assert (sessions_ rs' !! k = Some (moved_to r s0)) as Hs'.
  { unfold rs'. rewrite sessions_move, lookup_alter_eq, Hs by eauto. done. }
  assert (room_names rs' = room_names (room_system_ gl)) as Hnames
    by (apply room_names_move; eauto).
  assert (∃ rm, rooms_ rs' !! r = Some rm ∧ rm_room_name rm = name) as (rm & Hrm & Hn).
  { pose proof (lookup_room_names rs' r) as Hl.
    rewrite Hnames, lookup_room_names, Hr0 in Hl. simpl in Hl, Hname.
    destruct (rooms_ rs' !! r) as [rm|]; [|done]. exists rm. split; [done|]. simpl in Hl.
    congruence. }
  destruct (rs_wf_room rs' Hwf' r rm Hrm) as [Hid _].
  destruct (rs_wf_session rs' Hwf' k _ Hs') as [Hsid _].
  unfold FindRoom, FindSession. rewrite Hrm, Hs'. cbn [mbind option_bind].
  eexists. split.
  - rewrite Hid, Hn.
    replace (QueueUserJoinedEvent k)
      with (QueueUserJoinedEvent (ss_session_id (moved_to r s0))) by (by rewrite Hsid).
    apply (joined_loop (moved_to r s0) members).
  - rewrite QueueJoinRoomResponse_ok, QueueSystemMessage_advance.
    rewrite (BuildRoomInfo_spec rs' r rm), Hn by done.
    unfold gl1. rewrite env_read_advance, !advance_set_room_system, !advance_advance.
    done.
Qed.

Lemma join_effects rs1 rs2 n1 n2 msgs1 msgs2 gl :
  set_room_system rs2 (advance n2 msgs2 (set_room_system rs1 (advance n1 msgs1 gl)))
  = set_room_system rs2 (advance (n2 + n1) (msgs1 ++ msgs2) gl).
Proof.
  unfold advance, set_room_system; simpl.
  by rewrite encode_all_app, app_assoc, Nat.add_assoc.
Qed.

(** The exit from the current room, if there is one. *)
Lemma join_leave_spec k s gl :
  rs_wf (room_system_ gl) → sessions_ (room_system_ gl) !! k = Some s →
  ∃ n msgs, notify_leave (sessions_ (room_system_ gl)) s msgs
    ∧ (if negb (ss_room_id s =? no_room_id)
       then set_room_system (RemoveSessionFromCurrentRoom k
                               (room_system_ (NotifyRoomLeave s gl))) (NotifyRoomLeave s gl)
       else gl)
      = set_room_system (RemoveSessionFromCurrentRoom k (room_system_ gl)) (advance n msgs gl).
Proof.
  intros Hwf Hs. destruct (rs_wf_session _ Hwf k s Hs) as [Hid _].
  destruct (NotifyRoomLeave_spec s gl) as (n & msgs & Hleave & Hn); [done|by rewrite Hid|].
  destruct (Z.eqb_spec (ss_room_id s) no_room_id) as [E0|E0]; simpl.
  - exists 0%nat, msgs. split; [done|]. inversion Hn; subst; [|done].
    rewrite advance_0. unfold RemoveSessionFromCurrentRoom, FindSession. rewrite Hs.
    destruct (Z.eqb_spec (ss_room_id s) no_room_id); [|done]. by rewrite set_room_system_same.
  - exists n, msgs. split; [done|]. by rewrite Hleave.
Qed.

(** The registry of a join, after the exit and after the entry. *)
Lemma join_registry k r s rs :
  rs_wf rs → sessions_ rs !! k = Some s → is_Some (room_names rs !! r) →
  let rs1 := RemoveSessionFromCurrentRoom k rs in
  let rs2 := MoveSessionToRoom k r rs1 in
  rs_wf rs1 ∧ sessions_ rs1 = <[k := moved_to no_room_id s]> (sessions_ rs)
  ∧ room_names rs1 = room_names rs ∧ is_Some (rooms_ rs1 !! r)
  ∧ rs_wf rs2 ∧ sessions_ rs2 = <[k := moved_to r s]> (sessions_ rs)
  ∧ room_names rs2 = room_names rs.
Proof.
  intros Hwf Hs Hname rs1 rs2. assert (rs_wf rs1) as Hwf1 by (by apply (rs_apply_wf (OpLeave k))).
  assert (sessions_ rs1 = <[k := moved_to no_room_id s]> (sessions_ rs)) as Hs1
    by (unfold rs1; by rewrite sessions_leave, (alter_insert_lookup _ _ _ s)).
  assert (room_names rs1 = room_names rs) as Hn1 by (by apply room_names_leave).
  assert (is_Some (rooms_ rs1 !! r)) as Hr1.
  { pose proof (lookup_room_names rs1 r) as Hl. rewrite Hn1 in Hl. destruct Hname as [n Hn].
    rewrite Hn in Hl. destruct (rooms_ rs1 !! r); [eauto|done]. }
  split_and!; [done|done|done|done|by apply (rs_apply_wf (OpMove k r))|..].
  - unfold rs2. rewrite sessions_move, Hs1 by done.
    rewrite (alter_insert_lookup _ _ _ (moved_to no_room_id s)) by apply lookup_insert_eq.
    by rewrite insert_insert_eq.
  - unfold rs2. rewrite room_names_move; [done|done|]. rewrite Hs1, lookup_insert_eq. eauto.
Qed.

Lemma join_spec k q r gl :
  rs_wf (room_system_ gl) →
  ∃ gl', HandleJoinRoomRequest k q r gl = Some gl'
         ∧ implements gl (JoinRoomRequestEvent k q r) gl'.
Proof.
  intros Hwf. unfold HandleJoinRoomRequest, find_session.
  unfold FindSession at 1. unfold FindRoom at 1.
  destruct (sessions_ (room_system_ gl) !! k) as [s|] eqn:Hs.
  2:{ eexists. split; [done|]. apply implements_nothing; [done|]. by constructor. }
  destruct (ss_logged_in s) eqn:Hl; cbn [negb].
  2:{ eexists. split; [done|]. rewrite QueueJoinRoomResponse_failed by done.
      apply implements_quiet; [done|]. by apply (step_join_not_logged_in _ _ _ _ _ s). }
  pose proof (lookup_room_names (room_system_ gl) r) as Hname.
  destruct (rooms_ (room_system_ gl) !! r) as [rm|] eqn:Hr; cbn [fmap option_fmap] in Hname.
  2:{ eexists. split; [done|]. rewrite QueueJoinRoomResponse_failed by done.
      apply implements_quiet; [done|]. by apply (step_join_no_room _ _ _ _ _ s). }
  destruct (Z.eqb_spec (ss_room_id s) r) as [E|E].
  { eexists. split; [done|]. rewrite QueueJoinRoomResponse_failed by done.
    apply implements_quiet; [done|]. apply (step_join_again _ _ _ _ _ s); eauto. }
  destruct (rs_wf_room _ Hwf r rm Hr) as [_ Hr0].
  destruct (join_leave_spec k s gl Hwf Hs) as (n & msgs & Hn & ->).
  destruct (join_registry k r s (room_system_ gl) Hwf Hs) as (Hwf1 & Hs1 & Hn1 & Hr1 & Hwf2 & Hs2 & Hn2);
    [eauto|]. set (rs1 := RemoveSessionFromCurrentRoom k (room_system_ gl)) in *.
  unfold get_room_members. cbn beta iota.
  edestruct (join_tail k q r (rm_room_name rm) (moved_to no_room_id s)
              (set_room_system rs1 (advance n msgs gl))) as (gl' & Heq & ->).
  { done. }
  { cbn [room_system_ set_room_system]. rewrite Hs1. apply lookup_insert_eq. }
  { cbn [room_system_ set_room_system]. by rewrite Hn1. }
  eexists. split; [exact Heq|]. rewrite join_effects. cbn [room_system_ set_room_system].
  apply implements_advance; [|done|done].
  rewrite Hs2. change (moved_to r (moved_to no_room_id s)) with (moved_to r s).
  apply (step_join _ _ _ _ _ s); [done..|].
  apply (members_of_ext (sessions_ rs1)).
  - intros k' s'. rewrite Hs1, lookup_insert. case_decide; [|done]. subst k'.
    rewrite Hs. split; [|naive_solver]. intros [[= <-] ?]. simpl in *. congruence.
  - apply GetRoomMembers_members_of; [apply members_walk_perm|done..].
Qed.
End Simulation.

Section Main.
Context `{FlatBuffers, EnvironmentSpec}.

Lemma handle_event_refines ev gl :
  rs_wf (room_system_ gl) → ∃ gl', handle_event gl ev = Some gl' ∧ implements gl ev gl'.
Proof.
  intros Hwf. destruct ev; simpl.
  - by apply connected_spec.
  - by apply disconnected_spec.
  - by apply invalid_spec.
  - by apply login_spec.
  - by apply room_list_spec.
  - by apply join_spec.
  - by apply chat_spec.
  - by apply leave_spec.
  - by apply disconnect_spec.
Qed.

(** A whole batch of events implements a run of the specification. *)
Lemma Update_run events gl :
  rs_wf (room_system_ gl) →
  ∃ gl' msgs ds, Update events gl = Some gl'
    ∧ chat_run (room_names (room_system_ gl)) (sessions_ (room_system_ gl)) events
        (sessions_ (room_system_ gl')) msgs ds
    ∧ outgoing_messages_ gl' = outgoing_messages_ gl ++ encode_all msgs
    ∧ pending_disconnects_ gl' = pending_disconnects_ gl ++ ds
    ∧ rs_wf (room_system_ gl')
    ∧ room_names (room_system_ gl') = room_names (room_system_ gl).
Proof.
  intros Hwf. induction events as [|ev events IH] using rev_ind.
  - exists gl, [], []. simpl. rewrite !app_nil_r. split_and!; try done. constructor.
  - destruct IH as (gl1 & msgs & ds & Hup & Hrun & Hout & Hpend & Hwf1 & Hn1).
    destruct (handle_event_refines ev gl1 Hwf1)
      as (gl2 & Hev & msgs2 & ds2 & Hstep & Hout2 & Hpend2 & Hwf2 & Hn2).
    exists gl2, (msgs ++ msgs2), (ds ++ ds2). split_and!; [..|done|congruence].
    + unfold Update in *. rewrite foldl_app, Hup. done.
    + rewrite Hn1 in Hstep. by eapply chat_run_snoc.
    + by rewrite Hout2, Hout, encode_all_app, app_assoc.
    + by rewrite Hpend2, Hpend, app_assoc.
Qed.

Lemma Update_run_fwd events gl gl' :
  rs_wf (room_system_ gl) → Update events gl = Some gl' →
  ∃ msgs ds,
    chat_run (room_names (room_system_ gl)) (sessions_ (room_system_ gl)) events
        (sessions_ (room_system_ gl')) msgs ds
    ∧ outgoing_messages_ gl' = outgoing_messages_ gl ++ encode_all msgs
    ∧ pending_disconnects_ gl' = pending_disconnects_ gl ++ ds
    ∧ rs_wf (room_system_ gl')
    ∧ room_names (room_system_ gl') = room_names (room_system_ gl).
Proof.
  intros Hwf Hup. destruct (Update_run events gl Hwf) as (gl2 & msgs & ds & Hup2 & Hrest).
  simplify_eq. eauto.
Qed.
End Main.

(** C2. The game logic refines the chat specification.  From every well-formed
    registry and for every batch of events, [Update] finishes without ever
    dereferencing a null pointer; the sessions, the outgoing messages (those
    that [QueueMessage] accepts, in order) and the pending disconnections it
    leaves are those of a run of the specification, whatever the clock shows
    and in whatever order the containers are walked; the registry stays
    well formed and the rooms stay the same. *)
Theorem Update_refines_spec `{FlatBuffers, EnvironmentSpec} (events : list ServerEvent)
    (gl : GameLogicSystem) (Hwf : rs_wf (room_system_ gl)) :
  ∃ gl' msgs ds, Update events gl = Some gl'
    ∧ chat_run (room_names (room_system_ gl)) (sessions_ (room_system_ gl)) events
        (sessions_ (room_system_ gl')) msgs ds
    ∧ outgoing_messages_ gl' = outgoing_messages_ gl ++ encode_all msgs
    ∧ pending_disconnects_ gl' = pending_disconnects_ gl ++ ds
    ∧ rs_wf (room_system_ gl')
    ∧ room_names (room_system_ gl') = room_names (room_system_ gl).
Proof. by apply Update_run. Qed.

Lemma room_system_init_wf : rs_wf room_system_init.
Proof. apply (rs_refines_wf _ ∅), room_system_init_refines. Qed.

(** Two users meet in the lobby. *)
Definition example_events : list ServerEvent :=
  [SessionConnectedEvent 1; SessionConnectedEvent 2;
   LoginRequestEvent 1 10 "Alice"; LoginRequestEvent 2 20 "Bob";
   JoinRoomRequestEvent 1 11 1001; JoinRoomRequestEvent 2 21 1001;
   ChatSendRequestEvent 2 22 "hello"].

Lemma Update_refines_spec_witness :
  rs_wf (room_system_ (game_logic_init room_system_init)) ∧
  ∃ gl', @Update plain_codec plain_environment example_events
           (game_logic_init room_system_init) = Some gl' ∧ rs_wf (room_system_ gl').
Proof.
  pose proof room_system_init_wf as Hwf. split; [exact Hwf|].
  destruct (@Update_refines_spec plain_codec plain_environment plain_environment_spec
              example_events (game_logic_init room_system_init) Hwf)
    as (gl' & msgs & ds & Hup & _ & _ & _ & Hwf' & _).
  exists gl'. split; assumption.
Defined.
