(* ===== verification/GameLogicBatching.v ===== *)
(** * Queues are only appended to

    No handler reads [outgoing_messages_] or [pending_disconnects_]: running the
    game logic with something already queued, or on events split over several
    ticks, queues the same messages and disconnections. *)

From S2P Require Import Prelude Schema HeapLibrary ServerTypes RoomSystem GameLogicSystem ChatSpec GameLogicRefinement.

(** [gl] with [out] and [ds] queued before. *)
Definition queued_before (out : list OutgoingMessage) (ds : list Z) (gl : GameLogicSystem)
    : GameLogicSystem :=
  mkGameLogicSystem (room_system_ gl) (out ++ outgoing_messages_ gl)
    (ds ++ pending_disconnects_ gl) (env_reads_ gl).

Section Loops.
Context {A B : Type}.

Lemma foldl_commute (g : A → A) (f : A → B → A) l a :
  (∀ a b, f (g a) b = g (f a b)) → foldl f (g a) l = g (foldl f a l).
Proof.
  intros Hf. revert a. induction l as [|b l IH]; intros a; simpl; [done|]. by rewrite Hf, IH.
Qed.
End Loops.

Section Frame.
Context `{FlatBuffers, Environment} (out : list OutgoingMessage) (ds : list Z).
Implicit Types (gl : GameLogicSystem).

Abbreviation A := (queued_before out ds).

Lemma QueueMessage_frame k b gl : QueueMessage k b (A gl) = A (QueueMessage k b gl).
Proof.
  unfold QueueMessage. destruct (_ || _); [done|]. unfold queued_before. simpl.
  by rewrite app_assoc.
Qed.

Lemma env_read_frame gl : env_read (A gl) = A (env_read gl).
Proof. done. Qed.

Lemma set_room_system_frame rs gl : set_room_system rs (A gl) = A (set_room_system rs gl).
Proof. done. Qed.

Lemma QueueUserLeftEvent_frame k r s gl :
  QueueUserLeftEvent k r s (A gl) = A (QueueUserLeftEvent k r s gl).
Proof. apply QueueMessage_frame. Qed.

Lemma QueueUserJoinedEvent_frame k r s gl :
  QueueUserJoinedEvent k r s (A gl) = A (QueueUserJoinedEvent k r s gl).
Proof. apply QueueMessage_frame. Qed.

Lemma QueueSystemMessage_frame k r text gl :
  QueueSystemMessage k r text (A gl) = A (QueueSystemMessage k r text gl).
Proof. apply QueueMessage_frame. Qed.

Lemma QueueJoinRoomResponse_frame k q ok code r gl :
  QueueJoinRoomResponse k q ok code r (A gl) = A (QueueJoinRoomResponse k q ok code r gl).
Proof. apply QueueMessage_frame. Qed.

Lemma QueueLoginResponse_frame k q ok code s gl :
  QueueLoginResponse k q ok code s (A gl) = A (QueueLoginResponse k q ok code s gl).
Proof. apply QueueMessage_frame. Qed.

Lemma QueueLeaveRoomResponse_frame k q ok code gl :
  QueueLeaveRoomResponse k q ok code (A gl) = A (QueueLeaveRoomResponse k q ok code gl).
Proof. apply QueueMessage_frame. Qed.

Lemma QueueDisconnectResponse_frame k q ok code gl :
  QueueDisconnectResponse k q ok code (A gl) = A (QueueDisconnectResponse k q ok code gl).
Proof. apply QueueMessage_frame. Qed.

Lemma QueueRoomListResponse_frame k q gl :
  QueueRoomListResponse k q (A gl) = A (QueueRoomListResponse k q gl).
Proof. unfold QueueRoomListResponse. rewrite env_read_frame. apply QueueMessage_frame. Qed.

Lemma QueueChatBroadcast_frame k r s content gl :
  QueueChatBroadcast k r s content (A gl) = A (QueueChatBroadcast k r s content gl).
Proof. unfold QueueChatBroadcast. rewrite env_read_frame. apply QueueMessage_frame. Qed.

Lemma NotifyRoomLeave_frame s gl : NotifyRoomLeave s (A gl) = A (NotifyRoomLeave s gl).
Proof.
  unfold NotifyRoomLeave. destruct (_ || _); [done|]. simpl. rewrite env_read_frame.
  apply foldl_commute. intros. apply QueueUserLeftEvent_frame.
Qed.

(** The reading functions do not see the queues. *)
Lemma room_system_frame gl : room_system_ (A gl) = room_system_ gl.
Proof. done. Qed.

Lemma find_session_frame k gl : find_session k (A gl) = find_session k gl.
Proof. done. Qed.

Lemma get_room_members_frame r ex gl :
  get_room_members r ex (A gl) = ((get_room_members r ex gl).1, A (get_room_members r ex gl).2).
Proof. done. Qed.

Lemma login_frame k q name gl :
  HandleLoginRequest k q name (A gl) = A <$> HandleLoginRequest k q name gl.
Proof.
  unfold HandleLoginRequest. rewrite find_session_frame, !room_system_frame.
  destruct (find_session k gl); [|done].
  destruct (zsize name =? 0); [by rewrite QueueLoginResponse_frame|].
  destruct (max_display_name_bytes <? zsize name); [by rewrite QueueLoginResponse_frame|].
  destruct (IsDisplayNameTaken _ _ _); [by rewrite QueueLoginResponse_frame|].
  cbv zeta. rewrite set_room_system_frame, find_session_frame, QueueLoginResponse_frame.
  by destruct (find_session _ _).
Qed.

(** The loop that introduces a newcomer to the members of its room. *)
Lemma joined_loop_frame k (session : option SessionState) r l ogl :
  let f := λ ogl other_session,
    gl ← ogl;
    if negb (ss_logged_in other_session) then Some gl
    else session ← session;
         Some (QueueUserJoinedEvent k r other_session
                 (QueueUserJoinedEvent (ss_session_id other_session) r session gl)) in
  foldl f (A <$> ogl) l = A <$> foldl f ogl l.
Proof.
  intros f. apply (foldl_commute (fmap A)). intros [gl|] m; [|done]. unfold f. simpl.
  destruct (negb _); [done|]. destruct session; [|done]. simpl.
  by rewrite !QueueUserJoinedEvent_frame.
Qed.

Lemma join_frame k q r gl :
  HandleJoinRoomRequest k q r (A gl) = A <$> HandleJoinRoomRequest k q r gl.
Proof.
  unfold HandleJoinRoomRequest. rewrite find_session_frame, !room_system_frame.
  destruct (find_session k gl) as [s|]; [|done].
  destruct (negb (ss_logged_in s)); [by rewrite QueueJoinRoomResponse_frame|].
  destruct (FindRoom r (room_system_ gl)); [|by rewrite QueueJoinRoomResponse_frame].
  destruct (ss_room_id s =? r); [by rewrite QueueJoinRoomResponse_frame|].
  set (leave := λ g : GameLogicSystem, if negb (ss_room_id s =? no_room_id) then
    set_room_system (RemoveSessionFromCurrentRoom k (room_system_ (NotifyRoomLeave s g)))
      (NotifyRoomLeave s g) else g).
  assert (leave (A gl) = A (leave gl)) as Hleave
    by (unfold leave; rewrite NotifyRoomLeave_frame; by destruct (negb _)).
  change (if negb (ss_room_id s =? no_room_id) then _ else A gl) with (leave (A gl)).
  change (if negb (ss_room_id s =? no_room_id) then _ else gl) with (leave gl).
  rewrite Hleave, get_room_members_frame. cbv zeta.
  destruct (get_room_members r None (leave gl)) as [members gl1]. cbn [fst snd].
  rewrite room_system_frame, set_room_system_frame, find_session_frame, room_system_frame,
    QueueJoinRoomResponse_frame.
  destruct (FindRoom r _) as [room|]; [|done]. cbn [mbind option_bind].
  rewrite QueueSystemMessage_frame.
  apply (joined_loop_frame k _ (rm_room_id room) members (Some _)).
Qed.

Lemma handle_event_frame ev gl : handle_event (A gl) ev = A <$> handle_event gl ev.
Proof.
  destruct ev as [k|k|k text|k q name|k q|k q r|k q content|k q|k q]; simpl.
  - done.
  - unfold HandleSessionDisconnected. rewrite find_session_frame.
    destruct (find_session k gl); [|done]. by rewrite NotifyRoomLeave_frame.
  - unfold HandleInvalidPacket. by rewrite QueueSystemMessage_frame.
  - apply login_frame.
  - unfold HandleRoomListRequest. by rewrite QueueRoomListResponse_frame.
  - apply join_frame.
  - unfold HandleChatSendRequest. rewrite find_session_frame.
    destruct (find_session k gl) as [s|]; [|done]. destruct (negb _); [done|].
    destruct (_ =? no_room_id); [by rewrite QueueSystemMessage_frame|].
    destruct (_ =? 0); [by rewrite QueueSystemMessage_frame|].
    destruct (_ <? _); [by rewrite QueueSystemMessage_frame|].
    rewrite get_room_members_frame. destruct (get_room_members _ None gl). simpl. f_equal.
    apply foldl_commute. intros. apply QueueChatBroadcast_frame.
  - unfold HandleLeaveRoomRequest. rewrite find_session_frame.
    destruct (find_session k gl) as [s|]; [|done]. destruct (_ =? no_room_id).
    { by rewrite QueueLeaveRoomResponse_frame. }
    rewrite NotifyRoomLeave_frame, room_system_frame, set_room_system_frame,
      QueueLeaveRoomResponse_frame, QueueSystemMessage_frame. done.
  - unfold HandleDisconnectRequest. rewrite QueueDisconnectResponse_frame, find_session_frame.
    destruct (find_session k _); rewrite ?NotifyRoomLeave_frame; unfold queued_before; simpl;
      by rewrite app_assoc.
Qed.

Lemma Update_frame events gl : Update events (A gl) = A <$> Update events gl.
Proof.
  unfold Update. change (Some (A gl)) with (A <$> Some gl). apply foldl_commute.
  intros [g|] ev; [|done]. simpl. apply handle_event_frame.
Qed.
End Frame.

Section Batching.
Context `{FlatBuffers, Environment}.

Lemma Update_app evs1 evs2 gl :
  Update (evs1 ++ evs2) gl = gl1 ← Update evs1 gl; Update evs2 gl1.
Proof.
  unfold Update. rewrite foldl_app.
  destruct (foldl _ (Some gl) evs1) as [gl1|]; [done|]. apply foldl_option_None.
Qed.

(** Taking both queues. *)
Definition flushed (gl : GameLogicSystem) : GameLogicSystem :=
  (TakePendingDisconnects (TakeOutgoingMessages gl).2).2.

Lemma flushed_before gl :
  queued_before (outgoing_messages_ gl) (pending_disconnects_ gl) (flushed gl) = gl.
Proof. destruct gl. unfold queued_before, flushed. simpl. by rewrite !app_nil_r. Qed.
End Batching.

(** C22. Ticks do not matter.  Handling two batches of events in two ticks, the
    queues being taken in between, sends the same messages, byte for byte and
    in the same order, and makes the same disconnections as handling all the
    events in one tick, and ends in the same registry. *)
Theorem tick_batching `{FlatBuffers, Environment} (events1 events2 : list ServerEvent)
    (gl gl1 gl2 : GameLogicSystem) (H1 : Update events1 gl = Some gl1)
    (H2 : Update events2 (flushed gl1) = Some gl2) :
  ∃ gl12, Update (events1 ++ events2) gl = Some gl12
    ∧ room_system_ gl12 = room_system_ gl2
    ∧ (TakeOutgoingMessages gl12).1
      = (TakeOutgoingMessages gl1).1 ++ (TakeOutgoingMessages gl2).1
    ∧ (TakePendingDisconnects gl12).1
      = (TakePendingDisconnects gl1).1 ++ (TakePendingDisconnects gl2).1.
Proof.
  exists (queued_before (outgoing_messages_ gl1) (pending_disconnects_ gl1) gl2).
  split; [|done]. rewrite Update_app, H1. cbn [mbind option_bind].
  by rewrite <-(flushed_before gl1) at 1; rewrite Update_frame, H2.
Qed.

Lemma tick_batching_witness :
  ∃ gl1 gl2 gl12,
    @Update plain_codec plain_environment example_events (game_logic_init room_system_init)
      = Some gl1
    ∧ @Update plain_codec plain_environment [LeaveRoomRequestEvent 1 40] (flushed gl1) = Some gl2
    ∧ @Update plain_codec plain_environment (example_events ++ [LeaveRoomRequestEvent 1 40])
        (game_logic_init room_system_init) = Some gl12
    ∧ outgoing_messages_ gl12 = outgoing_messages_ gl1 ++ outgoing_messages_ gl2.
Proof.
  destruct (@Update plain_codec plain_environment example_events
              (game_logic_init room_system_init)) as [gl1|] eqn:H1; [|by vm_compute in H1].
  destruct (@Update plain_codec plain_environment [LeaveRoomRequestEvent 1 40] (flushed gl1))
    as [gl2|] eqn:H2; [|by vm_compute in H1; simplify_eq; vm_compute in H2].
  destruct (@tick_batching plain_codec plain_environment example_events
              [LeaveRoomRequestEvent 1 40] (game_logic_init room_system_init) gl1 gl2 H1 H2)
    as (gl12 & H12 & _ & Ho & _).
  exists gl1, gl2, gl12. auto.
Defined.
