(* ===== verification/GameLogicProperties.v ===== *)
(** * What the server guarantees

    Theorems about [GameLogicSystem::Update] and its handlers in every state the
    server can reach, proved through the refinement of [GameLogicRefinement] and
    the facts about the specification in [ChatInvariant], [ChatViews] and
    [ChatFacts].  Messages are stated as what a client decodes from the queued
    bytes. *)

From S2P Require Import Prelude Protocol Schema HeapLibrary ServerTypes RoomSystem GameLogicSystem ChatSpec ChatInvariant ChatViews ChatFacts GameLogicRefinement.

Definition initial_names : RoomNames := room_names room_system_init.

Lemma initial_names_small : small_rooms initial_names.
Proof.
  split; [by vm_compute; lia|]. intros r name Hr.
  change initial_names with
    (<[1001 := "Lobby"]> (<[1002 := "Dev"]> (<[1003 := "Chat"]> ∅)) : RoomNames) in Hr.
  rewrite !lookup_insert, lookup_empty in Hr.
  repeat case_decide; simplify_eq; by split.
Qed.

Lemma initial_names_none : initial_names !! no_room_id = None.
Proof. done. Qed.

(** ** Reachable states *)

Section Reachable.
Context `{FlatBuffers, Environment}.

(** The game thread processes batches of well-formed events and hands its
    queues to the network in between. *)
Inductive gl_step (gl : GameLogicSystem) : GameLogicSystem → Prop :=
  | gl_step_update events gl' :
      Forall event_wf events → Update events gl = Some gl' → gl_step gl gl'
  | gl_step_outgoing : gl_step gl (TakeOutgoingMessages gl).2
  | gl_step_disconnects : gl_step gl (TakePendingDisconnects gl).2.

Definition gl_reachable (gl : GameLogicSystem) : Prop :=
  rtc gl_step (game_logic_init room_system_init) gl.

Record gl_ok (gl : GameLogicSystem) : Prop := {
  go_registry : rs_wf (room_system_ gl);
  go_chat : chat_wf initial_names (sessions_ (room_system_ gl));
  go_keys : keys_u32 (sessions_ (room_system_ gl));
  go_names : room_names (room_system_ gl) = initial_names;
}.

Lemma gl_ok_init : gl_ok (game_logic_init room_system_init).
Proof.
  split; [apply room_system_init_wf|apply chat_wf_empty| |done].
  intros k [s Hs]. simpl in Hs. by rewrite lookup_empty in Hs.
Qed.

Context `{!EnvironmentSpec}.

Lemma Update_ok events gl gl' :
  gl_ok gl → Forall event_wf events → Update events gl = Some gl' →
  ∃ msgs ds,
    chat_run initial_names (sessions_ (room_system_ gl)) events
      (sessions_ (room_system_ gl')) msgs ds
    ∧ outgoing_messages_ gl' = outgoing_messages_ gl ++ encode_all msgs
    ∧ pending_disconnects_ gl' = pending_disconnects_ gl ++ ds
    ∧ Forall (fits ∘ snd) msgs ∧ gl_ok gl'.
Proof.
  intros [Hwf Hc Hk Hn] Hev Hup.
  destruct (Update_run_fwd events gl gl' Hwf Hup) as (msgs & ds & Hrun & Ho & Hp & Hwf' & Hn').
  rewrite Hn in Hrun, Hn'.
  destruct (chat_run_fits initial_names initial_names_small _ _ _ _ _ Hc Hk Hev Hrun)
    as (Hf & Hc' & Hk').
  exists msgs, ds. by split_and!.
Qed.

Lemma Update_total events gl : gl_ok gl → ∃ gl', Update events gl = Some gl'.
Proof. intros [Hwf _ _ _]. destruct (Update_run events gl Hwf) as (gl' & ? & ? & ? & _). eauto. Qed.

Lemma gl_reachable_ok gl : gl_reachable gl → gl_ok gl.
Proof.
  apply (rtc_ind_r gl_ok); [apply gl_ok_init|]. intros gl1 gl2 _ Hstep Hok.
  destruct Hstep as [events gl' Hev Hup| |].
  - by destruct (Update_ok events gl1 gl' Hok Hev Hup) as (? & ? & _ & _ & _ & _ & ?).
  - destruct Hok. by split.
  - destruct Hok. by split.
Qed.
End Reachable.

(** ** Messages as the client decodes them *)

Section Decoding.
Context `{FlatBuffersSpec, EnvironmentSpec}.

(** A message that is queued and read back unchanged. *)
Definition carries (om : OutgoingMessage) (km : Z * Message) : Prop :=
  om_session_id om = km.1 ∧ VerifiedMessage (om_payload om) = Some km.2
  ∧ 0 < zlen (om_payload om) ≤ max_protocol_payload_bytes.

Lemma encode_fits km :
  fits km.2 → ∃ om, encode km = Some om ∧ carries om km.
Proof.
  intros [Hm Hb]. pose proof (fb_build_size km.2 Hm) as Hs.
  unfold encode, max_protocol_payload_bytes.
  destruct (Z.eqb_spec (zlen (fb_build km.2)) 0); [lia|].
  destruct (Z.ltb_spec 2048 (zlen (fb_build km.2))); [lia|].
  eexists. split; [done|]. split_and!; simpl; [done|by apply VerifiedMessage_build|lia|].
  unfold max_protocol_payload_bytes. lia.
Qed.

Lemma encode_all_fits msgs :
  Forall (fits ∘ snd) msgs → Forall2 carries (encode_all msgs) msgs.
Proof.
  induction 1 as [|km msgs Hkm _ IH]; [constructor|]. unfold encode_all in *. simpl.
  destruct (encode_fits km Hkm) as (om & -> & Hom). by constructor.
Qed.

(** What session [k] decodes from a list of outgoing messages. *)
Definition inbox (k : Z) (out : list OutgoingMessage) : list Message :=
  omap (λ om, if decide (om_session_id om = k) then VerifiedMessage (om_payload om) else None)
    out.

Lemma inbox_carries k out msgs : Forall2 carries out msgs → inbox k out = sent_to k msgs.
Proof.
  unfold inbox, sent_to. induction 1 as [|om km out msgs (Hk & Hm & _) _ IH]; [done|].
  csimpl. rewrite Hk. case_decide; [by rewrite Hm, IH|done].
Qed.

(** One event in a good state. *)
Lemma handle_event_ok ev gl :
  gl_ok gl → event_wf ev →
  ∃ gl' msgs ds out, handle_event gl ev = Some gl'
    ∧ chat_step initial_names (sessions_ (room_system_ gl)) ev
        (sessions_ (room_system_ gl')) msgs ds
    ∧ outgoing_messages_ gl' = outgoing_messages_ gl ++ out
    ∧ Forall2 carries out msgs
    ∧ pending_disconnects_ gl' = pending_disconnects_ gl ++ ds
    ∧ gl_ok gl'.
Proof.
  intros Hok Hev. destruct Hok as [Hwf Hc Hk Hn].
  destruct (handle_event_refines ev gl Hwf)
    as (gl' & Heq & msgs & ds & Hstep & Ho & Hp & Hwf' & Hn').
  rewrite Hn in Hstep, Hn'. exists gl', msgs, ds, (encode_all msgs). split_and!; try done.
  - apply encode_all_fits.
    by apply (chat_step_fits initial_names initial_names_small _ _ _ _ _ Hc Hk Hev Hstep).
  - split; [done|by eapply chat_step_wf| |done].
    by eapply chat_step_keys; [apply Hev|..].
Qed.
End Decoding.

(** ** Auxiliary facts *)

Lemma registry_ext rs1 rs2 :
  rs_wf rs1 → rs_wf rs2 → sessions_ rs1 = sessions_ rs2 → room_names rs1 = room_names rs2 →
  rs1 = rs2.
Proof.
  intros H1 H2 Hs Hn. destruct rs1 as [s1 r1], rs2 as [s2 r2]. simpl in Hs. subst s2.
  f_equal. apply map_eq; intros r.
  pose proof (lookup_room_names (mkRoomSystem s1 r1) r) as E1.
  pose proof (lookup_room_names (mkRoomSystem s1 r2) r) as E2.
  rewrite Hn, E2 in E1. simpl in E1.
  destruct (r1 !! r) as [m1|] eqn:L1, (r2 !! r) as [m2|] eqn:L2; try done.
  pose proof (members_in_room (mkRoomSystem s1 r1) r m1 H1 L1) as M1.
  pose proof (members_in_room (mkRoomSystem s1 r2) r m2 H2 L2) as M2.
  destruct (rs_wf_room _ H1 r m1 L1) as [I1 _]. destruct (rs_wf_room _ H2 r m2 L2) as [I2 _].
  destruct m1, m2; simpl in *. f_equal. congruence.
Qed.

Lemma quiet_registry `{FlatBuffers} gl gl' :
  gl_ok gl → gl_ok gl' → sessions_ (room_system_ gl') = sessions_ (room_system_ gl) →
  room_system_ gl' = room_system_ gl.
Proof.
  intros [Hwf _ _ Hn] [Hwf' _ _ Hn'] Hs. apply registry_ext; [done..|congruence].
Qed.

Lemma lookup_initial_room gl r rm :
  gl_ok gl → rooms_ (room_system_ gl) !! r = Some rm →
  initial_names !! r = Some (rm_room_name rm).
Proof. intros Hok Hr. by rewrite <-(go_names gl Hok), lookup_room_names, Hr. Qed.

Lemma carries_ids `{FlatBuffers} out msgs :
  Forall2 carries out msgs → om_session_id <$> out = msgs.*1.
Proof. induction 1 as [|om km ? ? [Hk _] _ IH]; [done|]. csimpl. by rewrite Hk, IH. Qed.

Lemma carries_messages `{FlatBuffers} out msgs (P : Z * Message → Prop) :
  Forall2 carries out msgs → Forall P msgs →
  Forall (λ om, ∃ m, VerifiedMessage (om_payload om) = Some m ∧ P (om_session_id om, m)) out.
Proof.
  induction 1 as [|om [k m] ? ? (Hk & Hm & _) _ IH]; [constructor|].
  rewrite Forall_cons. intros [HP HPs]. constructor; [|by apply IH].
  exists m. by rewrite Hk.
Qed.

Lemma members_of_elements c r l :
  (∀ k s, c !! k = Some s → ss_session_id s = k) → members_of c r None l →
  ss_session_id <$> l ≡ₚ elements (in_room c r).
Proof.
  intros Hid [Hnd Hl]. apply NoDup_Permutation; [done|apply NoDup_elements|]. intros k.
  rewrite elem_of_elements, elem_of_in_room, list_elem_of_fmap. split.
  - intros (m & -> & Hm). apply Hl in Hm as (? & ? & _). eauto.
  - intros (m & Hm & Hr). exists m. pose proof (Hid k m Hm) as E. split; [done|].
    apply Hl. by rewrite E.
Qed.

(** Two sessions are in one room. *)
Definition share_room (gl : GameLogicSystem) (k k' : Z) : Prop :=
  map_Exists (λ _ rm, k ∈ rm_members rm ∧ k' ∈ rm_members rm) (rooms_ (room_system_ gl)).

#[export] Instance share_room_dec gl k k' : Decision (share_room gl k k').
Proof. unfold share_room. apply _. Defined.

Section ShareRoom.
Context `{FlatBuffers}.
Implicit Types (gl : GameLogicSystem) (k : Z).

Lemma share_room_spec gl k k' s :
  gl_ok gl → sessions_ (room_system_ gl) !! k = Some s →
  share_room gl k k'
  ↔ ss_room_id s ≠ no_room_id
    ∧ ∃ s', sessions_ (room_system_ gl) !! k' = Some s' ∧ ss_room_id s' = ss_room_id s.
Proof.
  intros [Hwf _ _ _] Hs. unfold share_room, map_Exists. split.
  - intros (r & rm & Hrm & Hk & Hk').
    destruct (rs_wf_member _ Hwf r rm k Hrm Hk) as (s1 & ? & Hr).
    destruct (rs_wf_member _ Hwf r rm k' Hrm Hk') as (s2 & ? & ?).
    destruct (rs_wf_room _ Hwf r rm Hrm). simplify_eq. eauto 10.
  - intros (Hr & s' & Hs' & Hr').
    destruct (rs_wf_in_room _ Hwf k s Hs Hr) as (rm & Hrm & ?).
    destruct (rs_wf_in_room _ Hwf k' s' Hs') as (rm' & Hrm' & ?); [congruence|].
    exists (ss_room_id s), rm. split_and!; [done..|]. congruence.
Qed.

Lemma roommates_share gl k k' :
  gl_ok gl → k' ∈ roommates (sessions_ (room_system_ gl)) k → share_room gl k k'.
Proof.
  intros Hok. unfold roommates. destruct (_ !! k) as [s|] eqn:Hs; [|set_solver].
  case_decide as Hr; [set_solver|]. rewrite elem_of_in_room.
  intros Hk'. by apply (share_room_spec gl k k' s).
Qed.

(** What a session other than [k] is sent when [k] leaves its room. *)
Lemma left_inbox gl k s leave k' :
  gl_ok gl → sessions_ (room_system_ gl) !! k = Some s →
  notify_leave (sessions_ (room_system_ gl)) s leave → k' ≠ k →
  sent_to k' leave
  = if bool_decide (share_room gl k k')
    then [mkMessage 0 (PUserLeftEvent (Some (mkUserLeftEvent (ss_room_id s)
            (Some (mkUserInfo k (Some (c_str (ss_display_name s))))))))]
    else [].
Proof.
  intros Hok Hs Hleave Hne. pose proof (share_room_spec gl k k' s Hok Hs) as Hshare.
  destruct Hok as [_ Hc _ _].
  pose proof (cw_session _ _ Hc k s Hs) as [Hi Hu _ Ha _].
  destruct Hleave as [Hno|l Hr Hl Hm].
  - rewrite bool_decide_eq_false_2; [done|]. rewrite Hshare. intros [Hr _].
    destruct Hno as [?|Hl]; [done|]. by destruct (Ha Hl).
  - unfold left_msgs, msg_left, user_info. rewrite Hu.
    destruct (sessions_ (room_system_ gl) !! k') as [s'|] eqn:Hs'.
    + erewrite (sent_to_member _ _ _ _ l k' s'); [|done| |done].
      2:{ intros s2 Hs2. by apply (cw_session _ _ Hc). }
      rewrite Hi. case_decide as Hd; case_bool_decide as Hb; try done; exfalso.
      * apply Hb, Hshare. naive_solver.
      * apply Hd. apply Hshare in Hb as (_ & s2 & ? & ?). split; congruence.
    + rewrite bool_decide_eq_false_2.
      * by eapply sent_to_stranger; [done|left].
      * rewrite Hshare. naive_solver.
Qed.
End ShareRoom.

(** ** Properties *)

(** C27. Session invariant.  In every reachable state each session is stored under
    its own id; a session in a room is logged in and listed by that existing
    room; a logged-in name has 1 to 32 bytes and belongs to no other logged-in
    session. *)
Theorem reachable_sessions `{FlatBuffers, EnvironmentSpec} (gl : GameLogicSystem)
    (k : Z) (s : SessionState) (Hgl : gl_reachable gl)
    (Hs : sessions_ (room_system_ gl) !! k = Some s) :
  ss_session_id s = k ∧ ss_user_id s = k ∧ is_u32 k
  ∧ (ss_room_id s ≠ no_room_id → ss_logged_in s = true
     ∧ ∃ rm, rooms_ (room_system_ gl) !! ss_room_id s = Some rm ∧ k ∈ rm_members rm)
  ∧ (ss_logged_in s = true → 1 ≤ zsize (ss_display_name s) ≤ max_display_name_bytes
     ∧ ∀ k' s', sessions_ (room_system_ gl) !! k' = Some s' → ss_logged_in s' = true →
         ss_display_name s' = ss_display_name s → k' = k).
Proof.
  pose proof (gl_reachable_ok gl Hgl) as [Hwf Hc Hk Hn].
  pose proof (cw_session _ _ Hc k s Hs) as [Hi Hu Hv Ha Hr].
  split_and!; [done|done|by apply Hk; eauto|..].
  - intros Hne. split; [|by apply (rs_wf_in_room _ Hwf)].
    by apply (in_room_logged_in initial_names _ k s (ss_room_id s) Hc).
  - intros Hl. destruct (Hv Hl) as [Hlo Hhi]. unfold max_display_name_bytes. split; [lia|].
    intros k' s' Hs' Hl' Heq. destruct (decide (k' = k)) as [|Hne]; [done|].
    destruct (cw_name _ _ Hc k s Hs Hl). exists k', s'. done.
Qed.

(** C8. Every client can know exactly who is with it.  After any batch of
    events from the initial state, a client that is in a room and folds the
    join, leave, joined and left messages it was sent (decoded from their
    bytes, in order) holds its current room and exactly the other members of
    that room. *)
Theorem client_views_exact `{FlatBuffersSpec, EnvironmentSpec} (events : list ServerEvent)
    (Hev : Forall event_wf events) :
  ∃ gl, Update events (game_logic_init room_system_init) = Some gl ∧
    ∀ k s rm, sessions_ (room_system_ gl) !! k = Some s →
      rooms_ (room_system_ gl) !! ss_room_id s = Some rm →
      view_of (inbox k (outgoing_messages_ gl))
      = mkView (ss_room_id s) (rm_members rm ∖ {[k]}).
Proof.
  destruct (Update_total events (game_logic_init room_system_init) gl_ok_init) as [gl Hup].
  exists gl. split; [done|]. intros k s rm Hs Hrm.
  destruct (Update_ok events _ gl gl_ok_init Hev Hup) as (msgs & ds & Hrun & Ho & _ & Hf & Hok).
  pose proof (go_registry gl Hok) as Hwf.
  destruct (rs_wf_room _ Hwf _ _ Hrm) as [_ Hr0].
  rewrite Ho. simpl. rewrite (inbox_carries k _ msgs) by (by apply encode_all_fits).
  rewrite (members_in_room _ _ _ Hwf Hrm).
  apply (chat_run_views initial_names initial_names_none ∅ events _ msgs ds []);
    [apply chat_wf_empty|done|done|done|done].
Qed.

(** The statement of [chat_delivery], shared with the end-to-end properties. *)
Lemma chat_handled `{FlatBuffersSpec, EnvironmentSpec} (gl : GameLogicSystem)
    (k q : Z) (content : string) (s : SessionState) (Hgl : gl_reachable gl)
    (Hs : sessions_ (room_system_ gl) !! k = Some s) (Hq : is_u32 q)
    (Hroom : ss_room_id s ≠ no_room_id)
    (Hcontent : 1 ≤ zsize content ≤ max_chat_message_bytes) :
  ∃ gl' out rm, handle_event gl (ChatSendRequestEvent k q content) = Some gl'
    ∧ outgoing_messages_ gl' = outgoing_messages_ gl ++ out
    ∧ room_system_ gl' = room_system_ gl
    ∧ rooms_ (room_system_ gl) !! ss_room_id s = Some rm ∧ k ∈ rm_members rm
    ∧ om_session_id <$> out ≡ₚ elements (rm_members rm)
    ∧ Forall (λ om, ∃ t, is_u64 t ∧ VerifiedMessage (om_payload om)
         = Some (mkMessage 0 (PChatBroadcast (Some (mkChatBroadcast (ss_room_id s) k
             (Some (c_str (ss_display_name s))) (Some (c_str content)) t))))) out.
Proof.
  pose proof (gl_reachable_ok gl Hgl) as Hok. pose proof Hok as [Hwf Hc Hk Hn].
  destruct (handle_event_ok (ChatSendRequestEvent k q content) gl Hok)
    as (gl' & msgs & ds & out & Heq & Hstep & Ho & Hcar & _ & Hok').
  { split_and!; [by apply Hk; eauto|done|done]. }
  destruct (rs_wf_in_room _ Hwf k s Hs Hroom) as (rm & Hrm & Hkrm).
  pose proof (in_room_logged_in initial_names _ k s (ss_room_id s) Hc Hs eq_refl Hroom) as Hl.
  destruct (chat_accepted_inv _ _ _ _ _ _ _ _ s Hstep Hs Hl Hroom)
    as (Hc' & _ & l & ts & Hm & Hlen & Hts & ->).
  { unfold max_chat_message_bytes in *. unfold valid_content. lia. }
  exists gl', out, rm. split_and!; try done.
  - by apply quiet_registry.
  - rewrite (carries_ids _ _ Hcar), (members_in_room _ _ _ Hwf Hrm).
    rewrite <-(members_of_elements _ _ l); [|intros; by apply (cw_session _ _ Hc)|done].
    unfold chat_msgs. clear -Hlen. revert ts Hlen.
    induction l as [|m l IH]; intros [|t ts] Hlen; try done. csimpl.
    f_equiv. apply IH. simpl in Hlen. lia.
  - assert (Forall (λ km, ∃ t, is_u64 t ∧ km.2 = msg_chat s content t)
              (chat_msgs s content l ts)) as Hall.
    { apply Forall_zip_with. intros m t _ Ht. exists t. split; [|done].
      by eapply Forall_forall in Hts. }
    eapply Forall_impl; [by apply (carries_messages out _ _ Hcar Hall)|].
    intros om (m & Hv & t & Ht & E). simpl in E. subst m. exists t. split; [done|].
    destruct (cw_session _ _ Hc k s Hs) as [_ Hu _ _ _]. rewrite Hv. unfold msg_chat. by rewrite Hu.
Qed.

(** C24. Chat delivery.  An accepted chat message changes nothing in the registry
    and is sent exactly once to each member of the sender's room, the sender
    included, and to nobody else; every copy decodes to the sender's id, name
    and room and the text (both up to the first NUL byte). *)
Theorem chat_delivery `{FlatBuffersSpec, EnvironmentSpec} (gl : GameLogicSystem)
    (k q : Z) (content : string) (s : SessionState) (Hgl : gl_reachable gl)
    (Hs : sessions_ (room_system_ gl) !! k = Some s) (Hq : is_u32 q)
    (Hroom : ss_room_id s ≠ no_room_id)
    (Hcontent : 1 ≤ zsize content ≤ max_chat_message_bytes) :
  ∃ gl' out rm, handle_event gl (ChatSendRequestEvent k q content) = Some gl'
    ∧ outgoing_messages_ gl' = outgoing_messages_ gl ++ out
    ∧ room_system_ gl' = room_system_ gl
    ∧ rooms_ (room_system_ gl) !! ss_room_id s = Some rm ∧ k ∈ rm_members rm
    ∧ om_session_id <$> out ≡ₚ elements (rm_members rm)
    ∧ Forall (λ om, ∃ t, is_u64 t ∧ VerifiedMessage (om_payload om)
         = Some (mkMessage 0 (PChatBroadcast (Some (mkChatBroadcast (ss_room_id s) k
             (Some (c_str (ss_display_name s))) (Some (c_str content)) t))))) out.
Proof. by eapply chat_handled. Qed.

(** C25. One answer per request.  A login, room list, join, leave or disconnect
    request of a connected session makes the server send that session exactly
    one message of the matching response type with the request's id; every
    other message the event causes is an unsolicited one with request id 0. *)
Theorem request_answered `{FlatBuffersSpec, EnvironmentSpec} (gl : GameLogicSystem)
    (ev : ServerEvent) (t : Z) (Hgl : gl_reachable gl) (Hev : event_wf ev)
    (Ht : answer_type ev = Some t)
    (Hs : is_Some (sessions_ (room_system_ gl) !! event_session ev)) :
  ∃ gl' out1 om out2, handle_event gl ev = Some gl'
    ∧ outgoing_messages_ gl' = outgoing_messages_ gl ++ out1 ++ om :: out2
    ∧ om_session_id om = event_session ev
    ∧ (∃ m, VerifiedMessage (om_payload om) = Some m ∧ payload_type m = t
            ∧ request_id m = event_request ev)
    ∧ Forall (λ om', ∃ m, VerifiedMessage (om_payload om') = Some m ∧ unsolicited m)
        (out1 ++ out2).
Proof.
  destruct (handle_event_ok ev gl (gl_reachable_ok gl Hgl) Hev)
    as (gl' & msgs & ds & out & Heq & Hstep & Ho & Hcar & _).
  destruct (chat_step_answer _ _ _ _ _ _ Hstep ltac:(eauto) Hs)
    as (l1 & km & l2 & -> & (Hk & Hq & Hty) & Hun).
  apply Forall2_app_inv_r in Hcar as (out1 & out' & Hc1 & Hcar & ->).
  apply Forall2_cons_inv_r in Hcar as (om & out2 & (Hkm & Hm & _) & Hc2 & ->).
  exists gl', out1, om, out2. split_and!; [done|done|congruence| |].
  - exists km.2. split_and!; [done|congruence|done].
  - apply (carries_messages (out1 ++ out2) (l1 ++ l2) (unsolicited ∘ snd)); [|done].
    by apply Forall2_app.
Qed.

(** C35. Isolation.  An event changes the stored state of no session but its
    own, and causes messages only to that session and to sessions that share a
    room with it before or after the event. *)
Theorem event_isolation `{FlatBuffersSpec, EnvironmentSpec} (gl : GameLogicSystem)
    (ev : ServerEvent) (Hgl : gl_reachable gl) (Hev : event_wf ev) :
  ∃ gl' out, handle_event gl ev = Some gl'
    ∧ outgoing_messages_ gl' = outgoing_messages_ gl ++ out
    ∧ (∀ k, k ≠ event_session ev →
         sessions_ (room_system_ gl') !! k = sessions_ (room_system_ gl) !! k)
    ∧ Forall (λ om, om_session_id om = event_session ev
                    ∨ share_room gl (event_session ev) (om_session_id om)
                    ∨ share_room gl' (event_session ev) (om_session_id om)) out.
Proof.
  pose proof (gl_reachable_ok gl Hgl) as Hok.
  destruct (handle_event_ok ev gl Hok Hev)
    as (gl' & msgs & ds & out & Heq & Hstep & Ho & Hcar & _ & Hok').
  exists gl', out. split_and!; [done|done| |].
  - intros k Hk. by apply (chat_step_frame _ _ _ _ _ _ k Hstep).
  - pose proof (chat_step_recipients _ _ _ _ _ _ (go_chat gl Hok) initial_names_none Hstep)
      as Hto.
    eapply Forall_impl; [by apply (carries_messages out msgs _ Hcar Hto)|].
    intros om (m & _ & Hin). simpl in Hin.
    apply elem_of_union in Hin as [[Hin|Hin]%elem_of_union|Hin].
    + left. by apply elem_of_singleton in Hin.
    + right; left. by apply roommates_share.
    + right; right. by apply roommates_share.
Qed.

(** C14. Departure.  When a connected session disconnects, or asks to be
    disconnected, no trace of it remains: it is not in the registry nor in any
    room, its name is free for everybody, a requested disconnection is handed
    to the network, and every session that was in its room, and nobody else
    but itself, is sent exactly one message: that it left. *)
Theorem departure `{FlatBuffersSpec, EnvironmentSpec} (gl : GameLogicSystem)
    (ev : ServerEvent) (k : Z) (s : SessionState) (Hgl : gl_reachable gl)
    (Hev : event_wf ev)
    (Hkind : ev = SessionDisconnectedEvent k ∨ (∃ q, ev = DisconnectRequestEvent k q))
    (Hs : sessions_ (room_system_ gl) !! k = Some s) :
  ∃ gl' out, handle_event gl ev = Some gl'
    ∧ outgoing_messages_ gl' = outgoing_messages_ gl ++ out
    ∧ pending_disconnects_ gl'
      = pending_disconnects_ gl ++ (if answer_type ev is Some _ then [k] else [])
    ∧ sessions_ (room_system_ gl') = delete k (sessions_ (room_system_ gl))
    ∧ (∀ r rm, rooms_ (room_system_ gl') !! r = Some rm → k ∉ rm_members rm)
    ∧ (ss_logged_in s = true →
         ∀ k', IsDisplayNameTaken (ss_display_name s) k' (room_system_ gl') = false)
    ∧ ∀ k', k' ≠ k →
        inbox k' out
        = if bool_decide (share_room gl k k')
          then [mkMessage 0 (PUserLeftEvent (Some (mkUserLeftEvent (ss_room_id s)
                  (Some (mkUserInfo k (Some (c_str (ss_display_name s))))))))]
          else [].
Proof.
  pose proof (gl_reachable_ok gl Hgl) as Hok. pose proof Hok as [Hwf Hc Hk Hn].
  destruct (handle_event_ok ev gl Hok Hev)
    as (gl' & msgs & ds & out & Heq & Hstep & Ho & Hcar & Hp & Hok').
  destruct (departure_inv _ _ _ k _ _ _ s Hkind Hstep Hs)
    as (Hc' & -> & pre & leave & -> & Hleave & Hpre).
  exists gl', out. split_and!; [done|done|done|done|..].
  - intros r rm Hrm. apply (rs_wf_absent _ k r rm (go_registry gl' Hok')); [|done].
    rewrite Hc'. apply lookup_delete_eq.
  - intros Hl k'. apply not_true_is_false. rewrite name_taken_spec, Hc'.
    intros (k2 & s2 & _ & [Hne Hs2]%lookup_delete_Some & Hl2 & Heq2).
    apply (cw_name _ _ Hc k s Hs Hl). exists k2, s2. done.
  - intros k' Hne. rewrite (inbox_carries k' out _ Hcar), sent_to_app, (sent_to_nil k' pre).
    2:{ intros Hin. apply list_elem_of_fmap in Hin as (km & -> & Hin).
        apply (proj1 (Forall_forall _ _) Hpre) in Hin as [? _]. done. }
    rewrite app_nil_l. by apply left_inbox.
Qed.

(** The server's decision on a login request. *)
Definition login_code (rs : RoomSystem) (k : Z) (name : string) : Z :=
  if (zsize name =? 0) || (max_display_name_bytes <? zsize name) then ErrorCode.INVALID_NAME
  else if IsDisplayNameTaken name k rs then ErrorCode.DUPLICATE_NAME
  else ErrorCode.NONE.

(** The statement of [login_outcome], shared with the end-to-end properties. *)
Lemma login_handled `{FlatBuffersSpec, EnvironmentSpec} (gl : GameLogicSystem)
    (k q : Z) (name : string) (s : SessionState) (Hgl : gl_reachable gl) (Hq : is_u32 q)
    (Hs : sessions_ (room_system_ gl) !! k = Some s) :
  let code := login_code (room_system_ gl) k name in
  let accepted := bool_decide (code = ErrorCode.NONE) in
  ∃ gl' om, handle_event gl (LoginRequestEvent k q name) = Some gl'
    ∧ outgoing_messages_ gl' = outgoing_messages_ gl ++ [om] ∧ om_session_id om = k
    ∧ VerifiedMessage (om_payload om) = Some (mkMessage q (PLoginResponse (Some
        (mkLoginResponse accepted code
           (if accepted then Some (mkUserInfo k (Some (c_str name))) else None)))))
    ∧ sessions_ (room_system_ gl')
      = (if accepted
         then <[k := mkSessionState k k name (ss_room_id s) true]>
                (sessions_ (room_system_ gl))
         else sessions_ (room_system_ gl)).
Proof.
  intros code accepted. pose proof (gl_reachable_ok gl Hgl) as Hok.
  pose proof Hok as [Hwf Hc Hk _].
  pose proof (cw_session _ _ Hc k s Hs) as [Hi Hu _ _ _].
  destruct (handle_event_ok (LoginRequestEvent k q name) gl Hok)
    as (gl' & msgs & ds & out & Heq & Hstep & Ho & Hcar & _).
  { split_and!; [by apply Hk; eauto|done|done]. }
  destruct (login_inv _ _ _ _ _ _ _ _ s code Hstep Hs) as [Hc' ->].
  { unfold code, login_code, valid_name, max_display_name_bytes.
    pose proof (zsize_nonneg name). pose proof (name_taken_spec name k (room_system_ gl)) as Ht.
    destruct (Z.eqb_spec (zsize name) 0); simpl; [left; split; [done|lia]|].
    destruct (Z.ltb_spec 32 (zsize name)); simpl; [left; split; [done|lia]|].
    right. destruct (IsDisplayNameTaken _ _ _).
    - left. split_and!; [done|lia..|by apply Ht].
    - right. split_and!; [done|lia..|by rewrite <-Ht]. }
  apply Forall2_cons_inv_r in Hcar as (om & ? & (Hkm & Hm & _) & ->%Forall2_nil_inv_r & ->).
  exists gl', om. split_and!; [done..| |].
  - rewrite Hm. cbn [snd]. unfold msg_login, accepted, user_info, logged_in_as; simpl.
    by rewrite Hu.
  - rewrite Hc'. unfold accepted, logged_in_as. by rewrite Hi, Hu.
Qed.

(** Login.  A login request of a connected session is answered by exactly
    one message, with the code of [login_code]; the session takes the name and
    is logged in, staying in its room, exactly when the code is [NONE]
    (otherwise nothing in the registry changes), and only then does the answer
    carry the user. *)
Lemma login_outcome `{FlatBuffersSpec, EnvironmentSpec} (gl : GameLogicSystem)
    (k q : Z) (name : string) (s : SessionState) (Hgl : gl_reachable gl) (Hq : is_u32 q)
    (Hs : sessions_ (room_system_ gl) !! k = Some s) :
  let code := login_code (room_system_ gl) k name in
  let accepted := bool_decide (code = ErrorCode.NONE) in
  ∃ gl' om, handle_event gl (LoginRequestEvent k q name) = Some gl'
    ∧ outgoing_messages_ gl' = outgoing_messages_ gl ++ [om] ∧ om_session_id om = k
    ∧ VerifiedMessage (om_payload om) = Some (mkMessage q (PLoginResponse (Some
        (mkLoginResponse accepted code
           (if accepted then Some (mkUserInfo k (Some (c_str name))) else None)))))
    ∧ sessions_ (room_system_ gl')
      = (if accepted
         then <[k := mkSessionState k k name (ss_room_id s) true]>
                (sessions_ (room_system_ gl))
         else sessions_ (room_system_ gl)).
Proof. by eapply login_handled. Qed.

(** The server's decision on a join request. *)
Definition join_code (rs : RoomSystem) (s : SessionState) (r : Z) : Z :=
  if negb (ss_logged_in s) then ErrorCode.INVALID_NAME
  else if bool_decide (rooms_ rs !! r = None) then ErrorCode.ROOM_NOT_FOUND
  else if ss_room_id s =? r then ErrorCode.ALREADY_IN_ROOM
  else ErrorCode.NONE.

(** C33. Join.  A join request of a connected session is decided by [join_code].
    A refused request leaves the registry as it was and is answered with the
    code alone.  An accepted one moves the session to the room: it is a member
    of that room and of no other, and its answer describes the room with the
    number of members it now has. *)
Theorem join_outcome `{FlatBuffersSpec, EnvironmentSpec} (gl : GameLogicSystem)
    (k q r : Z) (s : SessionState) (Hgl : gl_reachable gl) (Hq : is_u32 q)
    (Hs : sessions_ (room_system_ gl) !! k = Some s) :
  let code := join_code (room_system_ gl) s r in
  ∃ gl' out, handle_event gl (JoinRoomRequestEvent k q r) = Some gl'
    ∧ outgoing_messages_ gl' = outgoing_messages_ gl ++ out
    ∧ if decide (code = ErrorCode.NONE)
      then
        (∀ r' rm, rooms_ (room_system_ gl') !! r' = Some rm → (k ∈ rm_members rm ↔ r' = r))
        ∧ ∃ rm, rooms_ (room_system_ gl') !! r = Some rm ∧
            mkMessage q (PJoinRoomResponse (Some (mkJoinRoomResponse true ErrorCode.NONE
              (Some (mkRoomInfo r (Some (c_str (rm_room_name rm)))
                       (to_u32 (Z.of_nat (size (rm_members rm)))))))))
            ∈ inbox k out
      else
        room_system_ gl' = room_system_ gl
        ∧ inbox k out = [mkMessage q (PJoinRoomResponse (Some
                           (mkJoinRoomResponse false code None)))]
        ∧ length out = 1%nat.
Proof.
  intros code. pose proof (gl_reachable_ok gl Hgl) as Hok. pose proof Hok as [Hwf Hc Hk Hn].
  destruct (handle_event_ok (JoinRoomRequestEvent k q r) gl Hok)
    as (gl' & msgs & ds & out & Heq & Hstep & Ho & Hcar & _ & Hok').
  { split_and!; [by apply Hk; eauto|done|done]. }
  exists gl', out. split_and!; [done|done|].
  pose proof (join_inv _ _ _ _ _ _ _ _ s Hstep Hs) as Hinv.
  rewrite <-Hn, lookup_room_names in Hinv.
  assert (∀ c', c' ≠ ErrorCode.NONE →
      sessions_ (room_system_ gl') = sessions_ (room_system_ gl) ∧ msgs = [(k, msg_join q c' None)] →
      room_system_ gl' = room_system_ gl
      ∧ inbox k out = [mkMessage q (PJoinRoomResponse (Some (mkJoinRoomResponse false c' None)))]
      ∧ length out = 1%nat) as Hrefused.
  { intros c' Hne [Hss ->]. rewrite (inbox_carries k out _ Hcar), (Forall2_length _ _ _ Hcar).
    split_and!; [by apply quiet_registry| |done]. unfold sent_to. csimpl.
    rewrite decide_True by done. unfold msg_join. by rewrite bool_decide_eq_false_2. }
  unfold code, join_code. destruct (ss_logged_in s); cbn [negb]; [|by apply Hrefused].
  destruct (rooms_ (room_system_ gl) !! r) as [rm0|] eqn:Hrm0; simpl in Hinv;
    [rewrite bool_decide_eq_false_2 by done|by apply Hrefused].
  destruct (Z.eqb_spec (ss_room_id s) r) as [E|E];
    [rewrite decide_True in Hinv by done; by apply Hrefused|].
  rewrite decide_False in Hinv by done. rewrite decide_True by done.
  destruct Hinv as (Hc' & leave & l & Hleave & Hl & Hmsgs).
  pose proof (go_registry gl' Hok') as Hwf'.
  assert (∃ rm, rooms_ (room_system_ gl') !! r = Some rm ∧ rm_room_name rm = rm_room_name rm0)
    as (rm & Hrm & Hname).
  { pose proof (lookup_room_names (room_system_ gl') r) as E1.
    rewrite (go_names gl' Hok'), <-Hn, lookup_room_names, Hrm0 in E1.
    destruct (rooms_ (room_system_ gl') !! r); [|done]. injection E1 as ?. eauto. }
  split.
  - intros r' rm' Hrm'. rewrite (members_in_room _ _ _ Hwf' Hrm'), elem_of_in_room, Hc'.
    rewrite lookup_insert_eq. naive_solver.
  - exists rm. split; [done|]. rewrite (inbox_carries k out _ Hcar), Hmsgs, Hname.
    rewrite (members_in_room _ _ _ Hwf' Hrm), sent_to_app, elem_of_app. right.
    unfold sent_to. csimpl. rewrite decide_True by done. constructor.
Qed.

(** C34. No message is lost in the game logic.  In a reachable state every event
    is handled as the specification says, and every message of the
    specification's step is queued: in order, for its session, as a non-empty
    payload within the transport's limit that decodes to that very message. *)
Theorem messages_not_dropped `{FlatBuffersSpec, EnvironmentSpec} (gl : GameLogicSystem)
    (ev : ServerEvent) (Hgl : gl_reachable gl) (Hev : event_wf ev) :
  ∃ gl' msgs ds out, handle_event gl ev = Some gl'
    ∧ chat_step initial_names (sessions_ (room_system_ gl)) ev
        (sessions_ (room_system_ gl')) msgs ds
    ∧ outgoing_messages_ gl' = outgoing_messages_ gl ++ out
    ∧ Forall2 (λ om km, om_session_id om = km.1
                 ∧ VerifiedMessage (om_payload om) = Some km.2
                 ∧ 0 < zlen (om_payload om) ≤ MAX_PAYLOAD_SIZE) out msgs.
Proof.
  destruct (handle_event_ok ev gl (gl_reachable_ok gl Hgl) Hev)
    as (gl' & msgs & ds & out & Heq & Hstep & Ho & Hcar & _).
  exists gl', msgs, ds, out. by split_and!.
Qed.

(** C36. The outside world does not matter.  For the same batch of events, two
    servers whose clocks and container iteration orders differ end with the
    same registry and the same pending disconnections. *)
Theorem environment_independence `{FlatBuffers} (env1 env2 : Environment)
    (Henv1 : @EnvironmentSpec env1) (Henv2 : @EnvironmentSpec env2)
    (events : list ServerEvent) (gl : GameLogicSystem) (Hwf : rs_wf (room_system_ gl)) :
  ∃ gl1 gl2, @Update _ env1 events gl = Some gl1
    ∧ @Update _ env2 events gl = Some gl2
    ∧ room_system_ gl1 = room_system_ gl2
    ∧ pending_disconnects_ gl1 = pending_disconnects_ gl2.
Proof.
  destruct (@Update_run _ env1 Henv1 events gl Hwf)
    as (gl1 & m1 & d1 & Hu1 & Hr1 & _ & Hp1 & Hwf1 & Hn1).
  destruct (@Update_run _ env2 Henv2 events gl Hwf)
    as (gl2 & m2 & d2 & Hu2 & Hr2 & _ & Hp2 & Hwf2 & Hn2).
  destruct (chat_run_det _ _ _ _ _ _ _ _ _ Hr1 Hr2) as [Hs ->].
  exists gl1, gl2. split_and!; [done|done| |congruence].
  apply registry_ext; [done|done|done|congruence].
Qed.

Lemma zsize_nul_app name suffix :
  zsize (name +:+ String Ascii.zero suffix) = zsize name + 1 + zsize suffix.
Proof. rewrite zsize_app. unfold zsize. simpl String.length. lia. Qed.

Lemma c_str_nul_app name suffix :
  nul_free name = true → c_str (name +:+ String Ascii.zero suffix) = name.
Proof.
  induction name as [|a name IH]; simpl; [done|].
  rewrite andb_true_iff, bool_decide_eq_true. intros [Ha Hn].
  rewrite decide_False by done. by rewrite IH.
Qed.

(** C37. Distinct names can look the same.  While a session is logged in with
    some name, another session logs in with that name followed by a NUL byte
    and anything else: the name is not taken, the login succeeds, but the
    newcomer is told, as every client it meets will be, that it has the name
    the first session is known by. *)
Theorem nul_names_collide `{FlatBuffersSpec, EnvironmentSpec} (gl : GameLogicSystem)
    (name suffix : string) (k1 k2 q : Z) (s1 s2 : SessionState) (Hgl : gl_reachable gl)
    (Hq : is_u32 q) (Hs1 : sessions_ (room_system_ gl) !! k1 = Some s1)
    (Hs2 : sessions_ (room_system_ gl) !! k2 = Some s2) (Hne : k1 ≠ k2)
    (Hl1 : ss_logged_in s1 = true) (Hn1 : ss_display_name s1 = name)
    (Hnul : nul_free name = true)
    (Hsize : zsize name + 1 + zsize suffix ≤ max_display_name_bytes)
    (Hfree : IsDisplayNameTaken (name +:+ String Ascii.zero suffix) k2 (room_system_ gl)
             = false) :
  ∃ gl' om s2', handle_event gl (LoginRequestEvent k2 q (name +:+ String Ascii.zero suffix))
      = Some gl'
    ∧ sessions_ (room_system_ gl') !! k1 = Some s1
    ∧ sessions_ (room_system_ gl') !! k2 = Some s2' ∧ ss_logged_in s2' = true
    ∧ ss_display_name s2' ≠ ss_display_name s1
    ∧ BuildUserInfo s2' = mkUserInfo k2 (Some name)
    ∧ BuildUserInfo s1 = mkUserInfo k1 (Some name)
    ∧ outgoing_messages_ gl' = outgoing_messages_ gl ++ [om] ∧ om_session_id om = k2
    ∧ VerifiedMessage (om_payload om) = Some (mkMessage q (PLoginResponse (Some
        (mkLoginResponse true ErrorCode.NONE (Some (mkUserInfo k2 (Some name))))))).
Proof.
  pose proof (gl_reachable_ok gl Hgl) as Hok. pose proof Hok as [Hwf Hc Hk _].
  pose proof (zsize_nul_app name suffix) as Hz. set (name2 := name +:+ _) in *.
  pose proof (zsize_nonneg suffix). pose proof (zsize_nonneg name).
  pose proof (cw_session _ _ Hc k2 s2 Hs2) as [Hi Hu _ _ _].
  pose proof (cw_session _ _ Hc k1 s1 Hs1) as [_ Hu1 _ _ _].
  assert (c_str name2 = name) as Hcs by (by apply c_str_nul_app).
  destruct (handle_event_ok (LoginRequestEvent k2 q name2) gl Hok)
    as (gl' & msgs & ds & out & Heq & Hstep & Ho & Hcar & _).
  { split_and!; [by apply Hk; eauto|done|done]. }
  destruct (login_inv _ _ _ _ _ _ _ _ s2 ErrorCode.NONE Hstep Hs2) as [Hc' ->].
  { right; right. split_and!; [done| |].
    - unfold valid_name, max_display_name_bytes in *. lia.
    - by rewrite <-name_taken_spec, Hfree. }
  apply Forall2_cons_inv_r in Hcar as (om & ? & (Hkm & Hm & _) & ->%Forall2_nil_inv_r & ->).
  exists gl', om, (logged_in_as name2 s2). rewrite Hc'. simpl.
  rewrite lookup_insert_eq, lookup_insert_ne by done.
  unfold BuildUserInfo, CreateUserInfoDirect. simpl. rewrite Hn1, Hu, Hu1, Hcs.
  split_and!; try done.
  - intros E. rewrite E in Hz. lia.
  - by rewrite c_str_nul_free.
  - rewrite Hm. unfold user_info. simpl. by rewrite Hu, Hcs.
Qed.

(** ** Witnesses: the state after [example_events] (two users in the lobby) *)

Section Witnesses.
#[local] Existing Instance plain_codec.
#[local] Existing Instance plain_codec_spec.
#[local] Existing Instance plain_environment.
#[local] Existing Instance plain_environment_spec.

Definition example_gl : GameLogicSystem :=
  default (game_logic_init room_system_init)
    (Update example_events (game_logic_init room_system_init)).

Definition example_session (k : Z) : SessionState :=
  default (new_session k) (FindSession k (room_system_ example_gl)).

Lemma example_events_wf : Forall event_wf example_events.
Proof. repeat (apply Forall_cons; split; [by_compute|]). by apply Forall_nil. Qed.

Lemma example_reachable : gl_reachable example_gl.
Proof.
  apply rtc_once, (gl_step_update _ example_events); [apply example_events_wf|].
  by vm_compute.
Qed.

Lemma reachable_sessions_witness :
  gl_reachable example_gl
  ∧ ss_logged_in (example_session 1) = true ∧ ss_session_id (example_session 1) = 1.
Proof.
  split; [exact example_reachable|]. split; [by vm_compute|].
  apply (reachable_sessions example_gl 1 (example_session 1) example_reachable).
  vm_compute. reflexivity.
Defined.

Lemma client_views_exact_witness :
  ∃ gl, Update example_events (game_logic_init room_system_init) = Some gl
        ∧ view_of (inbox 1 (outgoing_messages_ gl)) = mkView 1001 {[2]}.
Proof.
  destruct (client_views_exact example_events example_events_wf) as (gl & Hup & Hview).
  exists gl. split; [exact Hup|].
  assert (example_gl = gl) as <- by (unfold example_gl; rewrite Hup; reflexivity).
  rewrite (Hview 1 (example_session 1)
             (default (mkRoomState 0 "" ∅) (rooms_ (room_system_ example_gl) !! 1001))).
  - vm_compute. reflexivity.
  - vm_compute. reflexivity.
  - vm_compute. reflexivity.
Defined.

Lemma chat_delivery_witness :
  ∃ gl' out, handle_event example_gl (ChatSendRequestEvent 2 30 "hello") = Some gl'
    ∧ outgoing_messages_ gl' = outgoing_messages_ example_gl ++ out
    ∧ om_session_id <$> out ≡ₚ [1; 2].
Proof.
  destruct (chat_delivery example_gl 2 30 "hello" (example_session 2) example_reachable)
    as (gl' & out & rm & Heq & Ho & _ & Hrm & _ & Hids & _).
  - vm_compute. reflexivity.
  - by_compute.
  - by_compute.
  - by_compute.
  - exists gl', out. split; [exact Heq|]. split; [exact Ho|].
    rewrite Hids.
    assert (rm = default rm (rooms_ (room_system_ example_gl) !! 1001)) as ->.
    { change (rooms_ (room_system_ example_gl) !! 1001 = Some rm) in Hrm. by rewrite Hrm. }
    vm_compute. apply Permutation_swap.
Defined.

Lemma request_answered_witness :
  ∃ gl' out1 om out2,
    handle_event example_gl (JoinRoomRequestEvent 1 31 1002) = Some gl'
    ∧ outgoing_messages_ gl' = outgoing_messages_ example_gl ++ out1 ++ om :: out2
    ∧ om_session_id om = 1.
Proof.
  destruct (request_answered example_gl (JoinRoomRequestEvent 1 31 1002)
              MessagePayload.JoinRoomResponse example_reachable)
    as (gl' & out1 & om & out2 & Heq & Ho & Hk & _).
  - by_compute.
  - reflexivity.
  - vm_compute. eauto.
  - exists gl', out1, om, out2. auto.
Defined.

Lemma event_isolation_witness :
  ∃ gl', handle_event example_gl (LeaveRoomRequestEvent 1 32) = Some gl'
    ∧ FindSession 2 (room_system_ gl') = Some (example_session 2).
Proof.
  destruct (event_isolation example_gl (LeaveRoomRequestEvent 1 32) example_reachable)
    as (gl' & out & Heq & _ & Hframe & _).
  - by_compute.
  - exists gl'. split; [exact Heq|]. unfold FindSession. rewrite Hframe by done.
    vm_compute. reflexivity.
Defined.

Lemma departure_witness :
  ∃ gl' out, handle_event example_gl (SessionDisconnectedEvent 1) = Some gl'
    ∧ length (inbox 2 out) = 1%nat.
Proof.
  destruct (departure example_gl (SessionDisconnectedEvent 1) 1 (example_session 1)
              example_reachable) as (gl' & out & Heq & _ & _ & _ & _ & _ & Hin).
  - by_compute.
  - by left.
  - vm_compute. reflexivity.
  - exists gl', out. split; [exact Heq|]. rewrite Hin by done.
    vm_compute. reflexivity.
Defined.

Lemma login_outcome_witness :
  ∃ gl' om, handle_event example_gl (LoginRequestEvent 1 33 "Bob") = Some gl'
    ∧ outgoing_messages_ gl' = outgoing_messages_ example_gl ++ [om]
    ∧ VerifiedMessage (om_payload om) = Some (mkMessage 33 (PLoginResponse (Some
        (mkLoginResponse false ErrorCode.DUPLICATE_NAME None)))).
Proof.
  destruct (login_outcome example_gl 1 33 "Bob" (example_session 1) example_reachable)
    as (gl' & om & Heq & Ho & _ & Hm & _).
  - by_compute.
  - vm_compute. reflexivity.
  - exists gl', om. split; [exact Heq|]. split; [exact Ho|]. rewrite Hm.
    vm_compute. reflexivity.
Defined.

Lemma join_outcome_witness :
  ∃ gl' (out : list OutgoingMessage), handle_event example_gl (JoinRoomRequestEvent 1 34 7) = Some gl'
    ∧ room_system_ gl' = room_system_ example_gl ∧ length out = 1%nat.
Proof.
  destruct (join_outcome example_gl 1 34 7 (example_session 1) example_reachable)
    as (gl' & out & Heq & _ & Hout).
  - by_compute.
  - vm_compute. reflexivity.
  - exists gl', out. split; [exact Heq|]. revert Hout.
    case_decide as Hcode; [exfalso; revert Hcode; by vm_compute|]. intros Hout. split; apply Hout.
Defined.

Lemma messages_not_dropped_witness :
  ∃ gl' out (msgs : list (Z * Message)), handle_event example_gl (InvalidPacketEvent 1 "bad packet") = Some gl'
    ∧ outgoing_messages_ gl' = outgoing_messages_ example_gl ++ out
    ∧ om_session_id <$> out = msgs.*1.
Proof.
  destruct (messages_not_dropped example_gl (InvalidPacketEvent 1 "bad packet")
              example_reachable) as (gl' & msgs & ds & out & Heq & _ & Ho & Hcar).
  - by_compute.
  - exists gl', out, msgs. split; [exact Heq|]. split; [exact Ho|].
    exact (carries_ids out msgs Hcar).
Defined.

Lemma environment_independence_witness :
  ∃ gl1 gl2, Update example_events (game_logic_init room_system_init) = Some gl1
    ∧ @Update _ other_environment example_events (game_logic_init room_system_init) = Some gl2
    ∧ room_system_ gl1 = room_system_ gl2.
Proof.
  destruct (environment_independence plain_environment other_environment
              plain_environment_spec other_environment_spec example_events
              (game_logic_init room_system_init) room_system_init_wf)
    as (gl1 & gl2 & H1 & H2 & Heq & _).
  exists gl1, gl2. auto.
Defined.

Lemma nul_names_collide_witness :
  ∃ gl' s2', handle_event example_gl
               (LoginRequestEvent 2 35 ("Alice" +:+ String Ascii.zero "x")) = Some gl'
    ∧ FindSession 2 (room_system_ gl') = Some s2'
    ∧ ui_display_name (BuildUserInfo s2') = ui_display_name (BuildUserInfo (example_session 1)).
Proof.
  destruct (nul_names_collide example_gl "Alice" "x" 1 2 35 (example_session 1)
              (example_session 2) example_reachable)
    as (gl' & om & s2' & Heq & _ & Hs2 & _ & _ & Hb2 & Hb1 & _);
    [first [by_compute | vm_compute; reflexivity]..|].
  exists gl', s2'. split; [exact Heq|]. split; [exact Hs2|]. by rewrite Hb2, Hb1.
Defined.
End Witnesses.
