(* ===== verification/Session.v ===== *)
(** * NightNetwork/src/Session.h, Session.cpp: one TCP connection of the server

    A session is a state machine driven by completions: every handler runs on
    the session's strand, so handlers of one session never overlap, and the
    interleaving is the order of the inputs.  Asio is represented by the
    operations in flight ([read_op], [write_op], [timer_op]): a handler that
    starts an operation sets its field, a completion clears it and carries an
    error flag and the bytes read.  Closing the socket makes later operations
    fail, but a completion that is already on its way may still be a success,
    so completions after [handle_close] are arbitrary.

    What a handler does to its surroundings is the list of its effects: the
    callbacks [on_receive_] and [on_close_], and the frames handed to
    [async_write]. *)

From S2P Require Import Prelude Protocol BufferPool TransportDetail.

Definition MAX_PENDING_WRITE_FRAMES : Z := 1024.

Inductive ReadOp := ReadHeader | ReadBody.

Record Session := mkSession {
  id_ : Z;
  body_buf_ : Buffer;
  write_queue_ : list Buffer;
  writing_ : bool;
  closed_ : bool;
  last_activity_ : Z;
  socket_open : bool;
  read_op : option ReadOp;
  write_op : bool;
  timer_op : bool;
}.

Inductive SessionEffect :=
  | OnReceive (session_id : Z) (data : Buffer)
  | OnClose (session_id : Z)
  | AsyncWrite (frame : bytes).

(** A session with the buffer pools of the process and the effects so far. *)
Record World := mkWorld {
  session : Session;
  pools : PoolStore;
  effects : list SessionEffect;
}.

(** ** Member updates *)

Section Updates.
Definition with_session (f : Session → Session) (w : World) : World :=
  mkWorld (f (session w)) (pools w) (effects w).
Definition with_pools (st : PoolStore) (w : World) : World :=
  mkWorld (session w) st (effects w).
Definition emit (e : SessionEffect) (w : World) : World :=
  mkWorld (session w) (pools w) (effects w ++ [e]).

Definition set_body (b : Buffer) (s : Session) : Session :=
  mkSession (id_ s) b (write_queue_ s) (writing_ s) (closed_ s) (last_activity_ s)
    (socket_open s) (read_op s) (write_op s) (timer_op s).
Definition set_queue (q : list Buffer) (s : Session) : Session :=
  mkSession (id_ s) (body_buf_ s) q (writing_ s) (closed_ s) (last_activity_ s)
    (socket_open s) (read_op s) (write_op s) (timer_op s).
Definition set_writing (b : bool) (s : Session) : Session :=
  mkSession (id_ s) (body_buf_ s) (write_queue_ s) b (closed_ s) (last_activity_ s)
    (socket_open s) (read_op s) (write_op s) (timer_op s).
Definition set_closed (s : Session) : Session :=
  mkSession (id_ s) (body_buf_ s) (write_queue_ s) (writing_ s) true (last_activity_ s)
    false (read_op s) (write_op s) (timer_op s).
Definition set_activity (now : Z) (s : Session) : Session :=
  mkSession (id_ s) (body_buf_ s) (write_queue_ s) (writing_ s) (closed_ s) now
    (socket_open s) (read_op s) (write_op s) (timer_op s).
Definition set_read (o : option ReadOp) (s : Session) : Session :=
  mkSession (id_ s) (body_buf_ s) (write_queue_ s) (writing_ s) (closed_ s)
    (last_activity_ s) (socket_open s) o (write_op s) (timer_op s).
Definition set_write (b : bool) (s : Session) : Session :=
  mkSession (id_ s) (body_buf_ s) (write_queue_ s) (writing_ s) (closed_ s)
    (last_activity_ s) (socket_open s) (read_op s) b (timer_op s).
Definition set_timer (b : bool) (s : Session) : Session :=
  mkSession (id_ s) (body_buf_ s) (write_queue_ s) (writing_ s) (closed_ s)
    (last_activity_ s) (socket_open s) (read_op s) (write_op s) b.
End Updates.

(** The write queue of a session, for [Detail::enqueue_frame]. *)
#[export] Instance session_write_queue : WriteQueueOwner World := {
  wq_queue w := write_queue_ (session w);
  wq_writing w := writing_ (session w);
  wq_push f := with_session (λ s, set_queue (write_queue_ s ++ [f]) s);
}.

#[export] Instance session_write_queue_spec : WriteQueueOwnerSpec World.
Proof. by split. Qed.

(** ** Handlers

    [t] is the I/O thread that runs the handler (its pool is used), [bp] the
    server's [BufferPool] object.  [None] is an access outside a buffer or to
    the front of an empty queue. *)

Section Handlers.
Context `{VectorAlloc} (bp : BufferPool) (t : ThreadId).

Definition handle_close (w : World) : World :=
  if closed_ (session w) then w
  else w |> with_session set_closed
         |> emit (OnClose (id_ (session w))).

Definition do_write (w : World) : World :=
  match write_queue_ (session w) with
  | [] => with_session (set_writing false) w
  | front :: _ =>
      w |> with_session (set_writing true)
        |> with_session (set_write true)
        |> emit (AsyncWrite (buf_data front))
  end.

Definition release_frame (frame : Buffer) (w : World) : World :=
  with_pools (release bp t frame (pools w)) w.

Definition enqueue_write (frame : Buffer) (w : World) : World :=
  if closed_ (session w) then release_frame frame w
  else
    let '(pushed, w) := enqueue_frame frame do_write MAX_PENDING_WRITE_FRAMES w in
    if negb pushed then w |> release_frame frame |> handle_close else w.

Definition do_read_header : World → World := with_session (set_read (Some ReadHeader)).
Definition do_read_body : World → World := with_session (set_read (Some ReadBody)).

(** The completion handler of [do_read_header]. *)
Definition on_read_header (now : Z) (ec : bool) (header_buf_ : bytes) (w : World) : World :=
  let w := with_session (set_read None) w in
  if ec then handle_close w
  else
    match decode_header header_buf_ with
    | inr _ => handle_close w
    | inl header =>
        let w := with_session (set_activity now) w in
        if is_keepalive header then do_read_header w
        else
          w |> with_session (λ s, set_body (resize (payload_size header) (body_buf_ s)) s)
            |> do_read_body
    end.

(** The completion handler of [do_read_body]; [received] is what the read put
    in [body_buf_]. *)
Definition on_read_body (ec : bool) (received : bytes) (w : World) : option World :=
  let w := with_session (set_read None) w in
  if ec then Some (handle_close w)
  else
    let w := with_session (λ s, set_body (mkBuffer received (buf_capacity (body_buf_ s))) s) w in
    let body := buf_data (body_buf_ (session w)) in
    let '(copy, st) := acquire t (zlen body) (pools w) in
    data ← memcpy (buf_data copy) 0 body (length body);
    Some (w |> with_pools st
            |> emit (OnReceive (id_ (session w)) (mkBuffer data (buf_capacity copy)))
            |> do_read_header).

(** The completion handler of [do_write]. *)
Definition on_write (ec : bool) (w : World) : option World :=
  match write_queue_ (session w) with
  | [] => None
  | front :: rest =>
      let w := w |> with_session (set_write false)
                 |> release_frame front
                 |> with_session (set_queue rest) in
      Some (if ec then handle_close w else do_write w)
  end.

(** [expires_after(HEARTBEAT_INTERVAL)] and [async_wait]: the wait is in flight.
    The model lets the timer expire at any time from now on, which includes 5 s. *)
Definition start_heartbeat : World → World := with_session (set_timer true).

Definition send_keepalive (w : World) : option World :=
  '(frame, st) ← build_keepalive_frame t (pools w);
  Some (enqueue_write frame (with_pools st w)).

(** The completion handler of [start_heartbeat]. *)
Definition on_heartbeat (now : Z) (ec : bool) (w : World) : option World :=
  let w := with_session (set_timer false) w in
  if ec then Some w
  else if HEARTBEAT_TIMEOUT <=? now - last_activity_ (session w) then Some (handle_close w)
  else w ← send_keepalive w; Some (start_heartbeat w).

(** [Session::Session] and [Session::start]. *)
Definition session_create (id now : Z) : Session :=
  mkSession id (reserve MAX_PAYLOAD_SIZE vector_empty) [] false false now true None false false.

Definition session_start (w : World) : World := w |> do_read_header |> start_heartbeat.

(** [Session::send]: the task it posts to the strand, if any. *)
Definition session_send (payload : bytes) (st : PoolStore)
    : option (option Buffer * PoolStore) :=
  if (zlen payload =? 0) || (MAX_PAYLOAD_SIZE <? zlen payload) then Some (None, st)
  else
    '(frame, st) ← build_data_frame t payload st;
    Some (if buf_empty frame then None else Some frame, st).
End Handlers.

(** ** Inputs and runs *)

(** What the strand can run next: a posted [enqueue_write] or [handle_close], or
    a completion. *)
Inductive SessionInput :=
  | InEnqueue (frame : Buffer)
  | InClose
  | InHeader (now : Z) (ec : bool) (header : bytes)
  | InBody (ec : bool) (received : bytes)
  | InWritten (ec : bool)
  | InTimer (now : Z) (ec : bool).

(** A completion needs its operation in flight, and a successful read fills its
    buffer. *)
Definition enabled (i : SessionInput) (s : Session) : Prop :=
  match i with
  | InEnqueue _ | InClose => True
  | InHeader _ ec h =>
      read_op s = Some ReadHeader ∧ (ec = false → zlen h = HEADER_SIZE ∧ wf_bytes h)
  | InBody ec b =>
      read_op s = Some ReadBody
      ∧ (ec = false → zlen b = zlen (buf_data (body_buf_ s)) ∧ wf_bytes b)
  | InWritten _ => write_op s = true
  | InTimer _ _ => timer_op s = true
  end.

Section Run.
Context `{VectorAlloc} (bp : BufferPool).

Definition session_handle (t : ThreadId) (i : SessionInput) (w : World) : option World :=
  match i with
  | InEnqueue frame => Some (enqueue_write bp t frame w)
  | InClose => Some (handle_close w)
  | InHeader now ec h => Some (on_read_header now ec h w)
  | InBody ec b => on_read_body t ec b w
  | InWritten ec => on_write bp t ec w
  | InTimer now ec => on_heartbeat bp t now ec w
  end.

(** Worlds reachable from a started session; between two of its inputs other
    users of the pools may leave them in any well-formed state. *)
Inductive session_reachable (id now0 : Z) : World → Prop :=
  | reach_start st :
      pool_wf st →
      session_reachable id now0 (session_start (mkWorld (session_create id now0) st []))
  | reach_handle t i w w' :
      session_reachable id now0 w → enabled i (session w) →
      session_handle t i w = Some w' → session_reachable id now0 w'
  | reach_pools st w :
      session_reachable id now0 w → pool_wf st →
      session_reachable id now0 (with_pools st w).
End Run.

(** ** Invariant *)

Definition is_close (e : SessionEffect) : bool :=
  match e with OnClose _ => true | _ => false end.
Definition closes (es : list SessionEffect) : list SessionEffect := List.filter is_close es.

(** What a session may report: its own id, and payloads of 1 to 2048 bytes. *)
Definition effect_ok (id : Z) (e : SessionEffect) : Prop :=
  match e with
  | OnReceive k data =>
      k = id ∧ 1 ≤ zlen (buf_data data) ≤ MAX_PAYLOAD_SIZE ∧ wf_bytes (buf_data data)
  | OnClose k => k = id
  | AsyncWrite _ => True
  end.

Arguments closes : simpl never.

(** The writing side: nothing is written twice at a time, and a session that is
    open writes whenever it has something to write. *)
Record writing_inv (s : Session) : Prop := {
  wi_open : closed_ s = false →
    write_op s = writing_ s ∧ (writing_ s = false ↔ write_queue_ s = []);
  wi_op : write_op s = true → write_queue_ s ≠ [];
}.

(** Everything else. *)
Record session_base (id : Z) (w : World) : Prop := {
  sb_id : id_ (session w) = id;
  sb_pools : pool_wf (pools w);
  sb_queue : zlen (write_queue_ (session w)) ≤ MAX_PENDING_WRITE_FRAMES;
  sb_closes : closes (effects w) = if closed_ (session w) then [OnClose id] else [];
  sb_socket : socket_open (session w) = negb (closed_ (session w));
  sb_body : zlen (buf_data (body_buf_ (session w))) ≤ MAX_PAYLOAD_SIZE;
  sb_reading : read_op (session w) = Some ReadBody → 1 ≤ zlen (buf_data (body_buf_ (session w)));
  sb_effects : Forall (effect_ok id) (effects w);
}.

Definition session_inv (id : Z) (w : World) : Prop :=
  session_base id w ∧ writing_inv (session w).

(** A change of fields the invariant does not constrain. *)
Ltac inv_fields :=
  let Hb := fresh in let Hw := fresh in
  intros [Hb Hw]; split; destruct Hb, Hw; split; simpl; done.

Section Invariant.
Context `{VectorAlloc} (bp : BufferPool) (t : ThreadId) (id : Z).
Implicit Types (w : World).

Lemma closes_app es1 es2 : closes (es1 ++ es2) = closes es1 ++ closes es2.
Proof. apply List.filter_app. Qed.

Lemma base_emit e w :
  session_base id w → effect_ok id e → is_close e = false → session_base id (emit e w).
Proof.
  intros [? ? ? Hc ? ? ? ?] He Hne. split; simpl; try done.
  - rewrite closes_app, Hc. unfold closes at 1. simpl. by rewrite Hne, app_nil_r.
  - apply Forall_app. split; [done|]. by constructor.
Qed.

Lemma inv_handle_close w : session_inv id w → session_inv id (handle_close w).
Proof.
  intros [Hb Hw]. unfold handle_close. destruct (closed_ (session w)) eqn:Hc; [done|].
  destruct Hb as [Hid ? ? Hcl ? ? ? ?], Hw as [_ ?]. split; split; simpl; try done.
  - by rewrite closes_app, Hcl, Hc, Hid.
  - apply Forall_app. split; [done|]. by constructor.
Qed.

Lemma base_fields f w :
  session_base id w → (∀ s, id_ (f s) = id_ s ∧ write_queue_ (f s) = write_queue_ s
    ∧ closed_ (f s) = closed_ s ∧ socket_open (f s) = socket_open s
    ∧ body_buf_ (f s) = body_buf_ s ∧ (read_op (f s) = Some ReadBody → read_op s = Some ReadBody)) →
  session_base id (with_session f w).
Proof.
  intros [? ? ? ? ? ? ? ?] Hf. destruct (Hf (session w)) as (E1 & E2 & E3 & E4 & E5 & E6).
  split; simpl; rewrite ?E1, ?E2, ?E3, ?E4, ?E5; auto.
Qed.

(** [do_write] with no write in flight re-establishes the writing side. *)
Lemma inv_do_write w :
  session_base id w → write_op (session w) = false → session_inv id (do_write w).
Proof.
  intros Hb Hno. unfold do_write. destruct (write_queue_ (session w)) as [|f q] eqn:Hq.
  - split; [by apply base_fields|]. split; simpl; rewrite ?Hq; [done|congruence].
  - split.
    + apply base_emit; [|done..]. by repeat apply base_fields.
    + split; simpl; rewrite Hq; done.
Qed.

Lemma inv_pools st w : session_inv id w → pool_wf st → session_inv id (with_pools st w).
Proof. intros [[] []] Hst. by split; split. Qed.

Lemma inv_release_frame f w : session_inv id w → session_inv id (release_frame bp t f w).
Proof. intros Hw. apply inv_pools; [done|]. apply release_pool_wf, Hw. Qed.

Lemma inv_enqueue_write f w : session_inv id w → session_inv id (enqueue_write bp t f w).
Proof.
  intros Hw. pose proof Hw as [Hb [Hopen Hop]]. unfold enqueue_write, enqueue_frame.
  destruct (closed_ (session w)) eqn:Hc; [by apply inv_release_frame|]. simpl.
  destruct (Z.leb_spec MAX_PENDING_WRITE_FRAMES (zlen (write_queue_ (session w)))) as [Hfull|Hroom];
    simpl; [by apply inv_handle_close, inv_release_frame|].
  assert (session_base id (with_session (λ s, set_queue (write_queue_ s ++ [f]) s) w)) as Hb'.
  { destruct Hb. split; simpl; try done. rewrite zlen_app. change (zlen [f]) with 1. lia. }
  destruct (Hopen eq_refl) as [Heq Hiff].
  destruct (writing_ (session w)) eqn:Hwr; simpl.
  - split; [done|]. split; simpl; [|by destruct (write_queue_ (session w))].
    intros _. rewrite Hwr. split; [done|]. by destruct (write_queue_ (session w)).
  - by apply inv_do_write.
Qed.

Lemma inv_read o w :
  session_inv id w → (o = Some ReadBody → 1 ≤ zlen (buf_data (body_buf_ (session w)))) →
  session_inv id (with_session (set_read o) w).
Proof. intros [[] []] Ho. by split; split. Qed.

Lemma inv_body b w :
  session_inv id w → 1 ≤ zlen (buf_data b) ≤ MAX_PAYLOAD_SIZE →
  session_inv id (with_session (set_body b) w).
Proof. intros [[] []] Hb. split; split; simpl; try done; lia. Qed.

Lemma inv_activity now w : session_inv id w → session_inv id (with_session (set_activity now) w).
Proof. intros [[] []]. by split; split. Qed.

Lemma inv_timer b w : session_inv id w → session_inv id (with_session (set_timer b) w).
Proof. intros [[] []]. by split; split. Qed.
End Invariant.

Section Steps.
Context `{VectorAlloc} (bp : BufferPool) (t : ThreadId) (id : Z).
Implicit Types (w : World).

Lemma decode_header_size h hd :
  zlen h = HEADER_SIZE → wf_bytes h → decode_header h = inl hd → is_keepalive hd = false →
  1 ≤ payload_size hd ≤ MAX_PAYLOAD_SIZE.
Proof.
  intros Hlen Hb Hd Hk. apply decode_header_inv in Hd as (_ & _ & Hv); [|done..].
  destruct Hv as [[_ ?]|[Hf _]]; [done|]. unfold is_keepalive in Hk. by rewrite Hf in Hk.
Qed.

Lemma inv_read_header now ec h w :
  session_inv id w → (ec = false → zlen h = HEADER_SIZE ∧ wf_bytes h) →
  session_inv id (on_read_header now ec h w).
Proof.
  intros Hw Hh. unfold on_read_header.
  apply (inv_read id None) in Hw; [|done].
  destruct ec; [by apply inv_handle_close|]. destruct (Hh eq_refl) as [Hlen Hbytes].
  destruct (decode_header h) as [hd|] eqn:Hd; [|by apply inv_handle_close].
  apply (inv_activity id now) in Hw.
  destruct (is_keepalive hd) eqn:Hk; [by apply inv_read|].
  pose proof (decode_header_size h hd Hlen Hbytes Hd Hk) as Hsize.
  assert (zlen (buf_data (resize (payload_size hd) (body_buf_ (session w)))) = payload_size hd)
    as Hr by (apply length_resize; lia).
  apply inv_read; [|intros _; cbn -[resize]; rewrite Hr; lia].
  apply (inv_body id (resize (payload_size hd) (body_buf_ (session w)))) in Hw; [done|].
  rewrite Hr. lia.
Qed.

Lemma memcpy_all (body : bytes) n :
  n = length body → memcpy (replicate n 0) 0 body (length body) = Some body.
Proof.
  intros ->. unfold memcpy. rewrite decide_True by (rewrite length_replicate; lia).
  rewrite firstn_all, drop_ge by (rewrite length_replicate; lia). simpl.
  by rewrite app_nil_r.
Qed.

(** A complete body is reported as it was received, and the next header is
    awaited. *)
Lemma on_read_body_spec b w :
  pool_wf (pools w) → zlen b ≤ MAX_PAYLOAD_SIZE →
  ∃ cap st w', on_read_body t false b w = Some w' ∧ pool_wf st
    ∧ w' = w |> with_session (λ s, set_body (mkBuffer b (buf_capacity (body_buf_ s))) (set_read None s))
             |> with_pools st
             |> emit (OnReceive (id_ (session w)) (mkBuffer b cap))
             |> do_read_header.
Proof.
  intros Hst Hb. unfold on_read_body. simpl. pose proof (zlen_nonneg b).
  destruct (acquire_spec t (zlen b) (pools w) Hst) as (cap & st & -> & Hst').
  { unfold BLOCK_SIZE, HEADER_SIZE. lia. }
  simpl. rewrite memcpy_all by (unfold zlen; lia). simpl. by exists cap, st; eexists.
Qed.

Lemma inv_read_body ec b w :
  session_inv id w → enabled (InBody ec b) (session w) →
  ∃ w', on_read_body t ec b w = Some w' ∧ session_inv id w'.
Proof.
  intros Hw [Hop Hb]. destruct ec.
  { eexists. split; [done|]. apply inv_handle_close. by apply inv_read. }
  destruct (Hb eq_refl) as [Hlen Hbytes].
  pose proof (sb_body id w (proj1 Hw)) as Hmax. pose proof (sb_reading id w (proj1 Hw) Hop) as Hmin.
  destruct (on_read_body_spec b w) as (cap & st & w' & Heq & Hst & ->);
    [apply Hw|lia|]. eexists. split; [done|].
  apply inv_read; [|done]. pose proof (sb_id id w (proj1 Hw)) as Hid.
  apply (inv_read id None) in Hw; [|done].
  apply (inv_body id (mkBuffer b (buf_capacity (body_buf_ (session w))))) in Hw; [|simpl; lia].
  apply (inv_pools id st) in Hw; [|done]. destruct Hw as [Hbase Hwr]. split; [|done].
  apply base_emit; [exact Hbase| |done]. simpl. rewrite Hlen. split_and!; [done|lia..|done].
Qed.

Lemma inv_on_write ec w :
  session_inv id w → write_op (session w) = true →
  ∃ w', on_write bp t ec w = Some w' ∧ session_inv id w'.
Proof.
  intros [Hb Hwr] Hop. pose proof (wi_op _ Hwr Hop) as Hne. unfold on_write.
  destruct (write_queue_ (session w)) as [|f q] eqn:Hq; [done|].
  eexists. split; [done|].
  set (w1 := with_session (set_queue q) _).
  assert (session_base id w1 ∧ write_op (session w1) = false) as [Hb1 Hno].
  { split; [|done]. destruct Hb as [? ? Hlen ? ? ? ? ?]. unfold w1. split; simpl; try done.
    - by apply release_pool_wf.
    - rewrite Hq in Hlen. unfold zlen in *. simpl in Hlen. lia. }
  clearbody w1. destruct ec; [|by apply inv_do_write].
  unfold handle_close. destruct (closed_ (session w1)) eqn:Hc.
  - split; [done|]. split; [congruence|]. by rewrite Hno.
  - destruct Hb1 as [Hid ? ? Hcl ? ? ? ?]. split; split; simpl; try done; try congruence.
    + by rewrite closes_app, Hcl, Hc, Hid.
    + apply Forall_app. split; [done|]. by constructor.
Qed.

Lemma send_keepalive_spec w :
  session_inv id w →
  ∃ cap st, pool_wf st
    ∧ send_keepalive bp t w = Some (enqueue_write bp t (mkBuffer (header_bytes FLAG_KEEPALIVE 0) cap)
                                      (with_pools st w)).
Proof.
  intros [Hb _]. unfold send_keepalive, build_keepalive_frame.
  destruct (build_frame_spec t FLAG_KEEPALIVE [] (pools w)) as (cap & st & -> & Hst).
  { apply Hb. } { done. }
  exists cap, st. done.
Qed.

Lemma inv_heartbeat now ec w :
  session_inv id w → ∃ w', on_heartbeat bp t now ec w = Some w' ∧ session_inv id w'.
Proof.
  intros Hw. unfold on_heartbeat. apply (inv_timer id false) in Hw.
  destruct ec; [by eexists|]. destruct (_ <=? _).
  { eexists. split; [done|]. by apply inv_handle_close. }
  destruct (send_keepalive_spec _ Hw) as (cap & st & Hst & ->).
  eexists. split; [done|]. apply inv_timer, inv_enqueue_write. by apply inv_pools.
Qed.

Lemma session_handle_inv i w :
  session_inv id w → enabled i (session w) →
  ∃ w', session_handle bp t i w = Some w' ∧ session_inv id w'.
Proof.
  intros Hw Hen. destruct i as [f| |now ec h|ec b|ec|now ec]; simpl.
  - eexists. split; [done|]. by apply inv_enqueue_write.
  - eexists. split; [done|]. by apply inv_handle_close.
  - eexists. split; [done|]. apply inv_read_header; [done|apply Hen].
  - by apply inv_read_body.
  - by apply inv_on_write.
  - by apply inv_heartbeat.
Qed.

Lemma inv_start now0 st :
  pool_wf st → session_inv id (session_start (mkWorld (session_create id now0) st [])).
Proof.
  intros Hst. split; split; simpl; try done.
Qed.
End Steps.

Lemma session_reachable_inv `{VectorAlloc} bp id now0 w :
  session_reachable bp id now0 w → session_inv id w.
Proof.
  induction 1 as [st Hst|t i w w' _ IH Hen Heq|st w _ IH Hst].
  - by apply inv_start.
  - destruct (session_handle_inv bp t id i w IH Hen) as (w2 & ? & ?). congruence.
  - by apply inv_pools.
Qed.

(** ** Writes go out in order *)

(** Frames handed to [async_write], and frames still waiting to be. *)
Definition started (es : list SessionEffect) : list bytes :=
  omap (λ e, match e with AsyncWrite f => Some f | _ => None end) es.

Definition waiting (s : Session) : list bytes :=
  buf_data <$> (if write_op s then tail (write_queue_ s) else write_queue_ s).

Definition output (w : World) : list bytes := started (effects w) ++ waiting (session w).

(** The frames an input adds to the queue: none once the session is closed or
    its queue is full. *)
Definition accepts (s : Session) : bool :=
  negb (closed_ s) && (zlen (write_queue_ s) <? MAX_PENDING_WRITE_FRAMES).

Definition accepted (i : SessionInput) (s : Session) : list bytes :=
  if accepts s then
    match i with
    | InEnqueue frame => [buf_data frame]
    | InTimer now false =>
        if HEARTBEAT_TIMEOUT <=? now - last_activity_ s then []
        else [header_bytes FLAG_KEEPALIVE 0]
    | _ => []
    end
  else [].

Section Fifo.
Context `{VectorAlloc} (bp : BufferPool) (t : ThreadId) (id : Z).
Implicit Types (w : World).

Lemma output_emit e w :
  match e with AsyncWrite _ => False | _ => True end → output (emit e w) = output w.
Proof.
  intros He. unfold output, started, emit. simpl. rewrite omap_app.
  destruct e; simpl; rewrite ?app_nil_r; done.
Qed.

Lemma output_handle_close w : output (handle_close w) = output w.
Proof.
  unfold handle_close. destruct (closed_ (session w)); [done|].
  by rewrite output_emit.
Qed.

Lemma output_do_write w :
  write_op (session w) = false → output (do_write w) = output w.
Proof.
  intros Hno. unfold do_write, output, waiting.
  destruct (write_queue_ (session w)) as [|f q] eqn:Hq; simpl; rewrite ?Hq, Hno; [done|].
  unfold started. rewrite omap_app. simpl. by rewrite <-app_assoc.
Qed.

Lemma output_enqueue_write f w :
  session_inv id w →
  output (enqueue_write bp t f w)
  = output w ++ (if accepts (session w) then [buf_data f] else []).
Proof.
  intros [Hb [Hopen Hop]]. unfold enqueue_write, enqueue_frame, accepts.
  destruct (closed_ (session w)) eqn:Hc; [simpl; by rewrite app_nil_r|]. simpl.
  destruct (Hopen eq_refl) as [Heq Hiff].
  destruct (Z.leb_spec MAX_PENDING_WRITE_FRAMES (zlen (write_queue_ (session w)))) as [Hf|Hf],
    (Z.ltb_spec (zlen (write_queue_ (session w))) MAX_PENDING_WRITE_FRAMES); try lia; simpl.
  { by rewrite output_handle_close, app_nil_r. }
  assert (output (with_session (λ s, set_queue (write_queue_ s ++ [f]) s) w)
          = output w ++ [buf_data f]) as Hpush.
  { unfold output, waiting. simpl. rewrite <-app_assoc. f_equal.
    destruct (write_op (session w)) eqn:Ho; [|by rewrite fmap_app].
    destruct (write_queue_ (session w)); [by destruct (Hop eq_refl)|].
    simpl. by rewrite fmap_app. }
  destruct (writing_ (session w)) eqn:Hwr; simpl; [done|].
  by rewrite output_do_write, Hpush.
Qed.

Lemma output_read_header now ec h w : output (on_read_header now ec h w) = output w.
Proof.
  unfold on_read_header. destruct ec; [by rewrite output_handle_close|].
  destruct (decode_header h) as [hd|]; [|by rewrite output_handle_close].
  by destruct (is_keepalive hd).
Qed.

Lemma output_read_body ec b w w' : on_read_body t ec b w = Some w' → output w' = output w.
Proof.
  unfold on_read_body. destruct ec; [intros [= <-]; by rewrite output_handle_close|].
  destruct (acquire _ _ _) as [copy st]. destruct (memcpy _ _ _ _); [|done].
  intros [= <-]. change (output (do_read_header ?x)) with (output x). by rewrite output_emit.
Qed.

Lemma output_on_write ec w w' :
  write_op (session w) = true → on_write bp t ec w = Some w' → output w' = output w.
Proof.
  intros Hop. unfold on_write.
  destruct (write_queue_ (session w)) as [|f q] eqn:Hq; [done|]. intros [= <-].
  assert (output (with_session (set_queue q) (release_frame bp t f
            (with_session (set_write false) w))) = output w) as Hpop
    by (unfold output, waiting; simpl; by rewrite Hop, Hq).
  destruct ec; [by rewrite output_handle_close|]. by rewrite output_do_write.
Qed.

(** Every handler appends to the output exactly what it accepts. *)
Lemma output_handle i w w' :
  session_inv id w → enabled i (session w) → session_handle bp t i w = Some w' →
  output w' = output w ++ accepted i (session w).
Proof.
  intros Hw Hen Heq. unfold accepted.
  assert ((if accepts (session w) then [] else []) = ([] : list bytes)) as Hnil
    by (by destruct (accepts _)).
  destruct i as [f| |now ec h|ec b|ec|now ec]; simpl in Heq, Hen.
  - injection Heq as <-. by apply output_enqueue_write.
  - injection Heq as <-. by rewrite output_handle_close, Hnil, app_nil_r.
  - injection Heq as <-. by rewrite output_read_header, Hnil, app_nil_r.
  - by rewrite (output_read_body _ _ _ _ Heq), Hnil, app_nil_r.
  - by rewrite (output_on_write _ _ _ Hen Heq), Hnil, app_nil_r.
  - unfold on_heartbeat in Heq. destruct ec.
    { injection Heq as <-. by rewrite Hnil, app_nil_r. }
    apply (inv_timer id false) in Hw. simpl in Heq.
    destruct (Z.leb_spec HEARTBEAT_TIMEOUT (now - last_activity_ (session w))).
    { injection Heq as <-. by rewrite output_handle_close, Hnil, app_nil_r. }
    destruct (send_keepalive_spec bp t id _ Hw) as (cap & st & Hst & Hs).
    rewrite Hs in Heq. injection Heq as <-.
    change (output (start_heartbeat ?x)) with (output x).
    rewrite output_enqueue_write by (by apply inv_pools). done.
Qed.
End Fifo.

(** Effects are never taken back. *)
Section Grow.
Context `{VectorAlloc} (bp : BufferPool) (t : ThreadId).
Implicit Types (w : World).

Definition grows w w' : Prop := effects w `prefix_of` effects w'.

Lemma grows_refl w w' : effects w' = effects w → grows w w'.
Proof. unfold grows. by intros ->. Qed.

Lemma grows_trans w1 w2 w3 : grows w1 w2 → grows w2 w3 → grows w1 w3.
Proof. unfold grows. intros. by etrans. Qed.

Lemma grows_handle_close w : grows w (handle_close w).
Proof. unfold handle_close, grows. destruct (closed_ _); [done|]. by eexists. Qed.

Lemma grows_do_write w : grows w (do_write w).
Proof. unfold do_write, grows. destruct (write_queue_ _); [done|]. by eexists. Qed.

Lemma grows_enqueue_write f w : grows w (enqueue_write bp t f w).
Proof.
  unfold enqueue_write, enqueue_frame. destruct (closed_ _); [by apply grows_refl|].
  destruct (_ && _); simpl; [apply (grows_handle_close (release_frame bp t f w))|].
  destruct (negb _); simpl; [|by apply grows_refl].
  apply (grows_do_write (with_session (λ s, set_queue (write_queue_ s ++ [f]) s) w)).
Qed.

Lemma grows_handle i w w' : session_handle bp t i w = Some w' → grows w w'.
Proof.
  destruct i as [f| |now ec h|ec b|ec|now ec]; simpl.
  - intros [= <-]. apply grows_enqueue_write.
  - intros [= <-]. apply grows_handle_close.
  - intros [= <-]. unfold on_read_header.
    destruct ec; [apply (grows_handle_close (with_session _ w))|].
    destruct (decode_header h) as [hd|]; [|apply (grows_handle_close (with_session _ w))].
    by destruct (is_keepalive hd); apply grows_refl.
  - unfold on_read_body. destruct ec; [intros [= <-]; apply (grows_handle_close (with_session _ w))|].
    destruct (acquire _ _ _) as [copy st]. destruct (memcpy _ _ _ _); [|done].
    intros [= <-]. by eexists.
  - unfold on_write. destruct (write_queue_ _) as [|f q]; [done|]. intros [= <-].
    set (w1 := with_session (set_queue q) _). apply (grows_trans _ w1); [by apply grows_refl|].
    destruct ec; [apply grows_handle_close|apply grows_do_write].
  - unfold on_heartbeat. destruct ec; [intros [= <-]; by apply grows_refl|]. destruct (_ <=? _).
    { intros [= <-]. apply (grows_handle_close (with_session _ w)). }
    unfold send_keepalive. destruct (build_keepalive_frame _ _) as [[frame st]|]; [|done].
    intros [= <-]. apply (grows_enqueue_write frame (with_pools st (with_session (set_timer false) w))).
Qed.
End Grow.

(** Handlers do not look at the effects so far. *)
Section Prepend.
Context `{VectorAlloc} (bp : BufferPool) (t : ThreadId).
Implicit Types (w : World).

Definition prepend (es : list SessionEffect) (w : World) : World :=
  mkWorld (session w) (pools w) (es ++ effects w).

Lemma emit_prepend es e w : emit e (prepend es w) = prepend es (emit e w).
Proof. unfold emit, prepend. simpl. by rewrite app_assoc. Qed.

Lemma handle_close_prepend es w : handle_close (prepend es w) = prepend es (handle_close w).
Proof.
  unfold handle_close. simpl. destruct (closed_ (session w)); [done|].
  by rewrite <-emit_prepend.
Qed.

Lemma do_write_prepend es w : do_write (prepend es w) = prepend es (do_write w).
Proof.
  unfold do_write. simpl. destruct (write_queue_ (session w)); [done|].
  by rewrite <-emit_prepend.
Qed.

Lemma enqueue_write_prepend es f w :
  enqueue_write bp t f (prepend es w) = prepend es (enqueue_write bp t f w).
Proof.
  unfold enqueue_write, enqueue_frame. simpl. destruct (closed_ (session w)); [done|].
  destruct (_ <=? _); simpl.
  - apply (handle_close_prepend es (release_frame bp t f w)).
  - destruct (writing_ (session w)); simpl; [done|].
    apply (do_write_prepend es (with_session (λ s, set_queue (write_queue_ s ++ [f]) s) w)).
Qed.

Lemma session_handle_prepend i es w :
  session_handle bp t i (prepend es w) = prepend es <$> session_handle bp t i w.
Proof.
  destruct i as [f| |now ec h|ec b|ec|now ec]; cbn [session_handle].
  - by rewrite enqueue_write_prepend.
  - by rewrite handle_close_prepend.
  - unfold on_read_header. destruct ec.
    { exact (f_equal Some (handle_close_prepend es (with_session (set_read None) w))). }
    destruct (decode_header h) as [hd|]; [|exact (f_equal Some (handle_close_prepend es (with_session (set_read None) w)))].
    by destruct (is_keepalive hd).
  - unfold on_read_body. destruct ec.
    { exact (f_equal Some (handle_close_prepend es (with_session (set_read None) w))). }
    cbn [prepend with_session session pools]. destruct (acquire _ _ _) as [copy st].
    destruct (memcpy _ _ _ _); [|done]. simpl. unfold do_read_header, with_session, emit, prepend.
    simpl. by rewrite app_assoc.
  - unfold on_write. simpl. destruct (write_queue_ (session w)) as [|f q]; [done|]. simpl.
    destruct ec; f_equal;
      [apply (handle_close_prepend es (with_session (set_queue q) (release_frame bp t f
                (with_session (set_write false) w))))
      |apply (do_write_prepend es (with_session (set_queue q) (release_frame bp t f
                (with_session (set_write false) w))))].
  - unfold on_heartbeat. destruct ec; [done|]. simpl. destruct (_ <=? _).
    { exact (f_equal Some (handle_close_prepend es (with_session (set_timer false) w))). }
    unfold send_keepalive. simpl. destruct (build_keepalive_frame _ _) as [[frame st]|]; [|done].
    exact (f_equal (λ w', Some (start_heartbeat w'))
             (enqueue_write_prepend es frame (with_pools st (with_session (set_timer false) w)))).
Qed.
End Prepend.

(** ** Properties *)

(** C17. Session safety.  In every reachable state of a session, whatever
    completes in whatever order: no handler touches memory outside its buffers;
    the close callback has run exactly once if the session is closed and never
    otherwise, always with the session's id, and the socket is open exactly
    while the session is not closed; at most 1024 frames are pending and the
    frame being written is still in the queue; and every payload reported has
    1 to 2048 bytes. *)
Theorem session_safe `{VectorAlloc} (bp : BufferPool) (id now0 : Z) (w : World)
    (Hw : session_reachable bp id now0 w) :
  (∀ t i, enabled i (session w) → is_Some (session_handle bp t i w))
  ∧ closes (effects w) = (if closed_ (session w) then [OnClose id] else [])
  ∧ socket_open (session w) = negb (closed_ (session w))
  ∧ zlen (write_queue_ (session w)) ≤ MAX_PENDING_WRITE_FRAMES
  ∧ (write_op (session w) = true → write_queue_ (session w) ≠ [])
  ∧ Forall (effect_ok id) (effects w).
Proof.
  pose proof (session_reachable_inv bp id now0 w Hw) as Hinv.
  split.
  - intros t i Hen. destruct (session_handle_inv bp t id i w Hinv Hen) as (w' & Heq & _). eauto.
  - destruct Hinv as [[] []]. by split_and!.
Qed.

(** C29. Frames are written in order, each once.  Handling an input extends the
    sequence of frames handed to the socket or waiting for it by exactly the
    frames the input adds (a posted frame or a keepalive; none when the session
    is closed or 1024 frames are pending), and never takes back a frame already
    handed to the socket; an open session is writing whenever a frame waits. *)
Theorem session_fifo `{VectorAlloc} (bp : BufferPool) (t : ThreadId) (id now0 : Z)
    (i : SessionInput) (w w' : World) (Hw : session_reachable bp id now0 w)
    (Hen : enabled i (session w)) (Heq : session_handle bp t i w = Some w') :
  output w' = output w ++ accepted i (session w)
  ∧ started (effects w) `prefix_of` started (effects w')
  ∧ (closed_ (session w') = false → waiting (session w') ≠ [] → write_op (session w') = true).
Proof.
  pose proof (session_reachable_inv bp id now0 w Hw) as Hinv.
  destruct (session_handle_inv bp t id i w Hinv Hen) as (w2 & Heq2 & [_ [Hopen _]]).
  simplify_eq. split_and!.
  - by apply (output_handle bp t id).
  - destruct (grows_handle bp t i w w' Heq) as [es Hes]. rewrite Hes.
    unfold started. rewrite omap_app. by eexists.
  - intros Hc Hwait. destruct (Hopen Hc) as [Hop Hiff]. rewrite Hop.
    destruct (writing_ (session w')) eqn:Hf; [done|]. exfalso. apply Hwait. unfold waiting.
    by rewrite Hop, (proj1 Hiff eq_refl).
Qed.

(** ** What a sender puts on the wire *)

(** Payloads that are sent, and the frame of one. *)
Definition sendable (data : bytes) : bool :=
  negb ((zlen data =? 0) || (MAX_PAYLOAD_SIZE <? zlen data)).

Definition data_frame (data : bytes) : bytes := header_bytes 0 (zlen data) ++ data.

Lemma frame_fits payload :
  zlen payload ≤ MAX_PAYLOAD_SIZE → zlen (header_bytes 0 (zlen payload) ++ payload) ≤ BLOCK_SIZE.
Proof.
  intros Hp. rewrite zlen_app. unfold zlen at 1. rewrite length_header_bytes.
  unfold BLOCK_SIZE, HEADER_SIZE in *. lia.
Qed.

Lemma sendable_fits data : sendable data = true → zlen (data_frame data) ≤ BLOCK_SIZE.
Proof.
  unfold sendable, data_frame. intros Hp. apply frame_fits.
  destruct (Z.ltb_spec MAX_PAYLOAD_SIZE (zlen data)); [|done]. by rewrite orb_true_r in Hp.
Qed.

Definition keepalive_bytes : bytes := header_bytes FLAG_KEEPALIVE 0.

(** All frames but keepalives. *)
Definition data_only (fs : list bytes) : list bytes :=
  List.filter (λ f, bool_decide (f ≠ keepalive_bytes)) fs.

Arguments keepalive_bytes : simpl never.
Arguments data_only : simpl never.

Lemma data_only_app fs gs : data_only (fs ++ gs) = data_only fs ++ data_only gs.
Proof. apply List.filter_app. Qed.

Lemma data_frame_not_keepalive data : data_frame data ≠ keepalive_bytes.
Proof. unfold data_frame, keepalive_bytes, header_bytes. by intros [=]. Qed.

Lemma data_only_frame data : data_only [data_frame data] = [data_frame data].
Proof.
  unfold data_only. cbn [List.filter].
  by rewrite bool_decide_true by apply data_frame_not_keepalive.
Qed.

Lemma build_data_spec `{VectorAlloc} t data st :
  pool_wf st → sendable data = true →
  ∃ cap st', build_data_frame t data st = Some (mkBuffer (data_frame data) cap, st') ∧ pool_wf st'.
Proof.
  intros Hst Hp. unfold sendable in Hp. apply negb_true_iff, orb_false_iff in Hp as [Hz Hm].
  unfold build_data_frame. rewrite Hz. apply build_frame_spec; [done|]. by apply Z.ltb_ge.
Qed.

(** ** Reading a byte stream *)

(** The payloads reported so far. *)
Definition received (es : list SessionEffect) : list bytes :=
  omap (λ e, match e with OnReceive _ data => Some (buf_data data) | _ => None end) es.

Section Stream.
Context `{VectorAlloc} (t : ThreadId).

(** The read chain on the bytes that have arrived: a read completes when its
    buffer can be filled.  Every completed read consumes at least one byte
    (a header 8, a body at least 1), so [length bs] steps are enough. *)
Fixpoint feed (fuel : nat) (now : Z) (bs : bytes) (w : World) : option (World * bytes) :=
  match fuel with
  | O => Some (w, bs)
  | S fuel =>
      match read_op (session w) with
      | None => Some (w, bs)
      | Some ReadHeader =>
          if zlen bs <? HEADER_SIZE then Some (w, bs)
          else feed fuel now (drop (Z.to_nat HEADER_SIZE) bs)
                 (on_read_header now false (take (Z.to_nat HEADER_SIZE) bs) w)
      | Some ReadBody =>
          let n := zlen (buf_data (body_buf_ (session w))) in
          if zlen bs <? n then Some (w, bs)
          else
            w ← on_read_body t false (take (Z.to_nat n) bs) w;
            feed fuel now (drop (Z.to_nat n) bs) w
      end
  end.

(** The bytes a sender puts on the wire for a payload ([Some p]) or a
    keepalive ([None]), built on any thread's pool. *)
Inductive wire_frame : option bytes → bytes → Prop :=
  | wire_data t' p st frame st' :
      pool_wf st → 1 ≤ zlen p ≤ MAX_PAYLOAD_SIZE → wf_bytes p →
      build_data_frame t' p st = Some (frame, st') → wire_frame (Some p) (buf_data frame)
  | wire_keepalive t' st frame st' :
      pool_wf st → build_keepalive_frame t' st = Some (frame, st') →
      wire_frame None (buf_data frame).

Lemma wire_frame_bytes o bs :
  wire_frame o bs →
  bs = match o with
       | Some p => header_bytes 0 (zlen p) ++ p
       | None => header_bytes FLAG_KEEPALIVE 0 end
  ∧ from_option (λ p, 1 ≤ zlen p ≤ MAX_PAYLOAD_SIZE ∧ wf_bytes p) True o.
Proof.
  destruct 1 as [t' p st frame st' Hst Hp Hwf Hb|t' st frame st' Hst Hb].
  - split; [|done]. unfold build_data_frame in Hb.
    destruct (Z.eqb_spec (zlen p) 0); [lia|].
    destruct (build_frame_spec t' 0 p st Hst) as (cap & st2 & Heq & _); [lia|].
    rewrite Heq in Hb. by simplify_eq.
  - split; [|done]. unfold build_keepalive_frame in Hb.
    destruct (build_frame_spec t' FLAG_KEEPALIVE [] st Hst) as (cap & st2 & Heq & _); [done|].
    rewrite Heq in Hb. by simplify_eq.
Qed.

(** Reading one header of each kind. *)
Lemma read_data_header now n w :
  1 ≤ n ≤ MAX_PAYLOAD_SIZE →
  on_read_header now false (header_bytes 0 n) w
  = w |> with_session (set_read None) |> with_session (set_activity now)
      |> with_session (λ s, set_body (resize n (body_buf_ s)) s) |> do_read_body.
Proof.
  unfold MAX_PAYLOAD_SIZE. intros Hn. unfold on_read_header.
  rewrite <-(app_nil_r (header_bytes 0 n)), decode_header_bytes by (unfold in_range; lia).
  rewrite decide_True; [done|]. do 2 (split; [done|]). left. simpl. unfold MAX_PAYLOAD_SIZE. lia.
Qed.

Lemma read_keepalive now w :
  on_read_header now false (header_bytes FLAG_KEEPALIVE 0) w
  = w |> with_session (set_read None) |> with_session (set_activity now) |> do_read_header.
Proof.
  unfold on_read_header.
  rewrite <-(app_nil_r (header_bytes FLAG_KEEPALIVE 0)), decode_header_bytes by done.
  by rewrite decide_True by (by vm_compute; auto).
Qed.

(** A session waiting for a header. *)
Definition awaiting (w : World) : Prop :=
  pool_wf (pools w) ∧ read_op (session w) = Some ReadHeader.

Lemma feed_header fuel now f n rest w :
  read_op (session w) = Some ReadHeader →
  feed (S fuel) now (header_bytes f n ++ rest) w
  = feed fuel now rest (on_read_header now false (header_bytes f n) w).
Proof.
  intros Hop. cbn [feed]. rewrite Hop. unfold zlen. rewrite length_app, length_header_bytes.
  destruct (Z.ltb_spec (Z.of_nat (8 + length rest)) HEADER_SIZE); [unfold HEADER_SIZE in *; lia|].
  change (Z.to_nat HEADER_SIZE) with 8%nat.
  by rewrite take_app_length', drop_app_length' by done.
Qed.

Lemma feed_body fuel now p rest w :
  read_op (session w) = Some ReadBody → zlen (buf_data (body_buf_ (session w))) = zlen p →
  feed (S fuel) now (p ++ rest) w
  = w' ← on_read_body t false p w; feed fuel now rest w'.
Proof.
  intros Hop Hlen. cbn [feed]. rewrite Hop, Hlen, zlen_app. pose proof (zlen_nonneg rest).
  destruct (Z.ltb_spec (zlen p + zlen rest) (zlen p)); [lia|].
  replace (Z.to_nat (zlen p)) with (length p) by (unfold zlen; lia).
  by rewrite take_app_length, drop_app_length.
Qed.

Definition is_report (e : SessionEffect) : Prop :=
  match e with OnReceive _ _ => True | _ => False end.

(** One frame. *)
Lemma feed_frame fuel now o bs rest w :
  awaiting w → wire_frame o bs →
  ∃ fuel' w' es, feed (S (S fuel)) now (bs ++ rest) w = feed fuel' now rest w'
    ∧ (fuel ≤ fuel')%nat ∧ awaiting w'
    ∧ effects w' = effects w ++ es ∧ received es = from_option (λ p, [p]) [] o
    ∧ waiting (session w') = waiting (session w) ∧ Forall is_report es.
Proof.
  intros [Hst Hop] Hframe. apply wire_frame_bytes in Hframe as [-> Ho].
  destruct o as [p|].
  - destruct Ho as [Hp _]. rewrite <-app_assoc, feed_header, read_data_header by done.
    rewrite feed_body; [|done|].
    2:{ apply length_resize. lia. }
    destruct (on_read_body_spec t p (w |> with_session (set_read None)
      |> with_session (set_activity now)
      |> with_session (λ s, set_body (resize (zlen p) (body_buf_ s)) s) |> do_read_body))
      as (cap & st & w' & -> & Hst' & ->); [done|lia|].
    simpl. eexists fuel, _, [_]. split_and!; try done. by repeat constructor.
  - rewrite feed_header, read_keepalive by done.
    eexists (S fuel), _, []. split_and!; try done; [lia|]. simpl. by rewrite app_nil_r.
Qed.

(** A sequence of frames. *)
Lemma feed_frames now items frames w :
  awaiting w → Forall2 wire_frame items frames →
  ∀ fuel, (2 * length frames ≤ fuel)%nat →
  ∃ w' es, feed fuel now (mjoin frames) w = Some (w', []) ∧ awaiting w'
    ∧ effects w' = effects w ++ es ∧ received es = omap (λ o : option bytes, o) items
    ∧ Forall is_report es ∧ waiting (session w') = waiting (session w).
Proof.
  intros Hw Hframes. revert w Hw.
  induction Hframes as [|o bs items frames Hframe _ IH]; intros w Hw fuel Hfuel.
  - exists w, []. split_and!; try done; [|by rewrite app_nil_r].
    destruct fuel; simpl; [done|]. destruct Hw as [_ ->]. done.
  - destruct fuel as [|[|fuel]]; simpl in Hfuel; [lia..|]. simpl mjoin.
    destruct (feed_frame fuel now o bs (mjoin frames) w Hw Hframe)
      as (fuel' & w1 & es1 & -> & Hle & Hw1 & He1 & Hr1 & Hwait1 & Hall1).
    destruct (IH w1 Hw1 fuel') as (w2 & es2 & -> & Hw2 & He2 & Hr2 & Hall2 & Hwait2); [lia|].
    exists w2, (es1 ++ es2). split_and!; try done.
    + by rewrite He2, He1, app_assoc.
    + unfold received in *. rewrite omap_app, Hr1, Hr2. by destruct o.
    + by apply Forall_app.
    + congruence.
Qed.

Lemma report_quiet es : Forall is_report es → started es = [] ∧ closes es = [].
Proof. induction 1 as [|[] es Hr _ [IH1 IH2]]; done. Qed.
End Stream.

(** C13. Stream round trip.  A session waiting for a header that receives the
    concatenation of frames built by any sender (data frames of 1 to 2048
    bytes and keepalives, in any order) reports exactly the payloads, in order,
    consumes every byte and waits for a header again; it writes nothing and
    stays open. *)
Theorem stream_roundtrip `{VectorAlloc} (bp : BufferPool) (t : ThreadId) (id now0 now : Z)
    (w : World) (items : list (option bytes)) (frames : list bytes)
    (Hw : session_reachable bp id now0 w) (Hop : read_op (session w) = Some ReadHeader)
    (Hframes : Forall2 wire_frame items frames) :
  ∃ w', feed t (2 * length frames) now (mjoin frames) w = Some (w', [])
    ∧ read_op (session w') = Some ReadHeader
    ∧ received (effects w') = received (effects w) ++ omap (λ o : option bytes, o) items
    ∧ output w' = output w ∧ closes (effects w') = closes (effects w).
Proof.
  pose proof (session_reachable_inv bp id now0 w Hw) as [Hb _].
  destruct (feed_frames t now items frames w) with (fuel := (2 * length frames)%nat)
    as (w' & es & Hfeed & [_ Hop'] & He & Hr & Hall & Hwait); [by split; [apply Hb|]|done|done|].
  destruct (report_quiet es Hall) as [Hs Hc].
  exists w'. split_and!; [done|done|..].
  - unfold received in *. by rewrite He, omap_app, Hr.
  - unfold output, started in *. by rewrite Hwait, He, omap_app, Hs, app_nil_r.
  - by rewrite He, closes_app, Hc, app_nil_r.
Qed.

Section Heartbeat.
Context `{VectorAlloc} (bp : BufferPool) (t : ThreadId) (id : Z).

(** Consecutive expirations of the heartbeat timer, with nothing else between. *)
Definition heartbeats (nows : list Z) (w : World) : option World :=
  foldl (λ ow now, w ← ow; on_heartbeat bp t now false w) (Some w) nows.

Lemma enqueue_room frame w :
  closed_ (session w) = false → zlen (write_queue_ (session w)) < MAX_PENDING_WRITE_FRAMES →
  let w' := enqueue_write bp t frame w in
  closed_ (session w') = false ∧ last_activity_ (session w') = last_activity_ (session w)
  ∧ zlen (write_queue_ (session w')) = zlen (write_queue_ (session w)) + 1.
Proof.
  intros Hc Hroom. unfold enqueue_write, enqueue_frame. rewrite Hc. simpl.
  destruct (Z.leb_spec MAX_PENDING_WRITE_FRAMES (zlen (write_queue_ (session w)))); [lia|].
  simpl. destruct (writing_ (session w)); simpl.
  - by rewrite zlen_app.
  - unfold do_write. simpl. destruct (write_queue_ (session w)) eqn:Hq; simpl; rewrite ?Hq;
      split_and!; try done. simpl. rewrite app_comm_cons, zlen_app. done.
Qed.

(** One expiration before the deadline. *)
Lemma heartbeat_early now w :
  session_inv id w → closed_ (session w) = false →
  zlen (write_queue_ (session w)) < MAX_PENDING_WRITE_FRAMES →
  now - last_activity_ (session w) < HEARTBEAT_TIMEOUT →
  ∃ w', on_heartbeat bp t now false w = Some w' ∧ session_inv id w'
    ∧ closed_ (session w') = false ∧ timer_op (session w') = true
    ∧ last_activity_ (session w') = last_activity_ (session w)
    ∧ zlen (write_queue_ (session w')) = zlen (write_queue_ (session w)) + 1
    ∧ output w' = output w ++ [header_bytes FLAG_KEEPALIVE 0].
Proof.
  intros Hw Hc Hroom Hnow. unfold on_heartbeat.
  apply (inv_timer id false) in Hw. simpl.
  destruct (Z.leb_spec HEARTBEAT_TIMEOUT (now - last_activity_ (session w))); [lia|].
  destruct (send_keepalive_spec bp t id _ Hw) as (cap & st & Hst & ->). simpl.
  eexists. split; [done|]. apply (inv_pools id st) in Hw; [|done].
  pose proof (enqueue_room (mkBuffer (header_bytes FLAG_KEEPALIVE 0) cap) _ Hc Hroom) as He.
  destruct (enqueue_room (mkBuffer (header_bytes FLAG_KEEPALIVE 0) cap)
    (with_pools st (with_session (set_timer false) w)) Hc Hroom) as (Hc' & Ha & Hq).
  split_and!; [by apply inv_timer, inv_enqueue_write|done..|].
  change (output (start_heartbeat ?x)) with (output x).
  rewrite (output_enqueue_write bp t id) by done. unfold accepts. simpl. rewrite Hc. simpl.
  by destruct (Z.ltb_spec (zlen (write_queue_ (session w))) MAX_PENDING_WRITE_FRAMES); [|lia].
Qed.

Lemma heartbeats_snoc nows now w :
  heartbeats (nows ++ [now]) w = w' ← heartbeats nows w; on_heartbeat bp t now false w'.
Proof. unfold heartbeats. by rewrite foldl_app. Qed.

Lemma heartbeats_early nows w :
  session_inv id w → closed_ (session w) = false → timer_op (session w) = true →
  zlen (write_queue_ (session w)) + zlen nows ≤ MAX_PENDING_WRITE_FRAMES →
  Forall (λ now, now - last_activity_ (session w) < HEARTBEAT_TIMEOUT) nows →
  ∃ w', heartbeats nows w = Some w' ∧ session_inv id w'
    ∧ closed_ (session w') = false ∧ timer_op (session w') = true
    ∧ last_activity_ (session w') = last_activity_ (session w)
    ∧ zlen (write_queue_ (session w')) = zlen (write_queue_ (session w)) + zlen nows
    ∧ output w' = output w ++ replicate (length nows) (header_bytes FLAG_KEEPALIVE 0).
Proof.
  intros Hw Hc Ht. induction nows as [|now nows IH] using rev_ind; intros Hroom Hall.
  - exists w. unfold zlen. simpl. rewrite app_nil_r. split_and!; try done. lia.
  - apply Forall_app in Hall as [Hall [Hnow _]%Forall_cons].
    rewrite zlen_app in Hroom. change (zlen [now]) with 1 in Hroom.
    destruct IH as (w1 & Heq & Hw1 & Hc1 & Ht1 & Ha1 & Hq1 & Ho1); [lia|done|].
    destruct (heartbeat_early now w1 Hw1 Hc1) as (w2 & Heq2 & Hw2 & Hc2 & Ht2 & Ha2 & Hq2 & Ho2);
      [lia|by rewrite Ha1|].
    exists w2. rewrite heartbeats_snoc, Heq. simpl.
    split_and!; [done|done|done|done|congruence|rewrite zlen_app; change (zlen [now]) with 1; lia|].
    rewrite Ho2, Ho1, <-app_assoc, length_app, replicate_add. done.
Qed.
End Heartbeat.

(** C32. Heartbeat.  As long as the timer of an open session expires less than 15
    seconds after its last activity (and the write queue has room), each
    expiration sends one keepalive and re-arms the timer; at the first
    expiration 15 seconds or more after the last activity, the session is
    closed. *)
Theorem heartbeat_timeout `{VectorAlloc} (bp : BufferPool) (t : ThreadId) (id now0 : Z)
    (w : World) (nows : list Z) (late : Z) (Hw : session_reachable bp id now0 w)
    (Hopen : closed_ (session w) = false) (Htimer : timer_op (session w) = true)
    (Hroom : zlen (write_queue_ (session w)) + zlen nows ≤ MAX_PENDING_WRITE_FRAMES)
    (Hearly : Forall (λ now, now - last_activity_ (session w) < HEARTBEAT_TIMEOUT) nows)
    (Hlate : HEARTBEAT_TIMEOUT ≤ late - last_activity_ (session w)) :
  ∃ w1 w2, heartbeats bp t nows w = Some w1
    ∧ closed_ (session w1) = false ∧ timer_op (session w1) = true
    ∧ output w1 = output w ++ replicate (length nows) (header_bytes FLAG_KEEPALIVE 0)
    ∧ on_heartbeat bp t late false w1 = Some w2
    ∧ closed_ (session w2) = true ∧ timer_op (session w2) = false
    ∧ effects w2 = effects w1 ++ [OnClose id].
Proof.
  pose proof (session_reachable_inv bp id now0 w Hw) as Hinv.
  destruct (heartbeats_early bp t id nows w) as (w1 & Heq & Hw1 & Hc1 & Ht1 & Ha1 & _ & Ho1);
    [done..|].
  exists w1. unfold on_heartbeat. simpl. rewrite Ha1.
  destruct (Z.leb_spec HEARTBEAT_TIMEOUT (late - last_activity_ (session w))); [|lia].
  eexists. split_and!; try done; unfold handle_close; simpl; rewrite Hc1; simpl; [done..|].
  by rewrite (sb_id id w1 (proj1 Hw1)).
Qed.

(** ** Witnesses: a session just started *)

Section Witnesses.
#[local] Existing Instance exact_alloc.

Definition example_pool : BufferPool := mkBufferPool 64.

Definition started_world : World :=
  session_start (mkWorld (session_create 7 1000) ∅ []).

Lemma started_world_reachable : session_reachable example_pool 7 1000 started_world.
Proof. apply reach_start, pool_wf_empty. Qed.

Lemma session_safe_witness :
  is_Some (session_handle example_pool 0 (InHeader 1500 true []) started_world)
  ∧ closes (effects started_world) = [].
Proof.
  destruct (session_safe example_pool 7 1000 started_world started_world_reachable)
    as (Hsome & Hcloses & _).
  split; [|exact Hcloses]. apply Hsome. split; [reflexivity|discriminate].
Defined.

Lemma session_fifo_witness :
  output (enqueue_write example_pool 0 (mkBuffer [1; 2; 3] BLOCK_SIZE) started_world)
  = [[1; 2; 3]].
Proof.
  destruct (session_fifo example_pool 0 7 1000 (InEnqueue (mkBuffer [1; 2; 3] BLOCK_SIZE))
              started_world _ started_world_reachable I eq_refl) as [H _].
  exact H.
Defined.

Lemma stream_roundtrip_witness :
  ∃ w', feed 0 4 2000 (header_bytes 0 2 ++ [8; 9] ++ header_bytes 1 0) started_world
        = Some (w', [])
    ∧ received (effects w') = [[8; 9]].
Proof.
  destruct (stream_roundtrip example_pool 0 7 1000 2000 started_world [Some [8; 9]; None]
              [header_bytes 0 2 ++ [8; 9]; header_bytes 1 0] started_world_reachable)
    as (w' & Hfeed & _ & Hr & _).
  - reflexivity.
  - constructor.
    { apply (wire_data 0 [8; 9] ∅ (mkBuffer (header_bytes 0 2 ++ [8; 9]) BLOCK_SIZE) ∅).
      - apply pool_wf_empty.
      - by_compute.
      - repeat (constructor; [by_compute|]). constructor.
      - reflexivity. }
    constructor; [|constructor].
    apply (wire_keepalive 0 ∅ (mkBuffer (header_bytes 1 0) BLOCK_SIZE) ∅);
      [apply pool_wf_empty|reflexivity].
  - exists w'. split; [exact Hfeed|]. rewrite Hr. reflexivity.
Defined.

Lemma heartbeat_timeout_witness :
  ∃ w1 w2, heartbeats example_pool 0 [6000; 11000] started_world = Some w1
    ∧ on_heartbeat example_pool 0 16000 false w1 = Some w2 ∧ closed_ (session w2) = true.
Proof.
  destruct (heartbeat_timeout example_pool 0 7 1000 started_world [6000; 11000] 16000
              started_world_reachable) as (w1 & w2 & H1 & _ & _ & _ & H2 & Hc & _).
  - reflexivity.
  - reflexivity.
  - by_compute.
  - repeat (constructor; [by_compute|]). constructor.
  - by_compute.
  - exists w1, w2. auto.
Defined.
End Witnesses.
