(* ===== verification/StreamPosition.v ===== *)
(** * Where a reader is in a stream of frames

    A session and a client read in the same way: a header of 8 bytes, then the
    payload it announces, then the next header.  [at_stream] says how far a
    reader is in the bytes of the frames its peer has written, and what payloads
    it has reported; it holds however the bytes arrive, as long as those read so
    far are the first bytes of the stream.  The frames may grow meanwhile. *)

From S2P Require Import Prelude Protocol BufferPool TransportDetail Session.

(** ** Frames *)

(** What a sender writes: keepalives, and frames of payloads of 1 to 2048 bytes. *)
Definition good_frame (f : bytes) : Prop :=
  f = keepalive_bytes ∨ ∃ p, f = data_frame p ∧ sendable p = true ∧ wf_bytes p.

Definition payload_of (f : bytes) : option bytes :=
  if decide (f = keepalive_bytes) then None else Some (drop 8 f).

(** The payloads of a list of frames. *)
Definition payloads (frames : list bytes) : list bytes := omap payload_of frames.

Arguments payloads : simpl never.

Lemma payloads_app l k : payloads (l ++ k) = payloads l ++ payloads k.
Proof. apply omap_app. Qed.

Lemma payload_of_data p : payload_of (data_frame p) = Some p.
Proof. unfold payload_of. by rewrite decide_False by apply data_frame_not_keepalive. Qed.

Lemma payloads_one f : payloads [f] = option_list (payload_of f).
Proof. unfold payloads. cbn [omap list_omap]. by destruct (payload_of f). Qed.

Lemma payloads_data p : payloads [data_frame p] = [p].
Proof. by rewrite payloads_one, payload_of_data. Qed.

Lemma payloads_keepalive : payloads [keepalive_bytes] = [].
Proof. rewrite payloads_one. unfold payload_of. by rewrite decide_True. Qed.

Lemma sendable_size p : sendable p = true → 1 ≤ zlen p ≤ MAX_PAYLOAD_SIZE.
Proof.
  unfold sendable. intros [Hz Hm]%negb_true_iff%orb_false_iff.
  apply Z.eqb_neq in Hz. apply Z.ltb_ge in Hm. pose proof (zlen_nonneg p). lia.
Qed.

Lemma length_keepalive : length keepalive_bytes = 8%nat.
Proof. apply length_header_bytes. Qed.

Lemma good_frame_header f : good_frame f → ∃ h body, f = h ++ body ∧ length h = 8%nat.
Proof.
  intros [->|(p & -> & _)]; [exists keepalive_bytes, []; by rewrite app_nil_r, length_keepalive|].
  exists (header_bytes 0 (zlen p)), p. split; [done|apply length_header_bytes].
Qed.

(** The payloads of good frames, and frames whose data frames are those of [ps]. *)
Lemma payloads_of_data frames ps :
  Forall good_frame frames → data_only frames = data_frame <$> ps → payloads frames = ps.
Proof.
  intros Hgood. revert ps. induction Hgood as [|f frames Hf _ IH]; intros ps Heq.
  - by destruct ps.
  - change (f :: frames) with ([f] ++ frames) in *. rewrite data_only_app in Heq.
    rewrite payloads_app. destruct Hf as [->|(p & -> & _)].
    + rewrite payloads_keepalive. by apply IH.
    + rewrite data_only_frame in Heq. destruct ps as [|p' ps]; [done|].
      pose proof (f_equal (hd []) Heq) as E. apply (f_equal (@tl _)) in Heq.
      cbn [hd tl fmap list_fmap app] in E, Heq. assert (p' = p) as ->.
      { apply (f_equal payload_of) in E. rewrite !payload_of_data in E. congruence. }
      rewrite payloads_data. by rewrite (IH ps Heq).
Qed.

Lemma good_frames_of_data frames ps :
  Forall (λ p, sendable p = true ∧ wf_bytes p) ps → data_only frames `prefix_of` (data_frame <$> ps) →
  Forall good_frame frames.
Proof.
  intros Hps [rest Heq]. apply Forall_forall. intros f Hf.
  destruct (decide (f = keepalive_bytes)) as [->|Hne]; [by left|right].
  assert (f ∈ data_frame <$> ps) as (p & -> & Hp)%list_elem_of_fmap.
  { rewrite Heq. apply elem_of_app. left. unfold data_only.
    apply list_elem_of_In, filter_In. split; [by apply list_elem_of_In|]. by apply bool_decide_true. }
  exists p. split; [done|]. by apply (proj1 (Forall_forall _ _) Hps p).
Qed.

Lemma payloads_prefix frames ps :
  Forall good_frame frames → data_only frames `prefix_of` (data_frame <$> ps) → payloads frames `prefix_of` ps.
Proof.
  intros Hgood [rest Heq].
  assert (data_only frames = data_frame <$> take (length (data_only frames)) ps) as Ht
    by (rewrite fmap_take, Heq; by rewrite take_app_length).
  rewrite (payloads_of_data frames _ Hgood Ht). apply prefix_take.
Qed.

Lemma join_snoc (frames : list bytes) f : mjoin (frames ++ [f]) = mjoin frames ++ f.
Proof. rewrite join_app. f_equal. apply app_nil_r. Qed.

(** ** Positions *)

(** [op] is the read in flight, [size] the size of its body, [consumed] the bytes
    read, [got] the payloads reported. *)
Inductive at_stream (frames : list bytes) :
    option ReadOp → Z → bytes → list bytes → Prop :=
  | at_header before after size :
      frames = before ++ after →
      at_stream frames (Some ReadHeader) size (mjoin before) (payloads before)
  | at_body before p after :
      frames = before ++ data_frame p :: after →
      at_stream frames (Some ReadBody) (zlen p) (mjoin before ++ take 8 (data_frame p)) (payloads before)
  | at_end before after size consumed :
      frames = before ++ after → at_stream frames None size consumed (payloads before).

(** Nothing has been read. *)
Lemma at_start frames size : at_stream frames (Some ReadHeader) size [] [].
Proof. by apply (at_header frames [] frames). Qed.

(** The peer writes. *)
Lemma at_grow frames more op size consumed got :
  at_stream frames op size consumed got → at_stream (frames ++ more) op size consumed got.
Proof.
  destruct 1 as [before after size ->|before p after ->|before after size consumed ->];
    rewrite <-app_assoc; by econstructor.
Qed.

(** The reader stops. *)
Lemma at_stop frames op size consumed got size' consumed' :
  at_stream frames op size consumed got → at_stream frames None size' consumed' got.
Proof. destruct 1; by econstructor. Qed.

Lemma at_got frames op size consumed got :
  at_stream frames op size consumed got → got `prefix_of` payloads frames.
Proof.
  destruct 1 as [before after size ->|before p after ->|before after size consumed ->];
    rewrite payloads_app; apply prefix_app_r; reflexivity.
Qed.

Lemma at_size frames op size size' consumed got :
  op ≠ Some ReadBody → at_stream frames op size consumed got → at_stream frames op size' consumed got.
Proof. intros Hop. destruct 1; [by econstructor|done|by econstructor]. Qed.

(** The first bytes of a frame. *)
Lemma next_frame before rest h :
  mjoin before ++ h `prefix_of` mjoin (before ++ rest) → Forall good_frame rest → length h = 8%nat →
  ∃ f after, rest = f :: after ∧ good_frame f ∧ h = take 8 f.
Proof.
  rewrite join_app. intros Hpre%prefix_app_inv Hgood Hh. destruct rest as [|f after].
  { apply prefix_nil_inv in Hpre as ->. done. }
  apply Forall_cons in Hgood as [Hf _]. exists f, after. split_and!; [done|done|].
  destruct (good_frame_header f Hf) as (h' & body & -> & Hh').
  destruct Hpre as [more Heq]. csimpl in Heq. rewrite <-!app_assoc in Heq.
  apply app_inj_1 in Heq as [-> _]; [|congruence]. by rewrite take_app_length'.
Qed.

(** A header is read: a keepalive, or that of a payload. *)
Lemma at_read_header frames size consumed got h :
  Forall good_frame frames → at_stream frames (Some ReadHeader) size consumed got →
  consumed ++ h `prefix_of` mjoin frames → length h = 8%nat →
  h = keepalive_bytes ∧ at_stream frames (Some ReadHeader) size (consumed ++ h) got
  ∨ ∃ n, h = header_bytes 0 n ∧ 1 ≤ n ≤ MAX_PAYLOAD_SIZE
      ∧ at_stream frames (Some ReadBody) n (consumed ++ h) got.
Proof.
  intros Hgood Hat Hpre Hh. inversion Hat as [before after size' Heq E1 E2 E3| |]; subst.
  apply Forall_app in Hgood as [_ Hgood].
  destruct (next_frame before after h Hpre Hgood Hh) as (f & rest & -> & [->|(p & -> & Hp & _)] & ->).
  - left. change (take 8 keepalive_bytes) with keepalive_bytes. split; [done|].
    rewrite <-(app_nil_r (payloads before)), <-payloads_keepalive, <-payloads_app.
    assert (mjoin before ++ keepalive_bytes = mjoin (before ++ [keepalive_bytes])) as ->
      by (by rewrite join_snoc).
    apply (at_header _ _ rest). by rewrite <-app_assoc.
  - right. exists (zlen p). split_and!; [done|apply sendable_size; done..|by apply (at_body _ _ _ rest)].
Qed.

(** A payload is read. *)
Lemma at_read_body frames size consumed got b :
  at_stream frames (Some ReadBody) size consumed got →
  consumed ++ b `prefix_of` mjoin frames → zlen b = size →
  at_stream frames (Some ReadHeader) size (consumed ++ b) (got ++ [b]).
Proof.
  intros Hat Hpre Hb. inversion Hat as [|before p after Heq E1 E2 E3|]; subst.
  assert (b = p) as ->.
  { rewrite join_app, <-app_assoc in Hpre. apply prefix_app_inv in Hpre as [more Heq].
    change (mjoin (data_frame p :: after)) with ((header_bytes 0 (zlen p) ++ p) ++ mjoin after) in Heq.
    change (take 8 (data_frame p)) with (header_bytes 0 (zlen p)) in Heq. rewrite <-!app_assoc in Heq.
    apply app_inv_head in Heq. apply app_inj_1 in Heq as [-> _]; [done|].
    unfold zlen in *. lia. }
  rewrite <-payloads_data, <-payloads_app.
  assert ((mjoin before ++ take 8 (data_frame p)) ++ p = mjoin (before ++ [data_frame p])) as ->.
  { by rewrite join_snoc, <-app_assoc. }
  apply (at_header _ _ after). by rewrite <-app_assoc.
Qed.

(** Everything has been read. *)
Lemma at_all frames size got :
  Forall good_frame frames → at_stream frames (Some ReadHeader) size (mjoin frames) got →
  got = payloads frames.
Proof.
  intros Hgood Hat. remember (mjoin frames) as all eqn:E2.
  inversion Hat as [before after size' Heq| |]; subst.
  match goal with H : mjoin _ = mjoin _ |- _ => rename H into E2 end.
  rewrite join_app in E2. rewrite <-(app_nil_r (mjoin before)) in E2 at 1. apply app_inv_head in E2.
  destruct after as [|f after]; [by rewrite app_nil_r|].
  apply Forall_app in Hgood as [_ [Hf _]%Forall_cons].
  destruct (good_frame_header f Hf) as (h & body & -> & Hh). csimpl in E2. by destruct h.
Qed.
