(* ===== verification/Server.v ===== *)
(** * NightNetwork/Server.h, Server.cpp: the transport server

    The server owns the accept loop, the table of sessions and the packet queue
    towards the game thread.  Handlers posted to [server_strand] run one at a
    time in the order they were posted, and so do the tasks posted to one
    session's strand; everything else interleaves freely, so a run is a
    sequence of inputs ([ServerInput]): calls of the game thread, handlers of
    the server strand, handlers of a session strand, completions.

    A session object outlives its entry in [sessions] (the handlers in flight
    share its ownership), so objects have numbers of their own and [sessions]
    maps ids to objects.  [packet_log] and [wire] are history variables the code
    does not have: every call of [push_packet] with its outcome, and every frame
    handed to a socket.

    [boost::lockfree::queue] with [capacity<8192>] is a bounded FIFO queue (a
    push fails when it holds 8192 elements); asio's strands run the functions
    posted to them one at a time, in the order they were posted.  Handlers are
    atomic: what handlers of different strands share is the packet queue, the
    strands' queues, per-thread pools and atomics, each operation of which is
    atomic by itself. *)

From S2P Require Import Prelude Protocol BufferPool TransportDetail Session Packet.

Definition PACKET_QUEUE_CAPACITY : Z := 8192.

Inductive ServerTask :=
  | TaskSend (session_id : Z) (frame : Buffer)
  | TaskBroadcast (frame_template : Buffer)
  | TaskDisconnect (session_id : Z)
  | TaskErase (session_id : Z)
  | TaskShutdown.

Inductive PushResult := Queued | QueueFull | Refused.

#[export] Instance PushResult_eq_dec : EqDecision PushResult.
Proof. solve_decision. Defined.

Record ServerImpl := mkServerImpl {
  next_id : Z;
  sessions : gmap Z nat;
  packet_queue : list Packet;
  dropped_packets : Z;
  shutting_down : bool;
  server_strand : list ServerTask;
  accepting : bool;
  stopped : bool;
  objects : gmap nat Session;
  strands : gmap nat (list SessionInput);
  next_object : nat;
  all_pools : PoolStore;
  packet_log : list (Packet * PushResult);
  wire : list (nat * bytes);
}.

(** ** Member updates *)

Definition set_sessions (m : gmap Z nat) (sv : ServerImpl) : ServerImpl :=
  mkServerImpl (next_id sv) m (packet_queue sv) (dropped_packets sv) (shutting_down sv)
    (server_strand sv) (accepting sv) (stopped sv) (objects sv) (strands sv) (next_object sv)
    (all_pools sv) (packet_log sv) (wire sv).
Definition set_packets (q : list Packet) (sv : ServerImpl) : ServerImpl :=
  mkServerImpl (next_id sv) (sessions sv) q (dropped_packets sv) (shutting_down sv)
    (server_strand sv) (accepting sv) (stopped sv) (objects sv) (strands sv) (next_object sv)
    (all_pools sv) (packet_log sv) (wire sv).
Definition count_dropped (sv : ServerImpl) : ServerImpl :=
  mkServerImpl (next_id sv) (sessions sv) (packet_queue sv) (to_u64 (dropped_packets sv + 1))
    (shutting_down sv) (server_strand sv) (accepting sv) (stopped sv) (objects sv) (strands sv)
    (next_object sv) (all_pools sv) (packet_log sv) (wire sv).
Definition set_shutting_down (sv : ServerImpl) : ServerImpl :=
  mkServerImpl (next_id sv) (sessions sv) (packet_queue sv) (dropped_packets sv) true
    (server_strand sv) (accepting sv) (stopped sv) (objects sv) (strands sv) (next_object sv)
    (all_pools sv) (packet_log sv) (wire sv).
Definition set_strand (q : list ServerTask) (sv : ServerImpl) : ServerImpl :=
  mkServerImpl (next_id sv) (sessions sv) (packet_queue sv) (dropped_packets sv)
    (shutting_down sv) q (accepting sv) (stopped sv) (objects sv) (strands sv) (next_object sv)
    (all_pools sv) (packet_log sv) (wire sv).
Definition set_accepting (b : bool) (sv : ServerImpl) : ServerImpl :=
  mkServerImpl (next_id sv) (sessions sv) (packet_queue sv) (dropped_packets sv)
    (shutting_down sv) (server_strand sv) b (stopped sv) (objects sv) (strands sv)
    (next_object sv) (all_pools sv) (packet_log sv) (wire sv).
Definition set_stopped (sv : ServerImpl) : ServerImpl :=
  mkServerImpl (next_id sv) (sessions sv) (packet_queue sv) (dropped_packets sv)
    (shutting_down sv) (server_strand sv) (accepting sv) true (objects sv) (strands sv)
    (next_object sv) (all_pools sv) (packet_log sv) (wire sv).
Definition set_object (o : nat) (s : Session) (sv : ServerImpl) : ServerImpl :=
  mkServerImpl (next_id sv) (sessions sv) (packet_queue sv) (dropped_packets sv)
    (shutting_down sv) (server_strand sv) (accepting sv) (stopped sv) (<[o := s]> (objects sv))
    (strands sv) (next_object sv) (all_pools sv) (packet_log sv) (wire sv).
Definition post_session (o : nat) (i : SessionInput) (sv : ServerImpl) : ServerImpl :=
  mkServerImpl (next_id sv) (sessions sv) (packet_queue sv) (dropped_packets sv)
    (shutting_down sv) (server_strand sv) (accepting sv) (stopped sv) (objects sv)
    (<[o := default [] (strands sv !! o) ++ [i]]> (strands sv)) (next_object sv) (all_pools sv)
    (packet_log sv) (wire sv).
Definition set_session_strand (o : nat) (q : list SessionInput) (sv : ServerImpl) : ServerImpl :=
  mkServerImpl (next_id sv) (sessions sv) (packet_queue sv) (dropped_packets sv)
    (shutting_down sv) (server_strand sv) (accepting sv) (stopped sv) (objects sv)
    (<[o := q]> (strands sv)) (next_object sv) (all_pools sv) (packet_log sv) (wire sv).
Definition set_all_pools (st : PoolStore) (sv : ServerImpl) : ServerImpl :=
  mkServerImpl (next_id sv) (sessions sv) (packet_queue sv) (dropped_packets sv)
    (shutting_down sv) (server_strand sv) (accepting sv) (stopped sv) (objects sv) (strands sv)
    (next_object sv) st (packet_log sv) (wire sv).
Definition log_packet (p : Packet) (r : PushResult) (sv : ServerImpl) : ServerImpl :=
  mkServerImpl (next_id sv) (sessions sv) (packet_queue sv) (dropped_packets sv)
    (shutting_down sv) (server_strand sv) (accepting sv) (stopped sv) (objects sv) (strands sv)
    (next_object sv) (all_pools sv) (packet_log sv ++ [(p, r)]) (wire sv).
Definition log_wire (o : nat) (f : bytes) (sv : ServerImpl) : ServerImpl :=
  mkServerImpl (next_id sv) (sessions sv) (packet_queue sv) (dropped_packets sv)
    (shutting_down sv) (server_strand sv) (accepting sv) (stopped sv) (objects sv) (strands sv)
    (next_object sv) (all_pools sv) (packet_log sv) (wire sv ++ [(o, f)]).
(** [next_id++] and a fresh object number. *)
Definition take_id (sv : ServerImpl) : Z * nat * ServerImpl :=
  (next_id sv, next_object sv,
   mkServerImpl (to_u32 (next_id sv + 1)) (sessions sv) (packet_queue sv) (dropped_packets sv)
     (shutting_down sv) (server_strand sv) (accepting sv) (stopped sv) (objects sv) (strands sv)
     (S (next_object sv)) (all_pools sv) (packet_log sv) (wire sv)).

Definition post_server (task : ServerTask) (sv : ServerImpl) : ServerImpl :=
  set_strand (server_strand sv ++ [task]) sv.

(** ** Operations *)

Section Operations.
Context `{VectorAlloc} (pool : BufferPool).
Implicit Types (sv : ServerImpl) (t : ThreadId).

(** [Impl::Impl] and [Server::Server]: the accept loop is started. *)
Definition server_create : ServerImpl :=
  mkServerImpl 1 ∅ [] 0 false [] true false ∅ ∅ 0 ∅ [] [].

(** Opening the listening socket: each call on the acceptor is a parameter,
    [Some message] for an error. *)
Record AcceptorOps := mkAcceptorOps {
  acceptor_open : option string;
  acceptor_reuse_address : option string;
  acceptor_bind : Z → option string;
  acceptor_listen : option string;
}.

Definition listen (acceptor : AcceptorOps) (port : Z) : expected unit string :=
  match acceptor_open acceptor with
  | Some message => inr ("[에러] 소켓 열기 실패: " ++ message)%string
  | None =>
      match acceptor_reuse_address acceptor with
      | Some message => inr ("[에러] 옵션 설정 실패: " ++ message)%string
      | None =>
          match acceptor_bind acceptor port with
          | Some message => inr ("[에러] 바인드 실패: " ++ message)%string
          | None =>
              match acceptor_listen acceptor with
              | Some message => inr ("[에러] 리슨 실패: " ++ message)%string
              | None => inl tt
              end
          end
      end
  end.

(** [Server::create]. *)
Definition create (acceptor : AcceptorOps) (port : Z) : expected ServerImpl string :=
  match listen acceptor port with
  | inr error => inr error
  | inl _ => inl server_create
  end.

Lemma create_inl acceptor port sv : create acceptor port = inl sv → sv = server_create.
Proof. unfold create. destruct (listen acceptor port); [by intros [= <-]|done]. Qed.

Definition push_packet (pkt : Packet) sv : bool * ServerImpl :=
  if shutting_down sv then (false, log_packet pkt Refused sv)
  else if zlen (packet_queue sv) <? PACKET_QUEUE_CAPACITY
  then (true, sv |> set_packets (packet_queue sv ++ [pkt]) |> log_packet pkt Queued)
  else (false, sv |> count_dropped |> log_packet pkt QueueFull).

(** The two callbacks given to a session, and the frames it writes. *)
Definition session_effect (o : nat) sv (e : SessionEffect) : ServerImpl :=
  match e with
  | OnReceive sid data => (push_packet (mkPacket Data sid (buf_data data)) sv).2
  | OnClose sid =>
      let sv := (push_packet (mkPacket Disconnect sid []) sv).2 in
      post_server (TaskErase sid) sv
  | AsyncWrite frame => log_wire o frame sv
  end.

(** The handler of [async_accept]. *)
Definition on_accept (now : Z) (ec : bool) sv : ServerImpl :=
  let sv := set_accepting false sv in
  let sv :=
    if negb ec && negb (shutting_down sv) then
      let '(id, o, sv) := take_id sv in
      let session := session_create id now in
      let '(pushed, sv) := push_packet (mkPacket Connect id []) sv in
      if pushed then
        let sv := match sessions sv !! id with
                  | Some _ => sv
                  | None => set_sessions (<[id := o]> (sessions sv)) sv
                  end in
        set_object o (Session.session (session_start (mkWorld session (all_pools sv) []))) sv
      else sv
    else sv in
  if negb (shutting_down sv) then set_accepting true sv else sv.

(** A task of the server strand, run on thread [t]; [walk] is the order in which
    a loop over [sessions] finds its entries.  [None] is an access outside a
    buffer. *)
Definition run_task t (walk : list (Z * nat)) (task : ServerTask) sv : option ServerImpl :=
  match task with
  | TaskSend sid frame =>
      if shutting_down sv then Some (set_all_pools (release pool t frame (all_pools sv)) sv)
      else
        match sessions sv !! sid with
        | Some o => Some (post_session o (InEnqueue frame) sv)
        | None => Some (set_all_pools (release pool t frame (all_pools sv)) sv)
        end
  | TaskBroadcast frame_template =>
      if shutting_down sv
      then Some (set_all_pools (release pool t frame_template (all_pools sv)) sv)
      else
        sv ← foldl (λ osv '(_, o),
                sv ← osv;
                '(frame, st) ← clone_frame t (buf_data frame_template) (all_pools sv);
                Some (sv |> set_all_pools st |> post_session o (InEnqueue frame)))
              (Some sv) walk;
        Some (set_all_pools (release pool t frame_template (all_pools sv)) sv)
  | TaskDisconnect sid =>
      if shutting_down sv then Some sv
      else
        match sessions sv !! sid with
        | Some o => Some (post_session o InClose sv)
        | None => Some sv
        end
  | TaskErase sid => Some (set_sessions (delete sid (sessions sv)) sv)
  | TaskShutdown =>
      Some (foldl (λ sv '(_, o), post_session o InClose sv) (set_accepting false sv)
              walk)
  end.

(** A handler of session object [o]. *)
Definition run_session t (o : nat) (i : SessionInput) sv : option ServerImpl :=
  s ← objects sv !! o;
  w ← session_handle pool t i (mkWorld s (all_pools sv) []);
  Some (foldl (session_effect o)
          (sv |> set_object o (Session.session w) |> set_all_pools (pools w))
          (effects w)).

(** *** The public interface, called by the game thread *)

Definition poll_packet sv : option (Packet * ServerImpl) :=
  match packet_queue sv with
  | [] => None
  | pkt :: rest => Some (pkt, set_packets rest sv)
  end.

Definition server_send t (session_id : Z) (data : bytes) sv : option ServerImpl :=
  if (zlen data =? 0) || (MAX_PAYLOAD_SIZE <? zlen data) then Some sv
  else if shutting_down sv then Some sv
  else
    '(frame, st) ← build_data_frame t data (all_pools sv);
    let sv := set_all_pools st sv in
    if buf_empty frame then Some sv else Some (post_server (TaskSend session_id frame) sv).

Definition broadcast t (data : bytes) sv : option ServerImpl :=
  if (zlen data =? 0) || (MAX_PAYLOAD_SIZE <? zlen data) then Some sv
  else if shutting_down sv then Some sv
  else
    '(frame_template, st) ← build_data_frame t data (all_pools sv);
    let sv := set_all_pools st sv in
    if buf_empty frame_template then Some sv
    else Some (post_server (TaskBroadcast frame_template) sv).

Definition disconnect (session_id : Z) sv : ServerImpl :=
  if shutting_down sv then sv else post_server (TaskDisconnect session_id) sv.

Definition server_update sv : ServerImpl := sv.

Definition dropped_packet_count sv : Z := dropped_packets sv.

(** [Impl::shutdown], up to the wait for the posted handler... *)
Definition shutdown sv : ServerImpl :=
  if shutting_down sv then sv
  else post_server TaskShutdown (set_shutting_down sv).

(** ... and after it: [io.stop()] ends every I/O thread. *)
Definition shutdown_finish sv : ServerImpl := set_stopped sv.

(** The other branch of [Impl::shutdown]: no I/O thread runs. *)
Definition shutdown_idle sv : ServerImpl :=
  if shutting_down sv then sv
  else sv |> set_shutting_down |> set_accepting false |> shutdown_finish.

(** The loop of [Impl::~Impl], with the packets it deletes; [fuel] bounds its
    iterations. *)
Fixpoint delete_packets (fuel : nat) sv : option (list Packet * ServerImpl) :=
  match fuel with
  | O => None
  | S fuel =>
      match packet_queue sv with
      | [] => Some ([], sv)
      | ptr :: rest =>
          '(deleted, sv) ← delete_packets fuel (set_packets rest sv);
          Some (ptr :: deleted, sv)
      end
  end.

(** [Impl::~Impl].  [Server::~Server] has shut the server down before, unless
    [create] failed, in which case no I/O thread was started. *)
Definition impl_destroy sv : option (list Packet * ServerImpl) :=
  delete_packets (S (length (packet_queue sv))) (shutdown_idle sv).
End Operations.
