(* ===== verification/ServerRun.v ===== *)
(** * Runs of the transport server

    [ServerInput] lists everything that can happen next to a running server:
    completions of asio operations, posted functions that reach the front of
    their strand, and calls of the game thread.  [server_steps] are the runs, in
    any interleaving, with the events the game thread takes part in. *)

From S2P Require Import Prelude Protocol BufferPool TransportDetail Session Packet Server.

Inductive ServerInput :=
  | SvAccept (now : Z) (ec : bool)
  | SvTask (t : ThreadId) (walk : list (Z * nat))
  | SvPosted (t : ThreadId) (o : nat)
  | SvCompletion (t : ThreadId) (o : nat) (i : SessionInput)
  | SvPoll
  | SvSend (t : ThreadId) (session_id : Z) (data : bytes)
  | SvBroadcast (t : ThreadId) (data : bytes)
  | SvDisconnect (session_id : Z)
  | SvShutdown
  | SvFinish.

Definition is_completion (i : SessionInput) : bool :=
  match i with InEnqueue _ | InClose => false | _ => true end.

(** What is posted to the strand of object [o]. *)
Definition strand_of (o : nat) (sv : ServerImpl) : list SessionInput :=
  default [] (strands sv !! o).

(** When an input can happen.  [shutdown] returns (and stops the I/O threads)
    once the function it posted has run. *)
Definition server_enabled (i : ServerInput) (sv : ServerImpl) : Prop :=
  match i with
  | SvAccept _ _ => stopped sv = false ∧ accepting sv = true
  | SvTask _ walk =>
      stopped sv = false ∧ server_strand sv ≠ [] ∧ walk ≡ₚ map_to_list (sessions sv)
  | SvPosted _ o => stopped sv = false ∧ strand_of o sv ≠ []
  | SvCompletion _ o i =>
      stopped sv = false ∧ is_completion i = true ∧ ∃ s, objects sv !! o = Some s ∧ enabled i s
  | SvFinish => shutting_down sv = true ∧ TaskShutdown ∉ server_strand sv
  | SvPoll | SvSend _ _ _ | SvBroadcast _ _ | SvDisconnect _ | SvShutdown => True
  end.

(** What the game thread sees of a run. *)
Inductive TransportEvent :=
  | EvPolled (pkt : Packet)
  | EvSent (session_id : Z) (data : bytes)
  | EvBroadcast (data : bytes).

Definition observe (i : ServerInput) (sv : ServerImpl) : list TransportEvent :=
  match i with
  | SvPoll => match poll_packet sv with Some (pkt, _) => [EvPolled pkt] | None => [] end
  | SvSend _ sid data => [EvSent sid data]
  | SvBroadcast _ data => [EvBroadcast data]
  | _ => []
  end.

Definition polled (tr : list TransportEvent) : list Packet :=
  omap (λ e, match e with EvPolled p => Some p | _ => None end) tr.

Section Run.
Context `{VectorAlloc} (pool : BufferPool).

Definition server_handle (i : ServerInput) (sv : ServerImpl) : option ServerImpl :=
  match i with
  | SvAccept now ec => Some (on_accept now ec sv)
  | SvTask t walk =>
      match server_strand sv with
      | [] => None
      | task :: rest => run_task pool t walk task (set_strand rest sv)
      end
  | SvPosted t o =>
      match strand_of o sv with
      | [] => None
      | i :: rest => run_session pool t o i (set_session_strand o rest sv)
      end
  | SvCompletion t o i => run_session pool t o i sv
  | SvPoll => Some (from_option snd sv (poll_packet sv))
  | SvSend t sid data => server_send t sid data sv
  | SvBroadcast t data => broadcast t data sv
  | SvDisconnect sid => Some (disconnect sid sv)
  | SvShutdown => Some (shutdown sv)
  | SvFinish => Some (shutdown_finish sv)
  end.

Inductive server_steps (sv0 : ServerImpl) : list TransportEvent → ServerImpl → Prop :=
  | steps_refl : server_steps sv0 [] sv0
  | steps_snoc tr i sv sv' :
      server_steps sv0 tr sv → server_enabled i sv → server_handle i sv = Some sv' →
      server_steps sv0 (tr ++ observe i sv) sv'.

Definition server_run : list TransportEvent → ServerImpl → Prop := server_steps server_create.
End Run.

(** ** History *)

(** The packets that entered the queue. *)
Definition queued (log : list (Packet * PushResult)) : list Packet :=
  omap (λ '(p, r), match r with Queued => Some p | _ => None end) log.

Definition overflows (log : list (Packet * PushResult)) : list (Packet * PushResult) :=
  List.filter (λ '(_, r), bool_decide (r = QueueFull)) log.

(** The frames handed to the socket of object [o]. *)
Definition wire_of (o : nat) (sv : ServerImpl) : list bytes :=
  omap (λ '(o', f), if decide (o' = o) then Some f else None) (wire sv).

(** The calls of [push_packet] that concern session [id]. *)
Definition log_of (id : Z) (log : list (Packet * PushResult)) : list (Packet * PushResult) :=
  List.filter (λ '(p, _), pkt_session_id p =? id) log.

(** The id [next_id++] gave to object [o]; ids repeat after [2^32] connections. *)
Definition object_id (o : nat) : Z := to_u32 (1 + Z.of_nat o).

(** The packets a session's callbacks push. *)
Definition effect_packet (e : SessionEffect) : option Packet :=
  match e with
  | OnReceive k data => Some (mkPacket Data k (buf_data data))
  | OnClose k => Some (mkPacket Disconnect k [])
  | AsyncWrite _ => None
  end.
Definition effect_packets (es : list SessionEffect) : list Packet := omap effect_packet es.

Definition erasures (es : list SessionEffect) : list ServerTask :=
  omap (λ e, match e with OnClose k => Some (TaskErase k) | _ => None end) es.

Arguments queued : simpl never.
Arguments overflows : simpl never.
Arguments log_of : simpl never.
Arguments effect_packets : simpl never.
Arguments erasures : simpl never.
