(* ===== verification/ServerInvariant.v ===== *)
(** * The invariant of the transport server

    [server_inv] holds in every state of a run: the bookkeeping of ids, objects
    and strands, and for every session object a run of [Session] that produced
    it, whose frames and callbacks are those recorded in [wire] and
    [packet_log].  Handlers never fail under it. *)

From S2P Require Import Prelude Protocol BufferPool TransportDetail Session Packet Server ServerRun.

(** ** What the packet queue does *)

Section Push.
Implicit Types (sv : ServerImpl) (p : Packet) (o : nat).

Lemma queued_app l k : queued (l ++ k) = queued l ++ queued k.
Proof. apply omap_app. Qed.
Lemma overflows_app l k : overflows (l ++ k) = overflows l ++ overflows k.
Proof. apply List.filter_app. Qed.
Lemma log_of_app id l k : log_of id (l ++ k) = log_of id l ++ log_of id k.
Proof. apply List.filter_app. Qed.

Definition push_result p sv : PushResult :=
  if shutting_down sv then Refused
  else if zlen (packet_queue sv) <? PACKET_QUEUE_CAPACITY then Queued else QueueFull.

(** States that differ in the packet queue and its history only. *)
Record same_but_packets sv sv' : Prop := {
  sp_next_id : next_id sv' = next_id sv;
  sp_sessions : sessions sv' = sessions sv;
  sp_shutting : shutting_down sv' = shutting_down sv;
  sp_strand : server_strand sv' = server_strand sv;
  sp_accepting : accepting sv' = accepting sv;
  sp_stopped : stopped sv' = stopped sv;
  sp_objects : objects sv' = objects sv;
  sp_strands : strands sv' = strands sv;
  sp_next_object : next_object sv' = next_object sv;
  sp_pools : all_pools sv' = all_pools sv;
  sp_wire : wire sv' = wire sv;
}.

Lemma push_packet_spec p sv :
  (push_packet p sv).1 = bool_decide (push_result p sv = Queued)
  ∧ packet_log (push_packet p sv).2 = packet_log sv ++ [(p, push_result p sv)]
  ∧ same_but_packets sv (push_packet p sv).2.
Proof.
  unfold push_packet, push_result. destruct (shutting_down sv) eqn:Hs; [by split_and!|].
  by destruct (_ <? _); split_and!.
Qed.

(** The queue is the end of what entered it: [pre] has been polled. *)
Record queue_inv (pre : list Packet) sv : Prop := {
  qi_fifo : queued (packet_log sv) = pre ++ packet_queue sv;
  qi_bound : zlen (packet_queue sv) ≤ PACKET_QUEUE_CAPACITY;
  qi_dropped : dropped_packets sv = to_u64 (zlen (overflows (packet_log sv)));
}.

Lemma queue_push pre p sv : queue_inv pre sv → queue_inv pre (push_packet p sv).2.
Proof.
  intros [Hf Hb Hd]. unfold push_packet. destruct (shutting_down sv).
  { split; simpl; rewrite ?queued_app, ?overflows_app, ?app_nil_r; done. }
  destruct (Z.ltb_spec (zlen (packet_queue sv)) PACKET_QUEUE_CAPACITY); split; simpl.
  - rewrite queued_app, Hf. unfold queued. simpl. by rewrite app_assoc.
  - rewrite zlen_app. change (zlen [p]) with 1. lia.
  - by rewrite overflows_app, app_nil_r.
  - by rewrite queued_app, app_nil_r.
  - done.
  - rewrite overflows_app, zlen_app, Hd. unfold overflows at 2. simpl. unfold wrap, zlen.
    simpl. by rewrite Zplus_mod_idemp_l.
Qed.

Lemma queue_inv_frame pre sv sv' :
  queue_inv pre sv → packet_log sv' = packet_log sv → packet_queue sv' = packet_queue sv →
  dropped_packets sv' = dropped_packets sv → queue_inv pre sv'.
Proof. intros [Hf Hb Hd] E1 E2 E3. split; by rewrite ?E1, ?E2, ?E3. Qed.
End Push.

(** ** What one handler of a session does to the server *)

Section Effects.
Implicit Types (sv : ServerImpl) (o : nat) (e : SessionEffect).

(** [sv'] is [sv] after the callbacks and writes [es] of object [o]. *)
Record effects_done o (es : list SessionEffect) sv sv' : Prop := {
  ed_next_id : next_id sv' = next_id sv;
  ed_sessions : sessions sv' = sessions sv;
  ed_shutting : shutting_down sv' = shutting_down sv;
  ed_accepting : accepting sv' = accepting sv;
  ed_stopped : stopped sv' = stopped sv;
  ed_objects : objects sv' = objects sv;
  ed_strands : strands sv' = strands sv;
  ed_next_object : next_object sv' = next_object sv;
  ed_pools : all_pools sv' = all_pools sv;
  ed_wire : wire sv' = wire sv ++ ((λ f, (o, f)) <$> started es);
  ed_log : ∃ log, packet_log sv' = packet_log sv ++ log ∧ log.*1 = effect_packets es
                  ∧ (shutting_down sv = true → queued log = []);
  ed_strand : server_strand sv' = server_strand sv ++ erasures es;
  ed_queue pre : queue_inv pre sv → queue_inv pre sv';
}.

Lemma effects_done_nil o sv : effects_done o [] sv sv.
Proof.
  split; try done; rewrite ?app_nil_r; try done. exists []. by rewrite app_nil_r.
Qed.

Lemma refused_push p sv : shutting_down sv = true → queued [(p, push_result p sv)] = [].
Proof. unfold push_result. by intros ->. Qed.

Lemma effects_done_one o sv e : effects_done o [e] sv (session_effect o sv e).
Proof.
  destruct e as [k data|k|f]; cbn [session_effect].
  - destruct (push_packet_spec (mkPacket Data k (buf_data data)) sv) as (_ & Hlog & []).
    split; try done; simpl; rewrite ?app_nil_r; try done.
    + eexists. split_and!; [exact Hlog|done|apply refused_push].
    + intros pre. by apply queue_push.
  - destruct (push_packet_spec (mkPacket Disconnect k []) sv) as (_ & Hlog & []).
    split; try done; simpl; rewrite ?app_nil_r; try done.
    + eexists. split_and!; [exact Hlog|done|apply refused_push].
    + by f_equal.
    + intros pre Hq. by apply (queue_push pre (mkPacket Disconnect k [])) in Hq as [].
  - split; try done; simpl; rewrite ?app_nil_r; try done.
    + exists []. by rewrite app_nil_r.
    + intros pre Hq. by apply (queue_inv_frame pre sv).
Qed.

Lemma effects_done_app o es1 es2 sv sv1 sv2 :
  effects_done o es1 sv sv1 → effects_done o es2 sv1 sv2 → effects_done o (es1 ++ es2) sv sv2.
Proof.
  intros [? ? Hsh ? ? ? ? ? ? Hw1 (log1 & Hl1 & Hp1 & Hr1) Hs1 Hq1]
         [? ? ? ? ? ? ? ? ? Hw2 (log2 & Hl2 & Hp2 & Hr2) Hs2 Hq2].
  split; try congruence.
  - unfold started in *. by rewrite Hw2, Hw1, omap_app, fmap_app, app_assoc.
  - exists (log1 ++ log2). unfold effect_packets in *.
    rewrite Hl2, Hl1, app_assoc, fmap_app, Hp1, Hp2, omap_app, queued_app.
    split_and!; [done|done|]. intros Hd. by rewrite Hr1, Hr2 by congruence.
  - unfold erasures in *. by rewrite Hs2, Hs1, omap_app, app_assoc.
  - eauto.
Qed.

Lemma effects_done_all o es sv : effects_done o es sv (foldl (session_effect o) sv es).
Proof.
  revert sv. induction es as [|e es IH]; intros sv; [apply effects_done_nil|].
  change (e :: es) with ([e] ++ es) at 1. cbn [foldl].
  eapply effects_done_app; [apply effects_done_one|apply IH].
Qed.

Lemma started_app es1 es2 : started (es1 ++ es2) = started es1 ++ started es2.
Proof. apply omap_app. Qed.
Lemma effect_packets_app es1 es2 :
  effect_packets (es1 ++ es2) = effect_packets es1 ++ effect_packets es2.
Proof. apply omap_app. Qed.
End Effects.

(** ** Ids and objects *)

Lemma object_id_inj (o1 o2 : nat) (n : nat) :
  (o1 < n)%nat → (o2 < n)%nat → Z.of_nat n ≤ 2 ^ 32 → object_id o1 = object_id o2 → o1 = o2.
Proof. unfold object_id, wrap. intros. dlia. Qed.

Lemma wire_of_app (o : nat) (l k : list (nat * bytes)) :
  omap (λ '(o', f), if decide (o' = o) then Some f else None) (l ++ k)
  = omap (λ '(o', f), if decide (o' = o) then Some f else None) l
    ++ omap (λ '(o', f), if decide (o' = o) then Some f else None) k.
Proof. apply omap_app. Qed.

Lemma wire_of_tagged (o o' : nat) (fs : list bytes) :
  omap (λ '(o'', f), if decide (o'' = o) then Some f else None) ((λ f, (o', f)) <$> fs)
  = if decide (o' = o) then fs else [].
Proof.
  induction fs as [|f fs IH]; csimpl; [by case_decide|]. rewrite IH. by case_decide.
Qed.

Lemma wire_of_effects (o : nat) es sv sv' (o' : nat) :
  effects_done o es sv sv' →
  wire_of o' sv' = wire_of o' sv ++ (if decide (o = o') then started es else []).
Proof.
  intros Hed. unfold wire_of. by rewrite (ed_wire _ _ _ _ Hed), wire_of_app, wire_of_tagged.
Qed.

Lemma log_of_same id (log : list (Packet * PushResult)) :
  Forall (λ p, pkt_session_id p = id) log.*1 → log_of id log = log.
Proof.
  induction log as [|[p r] log IH]; [done|]. csimpl. intros [Hp Hl]%Forall_cons.
  unfold log_of in *. simpl. by rewrite Hp, Z.eqb_refl, IH.
Qed.

Lemma log_of_other id (log : list (Packet * PushResult)) :
  Forall (λ p, pkt_session_id p ≠ id) log.*1 → log_of id log = [].
Proof.
  induction log as [|[p r] log IH]; [done|]. csimpl. intros [Hp Hl]%Forall_cons.
  unfold log_of in *. simpl. by destruct (Z.eqb_spec (pkt_session_id p) id); [|apply IH].
Qed.

Lemma effect_packets_id id es :
  Forall (effect_ok id) es → Forall (λ p, pkt_session_id p = id) (effect_packets es).
Proof.
  unfold effect_packets.
  induction 1 as [|e es He _ IH]; [constructor|]. destruct e as [k d|k|f]; simpl in *.
  - constructor; [apply He|done].
  - by constructor.
  - done.
Qed.

Lemma effect_packets_wf id es :
  Forall (effect_ok id) es → Forall (λ p, wf_bytes (pkt_data p)) (effect_packets es).
Proof.
  unfold effect_packets.
  induction 1 as [|e es He _ IH]; [constructor|]. destruct e as [k d|k|f]; simpl in *.
  - constructor; [apply He|done].
  - constructor; [constructor|done].
  - done.
Qed.

(** ** The invariant *)

Section Invariant.
Context `{VectorAlloc} (pool : BufferPool).
Implicit Types (sv : ServerImpl) (o : nat).

Definition task_ok (task : ServerTask) : Prop :=
  match task with
  | TaskSend _ f | TaskBroadcast f => zlen (buf_data f) ≤ BLOCK_SIZE
  | _ => True
  end.

Definition unique_ids sv : Prop := Z.of_nat (next_object sv) ≤ 2 ^ 32.

(** What happened to object [o] is a run of [Session]. *)
Definition object_run sv o (s : Session) : Prop :=
  ∃ now0 w, session_reachable pool (object_id o) now0 w ∧ session w = s
    ∧ wire_of o sv = started (effects w)
    ∧ (unique_ids sv → ∃ log, log_of (object_id o) (packet_log sv)
                              = (mkPacket Connect (object_id o) [], Queued) :: log
                              ∧ log.*1 = effect_packets (effects w)).

Record server_inv sv : Prop := {
  si_pools : pool_wf (all_pools sv);
  si_next_id : next_id sv = object_id (next_object sv);
  si_fresh o s : objects sv !! o = Some s → (o < next_object sv)%nat;
  si_strands o i : i ∈ strand_of o sv → is_Some (objects sv !! o) ∧ is_completion i = false;
  si_sessions id o : sessions sv !! id = Some o → is_Some (objects sv !! o) ∧ object_id o = id;
  si_objects o s : objects sv !! o = Some s → object_run sv o s;
  si_wire o : objects sv !! o = None → wire_of o sv = [];
  si_tasks : Forall task_ok (server_strand sv);
  si_log : Forall (λ p, ∃ o, (o < next_object sv)%nat ∧ pkt_session_id p = object_id o
                             ∧ wf_bytes (pkt_data p)) (packet_log sv).*1;
  si_refused o :
    unique_ids sv → (o < next_object sv)%nat → objects sv !! o = None →
    queued (log_of (object_id o) (packet_log sv)) = [];
}.

Lemma inv_create : server_inv server_create.
Proof.
  split; try done.
  - apply pool_wf_empty.
  - intros o i. unfold strand_of. simpl. rewrite lookup_empty. by intros ?%elem_of_nil.
Qed.

(** A step that leaves objects and history alone. *)
Lemma inv_frame sv sv' :
  server_inv sv → pool_wf (all_pools sv') → next_id sv' = next_id sv →
  objects sv' = objects sv → next_object sv' = next_object sv →
  wire sv' = wire sv → packet_log sv' = packet_log sv →
  (∀ o i, i ∈ strand_of o sv' → is_Some (objects sv !! o) ∧ is_completion i = false) →
  (∀ id o, sessions sv' !! id = Some o → is_Some (objects sv !! o) ∧ object_id o = id) →
  Forall task_ok (server_strand sv') → server_inv sv'.
Proof.
  intros [] Hst E1 E2 E3 E4 E5 Hstr Hses Htask.
  split; unfold object_run, unique_ids, wire_of in *; rewrite ?E1, ?E2, ?E3, ?E4, ?E5; done.
Qed.

Lemma strand_post o i sv o' :
  strand_of o' (post_session o i sv)
  = if decide (o = o') then strand_of o sv ++ [i] else strand_of o' sv.
Proof.
  unfold strand_of, post_session. simpl. rewrite lookup_insert. by case_decide.
Qed.

Lemma strand_set o q sv o' :
  strand_of o' (set_session_strand o q sv) = if decide (o = o') then q else strand_of o' sv.
Proof.
  unfold strand_of, set_session_strand. simpl. rewrite lookup_insert. by case_decide.
Qed.

Lemma inv_post o i sv :
  server_inv sv → is_Some (objects sv !! o) → is_completion i = false →
  server_inv (post_session o i sv).
Proof.
  intros Hsv Ho Hi. apply (inv_frame sv); try apply Hsv; try done.
  intros o' i'. rewrite strand_post. case_decide as E; [subst|apply Hsv].
  intros [?|?%list_elem_of_singleton]%elem_of_app; [by apply Hsv|by subst].
Qed.

(** The front of a strand is taken. *)
Lemma inv_pop_strand o i rest sv :
  server_inv sv → strand_of o sv = i :: rest →
  server_inv (set_session_strand o rest sv) ∧ is_completion i = false
  ∧ ∃ s, objects sv !! o = Some s.
Proof.
  intros Hsv Hq. destruct (si_strands _ Hsv o i) as [[s Hs] Hi]; [rewrite Hq; by left|].
  split_and!; [|done|eauto]. apply (inv_frame sv); try apply Hsv; try done.
  intros o' i'. rewrite strand_set. case_decide; [|apply Hsv].
  subst o'. intros ?. apply Hsv. rewrite Hq. by right.
Qed.

Lemma inv_set_strand q sv : server_inv sv → Forall task_ok q → server_inv (set_strand q sv).
Proof. intros Hsv Hq. by apply (inv_frame sv); try apply Hsv. Qed.

Lemma inv_post_server task sv :
  server_inv sv → task_ok task → server_inv (post_server task sv).
Proof.
  intros Hsv Ht. apply inv_set_strand; [done|]. apply Forall_app. split; [apply Hsv|].
  by apply Forall_singleton.
Qed.

Lemma inv_set_pools st sv : server_inv sv → pool_wf st → server_inv (set_all_pools st sv).
Proof. intros Hsv Hst. by apply (inv_frame sv); try apply Hsv. Qed.

Lemma inv_release t f sv :
  server_inv sv → server_inv (set_all_pools (release pool t f (all_pools sv)) sv).
Proof. intros Hsv. apply inv_set_pools; [done|]. apply release_pool_wf, Hsv. Qed.

(** *** Handlers of sessions *)

Lemma erasures_ok es : Forall task_ok (erasures es).
Proof. unfold erasures. by induction es as [|[] es IH]; csimpl; [|done|constructor|]. Qed.

(** The session run of an object, continued by one input. *)
Lemma object_run_step t o s i sv now0 w :
  server_inv sv → session_reachable pool (object_id o) now0 w → session w = s → enabled i s →
  ∃ w1, session_handle pool t i (mkWorld s (all_pools sv) []) = Some w1
    ∧ session_reachable pool (object_id o) now0 (prepend (effects w) w1)
    ∧ pool_wf (pools w1) ∧ Forall (effect_ok (object_id o)) (effects w1).
Proof.
  intros Hsv Hw Hs Hen.
  assert (session_reachable pool (object_id o) now0 (with_pools (all_pools sv) w)) as Hw0
    by (apply reach_pools; [done|apply Hsv]).
  pose proof (session_reachable_inv _ _ _ _ Hw0) as Hinv.
  destruct (session_handle_inv pool t (object_id o) i _ Hinv) as (w2 & Heq & [Hb2 _]);
    [by subst s|].
  assert (with_pools (all_pools sv) w = prepend (effects w) (mkWorld s (all_pools sv) []))
    as Hpre by (unfold with_pools, prepend; simpl; by rewrite app_nil_r, Hs).
  pose proof Heq as Hsome. rewrite Hpre, session_handle_prepend in Hsome.
  destruct (session_handle pool t i (mkWorld s (all_pools sv) [])) as [w1|]; [|done].
  change (Some (prepend (effects w) w1) = Some w2) in Hsome. injection Hsome as <-.
  exists w1. split_and!; [done| |apply (sb_pools _ _ Hb2)|].
  - eapply reach_handle; [exact Hw0| |exact Heq]. by subst s.
  - pose proof (sb_effects _ _ Hb2) as He. simpl in He. by apply Forall_app in He as [_ He].
Qed.

Lemma log_of_effects o o' es sv sv' s n :
  effects_done o es sv sv' → Forall (effect_ok (object_id o)) es →
  (o < n)%nat → (o' < n)%nat → Z.of_nat n ≤ 2 ^ 32 →
  s = log_of (object_id o') (packet_log sv') →
  if decide (o = o')
  then ∃ log, s = log_of (object_id o') (packet_log sv) ++ log ∧ log.*1 = effect_packets es
  else s = log_of (object_id o') (packet_log sv).
Proof.
  intros Hed Hes Ho Ho' Hn ->. destruct (ed_log _ _ _ _ Hed) as (log & -> & Hlog & _).
  rewrite log_of_app. apply effect_packets_id in Hes. rewrite <-Hlog in Hes.
  case_decide as E.
  - subst o'. exists log. by rewrite (log_of_same _ log).
  - rewrite (log_of_other _ log), app_nil_r; [done|].
    eapply Forall_impl; [exact Hes|]. intros p -> Hid. by eapply E, object_id_inj.
Qed.

(** One handler of session [o] has run from [w] to [w1] and its effects have been
    done. *)
Section SessionStep.
Context (o : nat) (now0 : Z) (w w1 : World) (sv sv' : ServerImpl).
Context (Hsv : server_inv sv) (Ho : objects sv !! o = Some (session w)).
Context (Hw1 : session_reachable pool (object_id o) now0 (prepend (effects w) w1)).
Context (Hes : Forall (effect_ok (object_id o)) (effects w1)).
Context (Hed : effects_done o (effects w1)
                 (sv |> set_object o (session w1) |> set_all_pools (pools w1)) sv').

Lemma step_next : next_object sv' = next_object sv.
Proof. by rewrite (ed_next_object _ _ _ _ Hed). Qed.

Lemma step_objects o' :
  objects sv' !! o' = if decide (o = o') then Some (session w1) else objects sv !! o'.
Proof. rewrite (ed_objects _ _ _ _ Hed). apply lookup_insert. Qed.

Lemma step_log o' :
  (o' < next_object sv)%nat → unique_ids sv' →
  if decide (o = o')
  then ∃ log, log_of (object_id o') (packet_log sv')
              = log_of (object_id o') (packet_log sv) ++ log ∧ log.*1 = effect_packets (effects w1)
  else log_of (object_id o') (packet_log sv') = log_of (object_id o') (packet_log sv).
Proof.
  intros Ho'. unfold unique_ids. rewrite step_next. intros Hu.
  apply (log_of_effects _ _ _ _ _ _ _ Hed Hes (si_fresh _ Hsv o _ Ho) Ho' Hu eq_refl).
Qed.

Lemma step_unique : unique_ids sv' ↔ unique_ids sv.
Proof. unfold unique_ids. by rewrite step_next. Qed.

(** The session's own run grows by this step. *)
Lemma step_own_run :
  wire_of o sv = started (effects w) →
  (unique_ids sv → ∃ log, log_of (object_id o) (packet_log sv)
                          = (mkPacket Connect (object_id o) [], Queued) :: log
                          ∧ log.*1 = effect_packets (effects w)) →
  object_run sv' o (session w1).
Proof.
  intros Hwire Hlog. exists now0, (prepend (effects w) w1).
  rewrite (wire_of_effects o _ _ _ o Hed), decide_True by done. split_and!; [done|done| |].
  - simpl. rewrite started_app. f_equal. exact Hwire.
  - intros Hu. destruct (Hlog (proj1 step_unique Hu)) as (log & Hl & Hp).
    pose proof (step_log o (si_fresh _ Hsv o _ Ho) Hu) as Hnew.
    rewrite decide_True in Hnew by done. destruct Hnew as (log1 & -> & Hp1).
    exists (log ++ log1). simpl. by rewrite fmap_app, effect_packets_app, Hp, Hp1, Hl.
Qed.

(** The runs of the others stay. *)
Lemma step_other_run o' s' :
  o ≠ o' → objects sv !! o' = Some s' → object_run sv' o' s'.
Proof.
  intros E Ho'. destruct (si_objects _ Hsv o' s' Ho') as (now' & w' & Hw' & Hs' & Hwire' & Hlog').
  exists now', w'. rewrite (wire_of_effects o _ _ _ o' Hed), decide_False, app_nil_r by done.
  split_and!; [done|done|exact Hwire'|]. intros Hu.
  pose proof (step_log o' (si_fresh _ Hsv o' s' Ho') Hu) as Hnew.
  rewrite decide_False in Hnew by done. rewrite Hnew. by apply Hlog', step_unique.
Qed.

Lemma step_packets :
  Forall (λ p, ∃ o, (o < next_object sv)%nat ∧ pkt_session_id p = object_id o
                    ∧ wf_bytes (pkt_data p)) (packet_log sv').*1.
Proof.
  destruct (ed_log _ _ _ _ Hed) as (log & -> & Hl & _). rewrite fmap_app, Hl.
  apply Forall_app. split; [apply Hsv|].
  pose proof (conj (effect_packets_id _ _ Hes) (effect_packets_wf _ _ Hes)) as Hall.
  rewrite <-Forall_and in Hall. pose proof (si_fresh _ Hsv o _ Ho).
  eapply Forall_impl; [exact Hall|]. intros p [Hp Hb]. exists o. by split_and!.
Qed.
End SessionStep.

Lemma run_session_ok t o s i sv :
  server_inv sv → objects sv !! o = Some s → enabled i s →
  ∃ w1 sv', session_handle pool t i (mkWorld s (all_pools sv) []) = Some w1
    ∧ run_session pool t o i sv = Some sv'
    ∧ effects_done o (effects w1)
        (sv |> set_object o (session w1) |> set_all_pools (pools w1)) sv'
    ∧ server_inv sv'.
Proof.
  intros Hsv Ho Hen. destruct (si_objects _ Hsv o s Ho) as (now0 & w & Hw & Hs & Hwire & Hlog).
  destruct (object_run_step t o s i sv now0 w Hsv Hw Hs Hen) as (w1 & Heq & Hw1 & Hst & Hes).
  exists w1. unfold run_session. rewrite Ho. cbn [mbind option_bind]. rewrite Heq.
  cbn [mbind option_bind]. set (sv1 := set_all_pools (pools w1) (set_object o (session w1) sv)).
  eexists. split_and!; [done|done|apply effects_done_all|].
  pose proof (effects_done_all o (effects w1) sv1) as Hed.
  set (sv' := foldl (session_effect o) sv1 (effects w1)) in *. clearbody sv'. subst s.
  pose proof (step_next o w1 sv sv' Hed) as Hnext.
  pose proof (step_objects o w1 sv sv' Hed) as Hobj.
  assert (∀ o', is_Some (objects sv !! o') → is_Some (objects sv' !! o')) as Hmono
    by (intros o'; rewrite Hobj; by case_decide).
  split.
  - by rewrite (ed_pools _ _ _ _ Hed).
  - rewrite (ed_next_id _ _ _ _ Hed), Hnext. apply Hsv.
  - intros o' s'. rewrite Hobj, Hnext. case_decide; [|apply Hsv]. subst. intros _. by eapply Hsv.
  - intros o' i'. unfold strand_of. rewrite (ed_strands _ _ _ _ Hed). intros Hi.
    destruct (si_strands _ Hsv o' i' Hi). auto.
  - intros id o'. rewrite (ed_sessions _ _ _ _ Hed). intros Hid.
    destruct (si_sessions _ Hsv id o' Hid). auto.
  - intros o' s'. rewrite Hobj. case_decide as E.
    + intros [= <-]. subst o'. by eapply step_own_run.
    + by eapply step_other_run.
  - intros o'. rewrite Hobj. case_decide; [done|]. intros Hnone.
    rewrite (wire_of_effects o _ _ _ o' Hed), decide_False, app_nil_r by done.
    by apply (si_wire _ Hsv).
  - rewrite (ed_strand _ _ _ _ Hed). apply Forall_app. split; [apply Hsv|apply erasures_ok].
  - rewrite Hnext. by eapply step_packets.
  - intros o' Hu. rewrite Hobj, Hnext. case_decide; [done|]. intros Ho' Hnone.
    pose proof (step_log o w w1 sv sv' Hsv Ho Hes Hed o' Ho' Hu) as Hnew.
    rewrite decide_False in Hnew by done. rewrite Hnew.
    apply (si_refused _ Hsv); [|done..]. by apply (step_unique o w1 sv sv' Hed).
Qed.

(** *** The accept handler *)

Lemma inv_set_accepting b sv : server_inv sv → server_inv (set_accepting b sv).
Proof. intros Hsv. by apply (inv_frame sv); try apply Hsv. Qed.

Lemma object_id_next o : to_u32 (object_id o + 1) = object_id (S o).
Proof. unfold object_id, wrap. dlia. Qed.

(** The log of a fresh id is empty. *)
Lemma log_of_fresh sv :
  server_inv sv → Z.of_nat (S (next_object sv)) ≤ 2 ^ 32 →
  log_of (object_id (next_object sv)) (packet_log sv) = [].
Proof.
  intros Hsv Hu. apply log_of_other. eapply Forall_impl; [apply (si_log _ Hsv)|].
  intros p (o & Ho & -> & _) Hid.
  assert (o = next_object sv) by (apply (object_id_inj o _ (S (next_object sv))); lia). lia.
Qed.

(** A connection: [news] is the session created, if the Connect packet was
    queued. *)
Record connected (news : option Session) sv sv' : Prop := {
  cn_next_id : next_id sv' = to_u32 (next_id sv + 1);
  cn_next_object : next_object sv' = S (next_object sv);
  cn_objects : objects sv' = from_option (λ s, <[next_object sv := s]> (objects sv)) (objects sv) news;
  cn_strands : strands sv' = strands sv;
  cn_pools : all_pools sv' = all_pools sv;
  cn_wire : wire sv' = wire sv;
  cn_strand : server_strand sv' = server_strand sv;
  cn_log : ∃ r, packet_log sv' = packet_log sv ++ [(mkPacket Connect (next_id sv) [], r)]
                ∧ (r = Queued ↔ is_Some news);
  cn_news s : news = Some s → ∃ now, s = session (session_start
                (mkWorld (session_create (next_id sv) now) (all_pools sv) []));
  cn_sessions id o : sessions sv' !! id = Some o →
    sessions sv !! id = Some o ∨ (id = next_id sv ∧ o = next_object sv ∧ is_Some news);
  cn_kept id o : sessions sv !! id = Some o → sessions sv' !! id = Some o;
  cn_added : is_Some news → is_Some (sessions sv' !! next_id sv);
}.

Section Connected.
Context (news : option Session) (sv sv' : ServerImpl).
Context (Hsv : server_inv sv) (Hcn : connected news sv sv').

Lemma unique_before : unique_ids sv' → Z.of_nat (S (next_object sv)) ≤ 2 ^ 32.
Proof. unfold unique_ids. by rewrite (cn_next_object _ _ _ Hcn). Qed.

Lemma unique_before' : unique_ids sv' → unique_ids sv.
Proof. intros Hu%unique_before. unfold unique_ids. lia. Qed.

Lemma connected_fresh : objects sv !! next_object sv = None.
Proof.
  destruct (objects sv !! next_object sv) as [s|] eqn:E; [|done].
  pose proof (si_fresh _ Hsv _ _ E). lia.
Qed.

Lemma connected_lookup o :
  objects sv' !! o = if decide (next_object sv = o) then news else objects sv !! o.
Proof.
  rewrite (cn_objects _ _ _ Hcn). case_decide as E; destruct news as [s|]; simpl.
  - subst. by rewrite lookup_insert_eq.
  - subst. apply connected_fresh.
  - by rewrite lookup_insert_ne.
  - done.
Qed.

Lemma connected_mono o : is_Some (objects sv !! o) → is_Some (objects sv' !! o).
Proof.
  rewrite connected_lookup. case_decide as E; [|done]. subst. rewrite connected_fresh. by intros [].
Qed.

Lemma connected_log_old o :
  unique_ids sv' → (o < next_object sv)%nat →
  log_of (object_id o) (packet_log sv') = log_of (object_id o) (packet_log sv).
Proof.
  intros Hu Ho. destruct (cn_log _ _ _ Hcn) as (r & -> & _).
  rewrite log_of_app, (log_of_other _ [_]), app_nil_r; [done|].
  constructor; [|constructor]. simpl. rewrite (si_next_id _ Hsv). intros E.
  assert (next_object sv = o); [|lia].
  apply (object_id_inj _ _ (S (next_object sv))); [lia..|by apply unique_before|done].
Qed.

Lemma connected_log_new :
  unique_ids sv' → ∃ r, log_of (object_id (next_object sv)) (packet_log sv')
                        = [(mkPacket Connect (object_id (next_object sv)) [], r)]
                        ∧ (r = Queued ↔ is_Some news).
Proof.
  intros Hu. destruct (cn_log _ _ _ Hcn) as (r & -> & Hr). exists r.
  rewrite log_of_app, log_of_fresh by (first [done | by apply unique_before]).
  unfold log_of. simpl. rewrite (si_next_id _ Hsv), Z.eqb_refl. done.
Qed.

Lemma connected_object_run o s : objects sv' !! o = Some s → object_run sv' o s.
Proof.
  rewrite connected_lookup. case_decide as E.
  - intros Hs. destruct (cn_news _ _ _ Hcn s Hs) as [now ->]. subst o.
    exists now. eexists. split_and!; [|done| |].
    + rewrite (si_next_id _ Hsv). apply reach_start, Hsv.
    + unfold wire_of. rewrite (cn_wire _ _ _ Hcn). apply (si_wire _ Hsv), connected_fresh.
    + intros Hu. destruct (connected_log_new Hu) as (r & -> & Hr). exists [].
      by rewrite (proj2 Hr) by eauto.
  - intros Ho. destruct (si_objects _ Hsv o s Ho) as (now0 & w & Hw & Hs & Hwire & Hl).
    exists now0, w. split_and!; [done|done| |].
    + unfold wire_of in *. by rewrite (cn_wire _ _ _ Hcn).
    + intros Hu. rewrite connected_log_old by (first [done | by eapply si_fresh]).
      by apply Hl, unique_before'.
Qed.

Lemma connected_refused o :
  unique_ids sv' → (o < next_object sv')%nat → objects sv' !! o = None →
  queued (log_of (object_id o) (packet_log sv')) = [].
Proof.
  intros Hu. rewrite (cn_next_object _ _ _ Hcn), connected_lookup. intros Ho. case_decide as E.
  - intros Hn. subst o. destruct (connected_log_new Hu) as (r & -> & Hr). rewrite Hn in Hr.
    unfold queued. simpl. destruct r; [|done..]. destruct (proj1 Hr eq_refl) as [? ?]. done.
  - intros Hnone. rewrite connected_log_old by (first [done | lia]).
    apply (si_refused _ Hsv); [by apply unique_before'|lia|done].
Qed.

Lemma inv_connected : server_inv sv'.
Proof.
  split.
  - rewrite (cn_pools _ _ _ Hcn). apply Hsv.
  - rewrite (cn_next_id _ _ _ Hcn), (cn_next_object _ _ _ Hcn), (si_next_id _ Hsv).
    apply object_id_next.
  - intros o s. rewrite connected_lookup, (cn_next_object _ _ _ Hcn).
    case_decide; [lia|]. intros Ho. pose proof (si_fresh _ Hsv _ _ Ho). lia.
  - intros o i. unfold strand_of. rewrite (cn_strands _ _ _ Hcn). intros Hi.
    destruct (si_strands _ Hsv o i Hi). split; [by apply connected_mono|done].
  - intros id o Hid. destruct (cn_sessions _ _ _ Hcn id o Hid) as [Hold|(-> & -> & Hn)].
    + destruct (si_sessions _ Hsv id o Hold). split; [by apply connected_mono|done].
    + rewrite connected_lookup, decide_True by done. split; [done|]. by rewrite (si_next_id _ Hsv).
  - apply connected_object_run.
  - intros o. rewrite connected_lookup. unfold wire_of. rewrite (cn_wire _ _ _ Hcn).
    case_decide; [subst; intros _; apply (si_wire _ Hsv), connected_fresh|apply (si_wire _ Hsv)].
  - rewrite (cn_strand _ _ _ Hcn). apply Hsv.
  - destruct (cn_log _ _ _ Hcn) as (r & -> & _). rewrite fmap_app, (cn_next_object _ _ _ Hcn).
    apply Forall_app. split.
    + eapply Forall_impl; [apply Hsv|]. intros q (o' & ? & ? & ?). exists o'. split; [lia|done].
    + constructor; [|constructor]. exists (next_object sv). simpl.
      split_and!; [lia|apply Hsv|constructor].
  - apply connected_refused.
Qed.
End Connected.

(** What [on_accept] does. *)
Lemma on_accept_spec now ec sv :
  let sv1 := set_accepting false sv in
  ∃ sv2, on_accept now ec sv = (if shutting_down sv then sv2 else set_accepting true sv2)
    ∧ shutting_down sv2 = shutting_down sv
    ∧ (sv2 = sv1 ∨ ec = false ∧ shutting_down sv = false
         ∧ (∃ news, connected news sv1 sv2)
         ∧ ∀ pre, queue_inv pre sv1 → queue_inv pre sv2).
Proof.
  intros sv1. unfold on_accept. fold sv1.
  change (shutting_down sv) with (shutting_down sv1).
  destruct ec, (shutting_down sv1) eqn:Hs; cbn [negb andb].
  1-3: exists sv1; rewrite ?Hs; split_and!; [done|done|by left].
  cbn [take_id].
  set (p := mkPacket Connect (next_id sv1) []).
  set (svt := mkServerImpl _ _ _ _ _ _ _ _ _ _ _ _ _ _).
  destruct (push_packet_spec p svt) as (Hfst & Hlog & Hsame).
  assert (∀ pre, queue_inv pre sv1 → queue_inv pre (push_packet p svt).2) as Hq.
  { intros pre Hq. apply queue_push. by apply (queue_inv_frame pre sv1). }
  destruct (push_packet p svt) as [pushed sv2]. simpl in Hfst, Hlog, Hsame, Hq.
  assert (shutting_down sv2 = false) as Hs2 by (by destruct Hsame; simpl in *; congruence).
  destruct Hsame. simpl in *.
  case_bool_decide as Hr; subst pushed.
  - eexists (set_object _ _ (match sessions sv2 !! next_id sv with Some _ => sv2 | None => _ end)).
    split_and!; [by simpl; destruct (sessions sv2 !! next_id sv); simpl; rewrite Hs2
                |by simpl; destruct (sessions sv2 !! next_id sv)|].
    right. split_and!; [done|done| |].
    + eexists (Some _). destruct (sessions sv2 !! next_id sv) eqn:Hn; split; simpl; try done;
        rewrite ?sp_objects0, ?sp_pools0; try done.
      * exists Queued. by rewrite Hlog, Hr.
      * intros s [= <-]. by eexists.
      * intros id o. rewrite sp_sessions0. by left.
      * intros id o. by rewrite sp_sessions0.
      * exists Queued. by rewrite Hlog, Hr.
      * intros s [= <-]. by eexists.
      * intros id o. rewrite lookup_insert. case_decide; [intros [= <-]; subst; right; eauto|].
        rewrite sp_sessions0. by left.
      * intros id o Hid. rewrite sp_sessions0 in Hn. rewrite sp_sessions0.
        change (sessions sv !! id = Some o) in Hid. change (sessions sv !! next_id sv = None) in Hn.
        by rewrite lookup_insert_ne by congruence.
      * by rewrite lookup_insert_eq.
    + intros pre Hpre. apply Hq in Hpre.
      destruct (sessions sv2 !! next_id sv); by apply (queue_inv_frame pre sv2).
  - exists sv2. rewrite Hs2. split_and!; [done|done|]. right. split_and!; [done|done| |done].
    exists None. split; simpl; try done.
    + exists (push_result p svt). split; [done|]. split; [done|by intros []].
    + intros id o. rewrite sp_sessions0. by left.
    + intros id o. by rewrite sp_sessions0.
Qed.

Lemma inv_accept now ec sv : server_inv sv → server_inv (on_accept now ec sv).
Proof.
  intros Hsv. destruct (on_accept_spec now ec sv) as (sv2 & -> & _ & H2).
  assert (server_inv sv2) as Hsv2.
  { apply (inv_set_accepting false) in Hsv.
    destruct H2 as [->|(_ & _ & [news Hcn] & _)]; [done|]. by apply (inv_connected news _ _ Hsv). }
  destruct (shutting_down sv); [done|]. by apply inv_set_accepting.
Qed.

(** *** Functions posted to strands *)

(** [sv'] is [sv] after the posts [ins] to session strands, with other pools. *)
Definition with_posts (ins : list (nat * SessionInput)) (st : PoolStore) sv : ServerImpl :=
  set_all_pools st (foldl (λ sv '(o, i), post_session o i sv) sv ins).

Definition posts_to o (ins : list (nat * SessionInput)) : list SessionInput :=
  omap (λ '(o', i), if decide (o' = o) then Some i else None) ins.

Lemma posts_frame ins sv :
  let sv' := foldl (λ sv '(o, i), post_session o i sv) sv ins in
  objects sv' = objects sv ∧ next_object sv' = next_object sv ∧ sessions sv' = sessions sv
  ∧ shutting_down sv' = shutting_down sv ∧ server_strand sv' = server_strand sv
  ∧ packet_log sv' = packet_log sv ∧ packet_queue sv' = packet_queue sv
  ∧ dropped_packets sv' = dropped_packets sv ∧ wire sv' = wire sv ∧ stopped sv' = stopped sv.
Proof.
  intros sv'. unfold sv'. clear sv'. revert sv.
  induction ins as [|[o i] ins IH]; intros sv; [done|]. exact (IH (post_session o i sv)).
Qed.

Lemma posts_strand ins sv o :
  strand_of o (foldl (λ sv '(o, i), post_session o i sv) sv ins) = strand_of o sv ++ posts_to o ins.
Proof.
  unfold posts_to. revert sv. induction ins as [|[o' i] ins IH]; intros sv; csimpl.
  { by rewrite app_nil_r. }
  rewrite IH, strand_post. case_decide; [subst; by rewrite <-app_assoc|done].
Qed.

Lemma posts_app ins1 ins2 st1 st2 sv :
  with_posts ins2 st2 (with_posts ins1 st1 sv) = with_posts (ins1 ++ ins2) st2 sv.
Proof.
  unfold with_posts. rewrite foldl_app. generalize (foldl (λ sv '(o, i), post_session o i sv) sv ins1).
  induction ins2 as [|[o i] ins2 IH]; intros sv1; [done|]. simpl. apply (IH (post_session o i sv1)).
Qed.

Lemma inv_with_posts ins st sv :
  server_inv sv → pool_wf st →
  Forall (λ '(o, i), is_Some (objects sv !! o) ∧ is_completion i = false) ins →
  server_inv (with_posts ins st sv).
Proof.
  intros Hsv Hst Hins. apply inv_set_pools; [|done]. revert sv Hsv Hins.
  induction ins as [|[o i] ins IH]; intros sv Hsv Hins; [done|]. simpl.
  apply Forall_cons in Hins as [[Ho Hi] Hins]. apply IH; [by apply inv_post|done].
Qed.

(** The loop of [broadcast]. *)
Lemma broadcast_loop t frame (walk : list (Z * nat)) sv :
  server_inv sv → zlen frame ≤ BLOCK_SIZE →
  ∃ st ins, foldl (λ osv '(_, o),
              sv ← osv;
              '(frame, st) ← clone_frame t frame (all_pools sv);
              Some (sv |> set_all_pools st |> post_session o (InEnqueue frame))) (Some sv) walk
            = Some (with_posts ins st sv)
    ∧ pool_wf st
    ∧ Forall2 (λ '(_, o) '(o', i), o' = o ∧ ∃ cap, i = InEnqueue (mkBuffer frame cap)) walk ins.
Proof.
  intros Hsv Hf. pose proof (si_pools _ Hsv) as Hst.
  assert (∀ ins0 st0, pool_wf st0 → ∃ st ins,
    foldl (λ osv '(_, o), sv ← osv; '(frame, st) ← clone_frame t frame (all_pools sv);
              Some (sv |> set_all_pools st |> post_session o (InEnqueue frame)))
      (Some (with_posts ins0 st0 sv)) walk = Some (with_posts (ins0 ++ ins) st sv)
    ∧ pool_wf st
    ∧ Forall2 (λ '(_, o) '(o', i), o' = o ∧ ∃ cap, i = InEnqueue (mkBuffer frame cap)) walk ins)
    as Hgen.
  2:{ pose proof (Hgen [] _ Hst) as Hnil.
      replace (with_posts [] (all_pools sv) sv) with sv in Hnil by (by destruct sv). exact Hnil. }
  clear Hst. induction walk as [|[id o] walk IH]; intros ins0 st0 Hst0.
  { exists st0, []. rewrite app_nil_r. by split_and!. }
  cbn [foldl mbind option_bind].
  destruct (clone_frame_spec t frame st0 Hst0 Hf) as (cap & st1 & Hc & Hst1).
  change (all_pools (with_posts ins0 st0 sv)) with st0. rewrite Hc. cbn [mbind option_bind].
  assert (post_session o (InEnqueue (mkBuffer frame cap)) (set_all_pools st1 (with_posts ins0 st0 sv))
          = with_posts (ins0 ++ [(o, InEnqueue (mkBuffer frame cap))]) st1 sv) as ->
    by (unfold with_posts; by rewrite foldl_app).
  destruct (IH (ins0 ++ [(o, InEnqueue (mkBuffer frame cap))]) st1 Hst1) as (st & ins & -> & Hst & Hall).
  exists st, ((o, InEnqueue (mkBuffer frame cap)) :: ins). rewrite <-app_assoc.
  split_and!; [done|done|]. constructor; eauto.
Qed.

Lemma close_loop (walk : list (Z * nat)) sv :
  foldl (λ sv '(_, o), post_session o InClose sv) sv walk
  = with_posts ((λ '(_, o), (o, InClose)) <$> walk) (all_pools sv) sv.
Proof.
  unfold with_posts. assert (∀ sv', all_pools sv' = all_pools sv →
    foldl (λ sv '(_, o), post_session o InClose sv) sv' walk
    = set_all_pools (all_pools sv)
        (foldl (λ sv '(o, i), post_session o i sv) sv' ((λ '(_, o), (o, InClose)) <$> walk)))
    as Hgen; [|by apply Hgen].
  induction walk as [|[id o] walk IH]; intros sv' E; csimpl.
  - rewrite <-E. by destruct sv'.
  - by rewrite IH.
Qed.

Lemma walk_objects sv (walk : list (Z * nat)) :
  server_inv sv → walk ≡ₚ map_to_list (sessions sv) →
  Forall (λ '(_, o), is_Some (objects sv !! o)) walk.
Proof.
  intros Hsv Hw. apply Forall_forall. intros [id o]. rewrite Hw, elem_of_map_to_list.
  intros Hid. by apply (si_sessions _ Hsv id o Hid).
Qed.

Lemma run_task_ok t walk task sv :
  server_inv sv → task_ok task → walk ≡ₚ map_to_list (sessions sv) →
  ∃ sv', run_task pool t walk task sv = Some sv' ∧ server_inv sv'.
Proof.
  intros Hsv Htask Hwalk. pose proof (walk_objects sv walk Hsv Hwalk) as Hobj.
  destruct task as [sid f|f|sid|sid|]; cbn [run_task].
  - destruct (shutting_down sv); [eexists; split; [done|by apply inv_release]|].
    destruct (sessions sv !! sid) as [o|] eqn:Hsid; eexists; (split; [done|]).
    + apply inv_post; [done| |done]. by apply (si_sessions _ Hsv sid o).
    + by apply inv_release.
  - destruct (shutting_down sv); [eexists; split; [done|by apply inv_release]|].
    destruct (broadcast_loop t (buf_data f) walk sv Hsv Htask) as (st & ins & -> & Hst & Hall).
    cbn [mbind option_bind]. eexists. split; [done|]. apply inv_release, inv_with_posts; [done..|].
    apply Forall_forall. intros [o i] Hi. apply list_elem_of_lookup in Hi as [k Hk].
    destruct (Forall2_lookup_r _ _ _ _ _ Hall Hk) as ([id o'] & Hk' & -> & cap & ->).
    split; [|done]. by apply (Forall_lookup_1 _ _ _ _ Hobj Hk').
  - destruct (shutting_down sv); [by eexists|].
    destruct (sessions sv !! sid) as [o|] eqn:Hsid; eexists; (split; [done|]); [|done].
    apply inv_post; [done| |done]. by apply (si_sessions _ Hsv sid o).
  - eexists. split; [done|]. apply (inv_frame sv); try apply Hsv; try done.
    intros id o. simpl. rewrite lookup_delete_Some. intros [_ Hid]. by apply (si_sessions _ Hsv).
  - eexists. split; [done|]. rewrite close_loop. apply inv_with_posts.
    + by apply inv_set_accepting.
    + apply Hsv.
    + apply Forall_fmap. eapply Forall_impl; [exact Hobj|]. by intros [id o].
Qed.

(** *** Calls of the game thread *)

(** [send] and [broadcast] post one frame, or nothing. *)
Lemma send_spec t sid data sv :
  pool_wf (all_pools sv) →
  ∃ cap st, pool_wf st ∧ server_send t sid data sv
    = Some (if sendable data && negb (shutting_down sv)
            then post_server (TaskSend sid (mkBuffer (data_frame data) cap)) (set_all_pools st sv)
            else sv).
Proof.
  intros Hst. unfold server_send. destruct (sendable data) eqn:Hp;
    unfold sendable in Hp; [apply negb_true_iff in Hp|apply negb_false_iff in Hp]; rewrite Hp.
  2:{ by exists 0, ∅; split; auto with night. }
  destruct (shutting_down sv); simpl; [by exists 0, ∅; split; auto with night|].
  destruct (build_data_spec t data _ Hst) as (cap & st & -> & Hst'); [by apply negb_true_iff|].
  exists cap, st. by split.
Qed.

Lemma broadcast_spec t data sv :
  pool_wf (all_pools sv) →
  ∃ cap st, pool_wf st ∧ broadcast t data sv
    = Some (if sendable data && negb (shutting_down sv)
            then post_server (TaskBroadcast (mkBuffer (data_frame data) cap)) (set_all_pools st sv)
            else sv).
Proof.
  intros Hst. unfold broadcast. destruct (sendable data) eqn:Hp;
    unfold sendable in Hp; [apply negb_true_iff in Hp|apply negb_false_iff in Hp]; rewrite Hp.
  2:{ by exists 0, ∅; split; auto with night. }
  destruct (shutting_down sv); simpl; [by exists 0, ∅; split; auto with night|].
  destruct (build_data_spec t data _ Hst) as (cap & st & -> & Hst'); [by apply negb_true_iff|].
  exists cap, st. by split.
Qed.

Lemma inv_shutdown sv : server_inv sv → server_inv (shutdown sv).
Proof.
  intros Hsv. unfold shutdown. destruct (shutting_down sv); [done|].
  apply inv_post_server; [|done]. by apply (inv_frame sv); try apply Hsv.
Qed.

(** ** Every step *)

Lemma posted_enabled o i s : is_completion i = false → enabled i s.
Proof. by destruct i. Qed.

Lemma server_handle_ok i sv :
  server_inv sv → server_enabled i sv →
  ∃ sv', server_handle pool i sv = Some sv' ∧ server_inv sv'.
Proof.
  intros Hsv Hen. destruct i as [now ec|t walk|t o|t o i| |t sid data|t data|sid| |]; cbn in *.
  - eexists. split; [done|by apply inv_accept].
  - destruct Hen as (_ & Hne & Hwalk). pose proof (si_tasks _ Hsv) as Htasks.
    destruct (server_strand sv) as [|task rest] eqn:Hq; [done|].
    apply Forall_cons in Htasks as [Htask Hrest]. by apply run_task_ok; [apply inv_set_strand|..].
  - destruct Hen as [_ Hne]. destruct (strand_of o sv) as [|i rest] eqn:Hq; [done|].
    destruct (inv_pop_strand o i rest sv Hsv Hq) as (Hsv1 & Hi & s & Hs).
    destruct (run_session_ok t o s i _ Hsv1 Hs) as (w1 & sv' & _ & ? & _ & ?);
      [by apply (posted_enabled o)|eauto].
  - destruct Hen as (_ & _ & s & Hs & Hi).
    destruct (run_session_ok t o s i _ Hsv Hs Hi) as (w1 & sv' & _ & ? & _ & ?). eauto.
  - eexists. split; [done|]. unfold poll_packet. destruct (packet_queue sv); [done|].
    by apply (inv_frame sv); try apply Hsv.
  - destruct (send_spec t sid data sv (si_pools _ Hsv)) as (cap & st & Hst & ->).
    eexists. split; [done|]. destruct (sendable data) eqn:Hp, (shutting_down sv); simpl; try done.
    apply inv_post_server; [by apply inv_set_pools|by apply sendable_fits].
  - destruct (broadcast_spec t data sv (si_pools _ Hsv)) as (cap & st & Hst & ->).
    eexists. split; [done|]. destruct (sendable data) eqn:Hp, (shutting_down sv); simpl; try done.
    apply inv_post_server; [by apply inv_set_pools|by apply sendable_fits].
  - eexists. split; [done|]. unfold disconnect. destruct (shutting_down sv); [done|].
    by apply inv_post_server.
  - eexists. split; [done|by apply inv_shutdown].
  - eexists. split; [done|]. by apply (inv_frame sv); try apply Hsv.
Qed.

Lemma steps_inv sv0 tr sv :
  server_inv sv0 → server_steps pool sv0 tr sv → server_inv sv.
Proof.
  intros Hsv0. induction 1 as [|tr i sv sv' _ IH Hen Heq]; [done|].
  destruct (server_handle_ok i sv IH Hen) as (sv2 & Heq2 & Hsv2). congruence.
Qed.

Lemma run_inv tr sv : server_run pool tr sv → server_inv sv.
Proof. apply steps_inv, inv_create. Qed.

(** *** The packet queue *)

Lemma queue_posts pre ins st sv : queue_inv pre sv → queue_inv pre (with_posts ins st sv).
Proof.
  intros Hq. destruct (posts_frame ins sv) as (_ & _ & _ & _ & _ & H1 & H2 & H3 & _).
  by apply (queue_inv_frame pre sv).
Qed.

Lemma queue_run_task pre t walk task sv sv' :
  server_inv sv → task_ok task → run_task pool t walk task sv = Some sv' →
  queue_inv pre sv → queue_inv pre sv'.
Proof.
  intros Hsv Htask Heq Hq. destruct task as [sid f|f|sid|sid|]; cbn [run_task] in Heq.
  - destruct (shutting_down sv); [|destruct (sessions sv !! sid)]; simplify_eq;
      by apply (queue_inv_frame pre sv).
  - destruct (shutting_down sv); [simplify_eq; by apply (queue_inv_frame pre sv)|].
    destruct (broadcast_loop t (buf_data f) walk sv Hsv Htask) as (st & ins & E & _).
    rewrite E in Heq. cbn [mbind option_bind] in Heq. simplify_eq.
    apply (queue_inv_frame pre (with_posts ins st sv)); [by apply queue_posts|done..].
  - destruct (shutting_down sv); [|destruct (sessions sv !! sid)]; simplify_eq; try done;
      by apply (queue_inv_frame pre sv).
  - simplify_eq. by apply (queue_inv_frame pre sv).
  - simplify_eq. rewrite close_loop. apply queue_posts. by apply (queue_inv_frame pre sv).
Qed.

Lemma queue_run_session pre t o i sv sv' :
  run_session pool t o i sv = Some sv' → queue_inv pre sv → queue_inv pre sv'.
Proof.
  unfold run_session. destruct (objects sv !! o) as [s|]; [|done]. cbn [mbind option_bind].
  destruct (session_handle pool t i _) as [w|]; [|done]. cbn [mbind option_bind]. intros [= <-] Hq.
  eapply ed_queue; [apply effects_done_all|]. by apply (queue_inv_frame pre sv).
Qed.

Lemma queue_step pre i sv sv' :
  server_inv sv → server_handle pool i sv = Some sv' →
  queue_inv pre sv → queue_inv (pre ++ polled (observe i sv)) sv'.
Proof.
  intros Hsv Heq Hq. destruct i as [now ec|t walk|t o|t o i| |t sid data|t data|sid| |];
    cbn in *; rewrite ?app_nil_r.
  - injection Heq as <-. destruct (on_accept_spec now ec sv) as (sv2 & -> & _ & H2).
    assert (queue_inv pre sv2) as Hq2.
    { apply (queue_inv_frame pre sv (set_accepting false sv)) in Hq; [|done..].
      destruct H2 as [->|(_ & _ & _ & Hkeep)]; [done|auto]. }
    destruct (shutting_down sv); [done|]. by apply (queue_inv_frame pre sv2).
  - pose proof (si_tasks _ Hsv) as Htasks. destruct (server_strand sv) as [|task rest]; [done|].
    apply Forall_cons in Htasks as [Htask Hrest].
    apply (queue_run_task pre t walk task (set_strand rest sv)); [by apply inv_set_strand|done..|].
    by apply (queue_inv_frame pre sv).
  - destruct (strand_of o sv) as [|i rest]; [done|].
    eapply queue_run_session; [exact Heq|]. by apply (queue_inv_frame pre sv).
  - by eapply queue_run_session.
  - injection Heq as <-. unfold poll_packet. destruct Hq as [Hf Hb Hd].
    destruct (packet_queue sv) as [|p q] eqn:E; simpl; [rewrite app_nil_r; by split; rewrite ?E|].
    split; simpl; [by rewrite Hf, <-app_assoc| |done].
    unfold zlen in *. simpl in Hb. lia.
  - destruct (send_spec t sid data sv (si_pools _ Hsv)) as (cap & st & Hst & E).
    rewrite E in Heq. injection Heq as <-. destruct (_ && _); by apply (queue_inv_frame pre sv).
  - destruct (broadcast_spec t data sv (si_pools _ Hsv)) as (cap & st & Hst & E).
    rewrite E in Heq. injection Heq as <-. destruct (_ && _); by apply (queue_inv_frame pre sv).
  - injection Heq as <-. unfold disconnect. destruct (shutting_down sv); by apply (queue_inv_frame pre sv).
  - injection Heq as <-. unfold shutdown. destruct (shutting_down sv); by apply (queue_inv_frame pre sv).
  - injection Heq as <-. by apply (queue_inv_frame pre sv).
Qed.

Lemma polled_app tr1 tr2 : polled (tr1 ++ tr2) = polled tr1 ++ polled tr2.
Proof. apply omap_app. Qed.

Lemma run_queue tr sv : server_run pool tr sv → queue_inv (polled tr) sv.
Proof.
  intros Hrun. induction Hrun as [|tr i sv sv' Hrun IH Hen Heq].
  - split; [done| |done]. by compute.
  - rewrite polled_app. apply queue_step; [by eapply run_inv|done..].
Qed.
End Invariant.
