(* ===== verification/ServerTable.v ===== *)
(** * The session table

    While ids do not repeat (at most [2^32] connections), the table holds every
    open session, and a function posted to erase an entry belongs to a closed
    one. *)

From S2P Require Import Prelude Protocol BufferPool TransportDetail Session Packet Server ServerRun ServerInvariant.

(** ** Closing *)

Section Closing.
Context `{VectorAlloc} (pool : BufferPool).
Implicit Types (sv : ServerImpl) (o : nat).

Lemma erasures_closes id es :
  TaskErase id ∈ erasures es ↔ OnClose id ∈ closes es.
Proof.
  unfold erasures, closes. rewrite list_elem_of_omap. setoid_rewrite list_elem_of_In at 2.
  rewrite filter_In. setoid_rewrite <-list_elem_of_In. split.
  - intros ([| |] & He & Heq); simplify_eq. by split.
  - intros [He _]. by exists (OnClose id).
Qed.

(** A handler of a session erases it only by closing it, and a closed session
    stays closed. *)
Lemma step_closing t o i s sv w1 :
  server_inv pool sv → objects sv !! o = Some s → enabled i s →
  session_handle pool t i (mkWorld s (all_pools sv) []) = Some w1 →
  (closed_ s = true → closed_ (session w1) = true)
  ∧ ∀ id, TaskErase id ∈ erasures (effects w1) → id = object_id o ∧ closed_ (session w1) = true.
Proof.
  intros Hsv Ho Hen Heq.
  destruct (si_objects _ _ Hsv o s Ho) as (now0 & w & Hw & Hs & _).
  destruct (object_run_step pool t o s i sv now0 w Hsv Hw Hs Hen) as (w1' & Heq' & Hw1 & _).
  assert (w1' = w1) as -> by congruence.
  pose proof (sb_closes _ _ (proj1 (session_reachable_inv _ _ _ _ Hw))) as Hc.
  pose proof (sb_closes _ _ (proj1 (session_reachable_inv _ _ _ _ Hw1))) as Hc1.
  change (session (prepend (effects w) w1)) with (session w1) in Hc1.
  change (effects (prepend (effects w) w1)) with (effects w ++ effects w1) in Hc1.
  rewrite closes_app, Hc, Hs in Hc1. split.
  - intros Hclosed. rewrite Hclosed in Hc1. by destruct (closed_ (session w1)).
  - intros id Hin%erasures_closes.
    assert (OnClose id ∈ (if closed_ (session w1) then [OnClose (object_id o)] else [])) as Hin1
      by (rewrite <-Hc1; apply elem_of_app; by right).
    destruct (closed_ (session w1)); [|by apply elem_of_nil in Hin1].
    apply list_elem_of_singleton in Hin1. by simplify_eq.
Qed.

(** ** The table *)

Record table_inv sv : Prop := {
  ti_erase id : TaskErase id ∈ server_strand sv →
    ∃ o s, objects sv !! o = Some s ∧ object_id o = id ∧ closed_ s = true;
  ti_open o s : objects sv !! o = Some s → closed_ s = false →
    sessions sv !! object_id o = Some o;
}.

(** Objects do not disappear or reopen. *)
Definition objects_kept sv sv' : Prop :=
  ∀ o s, objects sv !! o = Some s →
    ∃ s', objects sv' !! o = Some s' ∧ (closed_ s = true → closed_ s' = true).

Lemma objects_kept_eq sv sv' : objects sv' = objects sv → objects_kept sv sv'.
Proof. intros E o s Ho. exists s. by rewrite E. Qed.

Lemma table_frame sv sv' :
  table_inv sv → objects sv' = objects sv → sessions sv' = sessions sv →
  (∀ id, TaskErase id ∈ server_strand sv' → TaskErase id ∈ server_strand sv) → table_inv sv'.
Proof.
  intros [He Ho] E1 E2 Hs. split; rewrite ?E1, ?E2; [|done]. intros id Hid. apply He; auto.
Qed.

Lemma table_run_session t o i sv sv' s :
  server_inv pool sv → table_inv sv → objects sv !! o = Some s → enabled i s →
  run_session pool t o i sv = Some sv' → table_inv sv' ∧ objects_kept sv sv'.
Proof.
  intros Hsv Ht Ho Hen Heq.
  destruct (run_session_ok pool t o s i sv Hsv Ho Hen) as (w1 & sv1 & Hw1 & Heq1 & Hed & _).
  assert (sv1 = sv') as -> by congruence. destruct (step_closing t o i s sv w1 Hsv Ho Hen Hw1) as [Hmono Herase].
  assert (∀ o', objects sv' !! o' = if decide (o = o') then Some (session w1) else objects sv !! o')
    as Hobj by (intros o'; rewrite (ed_objects _ _ _ _ Hed); apply lookup_insert).
  assert (objects_kept sv sv') as Hkept.
  { intros o' s' Ho'. rewrite Hobj. case_decide; [|by eauto]. subst o'. simplify_eq. eauto. }
  split; [|done]. split.
  - intros id. rewrite (ed_strand _ _ _ _ Hed). intros [Hin|Hin]%elem_of_app.
    + destruct (ti_erase _ Ht id Hin) as (o' & s' & Ho' & Hid & Hc).
      destruct (Hkept o' s' Ho') as (s2 & Hs2 & Hc2). exists o', s2. auto.
    + destruct (Herase id Hin) as [-> Hc]. exists o, (session w1).
      by rewrite Hobj, decide_True.
  - intros o' s'. rewrite Hobj, (ed_sessions _ _ _ _ Hed). simpl. case_decide as E; [|apply Ht].
    subst o'. intros [= <-] Hc. apply (ti_open _ Ht o s Ho).
    destruct (closed_ s); [|done]. by rewrite Hmono in Hc.
Qed.

Lemma table_run_task t walk task sv sv' :
  server_inv pool sv → task_ok task → unique_ids sv →
  walk ≡ₚ map_to_list (sessions sv) →
  table_inv (set_strand (task :: server_strand sv) sv) →
  run_task pool t walk task sv = Some sv' → table_inv sv' ∧ objects sv' = objects sv.
Proof.
  intros Hsv Htask Hu Hwalk Ht Heq.
  assert (table_inv sv) as Ht0 by (destruct Ht; split; simpl in *; [set_solver|done]).
  destruct task as [sid f|f|sid|sid|]; cbn [run_task] in Heq.
  - destruct (shutting_down sv); [|destruct (sessions sv !! sid)]; simplify_eq;
      (split; [by apply (table_frame sv)|done]).
  - destruct (shutting_down sv); [simplify_eq; split; [by apply (table_frame sv)|done]|].
    destruct (broadcast_loop pool t (buf_data f) walk sv Hsv Htask) as (st & ins & E & _).
    rewrite E in Heq. cbn [mbind option_bind] in Heq. simplify_eq.
    destruct (posts_frame ins sv) as (E1 & _ & E2 & _ & E3 & _).
    split; [|exact E1]. apply (table_frame sv); simpl; [done|done|done|]. by rewrite E3.
  - destruct (shutting_down sv); [|destruct (sessions sv !! sid)]; simplify_eq; try done;
      (split; [by apply (table_frame sv)|done]).
  - simplify_eq. split; [|done]. split; [apply Ht0|]. simpl. intros o s Ho Hc.
    rewrite lookup_delete_ne; [by eapply ti_open|]. intros ->.
    destruct (ti_erase _ Ht (object_id o)) as (o' & s' & Ho' & Hid & Hc'); [by left|].
    simpl in Ho'. assert (o' = o); [|subst; congruence].
    eapply object_id_inj; [by eapply (si_fresh _ sv)|by eapply (si_fresh _ sv)|exact Hu|done].
  - simplify_eq. rewrite close_loop.
    set (ins := (λ '(_, o), (o, InClose)) <$> walk).
    destruct (posts_frame ins (set_accepting false sv)) as (E1 & _ & E2 & _ & E3 & _).
    split; [|exact E1]. apply (table_frame sv); simpl; [done|exact E1|exact E2|].
    by rewrite E3.
Qed.

Lemma table_accept now ec sv :
  server_inv pool sv → table_inv sv → unique_ids (on_accept now ec sv) →
  table_inv (on_accept now ec sv) ∧ objects_kept sv (on_accept now ec sv).
Proof.
  intros Hsv Ht. destruct (on_accept_spec now ec sv) as (sv2 & E & _ & H2).
  assert (∀ b x, table_inv (set_accepting b x) ↔ table_inv x) as Hacc
    by (intros b x; split; intros [? ?]; by split).
  intros Hu. rewrite E in *. assert (unique_ids sv2) as Hu2 by (by destruct (shutting_down sv)).
  assert (table_inv sv2 ∧ objects_kept sv sv2) as [Ht2 Hk2];
    [|destruct (shutting_down sv); split; first [done | by apply Hacc]].
  clear E Hu. destruct H2 as [->|(_ & _ & [news Hcn] & _)].
  { split; [by apply Hacc|by apply objects_kept_eq]. }
  apply (inv_set_accepting pool false) in Hsv. apply (Hacc false) in Ht.
  assert (objects_kept sv sv2) as Hk.
  { intros o s Ho. exists s. split; [|done].
    rewrite (connected_lookup pool news _ _ Hsv Hcn). rewrite decide_False; [done|].
    intros <-. pose proof (connected_fresh pool _ Hsv) as Hf. simpl in *. congruence. }
  split; [|done]. split.
  - intros id. rewrite (cn_strand _ _ _ Hcn). intros Hin.
    destruct (ti_erase _ Ht id Hin) as (o & s & Ho & Hid & Hc).
    destruct (Hk o s Ho) as (s' & Ho' & Hc'). exists o, s'. auto.
  - intros o s. rewrite (connected_lookup pool news _ _ Hsv Hcn). case_decide as Eo.
    + intros Hn Hc. subst o. rewrite <-(si_next_id _ _ Hsv).
      destruct (cn_added _ _ _ Hcn) as [o Ho]; [by eauto|]. rewrite Ho.
      destruct (cn_sessions _ _ _ Hcn _ _ Ho) as [Hold|(_ & -> & _)]; [|done].
      destruct (si_sessions _ _ Hsv _ _ Hold) as [[s0 Hs0] Hid].
      pose proof (si_fresh _ _ Hsv _ _ Hs0). rewrite (si_next_id _ _ Hsv) in Hid.
      f_equal. eapply (object_id_inj _ _ (S (next_object sv))); [simpl in *; lia..| |exact Hid].
      by apply (unique_before news _ sv2 Hcn).
    + intros Ho Hc. apply (cn_kept _ _ _ Hcn). by eapply ti_open.
Qed.

(** What only grows: object numbers, the log; nothing is queued or accepted once
    the server shuts down. *)
Record grown sv sv' : Prop := {
  gr_next : (next_object sv ≤ next_object sv')%nat;
  gr_log : ∃ log, packet_log sv' = packet_log sv ++ log ∧ (shutting_down sv = true → queued log = []);
  gr_shut : shutting_down sv = true → shutting_down sv' = true ∧ next_object sv' = next_object sv;
}.

Lemma grown_eq sv sv' :
  next_object sv' = next_object sv → packet_log sv' = packet_log sv →
  (shutting_down sv = true → shutting_down sv' = true) → grown sv sv'.
Proof.
  intros E1 E2 E3. split; [lia|exists []; by rewrite app_nil_r|auto].
Qed.

Lemma grown_refl sv : grown sv sv.
Proof. by apply grown_eq. Qed.

Lemma grown_trans sv1 sv2 sv3 : grown sv1 sv2 → grown sv2 sv3 → grown sv1 sv3.
Proof.
  intros [Hn1 (l1 & Hl1 & Hq1) Hs1] [Hn2 (l2 & Hl2 & Hq2) Hs2]. split; [lia| |].
  - exists (l1 ++ l2). rewrite Hl2, Hl1, app_assoc. split; [done|]. intros Hs.
    destruct (Hs1 Hs) as [Hs' _]. by rewrite queued_app, Hq1, Hq2.
  - intros Hs. destruct (Hs1 Hs) as [Hs' ?]. destruct (Hs2 Hs'). split; [done|congruence].
Qed.

Lemma grown_posts ins st sv : grown sv (with_posts ins st sv).
Proof.
  destruct (posts_frame ins sv) as (_ & E1 & _ & E2 & _ & E3 & _).
  apply grown_eq; [exact E1|exact E3|]. intros Hs. simpl. by rewrite E2.
Qed.

Lemma grown_session t o i sv sv' : run_session pool t o i sv = Some sv' → grown sv sv'.
Proof.
  unfold run_session. destruct (objects sv !! o) as [s|]; [|done]. cbn [mbind option_bind].
  destruct (session_handle pool t i _) as [w|]; [|done]. cbn [mbind option_bind]. intros [= <-].
  pose proof (effects_done_all o (effects w) (set_all_pools (pools w) (set_object o (session w) sv)))
    as Hed. split.
  - by rewrite (ed_next_object _ _ _ _ Hed).
  - destruct (ed_log _ _ _ _ Hed) as (log & Hlog & _ & Hr). by exists log.
  - rewrite (ed_next_object _ _ _ _ Hed), (ed_shutting _ _ _ _ Hed). done.
Qed.

Lemma grown_task t walk task sv sv' :
  server_inv pool sv → task_ok task → run_task pool t walk task sv = Some sv' → grown sv sv'.
Proof.
  intros Hsv Htask Heq. destruct task as [sid f|f|sid|sid|]; cbn [run_task] in Heq.
  - destruct (shutting_down sv); [|destruct (sessions sv !! sid)]; simplify_eq; by apply grown_eq.
  - destruct (shutting_down sv); [simplify_eq; by apply grown_eq|].
    destruct (broadcast_loop pool t (buf_data f) walk sv Hsv Htask) as (st & ins & E & _).
    rewrite E in Heq. cbn [mbind option_bind] in Heq. simplify_eq.
    eapply grown_trans; [apply grown_posts|by apply grown_eq].
  - destruct (shutting_down sv); [|destruct (sessions sv !! sid)]; simplify_eq;
      first [apply grown_refl | by apply grown_eq].
  - simplify_eq. by apply grown_eq.
  - simplify_eq. rewrite close_loop. eapply grown_trans; [|apply grown_posts]. by apply grown_eq.
Qed.

Lemma grown_accept now ec sv : grown sv (on_accept now ec sv).
Proof.
  destruct (on_accept_spec now ec sv) as (sv2 & -> & Hs2 & H2).
  assert (grown sv sv2) as Hg.
  { destruct H2 as [->|(_ & Hs & [news Hcn] & _)]; [by apply grown_eq|].
    destruct (cn_log _ _ _ Hcn) as (r & Hlog & _). split.
    - rewrite (cn_next_object _ _ _ Hcn). simpl. lia.
    - eexists. split; [exact Hlog|]. congruence.
    - congruence. }
  destruct (shutting_down sv); [done|]. eapply grown_trans; [exact Hg|by apply grown_eq].
Qed.

Lemma grown_step i sv sv' :
  server_inv pool sv → server_handle pool i sv = Some sv' → grown sv sv'.
Proof.
  intros Hsv Heq. destruct i as [now ec|t walk|t o|t o i| |t sid data|t data|sid| |]; cbn in Heq.
  - injection Heq as <-. apply grown_accept.
  - pose proof (si_tasks _ _ Hsv) as Htasks. destruct (server_strand sv) as [|task rest]; [done|].
    apply Forall_cons in Htasks as [Htask Hrest].
    apply (grown_trans _ (set_strand rest sv)); [by apply grown_eq|].
    apply (grown_task t walk task); [by apply inv_set_strand|done..].
  - destruct (strand_of o sv) as [|i rest]; [done|].
    apply (grown_trans _ (set_session_strand o rest sv)); [by apply grown_eq|].
    by eapply grown_session.
  - by eapply grown_session.
  - injection Heq as <-. unfold poll_packet. destruct (packet_queue sv); by apply grown_eq.
  - destruct (send_spec t sid data sv (si_pools _ _ Hsv)) as (cap & st & _ & E).
    rewrite E in Heq. injection Heq as <-. destruct (_ && _); by apply grown_eq.
  - destruct (broadcast_spec t data sv (si_pools _ _ Hsv)) as (cap & st & _ & E).
    rewrite E in Heq. injection Heq as <-. destruct (_ && _); by apply grown_eq.
  - injection Heq as <-. unfold disconnect. destruct (shutting_down sv) eqn:E; apply grown_eq; simpl; congruence.
  - injection Heq as <-. unfold shutdown. destruct (shutting_down sv) eqn:E; apply grown_eq; simpl; congruence.
  - injection Heq as <-. by apply grown_eq.
Qed.

(** Ids are unique before a step when they are unique after it. *)
Lemma unique_step i sv sv' :
  server_inv pool sv → server_handle pool i sv = Some sv' → unique_ids sv' → unique_ids sv.
Proof.
  intros Hsv Heq. pose proof (gr_next _ _ (grown_step i sv sv' Hsv Heq)). unfold unique_ids. lia.
Qed.

Lemma table_step i sv sv' :
  server_inv pool sv → table_inv sv → server_enabled i sv → unique_ids sv' →
  server_handle pool i sv = Some sv' → table_inv sv' ∧ objects_kept sv sv'.
Proof.
  intros Hsv Ht Hen Hu Heq. pose proof (unique_step i sv sv' Hsv Heq Hu) as Hu0.
  destruct i as [now ec|t walk|t o|t o i| |t sid data|t data|sid| |]; cbn in Heq, Hen.
  - injection Heq as <-. by apply table_accept.
  - destruct Hen as (_ & _ & Hwalk). pose proof (si_tasks _ _ Hsv) as Htasks.
    destruct (server_strand sv) as [|task rest] eqn:Hq; [done|].
    apply Forall_cons in Htasks as [Htask Hrest].
    destruct (table_run_task t walk task (set_strand rest sv) sv') as [? E]; try done.
    + by apply inv_set_strand.
    + apply (table_frame sv); try done. simpl. by rewrite Hq.
    + split; [done|]. by apply objects_kept_eq.
  - destruct Hen as [_ Hne]. destruct (strand_of o sv) as [|i rest] eqn:Hq; [done|].
    destruct (inv_pop_strand pool o i rest sv Hsv Hq) as (Hsv1 & Hi & s & Hs).
    eapply (table_run_session t o i (set_session_strand o rest sv)); try done.
    + by apply (table_frame sv).
    + by apply (posted_enabled o).
  - destruct Hen as (_ & _ & s & Hs & Hi). by eapply table_run_session.
  - injection Heq as <-. unfold poll_packet. destruct (packet_queue sv);
      (split; [by apply (table_frame sv)|by apply objects_kept_eq]).
  - destruct (send_spec t sid data sv (si_pools _ _ Hsv)) as (cap & st & _ & E).
    rewrite E in Heq. injection Heq as <-. destruct (_ && _);
      (split; [apply (table_frame sv); try done; set_solver|by apply objects_kept_eq]).
  - destruct (broadcast_spec t data sv (si_pools _ _ Hsv)) as (cap & st & _ & E).
    rewrite E in Heq. injection Heq as <-. destruct (_ && _);
      (split; [apply (table_frame sv); try done; set_solver|by apply objects_kept_eq]).
  - injection Heq as <-. unfold disconnect. destruct (shutting_down sv);
      (split; [apply (table_frame sv); try done; set_solver|by apply objects_kept_eq]).
  - injection Heq as <-. unfold shutdown. destruct (shutting_down sv);
      (split; [apply (table_frame sv); try done; set_solver|by apply objects_kept_eq]).
  - injection Heq as <-. split; [by apply (table_frame sv)|by apply objects_kept_eq].
Qed.

Lemma table_create : table_inv server_create.
Proof. split; simpl; [by intros id ?%elem_of_nil|done]. Qed.

Lemma run_table tr sv : server_run pool tr sv → unique_ids sv → table_inv sv.
Proof.
  intros Hrun. induction Hrun as [|tr i sv sv' Hrun IH Hen Heq]; [intros _; apply table_create|].
  intros Hu. pose proof (run_inv pool tr sv Hrun) as Hsv.
  eapply (table_step i sv); try done. by apply IH, (unique_step i sv sv').
Qed.
End Closing.
