(* ===== verification/ServerPipeline.v ===== *)
(** * Frames on their way to one client

    [pipeline] collects, for one session, the data frames in the order they
    reach the socket: handed to it, waiting in the session's queue, posted to
    the session's strand, posted to the server strand.  While the session is
    open, a step of the server appends to it what the game thread sends in that
    step, and nothing else. *)

From S2P Require Import Prelude Protocol BufferPool TransportDetail Session Packet Server ServerRun ServerInvariant ServerTable.

(** Frames posted to a session's strand. *)
Definition posted_frames (ins : list SessionInput) : list bytes :=
  omap (λ i, match i with InEnqueue f => Some (buf_data f) | _ => None end) ins.

(** Frames the server strand will hand to session [id]. *)
Definition queued_for (id : Z) (tasks : list ServerTask) : list bytes :=
  omap (λ task, match task with
                | TaskSend sid f => if decide (sid = id) then Some (buf_data f) else None
                | TaskBroadcast f => Some (buf_data f)
                | _ => None
                end) tasks.

Definition pipeline (o : nat) (sv : ServerImpl) : list bytes :=
  data_only (wire_of o sv ++ from_option waiting [] (objects sv !! o)
             ++ posted_frames (strand_of o sv) ++ queued_for (object_id o) (server_strand sv)).

(** The frames the game thread asks for session [id]. *)
Definition requested (id : Z) (tr : list TransportEvent) : list bytes :=
  omap (λ e, match e with
             | EvSent sid data =>
                 if decide (sid = id ∧ sendable data = true) then Some (data_frame data) else None
             | EvBroadcast data =>
                 if decide (sendable data = true) then Some (data_frame data) else None
             | EvPolled _ => None
             end) tr.

Arguments posted_frames : simpl never.
Arguments queued_for : simpl never.

Section Pipeline.
Context `{VectorAlloc} (pool : BufferPool).
Implicit Types (sv : ServerImpl) (o : nat).

Lemma posted_frames_app l k : posted_frames (l ++ k) = posted_frames l ++ posted_frames k.
Proof. apply omap_app. Qed.
Lemma queued_for_app id l k : queued_for id (l ++ k) = queued_for id l ++ queued_for id k.
Proof. apply omap_app. Qed.

Lemma queued_for_erasures id es : queued_for id (erasures es) = [].
Proof. unfold queued_for, erasures. by induction es as [|[] es IH]. Qed.

Lemma pipeline_eq o sv sv' :
  wire sv' = wire sv → objects sv' !! o = objects sv !! o → strand_of o sv' = strand_of o sv →
  queued_for (object_id o) (server_strand sv') = queued_for (object_id o) (server_strand sv) →
  pipeline o sv' = pipeline o sv.
Proof. unfold pipeline, wire_of. by intros -> -> -> ->. Qed.

(** *** Handlers of sessions *)

(** Keepalives aside, a session that stays open adds the frames posted to it. *)
Lemma accepted_open t i w w' :
  session_handle pool t i w = Some w' → closed_ (session w') = false →
  data_only (accepted i (session w)) = data_only (posted_frames [i]).
Proof.
  intros Heq Hc. unfold accepted.
  destruct i as [f| |now ec h|ec b|ec|now ec]; try (by destruct (accepts _)).
  - cbn in Heq. injection Heq as <-. revert Hc. unfold enqueue_write, enqueue_frame, accepts.
    destruct (closed_ (session w)) eqn:Hcl; simpl; [congruence|].
    destruct (Z.leb_spec MAX_PENDING_WRITE_FRAMES (zlen (write_queue_ (session w)))),
      (Z.ltb_spec (zlen (write_queue_ (session w))) MAX_PENDING_WRITE_FRAMES); try lia; simpl; [|done].
    unfold handle_close. simpl. by rewrite Hcl.
  - destruct (accepts _); [|done]. destruct ec; [done|]. destruct (_ <=? _); [done|].
    by vm_compute.
Qed.

(** One input of session [o1], whose functions posted before it are [rest]. *)
Lemma pipeline_run_session t o1 o i s sv sv' s' :
  server_inv pool sv → objects sv !! o1 = Some s → enabled i s →
  run_session pool t o1 i sv = Some sv' →
  objects sv' !! o = Some s' → closed_ s' = false →
  pipeline o sv' = data_only (wire_of o sv ++ from_option waiting [] (objects sv !! o)
                     ++ (if decide (o1 = o) then posted_frames [i] else [])
                     ++ posted_frames (strand_of o sv)
                     ++ queued_for (object_id o) (server_strand sv)).
Proof.
  intros Hsv Ho1 Hen Heq Ho' Hc.
  destruct (run_session_ok pool t o1 s i sv Hsv Ho1 Hen) as (w1 & sv1 & Hw1 & Heq1 & Hed & _).
  assert (sv1 = sv') as -> by congruence. unfold pipeline.
  assert (strand_of o sv' = strand_of o sv) as ->
    by (unfold strand_of; by rewrite (ed_strands _ _ _ _ Hed)).
  rewrite (wire_of_effects o1 _ _ _ o Hed), (ed_strand _ _ _ _ Hed), queued_for_app,
    queued_for_erasures, app_nil_r.
  assert (objects sv' !! o = if decide (o1 = o) then Some (session w1) else objects sv !! o) as Hobj
    by (rewrite (ed_objects _ _ _ _ Hed); apply lookup_insert).
  rewrite Hobj in Ho' |- *. case_decide as E; [subst o1|by rewrite app_nil_r].
  injection Ho' as <-. rewrite Ho1. cbn [from_option].
  destruct (si_objects _ _ Hsv o s Ho1) as (now0 & w & Hw & Hs & Hwire & _).
  set (w0 := mkWorld s (all_pools sv) []) in *.
  assert (session_inv (object_id o) (prepend (effects w) w0)) as Hinv.
  { pose proof (session_reachable_inv _ _ _ _ (reach_pools pool _ _ (all_pools sv) w Hw
      (si_pools _ _ Hsv))) as Hinv. unfold prepend, w0. simpl. rewrite app_nil_r.
    by subst s. }
  assert (session_handle pool t i (prepend (effects w) w0) = Some (prepend (effects w) w1)) as Hstep
    by (by rewrite session_handle_prepend, Hw1).
  pose proof (output_handle pool t _ _ _ _ Hinv Hen Hstep) as Hout.
  unfold output in Hout. simpl in Hout. rewrite app_nil_r, started_app in Hout.
  change (wire_of o (set_all_pools (pools w1) (set_object o (session w1) sv))) with (wire_of o sv).
  pose proof (accepted_open t i w0 w1 Hw1 Hc) as Hacc. change (session w0) with s in Hacc.
  rewrite Hwire, app_assoc, data_only_app, Hout, !data_only_app, Hacc.
  by rewrite <-!app_assoc.
Qed.

(** *** Tasks of the server strand *)

(** A walk over the table finds an open session exactly once. *)
Lemma walk_once sv (walk : list (Z * nat)) o :
  server_inv pool sv → sessions sv !! object_id o = Some o → walk ≡ₚ map_to_list (sessions sv) →
  List.filter (λ x : Z * nat, bool_decide (x.2 = o)) walk = [(object_id o, o)].
Proof.
  intros Hsv Hid Hwalk. apply Permutation_singleton_r.
  assert (∀ l l' : list (Z * nat), l ≡ₚ l' →
    List.filter (λ x : Z * nat, bool_decide (x.2 = o)) l
    ≡ₚ List.filter (λ x : Z * nat, bool_decide (x.2 = o)) l') as Hperm.
  { induction 1 as [|x l l' _ IH|x y l|l1 l2 l3 _ IH1 _ IH2]; simpl; [done| | |by etrans].
    - destruct (bool_decide _); [by constructor|done].
    - destruct (bool_decide (x.2 = o)), (bool_decide (y.2 = o)); try done. constructor. }
  rewrite (Hperm _ _ Hwalk), <-(insert_delete_id _ _ _ Hid).
  rewrite (Hperm _ _ (map_to_list_insert _ _ _ (lookup_delete_eq _ _))). simpl.
  rewrite bool_decide_true by done. constructor.
  assert (Forall (λ x : Z * nat, x.2 ≠ o) (map_to_list (delete (object_id o) (sessions sv)))) as Hne.
  { apply Forall_forall. intros [id o'] Hin%elem_of_map_to_list. simpl. intros ->.
    apply lookup_delete_Some in Hin as [Hneq Hin].
    by destruct (si_sessions _ _ Hsv id o Hin) as [_ <-]. }
  induction Hne as [|x l Hx _ IH]; [done|]. simpl. by rewrite bool_decide_false.
Qed.

Lemma posts_broadcast frame (walk : list (Z * nat)) ins o :
  Forall2 (λ '(_, o) '(o', i), o' = o ∧ ∃ cap, i = InEnqueue (mkBuffer frame cap)) walk ins →
  posted_frames (posts_to o ins)
  = (λ _, frame) <$> List.filter (λ x : Z * nat, bool_decide (x.2 = o)) walk.
Proof.
  unfold posts_to, posted_frames.
  induction 1 as [|[id o1] [o2 i] walk ins [-> [cap ->]] _ IH]; [done|]. csimpl.
  destruct (decide (o1 = o)) as [->|Hne].
  - rewrite bool_decide_true by done. csimpl. by rewrite IH.
  - by rewrite bool_decide_false.
Qed.

Lemma posts_close (walk : list (Z * nat)) o :
  posted_frames (posts_to o ((λ '(_, o), (o, InClose)) <$> walk)) = [].
Proof.
  unfold posts_to, posted_frames. induction walk as [|[id o'] walk IH]; [done|]. csimpl.
  by case_decide.
Qed.

(** The posts of a task end the frames posted to [o]. *)
Lemma pipeline_posts ins st sv o :
  pipeline o (with_posts ins st sv)
  = data_only (wire_of o sv ++ from_option waiting [] (objects sv !! o)
      ++ (posted_frames (strand_of o sv) ++ posted_frames (posts_to o ins))
      ++ queued_for (object_id o) (server_strand sv)).
Proof.
  unfold pipeline, with_posts, wire_of.
  change (strand_of o (set_all_pools st ?x)) with (strand_of o x). rewrite posts_strand.
  destruct (posts_frame ins sv) as (E1 & _ & _ & _ & E2 & _ & _ & _ & E3 & _).
  simpl. by rewrite E1, E2, E3, posted_frames_app.
Qed.

Lemma post_as_posts o i sv : post_session o i sv = with_posts [(o, i)] (all_pools sv) sv.
Proof. by destruct sv. Qed.

Lemma pipeline_task t walk task sv sv' o s :
  server_inv pool sv → task_ok task → unique_ids sv → walk ≡ₚ map_to_list (sessions sv) →
  run_task pool t walk task sv = Some sv' → shutting_down sv = false →
  objects sv !! o = Some s → sessions sv !! object_id o = Some o →
  pipeline o sv' = data_only (wire_of o sv ++ from_option waiting [] (objects sv !! o)
                     ++ posted_frames (strand_of o sv) ++ queued_for (object_id o) [task]
                     ++ queued_for (object_id o) (server_strand sv)).
Proof.
  intros Hsv Htask Hu Hwalk Heq Hshut Ho Hid.
  destruct task as [sid f|f|sid|sid|]; cbn [run_task] in Heq; rewrite ?Hshut in Heq.
  - destruct (sessions sv !! sid) as [o1|] eqn:Hsid; injection Heq as <-.
    + rewrite post_as_posts, pipeline_posts. unfold queued_for at 2, posts_to, posted_frames at 2.
      destruct (si_sessions _ _ Hsv sid o1 Hsid) as [[s1 Hs1] Hid1].
      csimpl. destruct (decide (o1 = o)) as [->|Hne], (decide (sid = object_id o)) as [->|Hne'];
        csimpl; rewrite ?app_nil_r; try done; try congruence.
      by rewrite <-!app_assoc.
    + rewrite (pipeline_eq o sv) by done. unfold queued_for at 1. csimpl.
      destruct (decide (sid = object_id o)) as [->|]; [congruence|done].
  - destruct (broadcast_loop pool t (buf_data f) walk sv Hsv Htask) as (st & ins & E & _ & Hall).
    rewrite E in Heq. cbn [mbind option_bind] in Heq. injection Heq as <-.
    rewrite (pipeline_eq o (with_posts ins st sv)), pipeline_posts by done.
    rewrite (posts_broadcast _ walk ins o Hall), (walk_once sv walk o) by done.
    by rewrite <-!app_assoc.
  - destruct (sessions sv !! sid) as [o1|]; injection Heq as <-; [|done].
    rewrite post_as_posts, pipeline_posts. unfold posts_to. csimpl.
    case_decide; by rewrite app_nil_r.
  - injection Heq as <-. by rewrite (pipeline_eq o sv).
  - injection Heq as <-. rewrite close_loop, pipeline_posts, posts_close, app_nil_r. done.
Qed.

Lemma task_shutting t walk task sv sv' :
  server_inv pool sv → task_ok task → run_task pool t walk task sv = Some sv' →
  shutting_down sv' = false → shutting_down sv = false.
Proof.
  intros Hsv Htask Heq Hs. destruct task as [sid f|f|sid|sid|]; cbn [run_task] in Heq.
  - destruct (shutting_down sv) eqn:E; [|done]. injection Heq as <-. by simpl in Hs; congruence.
  - destruct (shutting_down sv) eqn:E; [|done]. injection Heq as <-. by simpl in Hs; congruence.
  - destruct (shutting_down sv) eqn:E; [|done]. injection Heq as <-. congruence.
  - by injection Heq as <-.
  - injection Heq as <-. rewrite close_loop in Hs.
    match type of Hs with context [with_posts ?l _ ?x] =>
      destruct (posts_frame l x) as (_ & _ & _ & E & _) end.
    simpl in Hs. by rewrite E in Hs.
Qed.

(** ** Every step *)

Lemma pipeline_accept now ec sv o s :
  server_inv pool sv → objects sv !! o = Some s →
  pipeline o (on_accept now ec sv) = pipeline o sv.
Proof.
  intros Hsv Ho. destruct (on_accept_spec now ec sv) as (sv2 & E & _ & H2).
  rewrite E. rewrite (pipeline_eq o sv2) by (by destruct (shutting_down sv)).
  destruct H2 as [->|(_ & _ & [news Hcn] & _)]; [done|].
  apply (inv_set_accepting pool false) in Hsv.
  rewrite (pipeline_eq o (set_accepting false sv) sv2); [done|..].
  - by rewrite (cn_wire _ _ _ Hcn).
  - rewrite (connected_lookup pool news _ _ Hsv Hcn), decide_False; [done|].
    intros <-. pose proof (connected_fresh pool _ Hsv) as Hf. simpl in *. congruence.
  - unfold strand_of. by rewrite (cn_strands _ _ _ Hcn).
  - by rewrite (cn_strand _ _ _ Hcn).
Qed.

Lemma pipeline_post_server task st sv o :
  pipeline o (post_server task (set_all_pools st sv))
  = pipeline o sv ++ data_only (queued_for (object_id o) [task]).
Proof.
  unfold pipeline, wire_of. cbn [server_strand post_server set_strand set_all_pools wire objects].
  by rewrite queued_for_app, !app_assoc, data_only_app.
Qed.

Lemma pipeline_send t sid data sv sv' o :
  server_inv pool sv → server_send t sid data sv = Some sv' → shutting_down sv' = false →
  pipeline o sv' = pipeline o sv ++ requested (object_id o) [EvSent sid data].
Proof.
  intros Hsv Heq Hs. destruct (send_spec t sid data sv (si_pools _ _ Hsv)) as (cap & st & _ & E).
  rewrite E in Heq. injection Heq as <-. unfold requested. csimpl.
  destruct (sendable data) eqn:Hp; simpl.
  2:{ rewrite decide_False by naive_solver. by rewrite app_nil_r. }
  destruct (shutting_down sv) eqn:Hs0; simpl in Hs |- *; [congruence|].
  rewrite pipeline_post_server. f_equal. unfold queued_for. csimpl.
  destruct (decide (sid = object_id o)).
  - rewrite decide_True by done. apply data_only_frame.
  - by rewrite decide_False by naive_solver.
Qed.

Lemma pipeline_broadcast t data sv sv' o :
  server_inv pool sv → broadcast t data sv = Some sv' → shutting_down sv' = false →
  pipeline o sv' = pipeline o sv ++ requested (object_id o) [EvBroadcast data].
Proof.
  intros Hsv Heq Hs. destruct (broadcast_spec t data sv (si_pools _ _ Hsv)) as (cap & st & _ & E).
  rewrite E in Heq. injection Heq as <-. unfold requested. csimpl.
  destruct (sendable data) eqn:Hp; simpl; [|by rewrite app_nil_r].
  destruct (shutting_down sv) eqn:Hs0; simpl in Hs |- *; [congruence|].
  by rewrite pipeline_post_server.
Qed.

Lemma pipeline_step i sv sv' o s s' :
  server_inv pool sv → table_inv sv → server_enabled i sv → unique_ids sv' →
  server_handle pool i sv = Some sv' → shutting_down sv' = false →
  objects sv !! o = Some s → objects sv' !! o = Some s' → closed_ s' = false →
  pipeline o sv' = pipeline o sv ++ requested (object_id o) (observe i sv).
Proof.
  intros Hsv Ht Hen Hu Heq Hshut Ho Ho' Hc.
  pose proof (unique_step pool i sv sv' Hsv Heq Hu) as Hu0.
  destruct (table_step pool i sv sv' Hsv Ht Hen Hu Heq) as [_ Hkept].
  assert (closed_ s = false) as Hc0.
  { destruct (Hkept o s Ho) as (s2 & Hs2 & Hc2). simplify_eq.
    destruct (closed_ s); [by rewrite Hc2 in Hc|done]. }
  clear Hkept.
  destruct i as [now ec|t walk|t o1|t o1 i| |t sid data|t data|sid| |]; cbn in Heq, Hen;
    cbn [observe]; rewrite ?app_nil_r.
  - injection Heq as <-. by apply (pipeline_accept now ec sv o s).
  - destruct Hen as (_ & _ & Hwalk). pose proof (si_tasks _ _ Hsv) as Htasks.
    destruct (server_strand sv) as [|task rest] eqn:Hq; [done|].
    apply Forall_cons in Htasks as [Htask Hrest].
    assert (server_inv pool (set_strand rest sv)) as Hsv1 by (by apply inv_set_strand).
    pose proof (task_shutting t walk task _ sv' Hsv1 Htask Heq Hshut) as Hs0.
    rewrite (pipeline_task t walk task (set_strand rest sv) sv' o s); try done.
    + unfold pipeline. rewrite Hq. by rewrite <-queued_for_app.
    + exact (ti_open sv Ht o s Ho Hc0).
  - destruct Hen as [_ Hne]. destruct (strand_of o1 sv) as [|i rest] eqn:Hq; [done|].
    destruct (inv_pop_strand pool o1 i rest sv Hsv Hq) as (Hsv1 & Hi & s1 & Hs1).
    rewrite (pipeline_run_session t o1 o i s1 (set_session_strand o1 rest sv) sv' s'); try done.
    + unfold pipeline. rewrite strand_set. case_decide; [subst o1; rewrite Hq|done].
      by rewrite (app_assoc (posted_frames [i])), <-posted_frames_app.
    + by apply (posted_enabled o).
  - destruct Hen as (_ & Hi & s1 & Hs1 & Hen).
    rewrite (pipeline_run_session t o1 o i s1 sv sv' s') by done.
    assert (posted_frames [i] = []) as -> by (by destruct i).
    by case_decide.
  - injection Heq as <-. unfold poll_packet. destruct (packet_queue sv) as [|p q];
      simpl; rewrite app_nil_r; [done|]. by rewrite (pipeline_eq o sv).
  - by apply (pipeline_send t sid data).
  - by apply (pipeline_broadcast t data).
  - injection Heq as <-. unfold disconnect. destruct (shutting_down sv); [done|].
    rewrite (pipeline_eq o sv); try done. simpl. by rewrite queued_for_app, app_nil_r.
  - injection Heq as <-. unfold shutdown in *. destruct (shutting_down sv) eqn:Hs0; [congruence|done].
  - injection Heq as <-. by rewrite (pipeline_eq o sv).
Qed.
End Pipeline.
