(* ===== verification/ServerStreams.v ===== *)
(** * The byte streams of a session

    For every session object of a running server: how far its reader is in the
    frames its peer has written ([reads_stream]), and that what it has written is
    the beginning of what it was asked to write ([written]), also once it is
    closed. *)

From S2P Require Import Prelude Protocol BufferPool TransportDetail Session StreamPosition Packet Server ServerRun ServerInvariant ServerTable ServerPipeline.

(** ** One session *)

(** The bytes an input takes from the stream. *)
Definition read_bytes (i : SessionInput) : bytes :=
  match i with
  | InHeader _ false header => header
  | InBody false received => received
  | _ => []
  end.

(** The position of a session. *)
Definition session_at (frames : list bytes) (s : Session) (consumed : bytes) (got : list bytes) : Prop :=
  at_stream frames (read_op s) (zlen (buf_data (body_buf_ s))) consumed got.

Section Reading.
Context `{VectorAlloc} (bp : BufferPool) (t : ThreadId).
Implicit Types (w : World).

(** Handlers that do not read. *)
Definition same_reader w w' : Prop :=
  read_op (session w') = read_op (session w) ∧ body_buf_ (session w') = body_buf_ (session w)
  ∧ received (effects w') = received (effects w).

Lemma received_app es1 es2 : received (es1 ++ es2) = received es1 ++ received es2.
Proof. apply omap_app. Qed.

Lemma same_reader_trans w1 w2 w3 : same_reader w1 w2 → same_reader w2 w3 → same_reader w1 w3.
Proof. unfold same_reader. naive_solver congruence. Qed.

Lemma close_reader w : same_reader w (handle_close w).
Proof.
  unfold handle_close, same_reader. destruct (closed_ (session w)); [done|]. simpl.
  by rewrite received_app, app_nil_r.
Qed.

Lemma write_reader w : same_reader w (do_write w).
Proof.
  unfold do_write, same_reader. destruct (write_queue_ (session w)); [done|]. simpl.
  by rewrite received_app, app_nil_r.
Qed.

Lemma enqueue_reader f w : same_reader w (enqueue_write bp t f w).
Proof.
  unfold enqueue_write, enqueue_frame. destruct (closed_ (session w)); [done|].
  destruct (_ && _); simpl; [apply (close_reader (release_frame bp t f w))|].
  destruct (negb (writing_ (session w))); [|done].
  apply (write_reader (with_session (λ s, set_queue (write_queue_ s ++ [f]) s) w)).
Qed.

Lemma other_reader i w w' :
  session_handle bp t i w = Some w' →
  match i with InHeader _ _ _ | InBody _ _ => True | _ => same_reader w w' end.
Proof.
  destruct i as [f| |now ec h|ec b|ec|now ec]; cbn [session_handle]; try done.
  - intros [= <-]. apply enqueue_reader.
  - intros [= <-]. apply close_reader.
  - unfold on_write. destruct (write_queue_ (session w)) as [|front rest]; [done|]. intros [= <-].
    set (w1 := with_session (set_queue rest) _).
    apply (same_reader_trans w w1); [done|].
    destruct ec; [apply close_reader|apply write_reader].
  - unfold on_heartbeat. destruct ec; [by intros [= <-]|].
    destruct (_ <=? _); [intros [= <-]; apply (close_reader (with_session (set_timer false) w))|].
    unfold send_keepalive. destruct (build_keepalive_frame _ _) as [[f st]|]; [|done].
    cbn [mbind option_bind]. intros [= <-].
    apply (enqueue_reader f (with_pools st (with_session (set_timer false) w))).
Qed.

(** One handler, whose read took the next bytes of the stream. *)
Lemma session_read frames consumed got i w w' :
  pool_wf (pools w) → enabled i (session w) → zlen (buf_data (body_buf_ (session w))) ≤ MAX_PAYLOAD_SIZE →
  session_handle bp t i w = Some w' → effects w = [] →
  Forall good_frame frames → session_at frames (session w) consumed got →
  consumed ++ read_bytes i `prefix_of` mjoin frames →
  session_at frames (session w') (consumed ++ read_bytes i) (got ++ received (effects w')).
Proof.
  intros Hst Hen Hbody Heq He Hgood Hat Hpre. unfold session_at in *.
  destruct i as [f| |now ec h|ec b|ec|now ec]; cbn [read_bytes] in *;
    try (destruct (other_reader _ w w' Heq) as (-> & -> & ->); rewrite He, !app_nil_r; exact Hat).
  - injection Heq as <-. destruct Hen as [Hop Hh]. rewrite Hop in Hat. unfold on_read_header. destruct ec.
    + destruct (close_reader (with_session (set_read None) w)) as (-> & -> & ->). simpl.
      rewrite He, !app_nil_r. by eapply at_stop.
    + destruct (Hh eq_refl) as [Hlen _]. assert (length h = 8%nat) as Hlen8
        by (unfold zlen, HEADER_SIZE in Hlen; lia).
      fold (on_read_header now false h w).
      destruct (at_read_header _ _ _ _ h Hgood Hat Hpre Hlen8) as [[-> Hat']|(n & -> & Hn & Hat')].
      * unfold keepalive_bytes at 1 2 3. rewrite read_keepalive. simpl. rewrite He, app_nil_r. exact Hat'.
      * rewrite read_data_header by done.
        match goal with |- context [zlen (buf_data (body_buf_ (session ?w1)))] =>
          assert (zlen (buf_data (body_buf_ (session w1))) = n) as -> by (apply length_resize; lia) end.
        simpl. rewrite He, app_nil_r. exact Hat'.
  - destruct Hen as [Hop Hb]. rewrite Hop in Hat. destruct ec.
    + injection Heq as <-. destruct (close_reader (with_session (set_read None) w)) as (-> & -> & ->). simpl.
      rewrite He, !app_nil_r. by eapply at_stop.
    + destruct (Hb eq_refl) as [Hlen _]. cbn [session_handle] in Heq.
      destruct (on_read_body_spec t b w Hst) as (cap & st & w2 & E & _ & ->); [lia|].
      rewrite E in Heq. injection Heq as <-. simpl. rewrite He. simpl. rewrite Hlen.
      by apply at_read_body.
Qed.

(** A handler after which the session is closed accepts no data frame. *)
Lemma closed_accepts i w w' :
  session_handle bp t i w = Some w' → closed_ (session w') = true →
  data_only (accepted i (session w)) = [].
Proof.
  intros Heq Hc. unfold accepted. destruct i as [f| |now ec h|ec b|ec|now ec]; try (by destruct (accepts _)).
  - destruct (accepts (session w)) eqn:Ha; [|done]. exfalso. cbn in Heq. injection Heq as <-.
    unfold accepts in Ha. apply andb_true_iff in Ha as [Ho%negb_true_iff Hq].
    unfold enqueue_write, enqueue_frame in Hc. rewrite Ho in Hc.
    destruct (Z.leb_spec MAX_PENDING_WRITE_FRAMES (zlen (wq_queue w)));
      [simpl in *; apply Z.ltb_lt in Hq; lia|]. simpl in Hc.
    destruct (negb (writing_ (session w))); simpl in Hc; [|congruence].
    unfold do_write in Hc. simpl in Hc. destruct (write_queue_ (session w)); simpl in Hc; congruence.
  - destruct (accepts _); [|done]. destruct ec; [done|]. by destruct (_ <=? _).
Qed.
End Reading.

(** ** Every session of the server *)

Definition data_of (p : Packet) : option bytes :=
  match pkt_type p with Data => Some (pkt_data p) | _ => None end.

(** The payloads session object [o] has reported. *)
Definition reported (o : nat) (sv : ServerImpl) : list bytes :=
  omap data_of (log_of (object_id o) (packet_log sv)).*1.

Lemma data_of_effects es : omap data_of (effect_packets es) = received es.
Proof.
  unfold effect_packets, received. induction es as [|[k d|k|f] es IH]; csimpl; [done|by f_equal|done|done].
Qed.

(** The bytes a step of the server takes from the stream of object [o]. *)
Definition step_reads (o : nat) (i : ServerInput) : bytes :=
  match i with
  | SvCompletion _ o' i => if decide (o' = o) then read_bytes i else []
  | _ => []
  end.

Definition reads_stream (frames : list bytes) (o : nat) (sv : ServerImpl) (consumed : bytes) : Prop :=
  ∀ s, objects sv !! o = Some s → session_at frames s consumed (reported o sv).

(** The data frames written to the socket of [o], and waiting to be. *)
Definition written (o : nat) (sv : ServerImpl) : list bytes :=
  data_only (wire_of o sv ++ from_option waiting [] (objects sv !! o)).

Section Streams.
Context `{VectorAlloc} (pool : BufferPool).
Implicit Types (sv : ServerImpl) (o : nat).

Lemma written_pipeline o sv : written o sv `prefix_of` pipeline o sv.
Proof. unfold written, pipeline. rewrite app_assoc. eexists. apply data_only_app. Qed.

Lemma wire_written o sv : data_only (wire_of o sv) `prefix_of` written o sv.
Proof. unfold written. eexists. apply data_only_app. Qed.

Lemma written_eq o sv sv' :
  wire sv' = wire sv → objects sv' !! o = objects sv !! o → written o sv' = written o sv.
Proof. unfold written, wire_of. by intros -> ->. Qed.

Lemma reads_eq frames o sv sv' consumed :
  packet_log sv' = packet_log sv → objects sv' !! o = objects sv !! o →
  reads_stream frames o sv consumed → reads_stream frames o sv' consumed.
Proof. unfold reads_stream, reported. by intros -> ->. Qed.

(** A handler of a session, with the session's own run so far. *)
Lemma run_session_facts t o i s sv sv' :
  server_inv pool sv → objects sv !! o = Some s → enabled i s →
  run_session pool t o i sv = Some sv' →
  ∃ w w1, session w = s ∧ session_handle pool t i (mkWorld s (all_pools sv) []) = Some w1
    ∧ session_inv (object_id o) (prepend (effects w) (mkWorld s (all_pools sv) []))
    ∧ wire_of o sv = started (effects w) ∧ Forall (effect_ok (object_id o)) (effects w1)
    ∧ effects_done o (effects w1) (sv |> set_object o (session w1) |> set_all_pools (pools w1)) sv'.
Proof.
  intros Hsv Ho Hen Heq. destruct (si_objects _ _ Hsv o s Ho) as (now0 & w & Hw & Hs & Hwire & _).
  destruct (object_run_step pool t o s i sv now0 w Hsv Hw Hs Hen) as (w1 & Heq1 & _ & _ & Hes).
  destruct (run_session_ok pool t o s i sv Hsv Ho Hen) as (w2 & sv2 & Heq2 & Heq3 & Hed & _).
  simplify_eq. exists w, w1. split_and!; try done.
  pose proof (session_reachable_inv _ _ _ _ (reach_pools pool _ _ (all_pools sv) w Hw (si_pools _ _ Hsv)))
    as Hinv. unfold prepend. simpl. rewrite app_nil_r. exact Hinv.
Qed.

Lemma session_lookup o1 (w1 : World) es sv sv' o :
  effects_done o1 es (sv |> set_object o1 (session w1) |> set_all_pools (pools w1)) sv' →
  objects sv' !! o = if decide (o1 = o) then Some (session w1) else objects sv !! o.
Proof. intros Hed. rewrite (ed_objects _ _ _ _ Hed). apply lookup_insert. Qed.

Lemma reads_session frames t o1 o i s sv sv' consumed :
  server_inv pool sv → unique_ids sv → objects sv !! o1 = Some s → enabled i s →
  run_session pool t o1 i sv = Some sv' → Forall good_frame frames →
  consumed ++ (if decide (o1 = o) then read_bytes i else []) `prefix_of` mjoin frames →
  reads_stream frames o sv consumed →
  reads_stream frames o sv' (consumed ++ if decide (o1 = o) then read_bytes i else []).
Proof.
  intros Hsv Hu Ho1 Hen Heq Hgood Hpre Hat.
  destruct (run_session_facts t o1 i s sv sv' Hsv Ho1 Hen Heq) as (w & w1 & Hw & Hw1 & [Hb _] & _ & Hes & Hed).
  intros s' Hs'. rewrite (session_lookup o1 w1 _ sv sv' o Hed) in Hs'.
  assert (is_Some (objects sv !! o)) as [s0 Hs0] by (case_decide; [subst; eauto|eauto]).
  pose proof (log_of_effects o1 o _ _ sv' _ _ Hed Hes (si_fresh _ _ Hsv _ _ Ho1)
    (si_fresh _ _ Hsv _ _ Hs0) Hu eq_refl) as Hlog. specialize (Hat s0 Hs0).
  unfold reported. case_decide as E; [subst o1|by simplify_eq; rewrite app_nil_r, Hlog].
  simplify_eq. destruct Hlog as (log & -> & Hl). rewrite fmap_app, omap_app, Hl, data_of_effects.
  apply (session_read pool t frames consumed _ i (mkWorld (session w) (all_pools sv) [])); try done;
    [apply (sb_pools _ _ Hb)|apply (sb_body _ _ Hb)].
Qed.

(** A function of the server strand touches no session object. *)
Lemma task_frame t (walk : list (Z * nat)) task sv sv' :
  server_inv pool sv → task_ok task → run_task pool t walk task sv = Some sv' →
  packet_log sv' = packet_log sv ∧ objects sv' = objects sv ∧ wire sv' = wire sv
  ∧ next_object sv' = next_object sv ∧ packet_queue sv' = packet_queue sv
  ∧ server_strand sv' = server_strand sv.
Proof.
  intros Hsv Htask Heq. destruct task as [sid f|f|sid|sid|]; cbn [run_task] in Heq.
  - destruct (shutting_down sv); [|destruct (sessions sv !! sid)]; by simplify_eq.
  - destruct (shutting_down sv); [by simplify_eq|].
    destruct (broadcast_loop pool t (buf_data f) walk sv Hsv Htask) as (st & ins & E & _).
    rewrite E in Heq. cbn [mbind option_bind] in Heq. simplify_eq. simpl.
    by destruct (posts_frame ins sv) as (-> & -> & _ & _ & -> & -> & -> & _ & -> & _).
  - destruct (shutting_down sv); [|destruct (sessions sv !! sid)]; by simplify_eq.
  - by simplify_eq.
  - injection Heq as <-. rewrite close_loop. unfold with_posts. simpl.
    match goal with |- context [foldl _ ?x ?l] =>
      by destruct (posts_frame l x) as (-> & -> & _ & _ & -> & -> & -> & _ & -> & _) end.
Qed.

Lemma reads_step frames i sv sv' o consumed :
  server_inv pool sv → unique_ids sv' → server_enabled i sv → server_handle pool i sv = Some sv' →
  Forall good_frame frames → (objects sv !! o = None → consumed = []) →
  consumed ++ step_reads o i `prefix_of` mjoin frames →
  reads_stream frames o sv consumed → reads_stream frames o sv' (consumed ++ step_reads o i).
Proof.
  intros Hsv Hu' Hen Heq Hgood Hnew Hpre Hat. pose proof (unique_step pool i sv sv' Hsv Heq Hu') as Hu.
  destruct i as [now ec|t walk|t o1|t o1 i| |t sid data|t data|sid| |]; cbn [step_reads] in *;
    rewrite ?app_nil_r; cbn in Heq.
  - injection Heq as <-. destruct (on_accept_spec now ec sv) as (sv2 & E & _ & H2).
    rewrite E in *. assert (unique_ids sv2) as Hu2 by (by destruct (shutting_down sv)).
    apply (reads_eq _ _ sv2); [by destruct (shutting_down sv)..|]. clear E Hu'.
    destruct H2 as [->|(_ & _ & [news Hcn] & _)]; [by apply (reads_eq _ _ sv)|].
    apply (inv_set_accepting pool false) in Hsv.
    intros s Hs. rewrite (connected_lookup pool news _ _ Hsv Hcn) in Hs. case_decide as E.
    + subst o. rewrite (Hnew (connected_fresh pool _ Hsv)). unfold reported.
      destruct (connected_log_new pool news _ _ Hsv Hcn Hu2) as (r & -> & _).
      destruct (cn_news _ _ _ Hcn s Hs) as [now1 ->]. apply at_start.
    + unfold reported. rewrite (connected_log_old pool news _ _ Hsv Hcn o Hu2); [by apply Hat|].
      by eapply (si_fresh _ _ Hsv).
  - pose proof (si_tasks _ _ Hsv) as Htasks. destruct (server_strand sv) as [|task rest] eqn:Hq; [done|].
    apply Forall_cons in Htasks as [Htask Hrest].
    destruct (task_frame t walk task (set_strand rest sv) sv') as (E1 & E2 & _); [by apply inv_set_strand|done..|].
    by apply (reads_eq _ _ sv); rewrite ?E1, ?E2.
  - destruct Hen as [_ Hne]. destruct (strand_of o1 sv) as [|i rest] eqn:Hq; [done|].
    destruct (inv_pop_strand pool o1 i rest sv Hsv Hq) as (Hsv1 & Hi & s & Hs).
    assert ((if decide (o1 = o) then read_bytes i else []) = []) as E by (case_decide; by destruct i).
    rewrite <-(app_nil_r consumed), <-E.
    apply (reads_session frames t o1 o i s (set_session_strand o1 rest sv)); try done;
      [by apply (posted_enabled o1)|by rewrite E].
  - destruct Hen as (_ & Hi & s & Hs & Hen). by apply (reads_session frames t o1 o i s sv).
  - injection Heq as <-. unfold poll_packet. destruct (packet_queue sv); by apply (reads_eq _ _ sv).
  - destruct (send_spec t sid data sv (si_pools _ _ Hsv)) as (cap & st & _ & E).
    rewrite E in Heq. injection Heq as <-. destruct (_ && _); by apply (reads_eq _ _ sv).
  - destruct (broadcast_spec t data sv (si_pools _ _ Hsv)) as (cap & st & _ & E).
    rewrite E in Heq. injection Heq as <-. destruct (_ && _); by apply (reads_eq _ _ sv).
  - injection Heq as <-. unfold disconnect. destruct (shutting_down sv); by apply (reads_eq _ _ sv).
  - injection Heq as <-. unfold shutdown. destruct (shutting_down sv); by apply (reads_eq _ _ sv).
  - injection Heq as <-. by apply (reads_eq _ _ sv).
Qed.

(** *** Writing *)

Lemma written_session t o1 o i s sv sv' s' :
  server_inv pool sv → objects sv !! o1 = Some s → enabled i s →
  run_session pool t o1 i sv = Some sv' →
  objects sv' !! o = Some s' → closed_ s' = true → written o sv' = written o sv.
Proof.
  intros Hsv Ho1 Hen Heq Ho' Hc.
  destruct (run_session_facts t o1 i s sv sv' Hsv Ho1 Hen Heq) as (w & w1 & Hw & Hw1 & Hinv & Hwire & _ & Hed).
  unfold written. rewrite (wire_of_effects o1 _ _ _ o Hed).
  change (wire_of o (set_all_pools (pools w1) (set_object o1 (session w1) sv))) with (wire_of o sv).
  rewrite (session_lookup o1 w1 _ sv sv' o Hed) in Ho' |- *.
  case_decide as E; [subst o1|by rewrite app_nil_r]. simplify_eq. rewrite Ho1. cbn [from_option].
  set (w0 := mkWorld (session w) (all_pools sv) []) in *.
  assert (session_handle pool t i (prepend (effects w) w0) = Some (prepend (effects w) w1)) as Hstep
    by (by rewrite session_handle_prepend, Hw1).
  pose proof (output_handle pool t _ _ _ _ Hinv Hen Hstep) as Hout.
  unfold output in Hout. simpl in Hout. rewrite app_nil_r, started_app in Hout.
  pose proof (closed_accepts pool t i w0 w1 Hw1 Hc) as Hacc. simpl in Hacc.
  by rewrite Hwire, Hout, !data_only_app, Hacc, app_nil_r.
Qed.

Lemma written_step i sv sv' o s s' :
  server_inv pool sv → server_enabled i sv → server_handle pool i sv = Some sv' →
  objects sv !! o = Some s → objects sv' !! o = Some s' → closed_ s' = true →
  written o sv' = written o sv.
Proof.
  intros Hsv Hen Heq Ho Ho' Hc.
  destruct i as [now ec|t walk|t o1|t o1 i| |t sid data|t data|sid| |]; cbn in Heq.
  - injection Heq as <-. destruct (on_accept_spec now ec sv) as (sv2 & E & _ & H2).
    rewrite E in *. rewrite (written_eq o sv2) by (by destruct (shutting_down sv)).
    destruct H2 as [->|(_ & _ & [news Hcn] & _)]; [done|].
    apply (inv_set_accepting pool false) in Hsv.
    rewrite (written_eq o (set_accepting false sv) sv2); [done|by rewrite (cn_wire _ _ _ Hcn)|].
    rewrite (connected_lookup pool news _ _ Hsv Hcn), decide_False; [done|].
    intros <-. pose proof (connected_fresh pool _ Hsv) as Hf. simpl in *. congruence.
  - pose proof (si_tasks _ _ Hsv) as Htasks. destruct (server_strand sv) as [|task rest] eqn:Hq; [done|].
    apply Forall_cons in Htasks as [Htask Hrest].
    destruct (task_frame t walk task (set_strand rest sv) sv') as (_ & E1 & E2 & _);
      [by apply inv_set_strand|done..|]. by apply written_eq; rewrite ?E1, ?E2.
  - destruct Hen as [_ Hne]. destruct (strand_of o1 sv) as [|i rest] eqn:Hq; [done|].
    destruct (inv_pop_strand pool o1 i rest sv Hsv Hq) as (Hsv1 & Hi & s1 & Hs1).
    rewrite (written_session t o1 o i s1 (set_session_strand o1 rest sv) sv' s'); try done.
    by apply (posted_enabled o1).
  - destruct Hen as (_ & Hi & s1 & Hs1 & Hen). by apply (written_session t o1 o i s1 sv sv' s').
  - injection Heq as <-. unfold poll_packet. by destruct (packet_queue sv).
  - destruct (send_spec t sid data sv (si_pools _ _ Hsv)) as (cap & st & _ & E).
    rewrite E in Heq. injection Heq as <-. by destruct (_ && _).
  - destruct (broadcast_spec t data sv (si_pools _ _ Hsv)) as (cap & st & _ & E).
    rewrite E in Heq. injection Heq as <-. by destruct (_ && _).
  - injection Heq as <-. unfold disconnect. by destruct (shutting_down sv).
  - injection Heq as <-. unfold shutdown. by destruct (shutting_down sv).
  - by injection Heq as <-.
Qed.

Lemma wire_grows i sv sv' o :
  server_inv pool sv → server_enabled i sv → server_handle pool i sv = Some sv' →
  ∃ more, wire_of o sv' = wire_of o sv ++ more.
Proof.
  intros Hsv Hen Heq.
  assert (∀ sv2, wire sv2 = wire sv → ∃ more, wire_of o sv2 = wire_of o sv ++ more) as Hsame.
  { intros sv2 E. exists []. unfold wire_of. by rewrite E, app_nil_r. }
  destruct i as [now ec|t walk|t o1|t o1 i| |t sid data|t data|sid| |]; cbn in Heq.
  - injection Heq as <-. destruct (on_accept_spec now ec sv) as (sv2 & E & _ & H2). rewrite E in *.
    assert (wire sv2 = wire sv)
      by (destruct H2 as [->|(_ & _ & [news Hcn] & _)]; [done|by rewrite (cn_wire _ _ _ Hcn)]).
    apply Hsame. by destruct (shutting_down sv).
  - pose proof (si_tasks _ _ Hsv) as Htasks. destruct (server_strand sv) as [|task rest]; [done|].
    apply Forall_cons in Htasks as [Htask Hrest].
    destruct (task_frame t walk task (set_strand rest sv) sv') as (_ & _ & E & _);
      [by apply inv_set_strand|done..|]. by apply Hsame.
  - destruct Hen as [_ Hne]. destruct (strand_of o1 sv) as [|i rest] eqn:Hq; [done|].
    destruct (inv_pop_strand pool o1 i rest sv Hsv Hq) as (Hsv1 & Hi & s1 & Hs1).
    destruct (run_session_facts t o1 i s1 (set_session_strand o1 rest sv) sv') as (_ & w1 & _ & _ & _ & _ & _ & Hed);
      [done..|by apply (posted_enabled o1)|done|].
    eexists. exact (wire_of_effects o1 _ _ _ o Hed).
  - destruct Hen as (_ & _ & s1 & Hs1 & Hen).
    destruct (run_session_facts t o1 i s1 sv sv') as (_ & w1 & _ & _ & _ & _ & _ & Hed); [done..|].
    eexists. exact (wire_of_effects o1 _ _ _ o Hed).
  - injection Heq as <-. apply Hsame. unfold poll_packet. by destruct (packet_queue sv).
  - destruct (send_spec t sid data sv (si_pools _ _ Hsv)) as (cap & st & _ & E).
    rewrite E in Heq. injection Heq as <-. apply Hsame. by destruct (_ && _).
  - destruct (broadcast_spec t data sv (si_pools _ _ Hsv)) as (cap & st & _ & E).
    rewrite E in Heq. injection Heq as <-. apply Hsame. by destruct (_ && _).
  - injection Heq as <-. apply Hsame. unfold disconnect. by destruct (shutting_down sv).
  - injection Heq as <-. apply Hsame. unfold shutdown. by destruct (shutting_down sv).
  - injection Heq as <-. by apply Hsame.
Qed.

(** *** Who is written to *)

(** Every frame on its way through the server strand is for one session that has
    existed. *)
Definition task_addressed (n : nat) (task : ServerTask) : Prop :=
  match task with
  | TaskSend sid _ => ∃ o, (o < n)%nat ∧ sid = object_id o
  | TaskBroadcast _ => False
  | _ => True
  end.
Definition addressed sv : Prop := Forall (task_addressed (next_object sv)) (server_strand sv).

Lemma task_addressed_mono n n' task : (n ≤ n')%nat → task_addressed n task → task_addressed n' task.
Proof. destruct task; simpl; try done. intros ? (o & ? & ->). exists o. split; [lia|done]. Qed.

Lemma erasures_addressed n es : Forall (task_addressed n) (erasures es).
Proof. unfold erasures. by induction es as [|[] es IH]; csimpl; [|done|constructor|]. Qed.

Lemma addressed_mono sv sv' :
  (next_object sv ≤ next_object sv')%nat → server_strand sv' = server_strand sv →
  addressed sv → addressed sv'.
Proof.
  unfold addressed. intros Hn -> Had. eapply Forall_impl; [exact Had|]. intros task. by apply task_addressed_mono.
Qed.

Lemma addressed_session t o i s sv sv' :
  server_inv pool sv → objects sv !! o = Some s → enabled i s →
  run_session pool t o i sv = Some sv' → addressed sv → addressed sv'.
Proof.
  intros Hsv Ho Hen Heq Had.
  destruct (run_session_facts t o i s sv sv' Hsv Ho Hen Heq) as (_ & w1 & _ & _ & _ & _ & _ & Hed).
  unfold addressed. rewrite (ed_next_object _ _ _ _ Hed), (ed_strand _ _ _ _ Hed).
  apply Forall_app. split; [done|apply erasures_addressed].
Qed.

(** What happens without the game thread addresses nobody new. *)
Lemma addressed_step i sv sv' :
  server_inv pool sv → server_enabled i sv → server_handle pool i sv = Some sv' →
  match i with SvSend _ _ _ | SvBroadcast _ _ => False | _ => True end →
  addressed sv → addressed sv'.
Proof.
  intros Hsv Hen Heq Hi Had. pose proof (gr_next _ _ (grown_step pool i sv sv' Hsv Heq)) as Hn.
  destruct i as [now ec|t walk|t o1|t o1 i| |t sid data|t data|sid| |]; cbn in Heq; try done.
  - injection Heq as <-. destruct (on_accept_spec now ec sv) as (sv2 & E & _ & H2). rewrite E in *.
    apply (addressed_mono sv); [done| |done]. assert (server_strand sv2 = server_strand sv)
      by (destruct H2 as [->|(_ & _ & [news Hcn] & _)]; [done|by rewrite (cn_strand _ _ _ Hcn)]).
    by destruct (shutting_down sv).
  - pose proof (si_tasks _ _ Hsv) as Htasks. unfold addressed in Had.
    destruct (server_strand sv) as [|task rest] eqn:Hq; [done|].
    apply Forall_cons in Htasks as [Htask Hrest]. apply Forall_cons in Had as [_ Had].
    destruct (task_frame t walk task (set_strand rest sv) sv') as (_ & _ & _ & E1 & _ & E2);
      [by apply inv_set_strand|done..|]. unfold addressed. by rewrite E1, E2.
  - destruct Hen as [_ Hne]. destruct (strand_of o1 sv) as [|i rest] eqn:Hq; [done|].
    destruct (inv_pop_strand pool o1 i rest sv Hsv Hq) as (Hsv1 & _ & s1 & Hs1).
    apply (addressed_session t o1 i s1 (set_session_strand o1 rest sv)); try done.
    apply (posted_enabled o1). by destruct (si_strands _ _ Hsv o1 i) as [_ ?]; [rewrite Hq; left|].
  - destruct Hen as (_ & _ & s1 & Hs1 & Hen). by apply (addressed_session t o1 i s1 sv).
  - injection Heq as <-. unfold poll_packet. by destruct (packet_queue sv).
  - injection Heq as <-. unfold disconnect. destruct (shutting_down sv); [done|].
    apply Forall_app. split; [done|]. by repeat constructor.
  - injection Heq as <-. unfold shutdown. destruct (shutting_down sv); [done|].
    apply Forall_app. split; [done|]. by repeat constructor.
  - by injection Heq as <-.
Qed.
(** *** New sessions *)

(** Nothing is addressed to a session that does not exist yet. *)
Lemma addressed_fresh sv :
  Z.of_nat (S (next_object sv)) ≤ 2 ^ 32 → addressed sv →
  queued_for (object_id (next_object sv)) (server_strand sv) = [].
Proof.
  intros Hu. unfold addressed, queued_for. induction 1 as [|task tasks Ht _ IH]; [done|]. csimpl.
  destruct task as [sid f|f|sid|sid|]; try done. destruct Ht as (o & Ho & ->).
  rewrite decide_False; [done|]. intros E.
  pose proof (object_id_inj o (next_object sv) (S (next_object sv)) ltac:(lia) ltac:(lia) Hu E). lia.
Qed.

Lemma accepted_object now ec sv o s :
  server_inv pool sv → addressed sv → unique_ids (on_accept now ec sv) →
  objects sv !! o = None → objects (on_accept now ec sv) !! o = Some s →
  o = next_object sv ∧ Z.of_nat (S o) ≤ 2 ^ 32 ∧ pipeline o (on_accept now ec sv) = [].
Proof.
  intros Hsv Had Hu Hnone Hs. destruct (on_accept_spec now ec sv) as (sv2 & E & _ & H2). rewrite E in *.
  rewrite (pipeline_eq o sv2) by (by destruct (shutting_down sv)).
  assert (unique_ids sv2) as Hu2 by (by destruct (shutting_down sv)).
  assert (objects sv2 !! o = Some s) as Hs2 by (by destruct (shutting_down sv)). clear E Hu Hs.
  destruct H2 as [->|(_ & _ & [news Hcn] & _)]; [simpl in Hs2; congruence|].
  apply (inv_set_accepting pool false) in Hsv.
  pose proof (connected_lookup pool news _ _ Hsv Hcn o) as Hobj. simpl in Hobj.
  case_decide as Eo; [subst o|congruence].
  pose proof (unique_before news _ _ Hcn Hu2) as Hb. simpl in Hb. split_and!; [done|done|].
  unfold pipeline, wire_of, strand_of. rewrite (cn_wire _ _ _ Hcn), (cn_strand _ _ _ Hcn), (cn_strands _ _ _ Hcn).
  simpl. rewrite (addressed_fresh sv Hb Had). change (omap _ (wire sv)) with (wire_of (next_object sv) (set_accepting false sv)).
  rewrite (si_wire _ _ Hsv (next_object sv) Hnone), Hs2. rewrite Hobj in Hs2.
  destruct (cn_news _ _ _ Hcn s Hs2) as [now1 ->].
  destruct (strands sv !! next_object sv) as [[|i q]|] eqn:Hq; [done| |done].
  destruct (si_strands _ _ Hsv (next_object sv) i) as [[? ?] _]; [|simpl in *; congruence].
  unfold strand_of. simpl. rewrite Hq. by left.
Qed.

(** Sessions are created by connections only. *)
Lemma new_object i sv sv' o s :
  server_inv pool sv → server_enabled i sv → server_handle pool i sv = Some sv' →
  objects sv !! o = None → objects sv' !! o = Some s → ∃ now ec, i = SvAccept now ec.
Proof.
  intros Hsv Hen Heq Hnone Hs. assert (objects sv' ≠ objects sv) as Hne by congruence.
  destruct i as [now ec|t walk|t o1|t o1 i| |t sid data|t data|sid| |]; cbn in Heq; [by eauto|exfalso..].
  - pose proof (si_tasks _ _ Hsv) as Htasks. destruct (server_strand sv) as [|task rest]; [done|].
    apply Forall_cons in Htasks as [Htask Hrest].
    destruct (task_frame t walk task (set_strand rest sv) sv') as (_ & E & _);
      [by apply inv_set_strand|done..].
  - destruct Hen as [_ Hq]. destruct (strand_of o1 sv) as [|i rest] eqn:E; [done|].
    destruct (inv_pop_strand pool o1 i rest sv Hsv E) as (Hsv1 & Hi & s1 & Hs1).
    destruct (run_session_facts t o1 i s1 (set_session_strand o1 rest sv) sv') as (_ & w1 & _ & _ & _ & _ & _ & Hed);
      [done..|by apply (posted_enabled o1)|done|].
    rewrite (session_lookup o1 w1 _ _ _ o Hed) in Hs. case_decide; simpl in *; congruence.
  - destruct Hen as (_ & _ & s1 & Hs1 & Hen).
    destruct (run_session_facts t o1 i s1 sv sv') as (_ & w1 & _ & _ & _ & _ & _ & Hed); [done..|].
    rewrite (session_lookup o1 w1 _ _ _ o Hed) in Hs. case_decide; congruence.
  - injection Heq as <-. apply Hne. unfold poll_packet. by destruct (packet_queue sv).
  - destruct (send_spec t sid data sv (si_pools _ _ Hsv)) as (cap & st & _ & E).
    rewrite E in Heq. injection Heq as <-. apply Hne. by destruct (_ && _).
  - destruct (broadcast_spec t data sv (si_pools _ _ Hsv)) as (cap & st & _ & E).
    rewrite E in Heq. injection Heq as <-. apply Hne. by destruct (_ && _).
  - injection Heq as <-. apply Hne. unfold disconnect. by destruct (shutting_down sv).
  - injection Heq as <-. apply Hne. unfold shutdown. by destruct (shutting_down sv).
  - by injection Heq as <-.
Qed.
End Streams.
