(* ===== verification/ServerProperties.v ===== *)
(** * Properties of the transport server

    What the game thread can rely on, in every interleaving of I/O completions,
    strands and its own calls: handlers never fail, the packet queue is a bounded
    FIFO, every session object is a run of [Session], the packets of one client
    form a life cycle, frames reach the socket in the order they were sent; and
    one thing it cannot rely on ([disconnect_lost]). *)

From S2P Require Import Prelude Protocol BufferPool TransportDetail Session Packet Server ServerRun ServerInvariant ServerTable ServerPipeline.

(** The packets of one session id. *)
Definition packets_of (id : Z) (ps : list Packet) : list Packet :=
  List.filter (λ p, pkt_session_id p =? id) ps.

Definition is_disconnect (p : Packet) : bool :=
  match pkt_type p with Disconnect => true | _ => false end.

(** Connect first, then data of 1 to 2048 bytes and at most one Disconnect. *)
Definition life_cycle (id : Z) (ps : list Packet) : Prop :=
  ps = [] ∨ ∃ rest, ps = mkPacket Connect id [] :: rest
    ∧ Forall (λ p, p = mkPacket Disconnect id []
                   ∨ ∃ data, p = mkPacket Data id data
                             ∧ 1 ≤ zlen data ≤ MAX_PAYLOAD_SIZE ∧ wf_bytes data) rest
    ∧ (length (List.filter is_disconnect rest) ≤ 1)%nat.

Arguments packets_of : simpl never.

Section Facts.
Context `{VectorAlloc} (pool : BufferPool).
Implicit Types (sv : ServerImpl) (o : nat).

Lemma packets_of_app id ps qs : packets_of id (ps ++ qs) = packets_of id ps ++ packets_of id qs.
Proof. apply List.filter_app. Qed.

Lemma queued_log_of id log : queued (log_of id log) = packets_of id (queued log).
Proof.
  unfold queued, log_of, packets_of. induction log as [|[p r] log IH]; [done|]. simpl.
  destruct (pkt_session_id p =? id) eqn:E; destruct r; csimpl; rewrite ?E, IH; done.
Qed.

Lemma queued_sublist (log : list (Packet * PushResult)) : queued log `sublist_of` log.*1.
Proof.
  unfold queued. induction log as [|[p r] log IH]; [done|]. csimpl.
  destruct r; by constructor.
Qed.

Lemma filter_sublist {A} (f : A → bool) l k :
  l `sublist_of` k → (length (List.filter f l) ≤ length (List.filter f k))%nat.
Proof.
  induction 1 as [|x l k _ IH|x l k _ IH]; simpl; [done|..]; destruct (f x); simpl; lia.
Qed.

(** The packets of a session's callbacks. *)
Lemma effect_packets_cycle id es :
  Forall (effect_ok id) es →
  Forall (λ p, p = mkPacket Disconnect id []
               ∨ ∃ data, p = mkPacket Data id data
                         ∧ 1 ≤ zlen data ≤ MAX_PAYLOAD_SIZE ∧ wf_bytes data) (effect_packets es)
  ∧ length (List.filter is_disconnect (effect_packets es)) = length (closes es).
Proof.
  unfold effect_packets, closes. induction 1 as [|e es He _ [IH1 IH2]]; [done|].
  destruct e as [k d|k|f]; simpl in He |- *.
  - destruct He as (-> & Hd & Hb). split; [constructor; eauto|]. exact IH2.
  - subst k. split; [constructor; eauto|]. simpl. by f_equal.
  - done.
Qed.

Lemma life_cycle_prefix id ps qs : life_cycle id (ps ++ qs) → life_cycle id ps.
Proof.
  intros [Hnil|(rest & Heq & Hall & Hlen)]; [left; by destruct ps|].
  destruct ps as [|p ps]; [by left|]. right. simplify_eq/=. exists ps.
  apply Forall_app in Hall as [Hall _]. rewrite List.filter_app, length_app in Hlen.
  split_and!; [done|done|lia].
Qed.

Lemma queued_life_cycle tr sv id :
  server_run pool tr sv → unique_ids sv → life_cycle id (packets_of id (queued (packet_log sv))).
Proof.
  intros Hrun Hu. pose proof (run_inv pool tr sv Hrun) as Hsv. rewrite <-queued_log_of.
  assert (queued (log_of id (packet_log sv)) = []
          ∨ ∃ o, (o < next_object sv)%nat ∧ id = object_id o) as [Hnil|(o & Ho & ->)]; [|by left|].
  { destruct (log_of id (packet_log sv)) as [|[p r] l] eqn:E; [by left|]. right.
    assert ((p, r) ∈ log_of id (packet_log sv)) as Hin by (rewrite E; by left).
    apply list_elem_of_In, filter_In in Hin as [Hin Hid]. apply list_elem_of_In in Hin.
    apply (list_elem_of_fmap_2 fst) in Hin.
    destruct (proj1 (Forall_forall _ _) (si_log _ _ Hsv) p Hin) as (o & Ho & Hid' & _).
    exists o. split; [done|]. rewrite <-Hid'. lia. }
  destruct (objects sv !! o) as [s|] eqn:Hs; [|left; by apply (si_refused _ _ Hsv)].
  destruct (si_objects _ _ Hsv o s Hs) as (now0 & w & Hw & <- & _ & Hlog).
  destruct (Hlog Hu) as (log & -> & Hp). right. exists (queued log).
  pose proof (session_reachable_inv _ _ _ _ Hw) as [Hb _].
  destruct (effect_packets_cycle _ _ (sb_effects _ _ Hb)) as [Hall Hlen].
  rewrite <-Hp in Hall, Hlen. pose proof (queued_sublist log) as Hsub.
  split_and!; [done| |].
  { apply Forall_forall. intros p Hin. eapply (proj1 (Forall_forall _ _) Hall).
    by eapply elem_of_sublist. }
  pose proof (filter_sublist is_disconnect _ _ Hsub). rewrite (sb_closes _ _ Hb) in Hlen.
  destruct (closed_ (session w)); simpl in Hlen; lia.
Qed.

Lemma steps_app sv0 tr1 sv1 tr2 sv2 :
  server_steps pool sv0 tr1 sv1 → server_steps pool sv1 tr2 sv2 →
  server_steps pool sv0 (tr1 ++ tr2) sv2.
Proof.
  intros H1. induction 1 as [|tr i sv sv' _ IH Hen Heq]; [by rewrite app_nil_r|].
  rewrite app_assoc. by eapply steps_snoc.
Qed.

Lemma steps_grown sv0 tr sv :
  server_inv pool sv0 → server_steps pool sv0 tr sv → grown sv0 sv.
Proof.
  intros Hsv0 Hst. induction Hst as [|tr i sv sv' Hst IH Hen Heq]; [apply grown_refl|].
  eapply grown_trans; [exact IH|]. eapply grown_step; [|exact Heq].
  by apply (steps_inv pool sv0 tr sv).
Qed.

Lemma steps_objects sv0 tr sv :
  server_inv pool sv0 → table_inv sv0 → unique_ids sv → server_steps pool sv0 tr sv →
  table_inv sv ∧ objects_kept sv0 sv.
Proof.
  intros Hsv0 Ht0 Hu Hst.
  induction Hst as [|tr i sv sv' Hst IH Hen Heq]; [split; [done|by apply objects_kept_eq]|].
  pose proof (steps_inv pool sv0 tr sv Hsv0 Hst) as Hsv.
  destruct (IH (unique_step pool i sv sv' Hsv Heq Hu)) as [Ht Hk].
  destruct (table_step pool i sv sv' Hsv Ht Hen Hu Heq) as [Ht' Hk']. split; [done|].
  intros o s Ho. destruct (Hk o s Ho) as (s1 & Ho1 & Hc1). destruct (Hk' o s1 Ho1) as (s2 & ? & ?).
  exists s2. auto.
Qed.

Lemma requested_app id tr1 tr2 : requested id (tr1 ++ tr2) = requested id tr1 ++ requested id tr2.
Proof. apply omap_app. Qed.

Lemma steps_pipeline sv0 tr sv o s0 s :
  server_inv pool sv0 → table_inv sv0 → server_steps pool sv0 tr sv → unique_ids sv →
  shutting_down sv = false → objects sv0 !! o = Some s0 → objects sv !! o = Some s →
  closed_ s = false → pipeline o sv = pipeline o sv0 ++ requested (object_id o) tr.
Proof.
  intros Hsv0 Ht0 Hst. revert s. induction Hst as [|tr i sv sv' Hst IH Hen Heq];
    intros s Hu Hsh Ho0 Ho Hc; [by rewrite app_nil_r|].
  pose proof (steps_inv pool sv0 tr sv Hsv0 Hst) as Hsv.
  pose proof (unique_step pool i sv sv' Hsv Heq Hu) as Hu1.
  destruct (steps_objects sv0 tr sv Hsv0 Ht0 Hu1 Hst) as [Ht Hk].
  destruct (Hk o s0 Ho0) as (s1 & Ho1 & _).
  assert (closed_ s1 = false) as Hc1.
  { destruct (table_step pool i sv sv' Hsv Ht Hen Hu Heq) as [_ Hk'].
    destruct (Hk' o s1 Ho1) as (s2 & Hs2 & Hc2). simplify_eq.
    destruct (closed_ s1); [by rewrite Hc2 in Hc|done]. }
  assert (shutting_down sv = false) as Hsh1.
  { destruct (shutting_down sv) eqn:E; [|done].
    destruct (gr_shut _ _ (grown_step pool i sv sv' Hsv Heq) E). congruence. }
  rewrite (pipeline_step pool i sv sv' o s1 s), (IH s1), requested_app by done.
  by rewrite app_assoc.
Qed.
End Facts.

(** ** The properties *)

(** C38. No I/O event stops the transport.  In every reachable state of the
    server, whatever can happen next (an accepted connection, a completion with
    an error or with arbitrary bytes, a posted function, a call of the game
    thread) is handled without touching memory outside a buffer. *)
Theorem server_total `{VectorAlloc} (pool : BufferPool) (tr : list TransportEvent)
    (sv : ServerImpl) (i : ServerInput) (Hrun : server_run pool tr sv)
    (Hen : server_enabled i sv) :
  is_Some (server_handle pool i sv).
Proof.
  destruct (server_handle_ok pool i sv (run_inv pool tr sv Hrun) Hen) as (sv' & Heq & _). eauto.
Qed.

(** C11. Sessions of the server are sessions.  Every session object of a
    reachable server is in a state that [Session] alone can reach, the frames
    the server handed to its socket are the writes of that run, in order, and
    (while ids do not repeat) the calls of [push_packet] for its id are one
    successful Connect followed by the callbacks of that run, in order; so every
    property of [Session] holds of it. *)
Theorem sessions_refined `{VectorAlloc} (pool : BufferPool) (tr : list TransportEvent)
    (sv : ServerImpl) (o : nat) (s : Session) (Hrun : server_run pool tr sv)
    (Ho : objects sv !! o = Some s) :
  ∃ now0 w, session_reachable pool (object_id o) now0 w ∧ session w = s
    ∧ wire_of o sv = started (effects w)
    ∧ (Z.of_nat (next_object sv) ≤ 2 ^ 32 →
       ∃ log, log_of (object_id o) (packet_log sv)
              = (mkPacket Connect (object_id o) [], Queued) :: log
              ∧ log.*1 = effect_packets (effects w)).
Proof. exact (si_objects _ _ (run_inv pool tr sv Hrun) o s Ho). Qed.

(** C19. The packet queue.  The packets that were queued are those the game
    thread has polled followed by those still in the queue, in order (each is
    delivered once, none is reordered); the queue never holds more than 8192
    packets, and [dropped_packet_count] is the number of packets refused because
    it was full, modulo [2^64]. *)
Theorem packets_fifo `{VectorAlloc} (pool : BufferPool) (tr : list TransportEvent)
    (sv : ServerImpl) (Hrun : server_run pool tr sv) :
  queued (packet_log sv) = polled tr ++ packet_queue sv
  ∧ zlen (packet_queue sv) ≤ PACKET_QUEUE_CAPACITY
  ∧ dropped_packet_count sv = to_u64 (zlen (overflows (packet_log sv))).
Proof. destruct (run_queue pool tr sv Hrun) as [Hf Hb Hd]. by split_and!. Qed.

(** C15. Life cycle of a client.  While ids do not repeat, the packets the game
    thread polls for one session id are: nothing, or one Connect first, then data
    packets of 1 to 2048 bytes and at most one Disconnect. *)
Theorem session_life_cycle `{VectorAlloc} (pool : BufferPool) (tr : list TransportEvent)
    (sv : ServerImpl) (id : Z) (Hrun : server_run pool tr sv) (Hu : unique_ids sv) :
  life_cycle id (packets_of id (polled tr)).
Proof.
  pose proof (queued_life_cycle pool tr sv id Hrun Hu) as Hcycle.
  rewrite (qi_fifo _ _ (run_queue pool tr sv Hrun)), packets_of_app in Hcycle.
  by eapply life_cycle_prefix.
Qed.

(** C9. Frames arrive in the order they were sent.  Take a session that exists
    in a reachable state and is still open after any further run of a server
    that is not shutting down: the data frames written to its socket, waiting in
    its queue and posted to the strands are, in this order, those of the
    beginning followed by one frame for each [send] to its id and each
    [broadcast] of 1 to 2048 bytes during that run, none lost or reordered; once
    nothing is posted or waiting, all of them have been written. *)
Theorem send_order `{VectorAlloc} (pool : BufferPool) (tr tr' : list TransportEvent)
    (sv sv' : ServerImpl) (o : nat) (s s' : Session) (Hrun : server_run pool tr sv)
    (Hst : server_steps pool sv tr' sv') (Hu : unique_ids sv')
    (Hup : shutting_down sv' = false) (Ho : objects sv !! o = Some s)
    (Ho' : objects sv' !! o = Some s') (Hopen : closed_ s' = false) :
  pipeline o sv' = pipeline o sv ++ requested (object_id o) tr'
  ∧ (server_strand sv' = [] → strand_of o sv' = [] → waiting s' = [] →
     data_only (wire_of o sv') = pipeline o sv ++ requested (object_id o) tr').
Proof.
  pose proof (run_inv pool tr sv Hrun) as Hsv.
  assert (unique_ids sv) as Hu0.
  { pose proof (gr_next _ _ (steps_grown pool sv tr' sv' Hsv Hst)). unfold unique_ids in *. lia. }
  pose proof (steps_pipeline pool sv tr' sv' o s s' Hsv (run_table pool tr sv Hrun Hu0)
                Hst Hu Hup Ho Ho' Hopen) as Heq.
  split; [done|]. intros E1 E2 E3. rewrite <-Heq. unfold pipeline.
  rewrite E1, E2, Ho'. cbn [from_option]. by rewrite E3, !app_nil_r.
Qed.

(** Shutdown.  Once the server shuts down, the game thread polls only what
    was queued before, in order, and no connection is accepted. *)
Lemma shutdown_quiet `{VectorAlloc} (pool : BufferPool) (tr tr' : list TransportEvent)
    (sv sv' : ServerImpl) (Hrun : server_run pool tr sv) (Hdown : shutting_down sv = true)
    (Hst : server_steps pool sv tr' sv') :
  shutting_down sv' = true ∧ next_object sv' = next_object sv
  ∧ packet_queue sv = polled tr' ++ packet_queue sv'
  ∧ queued (packet_log sv') = queued (packet_log sv).
Proof.
  destruct (steps_grown pool sv tr' sv' (run_inv pool tr sv Hrun) Hst) as [_ (log & Hlog & Hq) Hs].
  destruct (Hs Hdown) as [Hs' Hn]. assert (queued (packet_log sv') = queued (packet_log sv)) as Heq
    by (by rewrite Hlog, queued_app, (Hq Hdown), app_nil_r).
  split_and!; [done|done| |done].
  pose proof (run_queue pool _ sv' (steps_app pool _ tr sv tr' sv' Hrun Hst)) as [Hf' _ _].
  destruct (run_queue pool tr sv Hrun) as [Hf _ _].
  rewrite Heq, Hf, polled_app, <-app_assoc in Hf'. by apply app_inv_head in Hf'.
Qed.

(** ** A Disconnect can be lost *)

Section Lost.
Context `{VectorAlloc} (pool : BufferPool).
Implicit Types (sv : ServerImpl).

(** The session of the first connection, accepted at time 0. *)
Definition first_session : Session :=
  session (session_start (mkWorld (session_create 1 0) ∅ [])).

(** A server that has accepted [n] connections that nobody polled. *)
Record crowded (n : nat) sv : Prop := {
  cr_run : server_run pool [] sv;
  cr_accepting : accepting sv = true;
  cr_shutting : shutting_down sv = false;
  cr_stopped : stopped sv = false;
  cr_queue : zlen (packet_queue sv) = Z.of_nat n;
  cr_next : next_object sv = n;
  cr_strand : server_strand sv = [];
  cr_strands : strands sv = ∅;
  cr_first : (0 < n)%nat → objects sv !! 0%nat = Some first_session;
}.

(** An accepted connection while the queue has room. *)
Lemma on_accept_room now sv :
  shutting_down sv = false → zlen (packet_queue sv) < PACKET_QUEUE_CAPACITY →
  let sv' := on_accept now false sv in
  accepting sv' = true ∧ shutting_down sv' = false ∧ stopped sv' = stopped sv
  ∧ packet_queue sv' = packet_queue sv ++ [mkPacket Connect (next_id sv) []]
  ∧ next_object sv' = S (next_object sv) ∧ server_strand sv' = server_strand sv
  ∧ strands sv' = strands sv
  ∧ objects sv' = <[next_object sv := session (session_start (mkWorld
                      (session_create (next_id sv) now) (all_pools sv) []))]> (objects sv).
Proof.
  intros Hsh Hq. unfold on_accept, push_packet. simpl. rewrite Hsh. simpl.
  destruct (Z.ltb_spec (zlen (packet_queue sv)) PACKET_QUEUE_CAPACITY); [|lia]. simpl.
  destruct (sessions sv !! next_id sv); simpl; by rewrite ?Hsh.
Qed.

Lemma crowd_one n sv :
  crowded n sv → Z.of_nat n < PACKET_QUEUE_CAPACITY → crowded (S n) (on_accept 0 false sv).
Proof.
  intros [Hrun Ha Hsh Hst Hq Hn Hss Hs Hf] Hroom. rewrite <-Hq in Hroom.
  destruct (on_accept_room 0 sv Hsh Hroom) as (H1 & H2 & H3 & H4 & H5 & H6 & H7 & H8).
  split; try congruence.
  - by apply (steps_snoc pool server_create [] (SvAccept 0 false) sv).
  - rewrite H4, zlen_app, Hq. change (zlen [_]) with 1. lia.
  - intros _. rewrite H8, Hn. destruct (decide (n = 0%nat)) as [->|Hne].
    + rewrite lookup_insert_eq, (si_next_id _ _ (run_inv pool [] sv Hrun)), Hn. done.
    + rewrite lookup_insert_ne by done. apply Hf. lia.
Qed.

Lemma crowd n : Z.of_nat n ≤ PACKET_QUEUE_CAPACITY → ∃ sv, crowded n sv.
Proof.
  induction n as [|n IH]; intros Hn.
  - exists server_create. split; try done; [constructor|lia].
  - destruct IH as [sv Hsv]; [lia|]. exists (on_accept 0 false sv). apply crowd_one; [done|lia].
Qed.

(** In a full server, closing the first session loses its Disconnect packet. *)
Lemma crowd_close n sv :
  crowded n sv → Z.of_nat n = PACKET_QUEUE_CAPACITY →
  ∃ sv', server_run pool [] sv' ∧ server_strand sv' = [] ∧ strands sv' = ∅
    ∧ sessions sv' !! 1 = None ∧ is_Some (objects sv' !! 0%nat) ∧ unique_ids sv'
    ∧ (mkPacket Disconnect 1 [], QueueFull) ∈ packet_log sv'.
Proof.
  intros [Hrun Ha Hsh Hst Hq Hn Hss Hs Hf] Hfull. rewrite Hfull in Hq.
  assert (objects sv !! 0%nat = Some first_session) as Ho
    by (apply Hf; unfold PACKET_QUEUE_CAPACITY in Hfull; lia). clear Hf.
  destruct (server_handle_ok pool (SvCompletion 0 0 (InHeader 0 true [])) sv) as (sv1 & Heq1 & _).
  { by eapply run_inv. }
  { cbn. split_and!; [done|done|]. by exists first_session. }
  assert (server_run pool [] sv1) as Hrun1.
  { apply (steps_snoc pool server_create [] (SvCompletion 0 0 (InHeader 0 true [])) sv); [done| |done].
    cbn. split_and!; [done|done|]. by exists first_session. }
  cbn in Heq1. unfold run_session in Heq1. rewrite Ho in Heq1. cbn in Heq1.
  unfold push_packet in Heq1. cbn -[Z.ltb PACKET_QUEUE_CAPACITY] in Heq1. rewrite Hsh, Hq in Heq1.
  rewrite Z.ltb_irrefl in Heq1. cbn in Heq1.
  injection Heq1 as <-.
  match type of Hrun1 with server_run _ _ ?x => set (sv1 := x) in * end.
  exists (set_sessions (delete 1 (sessions sv1)) (set_strand [] sv1)).
  split_and!; simpl; try done.
  - apply (steps_snoc pool server_create [] (SvTask 0 (map_to_list (sessions sv1))) sv1); [done|..].
    + simpl. rewrite Hss. by split_and!.
    + simpl. by rewrite Hss.
  - by rewrite lookup_delete_eq.
  - by rewrite lookup_insert_eq.
  - unfold unique_ids. simpl. rewrite Hn, Hfull. by compute.
  - apply elem_of_app. right. by left.
Qed.

(** With at most one Disconnect in a log, its outcome is decided. *)
Lemma disconnect_once (log : list (Packet * PushResult)) p r1 r2 :
  (length (List.filter is_disconnect log.*1) ≤ 1)%nat → is_disconnect p = true →
  (p, r1) ∈ log → (p, r2) ∈ log → r1 = r2.
Proof.
  assert (∀ (l : list (Packet * PushResult)) r, (p, r) ∈ l → is_disconnect p = true →
            (1 ≤ length (List.filter is_disconnect l.*1))%nat) as Hpos.
  { intros l r Hin Hp. induction l as [|[q r'] l IH]; [by apply elem_of_nil in Hin|]. csimpl.
    apply elem_of_cons in Hin as [[= -> ->]|Hin]; [rewrite Hp; simpl; lia|].
    specialize (IH Hin). destruct (is_disconnect q); simpl; lia. }
  induction log as [|[q r] log IH]; intros Hlen Hp H1 H2; [by apply elem_of_nil in H1|].
  csimpl. csimpl in Hlen.
  apply elem_of_cons in H1 as [[= <- <-]|H1].
  - apply elem_of_cons in H2 as [[= <-]|H2]; [done|]. rewrite Hp in Hlen. simpl in Hlen.
    pose proof (Hpos log r2 H2 Hp). lia.
  - apply elem_of_cons in H2 as [[= <- <-]|H2].
    + rewrite Hp in Hlen. simpl in Hlen. pose proof (Hpos log r1 H1 Hp). lia.
    + apply IH; try done. destruct (is_disconnect q); simpl in Hlen; lia.
Qed.

(** A Disconnect that found the queue full is never polled. *)
Lemma lost_for_ever sv tr sv' :
  server_inv pool sv → is_Some (objects sv !! 0%nat) → server_run pool tr sv' →
  (mkPacket Disconnect 1 [], QueueFull) ∈ packet_log sv →
  grown sv sv' → objects_kept sv sv' → unique_ids sv' → mkPacket Disconnect 1 [] ∉ polled tr.
Proof.
  intros Hsv [s Ho] Hrun Hlost [_ (ext & Hext & _) _] Hkept Hu Hin.
  pose proof (run_inv pool tr sv' Hrun) as Hsv'. destruct (Hkept 0%nat s Ho) as (s' & Ho' & _).
  destruct (si_objects _ _ Hsv' 0%nat s' Ho') as (now0 & w & Hw & Hs & _ & Hlog).
  destruct (Hlog Hu) as (log & Hl & Hp). change (object_id 0) with 1 in Hl.
  pose proof (session_reachable_inv _ _ _ _ Hw) as [Hb _].
  destruct (effect_packets_cycle _ _ (sb_effects _ _ Hb)) as [_ Hlen].
  rewrite <-Hp, (sb_closes _ _ Hb) in Hlen.
  assert (∀ r, (mkPacket Disconnect 1 [], r) ∈ packet_log sv' →
               (mkPacket Disconnect 1 [], r) ∈ log) as Hlog1.
  { intros r Hr. assert ((mkPacket Disconnect 1 [], r) ∈ log_of 1 (packet_log sv')) as Hr'
      by (apply list_elem_of_In, filter_In; split; [by apply list_elem_of_In|done]).
    rewrite Hl in Hr'. by apply elem_of_cons in Hr' as [[=]|Hr']. }
  assert (mkPacket Disconnect 1 [] ∈ queued (packet_log sv')) as Hq.
  { rewrite (qi_fifo _ _ (run_queue pool tr sv' Hrun)). apply elem_of_app. by left. }
  apply list_elem_of_omap in Hq as ([q r] & Hq & Heq). destruct r; simplify_eq.
  assert (Queued = QueueFull); [|done].
  eapply (disconnect_once log (mkPacket Disconnect 1 [])); [|done|by apply Hlog1|apply Hlog1].
  - destruct (closed_ (session w)); simpl in Hlen; lia.
  - rewrite Hext. apply elem_of_app. by left.
Qed.
End Lost.

(** C39. A Disconnect can be lost.  Nothing checks whether the packet that
    reports a closed session was queued: there are runs (8192 unpolled packets,
    then the first client hangs up) after which the Connect of a client has been
    queued, its session is closed and gone from the table, nothing is pending,
    and the game thread never learns of it, whatever happens next while ids do
    not repeat. *)
Theorem disconnect_lost `{VectorAlloc} (pool : BufferPool) :
  ∃ tr sv id, server_run pool tr sv ∧ unique_ids sv
    ∧ mkPacket Connect id [] ∈ queued (packet_log sv)
    ∧ sessions sv !! id = None ∧ server_strand sv = [] ∧ strands sv = ∅
    ∧ ∀ tr' sv', server_steps pool sv tr' sv' → unique_ids sv' →
        mkPacket Disconnect id [] ∉ polled (tr ++ tr').
Proof.
  destruct (crowd pool (Z.to_nat PACKET_QUEUE_CAPACITY)) as [sv0 Hsv0]; [done|].
  destruct (crowd_close pool _ sv0 Hsv0) as (sv & Hrun & Hss & Hs & Hid & [s Ho] & Hu & Hlost); [done|].
  exists [], sv, 1. pose proof (run_inv pool [] sv Hrun) as Hsv.
  split_and!; try done.
  - destruct (si_objects _ _ Hsv 0%nat s Ho) as (now0 & w & _ & _ & _ & Hlog).
    destruct (Hlog Hu) as (log & Hl & _). change (object_id 0) with 1 in Hl.
    assert (queued (log_of 1 (packet_log sv)) = mkPacket Connect 1 [] :: queued log) as Hq
      by (by rewrite Hl).
    rewrite queued_log_of in Hq.
    assert (mkPacket Connect 1 [] ∈ packets_of 1 (queued (packet_log sv))) as Hin
      by (rewrite Hq; by left).
    apply list_elem_of_In, filter_In in Hin as [Hin _]. by apply list_elem_of_In.
  - intros tr' sv' Hst Hu'. simpl.
    pose proof (steps_app pool _ [] sv tr' sv' Hrun Hst) as Hrun'. simpl in Hrun'.
    apply (lost_for_ever pool sv tr' sv' Hsv (ex_intro _ s Ho) Hrun' Hlost); [..|done].
    + by apply (steps_grown pool sv tr' sv').
    + by apply (steps_objects pool sv tr' sv' Hsv (run_table pool [] sv Hrun Hu)).
Qed.

(** ** Witnesses: one client, one message *)

Section Witnesses.
#[local] Existing Instance exact_alloc.

(** What handling an input leads to (the input is known to be handled). *)
Definition next_state (i : ServerInput) (sv : ServerImpl) : ServerImpl :=
  default sv (server_handle example_pool i sv).

Definition accepted_server : ServerImpl := next_state (SvAccept 0 false) server_create.
Definition polled_server : ServerImpl := next_state SvPoll accepted_server.
Definition sending_server : ServerImpl := next_state (SvSend 0 1 [5; 6]) polled_server.
Definition posted_server : ServerImpl := next_state (SvTask 0 [(1, 0%nat)]) sending_server.
Definition written_server : ServerImpl := next_state (SvPosted 0 0) posted_server.
Definition closing_server : ServerImpl := next_state SvShutdown accepted_server.

Lemma accepted_run : server_run example_pool [] accepted_server.
Proof.
  apply (steps_snoc example_pool server_create [] (SvAccept 0 false) server_create);
    [constructor|by split|reflexivity].
Qed.

Lemma polled_run : server_run example_pool [EvPolled (mkPacket Connect 1 [])] polled_server.
Proof.
  apply (steps_snoc example_pool server_create [] SvPoll accepted_server);
    [exact accepted_run|exact I|reflexivity].
Qed.

Lemma written_steps :
  server_steps example_pool polled_server [EvSent 1 [5; 6]] written_server.
Proof.
  apply (steps_snoc example_pool polled_server [EvSent 1 [5; 6]] (SvPosted 0 0) posted_server).
  - apply (steps_snoc example_pool polled_server [EvSent 1 [5; 6]] (SvTask 0 [(1, 0%nat)]) sending_server).
    + apply (steps_snoc example_pool polled_server [] (SvSend 0 1 [5; 6]) polled_server);
        [constructor|exact I|reflexivity].
    + split_and!; [reflexivity|discriminate|reflexivity].
    + reflexivity.
  - split; [reflexivity|discriminate].
  - reflexivity.
Qed.

Lemma closing_run : server_run example_pool [] closing_server.
Proof.
  apply (steps_snoc example_pool server_create [] SvShutdown accepted_server);
    [exact accepted_run|exact I|reflexivity].
Qed.

Lemma server_total_witness :
  is_Some (server_handle example_pool (SvCompletion 3 0 (InHeader 1500 false [1; 2; 3; 4; 5; 6; 7; 8]))
             accepted_server).
Proof.
  apply (server_total example_pool [] accepted_server _ accepted_run).
  split; [reflexivity|]. split; [reflexivity|]. eexists. split; [reflexivity|].
  split; [reflexivity|]. intros _. split; [reflexivity|].
  repeat (constructor; [by_compute|]). constructor.
Defined.

Lemma sessions_refined_witness :
  ∃ s w, objects accepted_server !! 0%nat = Some s ∧ session w = s
    ∧ session_reachable example_pool 1 0 (session_start (mkWorld (session_create 1 0) ∅ []))
    ∧ wire_of 0 accepted_server = started (effects w).
Proof.
  destruct (sessions_refined example_pool [] accepted_server 0 _ accepted_run eq_refl)
    as (now0 & w & _ & Hs & Hwire & _).
  eexists. exists w. split; [reflexivity|]. split; [exact Hs|]. split; [|exact Hwire].
  apply reach_start, pool_wf_empty.
Defined.

Lemma packets_fifo_witness :
  queued (packet_log polled_server) = [mkPacket Connect 1 []] ∧ packet_queue polled_server = [].
Proof.
  destruct (packets_fifo example_pool _ polled_server polled_run) as (Hf & _ & _).
  split; [exact Hf|reflexivity].
Defined.

Lemma session_life_cycle_witness :
  life_cycle 1 [mkPacket Connect 1 []].
Proof.
  apply (session_life_cycle example_pool _ polled_server 1 polled_run). by_compute.
Defined.

Lemma send_order_witness :
  pipeline 0 written_server = [data_frame [5; 6]]
  ∧ data_only (wire_of 0 written_server) = [data_frame [5; 6]].
Proof.
  destruct (send_order example_pool _ _ polled_server written_server 0 first_session
              (default first_session (objects written_server !! 0%nat)) polled_run written_steps)
    as [Hp Hw].
  - by_compute.
  - reflexivity.
  - reflexivity.
  - reflexivity.
  - reflexivity.
  - split; [exact Hp|]. exact (Hw eq_refl eq_refl eq_refl).
Defined.

Lemma shutdown_quiet_witness :
  packet_queue closing_server = [mkPacket Connect 1 []]
  ∧ packet_queue (next_state SvPoll closing_server) = [].
Proof.
  destruct (shutdown_quiet example_pool [] [EvPolled (mkPacket Connect 1 [])] closing_server
              (next_state SvPoll closing_server) closing_run eq_refl) as (_ & _ & Hq & _).
  - apply (steps_snoc example_pool closing_server [] SvPoll closing_server);
      [constructor|exact I|reflexivity].
  - split; [exact Hq|reflexivity].
Defined.
End Witnesses.
