(* ===== verification/Lifetime.v ===== *)
(** * The end of the server and of the client

    The destructors wait for a function they post to the I/O threads, stop these
    and delete what is left in the queues.  The wait ends: while it lasts the
    function at the front of the strand can run, and with each the wait gets
    shorter ([wait_left]).  When it is over nobody is accepted any more and every
    session has been told to close; and each packet ever queued has been polled
    or is deleted now, once. *)

From S2P Require Import Prelude Protocol BufferPool TransportDetail Session Packet Server ServerRun ServerInvariant ServerTable ServerPipeline ServerProperties.

(** The functions of the strand that run before the wait is over. *)
Fixpoint wait_left (tasks : list ServerTask) : nat :=
  match tasks with
  | [] => 0
  | task :: rest =>
      match wait_left rest, task with
      | S n, _ => S (S n)
      | O, TaskShutdown => 1
      | O, _ => 0
      end
  end.

Lemma wait_left_tail tasks : wait_left (tail tasks) = pred (wait_left tasks).
Proof. destruct tasks as [|task rest]; [done|]. simpl. by destruct (wait_left rest), task. Qed.

Lemma wait_left_0 tasks : wait_left tasks = 0%nat ↔ TaskShutdown ∉ tasks.
Proof.
  induction tasks as [|task rest IH]; simpl; [split; [by intros _ ?%elem_of_nil|done]|].
  rewrite not_elem_of_cons, <-IH.
  destruct (wait_left rest), task; naive_solver.
Qed.

Lemma wait_left_app tasks news :
  TaskShutdown ∉ news → wait_left (tasks ++ news) = wait_left tasks.
Proof.
  intros Hn. induction tasks as [|task rest IH]; simpl; [by apply wait_left_0|]. by rewrite IH.
Qed.

Lemma wait_left_snoc tasks : wait_left (tasks ++ [TaskShutdown]) = S (length tasks).
Proof. induction tasks as [|task rest IH]; simpl; [done|]. by rewrite IH. Qed.

Section Closing.
Context `{VectorAlloc} (pool : BufferPool).
Implicit Types (sv : ServerImpl) (o : nat).

(** Session object [o] is closed, or will be when its strand runs. *)
Definition told sv o : Prop :=
  InClose ∈ strand_of o sv ∨ ∃ s, objects sv !! o = Some s ∧ closed_ s = true.

Lemma told_kept sv sv' o :
  objects sv' = objects sv → strands sv' = strands sv → told sv o → told sv' o.
Proof. unfold told, strand_of. by intros -> ->. Qed.

Lemma erasures_no_shutdown es : TaskShutdown ∉ erasures es.
Proof.
  unfold erasures. induction es as [|[] es IH]; csimpl; [by intros ?%elem_of_nil|done| |done].
  by apply not_elem_of_cons.
Qed.

(** What a step of a server that is shutting down may change; [popped] tells
    whether it takes the front of the strand. *)
Record closing_step (popped : bool) sv sv' : Prop := {
  cs_strand : ∃ news, TaskShutdown ∉ news
    ∧ server_strand sv' = (if popped then tail (server_strand sv) else server_strand sv) ++ news;
  cs_shutting : shutting_down sv' = true;
  cs_accepting : accepting sv' = true → accepting sv = true;
  cs_sessions id o : sessions sv' !! id = Some o → sessions sv !! id = Some o;
  cs_told o : told sv o → told sv' o;
  cs_stopped : stopped sv' = stopped sv;
}.

Lemma closing_step_frame (popped : bool) sv sv' :
  shutting_down sv = true →
  server_strand sv' = (if popped then tail (server_strand sv) else server_strand sv) →
  shutting_down sv' = shutting_down sv → (accepting sv' = true → accepting sv = true) →
  (∀ id o, sessions sv' !! id = Some o → sessions sv !! id = Some o) →
  objects sv' = objects sv → strands sv' = strands sv → stopped sv' = stopped sv →
  closing_step popped sv sv'.
Proof.
  intros Hs E1 E2 E3 E4 E5 E6 E7. split; [|congruence|done|done| |done].
  - exists []. rewrite app_nil_r. split; [by intros ?%elem_of_nil|done].
  - intros o. by apply told_kept.
Qed.

(** A handler of a session, its input taken from the session's strand or not. *)
Lemma closing_session t o i s sv sv' sv0 :
  server_inv pool sv → shutting_down sv = true → objects sv !! o = Some s → enabled i s →
  run_session pool t o i sv = Some sv' →
  sv0 = sv ∨ (∃ rest, strand_of o sv0 = i :: rest ∧ sv = set_session_strand o rest sv0) →
  closing_step false sv0 sv'.
Proof.
  intros Hsv Hs Ho Hen Heq H0.
  destruct (run_session_ok pool t o s i sv Hsv Ho Hen) as (w1 & sv1 & Hw1 & Heq1 & Hed & _).
  assert (sv1 = sv') as -> by congruence.
  destruct (step_closing pool t o i s sv w1 Hsv Ho Hen Hw1) as [Hmono _].
  assert (∀ o', objects sv' !! o' = if decide (o = o') then Some (session w1) else objects sv !! o')
    as Hobj by (intros o'; rewrite (ed_objects _ _ _ _ Hed); apply lookup_insert).
  assert (i = InClose → closed_ (session w1) = true) as Hclose.
  { intros ->. injection Hw1 as <-. unfold handle_close. simpl. by destruct (closed_ s) eqn:E. }
  assert (server_strand sv0 = server_strand sv ∧ accepting sv0 = accepting sv
          ∧ sessions sv0 = sessions sv ∧ objects sv0 = objects sv ∧ stopped sv0 = stopped sv)
    as (E1 & E2 & E3 & E4 & E5) by (destruct H0 as [->|(rest & _ & ->)]; done).
  assert (∀ o', InClose ∈ strand_of o' sv0 → InClose ∈ strand_of o' sv ∨ o' = o ∧ i = InClose) as Hstr.
  { destruct H0 as [->|(rest & Hq & ->)]; [auto|]. intros o'. rewrite strand_set.
    case_decide; [subst o'; rewrite Hq, elem_of_cons; naive_solver|auto]. }
  split.
  - exists (erasures (effects w1)). split; [apply erasures_no_shutdown|].
    by rewrite (ed_strand _ _ _ _ Hed), E1.
  - by rewrite (ed_shutting _ _ _ _ Hed).
  - by rewrite (ed_accepting _ _ _ _ Hed), E2.
  - intros id o'. by rewrite (ed_sessions _ _ _ _ Hed), E3.
  - assert (∀ o', strand_of o' sv' = strand_of o' sv) as Es
      by (intros o'; unfold strand_of; by rewrite (ed_strands _ _ _ _ Hed)).
    assert (∀ s', objects sv !! o = Some s' → closed_ s' = true → closed_ (session w1) = true) as Hm
      by (intros s' Ho'; simplify_eq; exact Hmono).
    intros o' [Hin|(s' & Ho' & Hc)]; unfold told; rewrite Hobj, Es.
    + destruct (Hstr o' Hin) as [?|[-> ->]]; [by left|]. right. rewrite decide_True by done. eauto.
    + rewrite E4 in Ho'. right. case_decide; [subst o'|]; eauto.
  - rewrite (ed_stopped _ _ _ _ Hed). simpl. by rewrite E5.
Qed.

Lemma posts_accepting ins sv :
  accepting (foldl (λ sv '(o, i), post_session o i sv) sv ins) = accepting sv.
Proof. revert sv. induction ins as [|[o i] ins IH]; intros sv; [done|]. exact (IH (post_session o i sv)). Qed.

(** The function posted by [shutdown] refuses connections and tells every
    session. *)
Lemma shutdown_task t (walk : list (Z * nat)) sv sv' :
  shutting_down sv = true → walk ≡ₚ map_to_list (sessions sv) →
  run_task pool t walk TaskShutdown sv = Some sv' →
  closing_step false sv sv' ∧ accepting sv' = false
  ∧ ∀ id o, sessions sv' !! id = Some o → told sv' o.
Proof.
  intros Hs Hwalk [= <-]. rewrite close_loop. unfold with_posts.
  set (ins := (λ '(_, o), (o, InClose)) <$> walk).
  destruct (posts_frame ins (set_accepting false sv)) as (E1 & _ & E2 & E3 & E4 & _ & _ & _ & _ & E5).
  assert (∀ o, InClose ∈ strand_of o sv ∨ (∃ id, sessions sv !! id = Some o) →
    InClose ∈ strand_of o (foldl (λ sv '(o, i), post_session o i sv) (set_accepting false sv) ins)) as Hin.
  { intros o Ho. rewrite posts_strand, elem_of_app. destruct Ho as [?|[id Hid]]; [by left|right].
    unfold posts_to, ins. rewrite list_elem_of_omap. exists (o, InClose).
    rewrite decide_True by done. split; [|done]. apply list_elem_of_fmap. exists (id, o).
    split; [done|]. by rewrite Hwalk, elem_of_map_to_list. }
  split_and!.
  - split; simpl; rewrite ?E2, ?E3, ?E4, ?E5, ?posts_accepting; try done; auto.
    + exists []. rewrite app_nil_r. split; [by intros ?%elem_of_nil|done].
    + intros o [Ho|(s & Ho & Hc)]; [left; apply Hin; auto|right]. exists s. simpl. by rewrite E1.
  - simpl. by rewrite posts_accepting.
  - intros id o. simpl. rewrite E2. intros Hid. left. apply Hin. eauto.
Qed.

(** Another function of the strand. *)
Lemma other_task t (walk : list (Z * nat)) task sv sv' :
  server_inv pool sv → shutting_down sv = true → run_task pool t walk task sv = Some sv' →
  task ≠ TaskShutdown → closing_step false sv sv'.
Proof.
  intros Hsv Hs Heq Hne. destruct task as [sid f|f|sid|sid|]; cbn [run_task] in Heq; [..|done].
  1-3: rewrite Hs in Heq; injection Heq as <-; by apply closing_step_frame.
  injection Heq as <-. apply closing_step_frame; try done.
  intros id o. simpl. by rewrite lookup_delete_Some; intros [_ ?].
Qed.

Lemma closing_popped sv sv' :
  closing_step false (set_strand (tail (server_strand sv)) sv) sv' → closing_step true sv sv'.
Proof. by intros []; split. Qed.

Lemma closing_task t (walk : list (Z * nat)) sv sv' :
  server_inv pool sv → shutting_down sv = true → server_enabled (SvTask t walk) sv →
  server_handle pool (SvTask t walk) sv = Some sv' →
  closing_step true sv sv'
  ∧ (head (server_strand sv) = Some TaskShutdown →
     accepting sv' = false ∧ ∀ id o, sessions sv' !! id = Some o → told sv' o).
Proof.
  intros Hsv Hs (_ & _ & Hwalk) Heq. simpl in Heq. pose proof (si_tasks _ _ Hsv) as Htasks.
  destruct (server_strand sv) as [|task rest] eqn:Hq; [done|].
  apply Forall_cons in Htasks as [_ Hrest].
  assert (rest = tail (server_strand sv)) as Er by (by rewrite Hq).
  assert (task = TaskShutdown ∨ task ≠ TaskShutdown) as [->|Hne]
    by (destruct task; first [by left | by right]).
  - destruct (shutdown_task t walk (set_strand rest sv) sv') as (Hc & Ha & Ht); [done..|].
    split; [|done]. apply closing_popped. by rewrite <-Er.
  - split; [|by intros [= ->]]. apply closing_popped. rewrite <-Er.
    apply (other_task t walk task); [by apply inv_set_strand|done..].
Qed.

Definition takes_front (i : ServerInput) : bool := match i with SvTask _ _ => true | _ => false end.

Lemma step_closing_down i sv sv' :
  server_inv pool sv → shutting_down sv = true → server_enabled i sv → i ≠ SvFinish →
  server_handle pool i sv = Some sv' → closing_step (takes_front i) sv sv'.
Proof.
  intros Hsv Hs Hen Hne Heq. assert (closing_step false sv sv) as Hrefl by (by apply closing_step_frame).
  destruct i as [now ec|t walk|t o|t o i| |t sid data|t data|sid| |]; cbn [takes_front].
  - injection Heq as <-. destruct (on_accept_spec now ec sv) as (sv2 & -> & _ & H2). rewrite Hs.
    destruct H2 as [->|(_ & ? & _)]; [by apply closing_step_frame|congruence].
  - by apply (closing_task t walk).
  - destruct Hen as [_ Hq]. cbn in Heq. destruct (strand_of o sv) as [|i rest] eqn:E; [done|].
    destruct (inv_pop_strand pool o i rest sv Hsv E) as (Hsv1 & Hi & s & Ho).
    apply (closing_session t o i s (set_session_strand o rest sv)); try done;
      [by apply (posted_enabled o)|]. right. by exists rest.
  - destruct Hen as (_ & _ & s & Ho & Hi). by apply (closing_session t o i s sv); [..|left].
  - injection Heq as <-. unfold poll_packet.
    destruct (packet_queue sv); [done|by apply closing_step_frame].
  - destruct (send_spec t sid data sv (si_pools _ _ Hsv)) as (cap & st & _ & E).
    cbn in Heq. rewrite E, Hs, andb_false_r in Heq. by injection Heq as <-.
  - destruct (broadcast_spec t data sv (si_pools _ _ Hsv)) as (cap & st & _ & E).
    cbn in Heq. rewrite E, Hs, andb_false_r in Heq. by injection Heq as <-.
  - injection Heq as <-. unfold disconnect. by rewrite Hs.
  - injection Heq as <-. unfold shutdown. by rewrite Hs.
  - done.
Qed.

(** A server that is shutting down. *)
Record closing sv : Prop := {
  cg_shutting : shutting_down sv = true;
  cg_stopped : stopped sv = true → wait_left (server_strand sv) = 0%nat;
  cg_over : wait_left (server_strand sv) = 0%nat →
    accepting sv = false ∧ ∀ id o, sessions sv !! id = Some o → told sv o;
}.

Lemma closing_left i sv sv' :
  server_inv pool sv → closing sv → server_enabled i sv → server_handle pool i sv = Some sv' →
  wait_left (server_strand sv')
  = (if takes_front i then pred else id) (wait_left (server_strand sv)).
Proof.
  intros Hsv Hc Hen Heq.
  assert (i = SvFinish ∨ i ≠ SvFinish) as [->|Hne] by (destruct i; first [by left | by right]).
  { by injection Heq as <-. }
  destruct (step_closing_down i sv sv' Hsv (cg_shutting _ Hc) Hen Hne Heq) as [(news & Hn & E) _ _ _ _ _].
  rewrite E, wait_left_app by done. destruct (takes_front i); [apply wait_left_tail|done].
Qed.

Lemma closing_after i sv sv' :
  server_inv pool sv → closing sv → server_enabled i sv → server_handle pool i sv = Some sv' → closing sv'.
Proof.
  intros Hsv Hc Hen Heq. pose proof (closing_left i sv sv' Hsv Hc Hen Heq) as Hleft.
  destruct Hc as [Hs Hst Hover].
  assert (i = SvFinish ∨ i ≠ SvFinish) as [->|Hne] by (destruct i; first [by left | by right]).
  { injection Heq as <-. destruct Hen as [_ Hn]. apply wait_left_0 in Hn. by split. }
  destruct (step_closing_down i sv sv' Hsv Hs Hen Hne Heq) as [_ Hs' Ha Hse Ht E].
  split; [done| |].
  - rewrite E, Hleft. intros Hstop. rewrite (Hst Hstop). by destruct (takes_front i).
  - rewrite Hleft. destruct (wait_left (server_strand sv)) as [|n] eqn:Hw.
    + intros _. destruct (Hover eq_refl) as [Ha0 Ht0]. split; [|by eauto].
      destruct (accepting sv'); [|done]. by rewrite Ha in Ha0.
    + destruct i as [|t walk| | | | | | | |]; cbn; unfold id; try done. intros ->.
      apply (closing_task t walk sv sv'); [done..|].
      destruct (server_strand sv) as [|task rest]; [done|]. simpl in *.
      by destruct (wait_left rest), task.
Qed.

(** Only [shutdown] makes a server shut down. *)
Lemma accept_open now ec sv :
  shutting_down sv = false →
  shutting_down (on_accept now ec sv) = false ∧ stopped (on_accept now ec sv) = stopped sv.
Proof.
  intros Hs. unfold on_accept. simpl. rewrite Hs. destruct ec; simpl; [by rewrite Hs|].
  match goal with |- context [push_packet ?p ?x] =>
    destruct (push_packet_spec p x) as (_ & _ & Hsame); destruct (push_packet p x) as [pushed sv2] end.
  destruct Hsame as [_ _ Hs2 _ _ Hst _ _ _ _ _]. simpl in *. rewrite <-Hst.
  destruct pushed; [destruct (sessions sv2 !! next_id sv)|]; simpl; rewrite Hs2; done.
Qed.

Lemma task_open t (walk : list (Z * nat)) task sv sv' :
  server_inv pool sv → task_ok task → run_task pool t walk task sv = Some sv' →
  shutting_down sv' = shutting_down sv ∧ stopped sv' = stopped sv.
Proof.
  intros Hsv Htask Heq. destruct task as [sid f|f|sid|sid|]; cbn [run_task] in Heq.
  - repeat case_match; simplify_eq; split; simpl; congruence.
  - destruct (shutting_down sv) eqn:E0; [by simplify_eq|].
    destruct (broadcast_loop pool t (buf_data f) walk sv Hsv Htask) as (st & ins & E & _).
    rewrite E in Heq. cbn [mbind option_bind] in Heq. simplify_eq. simpl.
    destruct (posts_frame ins sv) as (_ & _ & _ & -> & _ & _ & _ & _ & _ & ->). done.
  - repeat case_match; simplify_eq; split; simpl; congruence.
  - by simplify_eq.
  - injection Heq as <-. rewrite close_loop. unfold with_posts. simpl.
    match goal with |- context [foldl _ ?x ?l] =>
      destruct (posts_frame l x) as (_ & _ & _ & -> & _ & _ & _ & _ & _ & ->) end. done.
Qed.

Lemma session_open t o i sv sv' :
  run_session pool t o i sv = Some sv' →
  shutting_down sv' = shutting_down sv ∧ stopped sv' = stopped sv.
Proof.
  unfold run_session. destruct (objects sv !! o) as [s|]; [|done]. cbn [mbind option_bind].
  destruct (session_handle pool t i _) as [w|]; [|done]. cbn [mbind option_bind]. intros [= <-].
  match goal with |- context [foldl _ ?x ?es] => pose proof (effects_done_all o es x) as [] end.
  done.
Qed.

Lemma step_open i sv sv' :
  server_inv pool sv → shutting_down sv = false → server_enabled i sv →
  server_handle pool i sv = Some sv' →
  i = SvShutdown ∨ shutting_down sv' = false ∧ stopped sv' = stopped sv.
Proof.
  intros Hsv Hs Hen Heq. destruct i as [now ec|t walk|t o|t o i| |t sid data|t data|sid| |];
    [right..|by left|]; cbn in Heq.
  - injection Heq as <-. by apply accept_open.
  - pose proof (si_tasks _ _ Hsv) as Htasks. destruct (server_strand sv) as [|task rest]; [done|].
    apply Forall_cons in Htasks as [Htask Hrest].
    destruct (task_open t walk task (set_strand rest sv) sv') as [-> ->]; [by apply inv_set_strand|done..].
  - destruct (strand_of o sv) as [|i rest]; [done|]. by apply session_open in Heq as [-> ->].
  - by apply session_open in Heq as [-> ->].
  - injection Heq as <-. unfold poll_packet. by destruct (packet_queue sv).
  - destruct (send_spec t sid data sv (si_pools _ _ Hsv)) as (cap & st & _ & E).
    rewrite E in Heq. injection Heq as <-. by destruct (_ && _).
  - destruct (broadcast_spec t data sv (si_pools _ _ Hsv)) as (cap & st & _ & E).
    rewrite E in Heq. injection Heq as <-. by destruct (_ && _).
  - injection Heq as <-. unfold disconnect. by rewrite Hs.
  - right. by destruct Hen; congruence.
Qed.

Lemma run_closing tr sv :
  server_run pool tr sv → if shutting_down sv then closing sv else stopped sv = false.
Proof.
  induction 1 as [|tr i sv sv' Hrun IH Hen Heq]; [done|]. pose proof (run_inv pool tr sv Hrun) as Hsv.
  destruct (shutting_down sv) eqn:Hs.
  - pose proof (closing_after i sv sv' Hsv IH Hen Heq) as Hc. by rewrite (cg_shutting _ Hc).
  - destruct (step_open i sv sv' Hsv Hs Hen Heq) as [->|[-> ->]]; [|done].
    injection Heq as <-. unfold shutdown. rewrite Hs. simpl. split; [done|simpl; congruence|].
    simpl. by rewrite wait_left_snoc.
Qed.

Lemma delete_packets_all sv :
  delete_packets (S (length (packet_queue sv))) sv = Some (packet_queue sv, set_packets [] sv).
Proof.
  assert (∀ q sv, packet_queue sv = q →
    delete_packets (S (length q)) sv = Some (q, set_packets [] sv)) as Hgen; [|by apply Hgen].
  clear sv. intros q. induction q as [|p q IH]; intros sv Hq; simpl; rewrite Hq.
  - rewrite <-Hq. by destruct sv.
  - pose proof (IH (set_packets q sv) eq_refl) as E. simpl in E. by rewrite E.
Qed.
End Closing.

(** ** The property *)

(** C21. The destruction of the server.  Let [shutdown] be called in any
    reachable state, and let anything happen since.  Its wait ends: it is over, or
    the next function of the server's strand can run on any thread, is handled and
    shortens the wait; and no step of any thread makes it longer.  When it is over
    no accept is pending and every session in the table is closed or told to
    close.  The destructor then deletes what is left in the packet queue in as
    many iterations as there are packets and one: every packet ever queued was
    polled by the game thread or is deleted by the destructor, once, and none is
    left. *)
Theorem server_destruction `{VectorAlloc} (pool : BufferPool) (tr tr' : list TransportEvent)
    (sv sv' : ServerImpl) (Hrun : server_run pool tr sv)
    (Hst : server_steps pool (shutdown sv) tr' sv') :
  (server_enabled SvFinish sv'
   ∨ ∀ t walk, walk ≡ₚ map_to_list (sessions sv') →
       server_enabled (SvTask t walk) sv'
       ∧ ∃ sv2, server_handle pool (SvTask t walk) sv' = Some sv2
           ∧ (wait_left (server_strand sv2) < wait_left (server_strand sv'))%nat)
  ∧ (∀ i sv2, server_enabled i sv' → server_handle pool i sv' = Some sv2 →
       (wait_left (server_strand sv2) ≤ wait_left (server_strand sv'))%nat)
  ∧ (server_enabled SvFinish sv' →
       accepting sv' = false ∧ ∀ id o, sessions sv' !! id = Some o → told sv' o)
  ∧ ∃ deleted sv2, impl_destroy sv' = Some (deleted, sv2)
      ∧ packet_queue sv2 = []
      ∧ queued (packet_log sv') = polled (tr ++ tr') ++ deleted.
Proof.
  assert (server_run pool tr (shutdown sv)) as Hdown.
  { rewrite <-(app_nil_r tr). by apply (steps_snoc pool server_create tr SvShutdown sv). }
  assert (server_run pool (tr ++ tr') sv') as Hrun' by (by eapply steps_app).
  pose proof (run_inv pool _ sv' Hrun') as Hsv. pose proof (run_closing pool _ sv' Hrun') as Hc.
  assert (shutting_down sv' = true) as Hs.
  { apply (steps_grown pool (shutdown sv) tr' sv'); [by eapply run_inv|done|].
    unfold shutdown. by destruct (shutting_down sv) eqn:E. }
  rewrite Hs in Hc. split_and!.
  - destruct (wait_left (server_strand sv')) as [|n] eqn:Hw.
    { left. split; [done|by apply wait_left_0]. }
    right. intros t walk Hwalk. assert (server_enabled (SvTask t walk) sv') as Hen.
    { split_and!; [|by intros E; rewrite E in Hw|done].
      destruct (stopped sv') eqn:E; [|done]. by rewrite (cg_stopped _ Hc E) in Hw. }
    split; [done|]. destruct (server_handle_ok pool _ sv' Hsv Hen) as (sv2 & Heq & _).
    exists sv2. split; [done|]. rewrite (closing_left pool _ sv' sv2 Hsv Hc Hen Heq), Hw. simpl. lia.
  - intros i sv2 Hen Heq. rewrite (closing_left pool i sv' sv2 Hsv Hc Hen Heq).
    destruct (takes_front i); unfold id; lia.
  - intros [_ Hn]. by apply (cg_over _ Hc), wait_left_0.
  - exists (packet_queue sv'), (set_packets [] sv'). unfold impl_destroy, shutdown_idle.
    rewrite Hs, delete_packets_all. split_and!; [done..|].
    apply (run_queue pool _ sv' Hrun').
Qed.

(** ** A witness: a server destroyed with one session and one packet waiting *)

Section Witness.
#[local] Existing Instance exact_alloc.

Lemma server_destruction_witness :
  let sv' := next_state (SvTask 0 [(1, 0%nat)]) closing_server in
  wait_left (server_strand closing_server) = 1%nat
  ∧ server_enabled SvFinish sv' ∧ told sv' 0
  ∧ ∃ sv2, impl_destroy sv' = Some ([mkPacket Connect 1 []], sv2) ∧ packet_queue sv2 = [].
Proof.
  intros sv'.
  assert (server_enabled SvFinish sv') as Hfin.
  { split; [reflexivity|]. apply wait_left_0. reflexivity. }
  destruct (server_destruction example_pool [] [] accepted_server sv' accepted_run)
    as (_ & _ & Hover & deleted & sv2 & Hd & Hq & _).
  - apply (steps_snoc example_pool closing_server [] (SvTask 0 [(1, 0%nat)]) closing_server);
      [constructor|split_and!; [reflexivity|discriminate|reflexivity]|reflexivity].
  - split; [reflexivity|]. split; [exact Hfin|]. split.
    + destruct (Hover Hfin) as [_ Ht]. apply (Ht 1). reflexivity.
    + exists sv2. split; [rewrite Hd|exact Hq]. vm_compute in Hd. by injection Hd as <- _.
Defined.
End Witness.
