(* ===== verification/ServerInterface.v ===== *)
(** * The transport server provides the interface of the game thread

    [ServerImpl] is an instance of [ServerTransport]: the calls of the game
    thread, its sends never failing ([send_spec]), and the waiting packets. *)

From S2P Require Import Prelude Protocol BufferPool TransportDetail Session Packet Server ServerRun ServerInvariant.

(** The thread of [main]. *)
Definition GAME_THREAD : ThreadId := 0%nat.

#[export] Instance server_transport `{VectorAlloc} : ServerTransport ServerImpl := {
  tr_update := server_update;
  tr_poll_packet := poll_packet;
  tr_send session_id data sv := default sv (server_send GAME_THREAD session_id data sv);
  tr_disconnect := disconnect;
  tr_pending := packet_queue;
}.

#[export] Instance server_transport_spec `{VectorAlloc} : ServerTransportSpec ServerImpl.
Proof.
  split.
  - done.
  - intros sv. simpl. unfold poll_packet. destruct (packet_queue sv) as [|p q]; [done|].
    by exists (set_packets q sv).
  - intros sv sid data. simpl. unfold server_send. destruct (_ || _); [done|].
    destruct (shutting_down sv); [done|].
    destruct (build_data_frame _ _ _) as [[f st]|]; [|done]. simpl. by destruct (buf_empty f).
  - intros sv sid. simpl. unfold disconnect. by destruct (shutting_down sv).
Qed.
