(* ===== verification/Client.v ===== *)
(** * NightNetwork/Client.h, Client.cpp: the transport client

    One connection, one I/O thread, one game thread.  The I/O thread runs the
    completions of asio operations and the functions posted to [io]; a run is a
    sequence of [ClientInput]s in any interleaving with the calls of the game
    thread, and a posted function may overtake another ([ClPosted k] runs the
    [k]-th): asio promises no order among functions posted to an [io_context].

    As in [Session], [read_op], [write_op] and [timer_op] are the asio
    operations in flight.  [frames_out], [frames_in] and [lost] are history
    variables the code does not have: the frames handed to the socket, the
    payloads received, those that found the receive queue full. *)

From stdpp Require Import pretty.
From S2P Require Import Prelude Protocol BufferPool TransportDetail ChatProtocolClient Session.

Definition RECEIVE_QUEUE_CAPACITY : Z := 4096.
(** [BufferPool pool{32}]. *)
Definition client_pool : BufferPool := mkBufferPool 32.

(** Functions posted to [io]: a frame to send, or the closing of [shutdown]. *)
Inductive ClientTask :=
  | PostedFrame (frame : Buffer)
  | PostedClose.

Record ClientImpl := mkClientImpl {
  connected : bool;
  cl_shutting_down : bool;
  receive_queue : list bytes;
  cl_dropped_packets : Z;
  write_queue : list Buffer;
  writing : bool;
  body_buf : Buffer;
  last_activity : Z;
  cl_socket_open : bool;
  cl_read_op : option ReadOp;
  cl_write_op : bool;
  cl_timer_op : bool;
  io_posted : list ClientTask;
  io_stopped : bool;
  cl_pools : PoolStore;
  frames_out : list bytes;
  frames_in : list bytes;
  lost : list bytes;
}.

(** ** Member updates *)

Definition cset_connected (b : bool) (c : ClientImpl) : ClientImpl :=
  mkClientImpl b (cl_shutting_down c) (receive_queue c) (cl_dropped_packets c) (write_queue c)
    (writing c) (body_buf c) (last_activity c) (cl_socket_open c) (cl_read_op c) (cl_write_op c)
    (cl_timer_op c) (io_posted c) (io_stopped c) (cl_pools c) (frames_out c) (frames_in c) (lost c).
Definition cset_shutting (c : ClientImpl) : ClientImpl :=
  mkClientImpl (connected c) true (receive_queue c) (cl_dropped_packets c) (write_queue c)
    (writing c) (body_buf c) (last_activity c) (cl_socket_open c) (cl_read_op c) (cl_write_op c)
    (cl_timer_op c) (io_posted c) (io_stopped c) (cl_pools c) (frames_out c) (frames_in c) (lost c).
Definition cset_receive (q : list bytes) (c : ClientImpl) : ClientImpl :=
  mkClientImpl (connected c) (cl_shutting_down c) q (cl_dropped_packets c) (write_queue c)
    (writing c) (body_buf c) (last_activity c) (cl_socket_open c) (cl_read_op c) (cl_write_op c)
    (cl_timer_op c) (io_posted c) (io_stopped c) (cl_pools c) (frames_out c) (frames_in c) (lost c).
Definition ccount_dropped (p : bytes) (c : ClientImpl) : ClientImpl :=
  mkClientImpl (connected c) (cl_shutting_down c) (receive_queue c)
    (to_u64 (cl_dropped_packets c + 1)) (write_queue c) (writing c) (body_buf c) (last_activity c)
    (cl_socket_open c) (cl_read_op c) (cl_write_op c) (cl_timer_op c) (io_posted c) (io_stopped c)
    (cl_pools c) (frames_out c) (frames_in c) (lost c ++ [p]).
Definition cset_queue (q : list Buffer) (c : ClientImpl) : ClientImpl :=
  mkClientImpl (connected c) (cl_shutting_down c) (receive_queue c) (cl_dropped_packets c) q
    (writing c) (body_buf c) (last_activity c) (cl_socket_open c) (cl_read_op c) (cl_write_op c)
    (cl_timer_op c) (io_posted c) (io_stopped c) (cl_pools c) (frames_out c) (frames_in c) (lost c).
Definition cset_writing (b : bool) (c : ClientImpl) : ClientImpl :=
  mkClientImpl (connected c) (cl_shutting_down c) (receive_queue c) (cl_dropped_packets c)
    (write_queue c) b (body_buf c) (last_activity c) (cl_socket_open c) (cl_read_op c)
    (cl_write_op c) (cl_timer_op c) (io_posted c) (io_stopped c) (cl_pools c) (frames_out c)
    (frames_in c) (lost c).
Definition cset_body (b : Buffer) (c : ClientImpl) : ClientImpl :=
  mkClientImpl (connected c) (cl_shutting_down c) (receive_queue c) (cl_dropped_packets c)
    (write_queue c) (writing c) b (last_activity c) (cl_socket_open c) (cl_read_op c)
    (cl_write_op c) (cl_timer_op c) (io_posted c) (io_stopped c) (cl_pools c) (frames_out c)
    (frames_in c) (lost c).
Definition cset_activity (now : Z) (c : ClientImpl) : ClientImpl :=
  mkClientImpl (connected c) (cl_shutting_down c) (receive_queue c) (cl_dropped_packets c)
    (write_queue c) (writing c) (body_buf c) now (cl_socket_open c) (cl_read_op c)
    (cl_write_op c) (cl_timer_op c) (io_posted c) (io_stopped c) (cl_pools c) (frames_out c)
    (frames_in c) (lost c).
Definition cset_read (o : option ReadOp) (c : ClientImpl) : ClientImpl :=
  mkClientImpl (connected c) (cl_shutting_down c) (receive_queue c) (cl_dropped_packets c)
    (write_queue c) (writing c) (body_buf c) (last_activity c) (cl_socket_open c) o
    (cl_write_op c) (cl_timer_op c) (io_posted c) (io_stopped c) (cl_pools c) (frames_out c)
    (frames_in c) (lost c).
Definition cset_write (b : bool) (c : ClientImpl) : ClientImpl :=
  mkClientImpl (connected c) (cl_shutting_down c) (receive_queue c) (cl_dropped_packets c)
    (write_queue c) (writing c) (body_buf c) (last_activity c) (cl_socket_open c) (cl_read_op c)
    b (cl_timer_op c) (io_posted c) (io_stopped c) (cl_pools c) (frames_out c)
    (frames_in c) (lost c).
Definition cset_timer (b : bool) (c : ClientImpl) : ClientImpl :=
  mkClientImpl (connected c) (cl_shutting_down c) (receive_queue c) (cl_dropped_packets c)
    (write_queue c) (writing c) (body_buf c) (last_activity c) (cl_socket_open c) (cl_read_op c)
    (cl_write_op c) b (io_posted c) (io_stopped c) (cl_pools c) (frames_out c)
    (frames_in c) (lost c).
Definition cset_posted (q : list ClientTask) (c : ClientImpl) : ClientImpl :=
  mkClientImpl (connected c) (cl_shutting_down c) (receive_queue c) (cl_dropped_packets c)
    (write_queue c) (writing c) (body_buf c) (last_activity c) (cl_socket_open c) (cl_read_op c)
    (cl_write_op c) (cl_timer_op c) q (io_stopped c) (cl_pools c) (frames_out c)
    (frames_in c) (lost c).
Definition cset_stopped (c : ClientImpl) : ClientImpl :=
  mkClientImpl (connected c) (cl_shutting_down c) (receive_queue c) (cl_dropped_packets c)
    (write_queue c) (writing c) (body_buf c) (last_activity c) (cl_socket_open c) (cl_read_op c)
    (cl_write_op c) (cl_timer_op c) (io_posted c) true (cl_pools c) (frames_out c)
    (frames_in c) (lost c).
Definition cset_pools (st : PoolStore) (c : ClientImpl) : ClientImpl :=
  mkClientImpl (connected c) (cl_shutting_down c) (receive_queue c) (cl_dropped_packets c)
    (write_queue c) (writing c) (body_buf c) (last_activity c) (cl_socket_open c) (cl_read_op c)
    (cl_write_op c) (cl_timer_op c) (io_posted c) (io_stopped c) st (frames_out c)
    (frames_in c) (lost c).
Definition log_out (f : bytes) (c : ClientImpl) : ClientImpl :=
  mkClientImpl (connected c) (cl_shutting_down c) (receive_queue c) (cl_dropped_packets c)
    (write_queue c) (writing c) (body_buf c) (last_activity c) (cl_socket_open c) (cl_read_op c)
    (cl_write_op c) (cl_timer_op c) (io_posted c) (io_stopped c) (cl_pools c)
    (frames_out c ++ [f]) (frames_in c) (lost c).
Definition log_in (p : bytes) (c : ClientImpl) : ClientImpl :=
  mkClientImpl (connected c) (cl_shutting_down c) (receive_queue c) (cl_dropped_packets c)
    (write_queue c) (writing c) (body_buf c) (last_activity c) (cl_socket_open c) (cl_read_op c)
    (cl_write_op c) (cl_timer_op c) (io_posted c) (io_stopped c) (cl_pools c)
    (frames_out c) (frames_in c ++ [p]) (lost c).
(** [heartbeat_timer.cancel()] makes the pending wait complete with an error; the
    socket is shut down and closed. *)
Definition close_socket (c : ClientImpl) : ClientImpl :=
  mkClientImpl (connected c) (cl_shutting_down c) (receive_queue c) (cl_dropped_packets c)
    (write_queue c) (writing c) (body_buf c) (last_activity c) false (cl_read_op c)
    (cl_write_op c) (cl_timer_op c) (io_posted c) (io_stopped c) (cl_pools c)
    (frames_out c) (frames_in c) (lost c).

#[export] Instance client_write_queue : WriteQueueOwner ClientImpl := {
  wq_queue := write_queue;
  wq_writing := writing;
  wq_push f c := cset_queue (write_queue c ++ [f]) c;
}.

#[export] Instance client_write_queue_spec : WriteQueueOwnerSpec ClientImpl.
Proof. by split. Qed.

(** ** Handlers of the I/O thread [t] *)

Section Handlers.
Context `{VectorAlloc} (t : ThreadId).
Implicit Types (c : ClientImpl).

Definition handle_disconnect c : ClientImpl :=
  if negb (connected c) then c else close_socket (cset_connected false c).

Definition client_read_header c : ClientImpl := cset_read (Some ReadHeader) c.
Definition client_read_body c : ClientImpl := cset_read (Some ReadBody) c.

(** The completion handler of [do_read_header]. *)
Definition client_on_header (now : Z) (ec : bool) (header_buf : bytes) c : ClientImpl :=
  let c := cset_read None c in
  if ec || cl_shutting_down c then handle_disconnect c
  else
    match decode_header header_buf with
    | inr _ => handle_disconnect c
    | inl header =>
        let c := cset_activity now c in
        if is_keepalive header then client_read_header c
        else client_read_body (cset_body (resize (payload_size header) (body_buf c)) c)
    end.

(** [receive_queue.push]. *)
Definition receive_push (packet : bytes) c : ClientImpl :=
  if zlen (receive_queue c) <? RECEIVE_QUEUE_CAPACITY
  then cset_receive (receive_queue c ++ [packet]) c
  else ccount_dropped packet c.

(** The completion handler of [do_read_body]; [received] is what the read put in
    [body_buf]. *)
Definition client_on_body (ec : bool) (received : bytes) c : option ClientImpl :=
  let c := cset_read None c in
  if ec || cl_shutting_down c then Some (handle_disconnect c)
  else
    let c := cset_body (mkBuffer received (buf_capacity (body_buf c))) c in
    let body := buf_data (body_buf c) in
    let '(copy, st) := acquire t (zlen body) (cl_pools c) in
    let c := cset_pools st c in
    packet ← memcpy (buf_data copy) 0 body (length body);
    if cl_shutting_down c then Some c
    else Some (client_read_header (receive_push packet (log_in packet c))).

Definition client_write c : ClientImpl :=
  match write_queue c with
  | [] => cset_writing false c
  | front :: _ => c |> cset_writing true |> cset_write true |> log_out (buf_data front)
  end.

Definition client_release (frame : Buffer) c : ClientImpl :=
  cset_pools (release client_pool t frame (cl_pools c)) c.

(** The completion handler of [do_write]. *)
Definition client_on_write (ec : bool) c : option ClientImpl :=
  match write_queue c with
  | [] => None
  | front :: rest =>
      let c := c |> cset_write false |> client_release front |> cset_queue rest in
      Some (if ec || cl_shutting_down c then handle_disconnect c else client_write c)
  end.

Definition client_enqueue_frame (frame : Buffer) c : ClientImpl :=
  if cl_shutting_down c || negb (connected c) then client_release frame c
  else
    let '(pushed, c) := enqueue_frame frame client_write MAX_PENDING_WRITE_FRAMES c in
    if negb pushed then c |> client_release frame |> handle_disconnect else c.

Definition client_start_heartbeat c : ClientImpl := cset_timer true c.

Definition client_send_keepalive c : option ClientImpl :=
  '(frame, st) ← build_keepalive_frame t (cl_pools c);
  Some (client_enqueue_frame frame (cset_pools st c)).

(** The completion handler of [start_heartbeat]. *)
Definition client_on_heartbeat (now : Z) (ec : bool) c : option ClientImpl :=
  let c := cset_timer false c in
  if ec then Some c
  else if HEARTBEAT_TIMEOUT <=? now - last_activity c then Some (handle_disconnect c)
  else c ← client_send_keepalive c; Some (client_start_heartbeat c).

(** A function posted to [io]. *)
Definition run_posted (task : ClientTask) c : ClientImpl :=
  match task with
  | PostedFrame frame =>
      if cl_shutting_down c then client_release frame c else client_enqueue_frame frame c
  | PostedClose => close_socket (cset_connected false c)
  end.
End Handlers.

(** ** The public interface, called by the game thread *)

Section Interface.
Context `{VectorAlloc} (t : ThreadId).
Implicit Types (c : ClientImpl).

Definition start_io c : ClientImpl := c |> client_read_header |> client_start_heartbeat.

(** The client once [connect] has succeeded, at time [now]. *)
Definition client_create (now : Z) : ClientImpl :=
  start_io (mkClientImpl true false [] 0 [] false (reserve MAX_PAYLOAD_SIZE vector_empty) now true
              None false false [] false ∅ [] [] []).

Definition client_update c : ClientImpl := c.

Definition client_poll_packet c : option (bytes * ClientImpl) :=
  match receive_queue c with
  | [] => None
  | data :: rest => Some (data, cset_receive rest c)
  end.

Definition client_dropped_packet_count c : Z := cl_dropped_packets c.

Definition client_send (data : bytes) c : option ClientImpl :=
  if (zlen data =? 0) || (MAX_PAYLOAD_SIZE <? zlen data) then Some c
  else if negb (connected c) then Some c
  else if cl_shutting_down c then Some c
  else
    '(frame, st) ← build_data_frame t data (cl_pools c);
    let c := cset_pools st c in
    if buf_empty frame then Some c else Some (cset_posted (io_posted c ++ [PostedFrame frame]) c).

Definition is_connected c : bool := connected c.

(** [Impl::shutdown] up to the wait, and after it. *)
Definition client_shutdown c : ClientImpl :=
  if cl_shutting_down c then c
  else cset_posted (io_posted c ++ [PostedClose]) (cset_shutting c).

Definition client_shutdown_finish c : ClientImpl := cset_stopped c.

(** The other branch: the I/O thread was never started. *)
Definition client_shutdown_idle c : ClientImpl :=
  if cl_shutting_down c then c
  else c |> cset_shutting |> cset_connected false |> close_socket |> client_shutdown_finish.

(** The loop of [Impl::~Impl], with the payloads it deletes; [fuel] bounds its
    iterations. *)
Fixpoint delete_received (fuel : nat) c : option (list bytes * ClientImpl) :=
  match fuel with
  | O => None
  | S fuel =>
      match receive_queue c with
      | [] => Some ([], c)
      | ptr :: rest =>
          '(deleted, c) ← delete_received fuel (cset_receive rest c);
          Some (ptr :: deleted, c)
      end
  end.

(** [Impl::~Impl].  [Client::~Client] has shut the client down before, unless
    [create] failed. *)
Definition client_destroy c : option (list bytes * ClientImpl) :=
  delete_received (S (length (receive_queue c))) (client_shutdown_idle c).
End Interface.

(** [Client::create].  The resolver, [asio::connect] and [set_option] are
    parameters: endpoints or a message, and [Some message] for an error. *)
Section Create.
Context {Endpoints : Type} (resolve : string → string → expected Endpoints string).
Context (asio_connect : Endpoints → option string) (set_no_delay : option string).

Definition connect (host : string) (port : Z) : expected unit string :=
  match resolve host (pretty port) with
  | inr message => inr ("[에러] 주소 해석 실패: " ++ message)%string
  | inl endpoints =>
      match asio_connect endpoints with
      | Some message => inr ("[에러] 서버 연결 실패: " ++ message)%string
      | None =>
          match set_no_delay with
          | Some message => inr ("[에러] TCP_NODELAY 설정 실패: " ++ message)%string
          | None => inl ()
          end
      end
  end.

Definition create `{VectorAlloc} (now : Z) (host : string) (port : Z) : expected ClientImpl string :=
  match connect host port with
  | inr error => inr error
  | inl _ => inl (client_create now)
  end.
End Create.

(** ** Runs *)

Inductive ClientInput :=
  | ClHeader (now : Z) (ec : bool) (header : bytes)
  | ClBody (ec : bool) (received : bytes)
  | ClWritten (ec : bool)
  | ClTimer (now : Z) (ec : bool)
  | ClPosted (k : nat)
  | ClPoll
  | ClSend (data : bytes)
  | ClShutdown
  | ClFinish.

Definition client_enabled (i : ClientInput) (c : ClientImpl) : Prop :=
  match i with
  | ClHeader _ ec h =>
      io_stopped c = false ∧ cl_read_op c = Some ReadHeader
      ∧ (ec = false → zlen h = HEADER_SIZE ∧ wf_bytes h)
  | ClBody ec b =>
      io_stopped c = false ∧ cl_read_op c = Some ReadBody
      ∧ (ec = false → zlen b = zlen (buf_data (body_buf c)) ∧ wf_bytes b)
  | ClWritten _ => io_stopped c = false ∧ cl_write_op c = true
  | ClTimer _ _ => io_stopped c = false ∧ cl_timer_op c = true
  | ClPosted k => io_stopped c = false ∧ (k < length (io_posted c))%nat
  | ClFinish => cl_shutting_down c = true ∧ PostedClose ∉ io_posted c
  | ClPoll | ClSend _ | ClShutdown => True
  end.

Section Run.
Context `{VectorAlloc}.

(** The I/O thread is thread 1, the game thread thread 0. *)
Definition client_handle (i : ClientInput) (c : ClientImpl) : option ClientImpl :=
  match i with
  | ClHeader now ec h => Some (client_on_header now ec h c)
  | ClBody ec b => client_on_body 1 ec b c
  | ClWritten ec => client_on_write 1 ec c
  | ClTimer now ec => client_on_heartbeat 1 now ec c
  | ClPosted k =>
      task ← io_posted c !! k;
      Some (run_posted 1 task (cset_posted (delete k (io_posted c)) c))
  | ClPoll => Some (from_option snd c (client_poll_packet c))
  | ClSend data => client_send 0 data c
  | ClShutdown => Some (client_shutdown c)
  | ClFinish => Some (client_shutdown_finish c)
  end.

(** What a poll gives the game thread. *)
Definition polled_by (i : ClientInput) (c : ClientImpl) : list bytes :=
  match i with
  | ClPoll => match client_poll_packet c with Some (p, _) => [p] | None => [] end
  | _ => []
  end.

(** A run: its inputs, oldest first, and the payloads polled. *)
Inductive client_steps (c0 : ClientImpl) : list ClientInput → list bytes → ClientImpl → Prop :=
  | client_refl : client_steps c0 [] [] c0
  | client_snoc ins ps i c c' :
      client_steps c0 ins ps c → client_enabled i c → client_handle i c = Some c' →
      client_steps c0 (ins ++ [i]) (ps ++ polled_by i c) c'.

Definition client_run (now0 : Z) : list ClientInput → list bytes → ClientImpl → Prop :=
  client_steps (client_create now0).
End Run.

(** The interface the chat client uses. *)
#[export] Instance client_transport `{VectorAlloc} : ClientTransport ClientImpl := {
  cl_update := client_update;
  cl_is_connected := is_connected;
  cl_poll_packet := client_poll_packet;
  cl_send data c := default c (client_send 0 data c);
  cl_pending := receive_queue;
}.

#[export] Instance client_transport_spec `{VectorAlloc} : ClientTransportSpec ClientImpl.
Proof.
  split. intros c. simpl. unfold client_poll_packet.
  destruct (receive_queue c) as [|p q]; [done|]. by exists (cset_receive q c).
Qed.
