(* ===== verification/ClientProperties.v ===== *)
(** * Properties of the transport client

    The invariant of a connection ([client_inv]) and its consequences: handlers
    never fail, a connection that is lost stays lost, received payloads reach
    the game thread in order, the frames of what the game thread sends are all
    written while the connection is up, and a byte stream made of frames is read
    back payload by payload. *)

From S2P Require Import Prelude Protocol BufferPool TransportDetail ChatProtocolClient Session Client.

Definition received_ok (p : bytes) : Prop := 1 ≤ zlen p ≤ MAX_PAYLOAD_SIZE ∧ wf_bytes p.

Record client_inv (c : ClientImpl) : Prop := {
  ci_pools : pool_wf (cl_pools c);
  ci_queue : zlen (write_queue c) ≤ MAX_PENDING_WRITE_FRAMES;
  ci_body : zlen (buf_data (body_buf c)) ≤ MAX_PAYLOAD_SIZE;
  ci_reading : cl_read_op c = Some ReadBody → 1 ≤ zlen (buf_data (body_buf c));
  ci_op : cl_write_op c = true → write_queue c ≠ [];
  ci_open : connected c = true →
    cl_write_op c = writing c ∧ (writing c = false ↔ write_queue c = []);
  ci_socket : cl_socket_open c = connected c;
  ci_receive : zlen (receive_queue c) ≤ RECEIVE_QUEUE_CAPACITY;
  ci_in : Forall received_ok (frames_in c);
  ci_dropped : cl_dropped_packets c = to_u64 (zlen (lost c));
}.

(** The same but for the writing side, which handlers break for a moment. *)
Record client_base (c : ClientImpl) : Prop := {
  cb_pools : pool_wf (cl_pools c);
  cb_queue : zlen (write_queue c) ≤ MAX_PENDING_WRITE_FRAMES;
  cb_body : zlen (buf_data (body_buf c)) ≤ MAX_PAYLOAD_SIZE;
  cb_reading : cl_read_op c = Some ReadBody → 1 ≤ zlen (buf_data (body_buf c));
  cb_socket : cl_socket_open c = connected c;
  cb_receive : zlen (receive_queue c) ≤ RECEIVE_QUEUE_CAPACITY;
  cb_in : Forall received_ok (frames_in c);
  cb_dropped : cl_dropped_packets c = to_u64 (zlen (lost c));
}.

(** A change of fields the invariant does not constrain. *)
Ltac client_fields :=
  let Hc := fresh in
  intros Hc; destruct Hc; split; simpl; first [done | assumption | intros; simplify_eq; done | auto].

Section Invariant.
Context `{VectorAlloc} (t : ThreadId).
Implicit Types (c : ClientImpl).

Lemma inv_base c : client_inv c → client_base c.
Proof. by intros []; split. Qed.

Lemma cinv_disconnect c : client_inv c → client_inv (handle_disconnect c).
Proof. unfold handle_disconnect. destruct (connected c); [client_fields|done]. Qed.

(** With the writing side broken, a disconnect needs the write finished. *)
Lemma base_disconnect c :
  client_base c → cl_write_op c = false → client_inv (handle_disconnect c).
Proof.
  unfold handle_disconnect. intros [] Hop. destruct (connected c) eqn:Hc; simpl;
    split; simpl; try done; rewrite ?Hop; first [done | congruence].
Qed.

Lemma cinv_write c : client_base c → cl_write_op c = false → client_inv (client_write c).
Proof.
  intros [] Hop. unfold client_write. destruct (write_queue c) as [|f q] eqn:Hq;
    split; simpl; rewrite ?Hq; try done; rewrite ?Hop; congruence.
Qed.

Lemma cinv_pools st c : client_inv c → pool_wf st → client_inv (cset_pools st c).
Proof. intros [] Hst. by split. Qed.

Lemma cinv_release f c : client_inv c → client_inv (client_release t f c).
Proof. intros Hc. apply cinv_pools; [done|]. apply release_pool_wf, Hc. Qed.

Lemma cinv_enqueue f c : client_inv c → client_inv (client_enqueue_frame t f c).
Proof.
  intros Hc. unfold client_enqueue_frame, enqueue_frame.
  destruct (cl_shutting_down c); [by apply cinv_release|].
  destruct (connected c) eqn:Hcon; [|by apply cinv_release]. simpl.
  destruct (Z.leb_spec MAX_PENDING_WRITE_FRAMES (zlen (write_queue c))) as [Hf|Hroom]; simpl.
  { by apply cinv_disconnect, cinv_release. }
  destruct (ci_open c Hc Hcon) as [Heq Hiff].
  assert (client_base (cset_queue (write_queue c ++ [f]) c)) as Hb.
  { destruct Hc. split; simpl; try done. rewrite zlen_app. change (zlen [f]) with 1. lia. }
  destruct (writing c) eqn:Hw; simpl.
  - destruct Hb, Hc. split; simpl; try done; rewrite ?Hw.
    + intros _. by destruct (write_queue c).
    + intros _. split; [done|]. by destruct (write_queue c).
  - by apply cinv_write.
Qed.

Lemma cinv_read o c :
  client_inv c → (o = Some ReadBody → 1 ≤ zlen (buf_data (body_buf c))) →
  client_inv (cset_read o c).
Proof. intros [] Ho. by split. Qed.

Lemma cinv_body b c :
  client_inv c → 1 ≤ zlen (buf_data b) ≤ MAX_PAYLOAD_SIZE → client_inv (cset_body b c).
Proof. intros [] Hb. split; simpl; try done; lia. Qed.

Lemma cinv_timer b c : client_inv c → client_inv (cset_timer b c).
Proof. client_fields. Qed.

Lemma cinv_header now ec h c :
  client_inv c → (ec = false → zlen h = HEADER_SIZE ∧ wf_bytes h) →
  client_inv (client_on_header now ec h c).
Proof.
  intros Hc Hh. unfold client_on_header. apply (cinv_read None) in Hc; [|done].
  destruct ec; [by apply cinv_disconnect|]. destruct (Hh eq_refl) as [Hlen Hb]. cbn [orb].
  destruct (cl_shutting_down _); [by apply cinv_disconnect|].
  destruct (decode_header h) as [hd|] eqn:Hd; [|by apply cinv_disconnect].
  assert (client_inv (cset_activity now (cset_read None c))) as Hc1
    by (revert Hc; client_fields).
  destruct (is_keepalive hd) eqn:Hk; [by apply cinv_read|].
  pose proof (decode_header_size h hd Hlen Hb Hd Hk) as Hsize.
  assert (zlen (buf_data (resize (payload_size hd) (body_buf c))) = payload_size hd) as Hr
    by (apply length_resize; lia).
  apply cinv_read; [|intros _; cbn -[resize]; rewrite Hr; lia].
  apply cinv_body; [done|]. cbn -[resize]. rewrite Hr. lia.
Qed.

Lemma cinv_push p c : client_inv c → client_inv (receive_push p c).
Proof.
  intros []. unfold receive_push.
  destruct (Z.ltb_spec (zlen (receive_queue c)) RECEIVE_QUEUE_CAPACITY); split; simpl; try done.
  - rewrite zlen_app. change (zlen [p]) with 1. lia.
  - rewrite zlen_app, ci_dropped0. change (zlen [p]) with 1. unfold wrap.
    by rewrite Zplus_mod_idemp_l.
Qed.

(** A complete body is delivered as it was received, and the next header is
    awaited. *)
Lemma client_on_body_spec b c :
  pool_wf (cl_pools c) → zlen b ≤ MAX_PAYLOAD_SIZE → cl_shutting_down c = false →
  ∃ st, pool_wf st ∧ client_on_body t false b c
    = Some (client_read_header (receive_push b (log_in b (cset_pools st
        (cset_body (mkBuffer b (buf_capacity (body_buf c))) (cset_read None c)))))).
Proof.
  intros Hst Hb Hs. unfold client_on_body. simpl. rewrite Hs. pose proof (zlen_nonneg b).
  destruct (acquire_spec t (zlen b) (cl_pools c) Hst) as (cap & st & -> & Hst').
  { unfold BLOCK_SIZE, HEADER_SIZE. lia. }
  exists st. split; [done|]. simpl. rewrite memcpy_all by (unfold zlen; lia). by simpl.
Qed.

Lemma cinv_on_body ec b c :
  client_inv c → cl_read_op c = Some ReadBody →
  (ec = false → zlen b = zlen (buf_data (body_buf c)) ∧ wf_bytes b) →
  ∃ c', client_on_body t ec b c = Some c' ∧ client_inv c'.
Proof.
  intros Hc Hop Hb. destruct (ec || cl_shutting_down c) eqn:Hbad.
  { unfold client_on_body. simpl. rewrite Hbad. eexists. split; [done|].
    apply cinv_disconnect. by apply cinv_read. }
  apply orb_false_iff in Hbad as [-> Hs]. destruct (Hb eq_refl) as [Hlen Hbytes].
  pose proof (ci_body c Hc) as Hmax. pose proof (ci_reading c Hc Hop) as Hmin.
  destruct (client_on_body_spec b c (ci_pools c Hc)) as (st & Hst & ->); [lia|done|].
  eexists. split; [done|]. apply cinv_read; [|done]. apply cinv_push.
  destruct Hc. split; simpl; try done; [lia|].
  apply Forall_app. split; [done|]. apply Forall_singleton. split; [lia|done].
Qed.

Lemma cinv_on_write ec c :
  client_inv c → cl_write_op c = true → ∃ c', client_on_write t ec c = Some c' ∧ client_inv c'.
Proof.
  intros Hc Hop. pose proof (ci_op c Hc Hop) as Hne. unfold client_on_write.
  destruct (write_queue c) as [|f q] eqn:Hq; [done|]. eexists. split; [done|].
  set (c1 := cset_queue q _).
  assert (client_base c1 ∧ cl_write_op c1 = false) as [Hb Hno].
  { split; [|done]. destruct Hc. split; simpl; try done; [by apply release_pool_wf|].
    rewrite Hq in *. unfold zlen in *. simpl in *. lia. }
  clearbody c1. destruct (_ || _); [by apply base_disconnect|by apply cinv_write].
Qed.

Lemma client_keepalive_spec c :
  client_inv c → ∃ cap st, pool_wf st ∧ client_send_keepalive t c
    = Some (client_enqueue_frame t (mkBuffer (header_bytes FLAG_KEEPALIVE 0) cap) (cset_pools st c)).
Proof.
  intros Hc. unfold client_send_keepalive, build_keepalive_frame.
  destruct (build_frame_spec t FLAG_KEEPALIVE [] (cl_pools c)) as (cap & st & -> & Hst);
    [apply Hc|done|]. by exists cap, st.
Qed.

Lemma cinv_heartbeat now ec c :
  client_inv c → ∃ c', client_on_heartbeat t now ec c = Some c' ∧ client_inv c'.
Proof.
  intros Hc. unfold client_on_heartbeat. apply (cinv_timer false) in Hc.
  destruct ec; [by eexists|]. destruct (_ <=? _).
  { eexists. split; [done|]. by apply cinv_disconnect. }
  destruct (client_keepalive_spec _ Hc) as (cap & st & Hst & ->).
  eexists. split; [done|]. by apply cinv_timer, cinv_enqueue, cinv_pools.
Qed.

Lemma cinv_posted_task task c : client_inv c → client_inv (run_posted t task c).
Proof.
  intros Hc. destruct task as [f|]; simpl.
  - destruct (cl_shutting_down c); [by apply cinv_release|by apply cinv_enqueue].
  - revert Hc. client_fields.
Qed.
End Invariant.

Section Steps.
Context `{VectorAlloc}.
Implicit Types (c : ClientImpl).

Lemma client_send_spec t data c :
  pool_wf (cl_pools c) →
  ∃ cap st, pool_wf st ∧ client_send t data c
    = Some (if sendable data && connected c && negb (cl_shutting_down c)
            then cset_posted (io_posted c ++ [PostedFrame (mkBuffer (data_frame data) cap)])
                   (cset_pools st c)
            else c).
Proof.
  intros Hst. unfold client_send. destruct (sendable data) eqn:Hp;
    unfold sendable in Hp; [apply negb_true_iff in Hp|apply negb_false_iff in Hp]; rewrite Hp.
  2:{ by exists 0, ∅; split; auto with night. }
  destruct (connected c); simpl; [|by exists 0, ∅; split; auto with night].
  destruct (cl_shutting_down c); simpl; [by exists 0, ∅; split; auto with night|].
  destruct (build_data_spec t data _ Hst) as (cap & st & -> & Hst'); [by apply negb_true_iff|].
  exists cap, st. by split.
Qed.

Lemma cinv_set_posted q c : client_inv c → client_inv (cset_posted q c).
Proof. client_fields. Qed.

Lemma client_handle_ok i c :
  client_inv c → client_enabled i c → ∃ c', client_handle i c = Some c' ∧ client_inv c'.
Proof.
  intros Hc Hen. destruct i as [now ec h|ec b|ec|now ec|k| |data| |]; simpl in Hen |- *.
  - eexists. split; [done|]. apply cinv_header; [done|]. apply Hen.
  - destruct Hen as (_ & Hop & Hb). by apply cinv_on_body.
  - destruct Hen as [_ Hop]. by apply cinv_on_write.
  - by apply cinv_heartbeat.
  - destruct Hen as [_ Hk]. destruct (lookup_lt_is_Some_2 _ _ Hk) as [task Ht]. rewrite Ht. simpl.
    eexists. split; [done|]. by apply cinv_posted_task, cinv_set_posted.
  - eexists. split; [done|]. unfold client_poll_packet. destruct (receive_queue c) as [|p q] eqn:Hq;
      [done|]. simpl. destruct Hc. split; simpl; try done. rewrite Hq in *. unfold zlen in *.
    simpl in *. lia.
  - destruct (client_send_spec 0 data c (ci_pools c Hc)) as (cap & st & Hst & ->).
    eexists. split; [done|]. destruct (_ && _); [|done]. by apply cinv_set_posted, cinv_pools.
  - eexists. split; [done|]. unfold client_shutdown. destruct (cl_shutting_down c); [done|].
    apply cinv_set_posted. revert Hc. client_fields.
  - eexists. split; [done|]. revert Hc. client_fields.
Qed.

Lemma cinv_create now0 : client_inv (client_create now0).
Proof.
  split; simpl; try done. apply pool_wf_empty.
Qed.

Lemma csteps_inv c0 ins ps c : client_inv c0 → client_steps c0 ins ps c → client_inv c.
Proof.
  intros Hc0. induction 1 as [|ins ps i c c' _ IH Hen Heq]; [done|].
  destruct (client_handle_ok i c IH Hen) as (c2 & Heq2 & Hc2). congruence.
Qed.

Lemma crun_inv now0 ins ps c : client_run now0 ins ps c → client_inv c.
Proof. apply csteps_inv, cinv_create. Qed.

(** *** Received payloads *)

Lemma sublist_full {A} (l k : list A) :
  l `sublist_of` k → (length k ≤ length l)%nat → l = k.
Proof.
  induction 1 as [|x l k _ IH|x l k Hsub _]; simpl; intros Hlen; [done| |].
  - f_equal. apply IH. lia.
  - apply sublist_length in Hsub. lia.
Qed.

(** [pre] has been polled: with the queue it is what was received, less what was
    lost, in order. *)
Definition receive_inv (pre : list bytes) c : Prop :=
  (pre ++ receive_queue c) `sublist_of` frames_in c
  ∧ length (frames_in c) = (length pre + length (receive_queue c) + length (lost c))%nat.

Lemma receive_frame pre c c' :
  receive_inv pre c → receive_queue c' = receive_queue c → frames_in c' = frames_in c →
  lost c' = lost c → receive_inv pre c'.
Proof. unfold receive_inv. by intros ? -> -> ->. Qed.

Lemma receive_pushed pre p c :
  receive_inv pre c → receive_inv pre (receive_push p (log_in p c)).
Proof.
  unfold receive_inv, receive_push. intros [Hsub Hlen]. destruct (_ <? _); simpl.
  - rewrite !length_app. simpl. split; [|lia]. rewrite app_assoc. by apply sublist_app.
  - rewrite !length_app. simpl. split; [|lia]. by apply sublist_inserts_r.
Qed.

(** What handlers of the writing side leave alone. *)
Lemma disconnect_same c :
  let c' := handle_disconnect c in
  receive_queue c' = receive_queue c ∧ frames_in c' = frames_in c ∧ lost c' = lost c
  ∧ frames_out c' = frames_out c ∧ write_queue c' = write_queue c
  ∧ cl_write_op c' = cl_write_op c ∧ io_posted c' = io_posted c
  ∧ cl_shutting_down c' = cl_shutting_down c ∧ connected c' = false.
Proof. unfold handle_disconnect. by destruct (connected c) eqn:E; simpl. Qed.

Lemma write_same c :
  let c' := client_write c in
  receive_queue c' = receive_queue c ∧ frames_in c' = frames_in c ∧ lost c' = lost c
  ∧ write_queue c' = write_queue c ∧ io_posted c' = io_posted c
  ∧ cl_shutting_down c' = cl_shutting_down c ∧ connected c' = connected c.
Proof. unfold client_write. by destruct (write_queue c) eqn:E; simpl; rewrite ?E. Qed.

Lemma enqueue_same t f c :
  let c' := client_enqueue_frame t f c in
  receive_queue c' = receive_queue c ∧ frames_in c' = frames_in c ∧ lost c' = lost c
  ∧ io_posted c' = io_posted c ∧ cl_shutting_down c' = cl_shutting_down c
  ∧ (connected c' = true → connected c = true).
Proof.
  unfold client_enqueue_frame, enqueue_frame. destruct (_ || _) eqn:E; [done|].
  apply orb_false_iff in E as [E1 E2]. destruct (_ && _); simpl.
  - destruct (disconnect_same (client_release t f c)) as (H1 & H2 & H3 & _ & _ & _ & H4 & H5 & H6).
    split_and!; try done. intros _. by apply negb_false_iff.
  - destruct (negb (writing c)); simpl; [|done].
    destruct (write_same (cset_queue (write_queue c ++ [f]) c)) as (? & ? & ? & _ & ? & ? & ?).
    split_and!; try done. intros _. by apply negb_false_iff.
Qed.
End Steps.

(** *** What is written *)

Definition cwaiting (c : ClientImpl) : list bytes :=
  buf_data <$> (if cl_write_op c then tail (write_queue c) else write_queue c).

(** Frames handed to the socket or waiting in the queue. *)
Definition cwritten (c : ClientImpl) : list bytes := frames_out c ++ cwaiting c.

Definition cposted (tasks : list ClientTask) : list bytes :=
  omap (λ task, match task with PostedFrame f => Some (buf_data f) | PostedClose => None end) tasks.

(** The data frames on their way to the server, in order. *)
Definition client_pipeline (c : ClientImpl) : list bytes :=
  data_only (cwritten c ++ cposted (io_posted c)).

(** What an input asks for. *)
Definition crequested (ins : list ClientInput) : list bytes :=
  omap (λ i, match i with
             | ClSend data => if decide (sendable data = true) then Some (data_frame data) else None
             | _ => None
             end) ins.

(** The posted functions run in the order they were posted. *)
Definition in_order (i : ClientInput) : Prop :=
  match i with ClPosted k => k = 0%nat | _ => True end.

Section Written.
Context `{VectorAlloc}.
Implicit Types (c : ClientImpl).

Lemma cwritten_disconnect c : cwritten (handle_disconnect c) = cwritten c.
Proof.
  destruct (disconnect_same c) as (_ & _ & _ & H1 & H2 & H3 & _).
  unfold cwritten, cwaiting. by rewrite H1, H2, H3.
Qed.

Lemma cwritten_write c : cl_write_op c = false → cwritten (client_write c) = cwritten c.
Proof.
  intros Hno. unfold client_write, cwritten, cwaiting.
  destruct (write_queue c) as [|f q] eqn:Hq; simpl; rewrite ?Hq, Hno; [done|].
  by rewrite <-app_assoc.
Qed.

Lemma cwritten_enqueue t f c :
  client_inv c → connected (client_enqueue_frame t f c) = true → cl_shutting_down c = false →
  cwritten (client_enqueue_frame t f c) = cwritten c ++ [buf_data f].
Proof.
  intros Hc Hcon Hs. revert Hcon. unfold client_enqueue_frame, enqueue_frame. rewrite Hs.
  destruct (connected c) eqn:Hc0; simpl; [|by rewrite Hc0].
  destruct (Z.leb_spec MAX_PENDING_WRITE_FRAMES (zlen (write_queue c))); simpl.
  { intros Hcon. destruct (disconnect_same (client_release t f c)) as (_ & _ & _ & _ & _ & _ & _ & _ & Hd).
    congruence. }
  intros _. destruct (ci_open c Hc Hc0) as [Heq Hiff].
  assert (cwritten (cset_queue (write_queue c ++ [f]) c) = cwritten c ++ [buf_data f]) as Hpush.
  { unfold cwritten, cwaiting. simpl. rewrite <-app_assoc. f_equal.
    destruct (cl_write_op c) eqn:Ho; [|by rewrite fmap_app].
    pose proof (ci_op c Hc Ho). destruct (write_queue c); [done|]. simpl. by rewrite fmap_app. }
  destruct (writing c) eqn:Hw; simpl; [done|]. by rewrite cwritten_write.
Qed.

(** A connection that is up after a step was up before it. *)
Lemma connected_before i c c' :
  client_handle i c = Some c' → connected c' = true → connected c = true.
Proof.
  assert (∀ x, connected (handle_disconnect x) = true → connected c = true) as Hd.
  { intros x. by destruct (disconnect_same x) as (_ & _ & _ & _ & _ & _ & _ & _ & ->). }
  destruct i as [now ec h|ec b|ec|now ec|k| |data| |]; simpl; intros Heq Hcon.
  - injection Heq as <-. unfold client_on_header in Hcon. destruct (_ || _); [by eapply Hd|].
    destruct (decode_header h); [|by eapply Hd]. by destruct (is_keepalive _).
  - unfold client_on_body in Heq. destruct (_ || _); [injection Heq as <-; by eapply Hd|].
    destruct (acquire _ _ _). simpl in Heq. destruct (memcpy _ _ _ _); [|done]. simpl in Heq.
    destruct (cl_shutting_down c); simplify_eq; [done|]. unfold receive_push in Hcon.
    by destruct (_ <? _).
  - unfold client_on_write in Heq. destruct (write_queue c); [done|]. injection Heq as <-.
    destruct (_ || _); [by eapply Hd|].
    match type of Hcon with connected (client_write ?x) = _ =>
      destruct (write_same x) as (_ & _ & _ & _ & _ & _ & E) end. by rewrite E in Hcon.
  - unfold client_on_heartbeat in Heq. destruct ec; [by injection Heq as <-|].
    destruct (_ <=? _); [injection Heq as <-; by eapply Hd|].
    unfold client_send_keepalive in Heq. destruct (build_keepalive_frame _ _) as [[f st]|]; [|done].
    simpl in Heq. injection Heq as <-.
    destruct (enqueue_same 1 f (cset_pools st (cset_timer false c))) as (_ & _ & _ & _ & _ & E).
    by apply E in Hcon.
  - destruct (io_posted c !! k) as [[f|]|]; simpl in Heq; [|by injection Heq as <-|done].
    injection Heq as <-. destruct (cl_shutting_down c); [done|].
    destruct (enqueue_same 1 f (cset_posted (delete k (io_posted c)) c)) as (_ & _ & _ & _ & _ & E).
    by apply E in Hcon.
  - injection Heq as <-. unfold client_poll_packet in Hcon. by destruct (receive_queue c).
  - unfold client_send in Heq. destruct (_ || _); [by injection Heq as <-|].
    destruct (connected c) eqn:E; [done|]. by injection Heq as <-; rewrite E in Hcon.
  - injection Heq as <-. unfold client_shutdown in Hcon. by destruct (cl_shutting_down c).
  - by injection Heq as <-.
Qed.

(** A client that is shutting down stays so. *)
Lemma shutting_after i c c' :
  client_handle i c = Some c' → cl_shutting_down c = true → cl_shutting_down c' = true.
Proof.
  assert (∀ x, cl_shutting_down (handle_disconnect x) = cl_shutting_down x) as Hd
    by (intros x; by destruct (disconnect_same x) as (_ & _ & _ & _ & _ & _ & _ & -> & _)).
  assert (∀ f x, cl_shutting_down (client_enqueue_frame 1 f x) = cl_shutting_down x) as He
    by (intros f x; by destruct (enqueue_same 1 f x) as (_ & _ & _ & _ & -> & _)).
  destruct i as [now ec h|ec b|ec|now ec|k| |data| |]; simpl; intros Heq Hs.
  - injection Heq as <-. unfold client_on_header. simpl. rewrite Hs, orb_true_r. by rewrite Hd.
  - unfold client_on_body in Heq. simpl in Heq. rewrite Hs, orb_true_r in Heq.
    injection Heq as <-. by rewrite Hd.
  - unfold client_on_write in Heq. destruct (write_queue c); [done|]. injection Heq as <-. simpl.
    rewrite Hs, orb_true_r. by rewrite Hd.
  - unfold client_on_heartbeat in Heq. destruct ec; [by injection Heq as <-|].
    destruct (_ <=? _); [injection Heq as <-; by rewrite Hd|].
    unfold client_send_keepalive in Heq. destruct (build_keepalive_frame _ _) as [[f st]|]; [|done].
    simpl in Heq. injection Heq as <-. simpl. by rewrite He.
  - destruct (io_posted c !! k) as [[f|]|]; simpl in Heq; [|by injection Heq as <-|done].
    injection Heq as <-. by rewrite Hs.
  - injection Heq as <-. unfold client_poll_packet. by destruct (receive_queue c).
  - unfold client_send in Heq. rewrite Hs in Heq.
    by destruct (_ || _), (connected c); injection Heq as <-.
  - injection Heq as <-. unfold client_shutdown. by rewrite Hs.
  - by injection Heq as <-.
Qed.
End Written.

Section Accounts.
Context `{VectorAlloc}.
Implicit Types (c : ClientImpl).

Lemma receive_disconnect pre c : receive_inv pre c → receive_inv pre (handle_disconnect c).
Proof.
  destruct (disconnect_same c) as (H1 & H2 & H3 & _). intros Hr. by eapply receive_frame.
Qed.

Lemma receive_enqueue pre t f c :
  receive_inv pre c → receive_inv pre (client_enqueue_frame t f c).
Proof. destruct (enqueue_same t f c) as (H1 & H2 & H3 & _). intros Hr. by eapply receive_frame. Qed.

Lemma creceive_step pre i c c' :
  client_inv c → client_enabled i c → client_handle i c = Some c' →
  receive_inv pre c → receive_inv (pre ++ polled_by i c) c'.
Proof.
  intros Hc Hen Heq Hr.
  destruct i as [now ec h|ec b|ec|now ec|k| |data| |]; simpl in Heq |- *; rewrite ?app_nil_r.
  - injection Heq as <-. unfold client_on_header. destruct (_ || _); [by apply receive_disconnect|].
    destruct (decode_header h); [|by apply receive_disconnect]. by destruct (is_keepalive _).
  - destruct (ec || cl_shutting_down c) eqn:Hbad.
    { unfold client_on_body in Heq. simpl in Heq. rewrite Hbad in Heq. injection Heq as <-.
      by apply receive_disconnect. }
    apply orb_false_iff in Hbad as [-> Hs]. destruct Hen as (_ & Hop & Hb).
    destruct (Hb eq_refl) as [Hlen _]. pose proof (ci_body c Hc).
    destruct (client_on_body_spec 1 b c (ci_pools c Hc)) as (st & _ & E); [lia|done|].
    rewrite E in Heq. injection Heq as <-. by apply receive_pushed.
  - unfold client_on_write in Heq. destruct (write_queue c); [done|]. injection Heq as <-.
    destruct (_ || _); [by apply receive_disconnect|].
    match goal with |- receive_inv _ (client_write ?x) =>
      destruct (write_same x) as (H1 & H2 & H3 & _) end. by eapply receive_frame.
  - unfold client_on_heartbeat in Heq. destruct ec; [by injection Heq as <-|].
    destruct (_ <=? _); [injection Heq as <-; by apply receive_disconnect|].
    unfold client_send_keepalive in Heq. destruct (build_keepalive_frame _ _) as [[f st]|]; [|done].
    simpl in Heq. injection Heq as <-. by apply (receive_enqueue pre 1 f (cset_pools st (cset_timer false c))).
  - destruct (io_posted c !! k) as [[f|]|]; simpl in Heq; [|by injection Heq as <-|done].
    injection Heq as <-. destruct (cl_shutting_down c); [done|]. by apply receive_enqueue.
  - injection Heq as <-. unfold receive_inv, client_poll_packet in *.
    destruct (receive_queue c) as [|p q] eqn:Hq; simpl; [by rewrite app_nil_r, Hq|].
    destruct Hr as [Hsub Hlen]. rewrite <-app_assoc, !length_app. simpl in *. split; [done|lia].
  - destruct (client_send_spec 0 data c (ci_pools c Hc)) as (cap & st & _ & E).
    rewrite E in Heq. injection Heq as <-. by destruct (_ && _).
  - injection Heq as <-. unfold client_shutdown. by destruct (cl_shutting_down c).
  - by injection Heq as <-.
Qed.

Lemma crun_receive now0 ins ps c : client_run now0 ins ps c → receive_inv ps c.
Proof.
  intros Hrun. induction Hrun as [|ins ps i c c' Hrun IH Hen Heq]; [split; done|].
  apply creceive_step; [by eapply crun_inv|done..].
Qed.

(** *** Sends *)

Lemma cposted_delete tasks k f :
  tasks !! k = Some (PostedFrame f) →
  buf_data f :: cposted (delete k tasks) ≡ₚ cposted tasks
  ∧ (k = 0%nat → buf_data f :: cposted (delete k tasks) = cposted tasks).
Proof.
  unfold cposted. revert k. induction tasks as [|task tasks IH]; intros [|k] Hk; simplify_eq/=; [done|].
  split; [|done]. destruct (IH k Hk) as [IH1 _]. destruct task; csimpl; [|done].
  by rewrite <-IH1, Permutation_swap.
Qed.

Lemma data_only_perm fs gs : fs ≡ₚ gs → data_only fs ≡ₚ data_only gs.
Proof.
  unfold data_only. induction 1 as [|x l l' _ IH|x y l|l1 l2 l3 _ IH1 _ IH2]; simpl; [done|..].
  - destruct (bool_decide _); [by constructor|done].
  - destruct (bool_decide (x ≠ _)), (bool_decide (y ≠ _)); try done. constructor.
  - by etrans.
Qed.

Lemma cpipeline_eq c c' :
  cwritten c' = cwritten c → io_posted c' = io_posted c → client_pipeline c' = client_pipeline c.
Proof. unfold client_pipeline. by intros -> ->. Qed.

Lemma cpipeline_timer now ec c c' :
  client_inv c → client_on_heartbeat 1 now ec c = Some c' → connected c' = true →
  cl_shutting_down c = false → client_pipeline c' = client_pipeline c.
Proof.
  intros Hc Heq Hcon Hs. unfold client_on_heartbeat in Heq. apply (cinv_timer false) in Hc.
  destruct ec; [by injection Heq as <-|]. destruct (_ <=? _).
  { injection Heq as <-. destruct (disconnect_same (cset_timer false c))
      as (_ & _ & _ & _ & _ & _ & _ & _ & E). congruence. }
  destruct (client_keepalive_spec 1 _ Hc) as (cap & st & Hst & E). rewrite E in Heq.
  simpl in Heq. injection Heq as <-. set (frame := mkBuffer _ cap) in *.
  set (c1 := cset_pools st (cset_timer false c)) in *.
  assert (client_inv c1) as Hc1 by (by apply cinv_pools).
  pose proof (cwritten_enqueue 1 frame c1 Hc1 Hcon Hs) as Hw.
  destruct (enqueue_same 1 frame c1) as (_ & _ & _ & Hp & _).
  unfold client_pipeline. change (io_posted (client_start_heartbeat ?x)) with (io_posted x).
  change (cwritten (client_start_heartbeat ?x)) with (cwritten x).
  rewrite Hw, Hp, <-app_assoc, !data_only_app. by f_equal.
Qed.

Lemma cpipeline_posted k c c' :
  client_inv c → client_handle (ClPosted k) c = Some c' → connected c' = true →
  cl_shutting_down c = false →
  client_pipeline c' ≡ₚ client_pipeline c ∧ (k = 0%nat → client_pipeline c' = client_pipeline c).
Proof.
  intros Hc Heq Hcon Hs. simpl in Heq.
  destruct (io_posted c !! k) as [[f|]|] eqn:Hk; simpl in Heq; [| |done].
  2:{ injection Heq as <-. by simpl in Hcon. }
  rewrite Hs in Heq. injection Heq as <-. set (c1 := cset_posted _ c) in *.
  assert (client_inv c1) as Hc1 by (by apply cinv_set_posted).
  pose proof (cwritten_enqueue 1 f c1 Hc1 Hcon Hs) as Hw.
  destruct (enqueue_same 1 f c1) as (_ & _ & _ & Hp & _).
  destruct (cposted_delete _ _ _ Hk) as [Hperm Hfirst].
  unfold client_pipeline. rewrite Hw, Hp, <-app_assoc. simpl. split.
  - apply data_only_perm. by rewrite <-Hperm.
  - intros Hk0. by rewrite <-(Hfirst Hk0).
Qed.

Lemma cpipeline_other i c c' :
  client_inv c → client_enabled i c → client_handle i c = Some c' →
  connected c' = true → cl_shutting_down c' = false → cl_shutting_down c = false →
  (∀ k, i ≠ ClPosted k) → client_pipeline c' = client_pipeline c ++ crequested [i].
Proof.
  intros Hc Hen Heq Hcon Hs' Hs Hk. pose proof (connected_before i c c' Heq Hcon) as Hc0.
  assert (∀ x, connected (handle_disconnect x) ≠ true) as Hd.
  { intros x. destruct (disconnect_same x) as (_ & _ & _ & _ & _ & _ & _ & _ & ->). done. }
  destruct i as [now ec h|ec b|ec|now ec|k| |data| |]; cbn in Heq;
    try (change (crequested [_]) with (@nil bytes); rewrite app_nil_r).
  - injection Heq as <-. unfold client_on_header in *. destruct (_ || _); [by destruct (Hd _ Hcon)|].
    destruct (decode_header h); [|by destruct (Hd _ Hcon)]. by destruct (is_keepalive _).
  - unfold client_on_body in Heq. destruct (_ || _); [injection Heq as <-; by destruct (Hd _ Hcon)|].
    destruct (acquire _ _ _). simpl in Heq. destruct (memcpy _ _ _ _); [|done]. simpl in Heq.
    rewrite Hs in Heq. injection Heq as <-. unfold receive_push. by destruct (_ <? _).
  - unfold client_on_write in Heq. destruct (write_queue c) as [|f q] eqn:Hq; [done|].
    injection Heq as <-. destruct (_ || _); [by destruct (Hd _ Hcon)|].
    set (c1 := cset_queue q _). destruct (write_same c1) as (_ & _ & _ & _ & Hp & _).
    apply cpipeline_eq; [|by rewrite Hp]. rewrite cwritten_write by done.
    destruct Hen as [_ Hop]. unfold cwritten, cwaiting. simpl. by rewrite Hop, Hq.
  - by apply (cpipeline_timer now ec).
  - by destruct (Hk k).
  - injection Heq as <-. unfold client_poll_packet. by destruct (receive_queue c).
  - destruct (client_send_spec 0 data c (ci_pools c Hc)) as (cap & st & _ & E).
    rewrite E in Heq. injection Heq as <-. unfold crequested. csimpl. rewrite Hs, Hc0.
    destruct (sendable data); simpl; [|by rewrite app_nil_r]. unfold client_pipeline. simpl. unfold cposted.
    by rewrite omap_app, app_assoc, data_only_app.
  - injection Heq as <-. unfold client_shutdown in Hs'. by rewrite Hs in Hs'.
  - by injection Heq as <-.
Qed.

Lemma cpipeline_step i c c' :
  client_inv c → client_enabled i c → client_handle i c = Some c' →
  connected c' = true → cl_shutting_down c' = false →
  client_pipeline c' ≡ₚ client_pipeline c ++ crequested [i]
  ∧ (in_order i → client_pipeline c' = client_pipeline c ++ crequested [i]).
Proof.
  intros Hc Hen Heq Hcon Hs'.
  assert (cl_shutting_down c = false) as Hs.
  { destruct (cl_shutting_down c) eqn:E; [|done].
    by rewrite (shutting_after i c c' Heq E) in Hs'. }
  assert ((∃ k, i = ClPosted k) ∨ ∀ k, i ≠ ClPosted k) as [[k ->]|Hk].
  { destruct i; try (by right). left. eauto. }
  - change (crequested [ClPosted k]) with (@nil bytes). rewrite app_nil_r.
    by apply cpipeline_posted.
  - by rewrite (cpipeline_other i c c').
Qed.

Lemma crequested_app ins1 ins2 : crequested (ins1 ++ ins2) = crequested ins1 ++ crequested ins2.
Proof. apply omap_app. Qed.

Lemma csteps_pipeline c0 ins ps c :
  client_inv c0 → client_steps c0 ins ps c → connected c = true → cl_shutting_down c = false →
  client_pipeline c ≡ₚ client_pipeline c0 ++ crequested ins
  ∧ (Forall in_order ins → client_pipeline c = client_pipeline c0 ++ crequested ins).
Proof.
  intros Hc0 Hst. induction Hst as [|ins ps i c c' Hst IH Hen Heq]; intros Hcon Hs.
  { by rewrite app_nil_r. }
  pose proof (csteps_inv c0 ins ps c Hc0 Hst) as Hc.
  pose proof (connected_before i c c' Heq Hcon) as Hcon1.
  assert (cl_shutting_down c = false) as Hs1.
  { destruct (cl_shutting_down c) eqn:E; [|done]. by rewrite (shutting_after i c c' Heq E) in Hs. }
  destruct (IH Hcon1 Hs1) as [Hp Ho].
  destruct (cpipeline_step i c c' Hc Hen Heq Hcon Hs) as [Hp1 Ho1].
  rewrite crequested_app, app_assoc. split; [by rewrite Hp1, Hp|].
  intros [Hall [Hi _]%Forall_cons]%Forall_app. by rewrite Ho1, Ho.
Qed.
End Accounts.

(** ** Reading a byte stream *)

Section Stream.
Context `{VectorAlloc}.
Implicit Types (c : ClientImpl).

(** The read chain on the bytes that have arrived, as [Session.feed]. *)
Fixpoint client_feed (fuel : nat) (now : Z) (bs : bytes) c : option (ClientImpl * bytes) :=
  match fuel with
  | O => Some (c, bs)
  | S fuel =>
      match cl_read_op c with
      | None => Some (c, bs)
      | Some ReadHeader =>
          if zlen bs <? HEADER_SIZE then Some (c, bs)
          else client_feed fuel now (drop (Z.to_nat HEADER_SIZE) bs)
                 (client_on_header now false (take (Z.to_nat HEADER_SIZE) bs) c)
      | Some ReadBody =>
          let n := zlen (buf_data (body_buf c)) in
          if zlen bs <? n then Some (c, bs)
          else
            c ← client_on_body 1 false (take (Z.to_nat n) bs) c;
            client_feed fuel now (drop (Z.to_nat n) bs) c
      end
  end.

Lemma client_data_header now n c :
  1 ≤ n ≤ MAX_PAYLOAD_SIZE → cl_shutting_down c = false →
  client_on_header now false (header_bytes 0 n) c
  = client_read_body (cset_body (resize n (body_buf c)) (cset_activity now (cset_read None c))).
Proof.
  unfold MAX_PAYLOAD_SIZE. intros Hn Hs. unfold client_on_header.
  change (cl_shutting_down (cset_read None c)) with (cl_shutting_down c). rewrite Hs. cbn [orb].
  rewrite <-(app_nil_r (header_bytes 0 n)), decode_header_bytes by (unfold in_range; lia).
  rewrite decide_True; [done|]. do 2 (split; [done|]). left. simpl. unfold MAX_PAYLOAD_SIZE. lia.
Qed.

Lemma client_keepalive_header now c :
  cl_shutting_down c = false →
  client_on_header now false (header_bytes FLAG_KEEPALIVE 0) c
  = client_read_header (cset_activity now (cset_read None c)).
Proof.
  intros Hs. unfold client_on_header.
  change (cl_shutting_down (cset_read None c)) with (cl_shutting_down c). rewrite Hs. cbn [orb].
  rewrite <-(app_nil_r (header_bytes FLAG_KEEPALIVE 0)), decode_header_bytes by done.
  by rewrite decide_True by (by vm_compute; auto).
Qed.

Lemma client_feed_header fuel now f n rest c :
  cl_read_op c = Some ReadHeader →
  client_feed (S fuel) now (header_bytes f n ++ rest) c
  = client_feed fuel now rest (client_on_header now false (header_bytes f n) c).
Proof.
  intros Hop. cbn [client_feed]. rewrite Hop. unfold zlen. rewrite length_app, length_header_bytes.
  destruct (Z.ltb_spec (Z.of_nat (8 + length rest)) HEADER_SIZE); [unfold HEADER_SIZE in *; lia|].
  change (Z.to_nat HEADER_SIZE) with 8%nat.
  by rewrite take_app_length', drop_app_length' by done.
Qed.

Lemma client_feed_body fuel now p rest c :
  cl_read_op c = Some ReadBody → zlen (buf_data (body_buf c)) = zlen p →
  client_feed (S fuel) now (p ++ rest) c
  = c' ← client_on_body 1 false p c; client_feed fuel now rest c'.
Proof.
  intros Hop Hlen. cbn [client_feed]. rewrite Hop, Hlen, zlen_app. pose proof (zlen_nonneg rest).
  destruct (Z.ltb_spec (zlen p + zlen rest) (zlen p)); [lia|].
  replace (Z.to_nat (zlen p)) with (length p) by (unfold zlen; lia).
  by rewrite take_app_length, drop_app_length.
Qed.

(** A client waiting for a header, [n] free places in its receive queue. *)
Record client_awaiting (n : nat) c : Prop := {
  ca_pools : pool_wf (cl_pools c);
  ca_read : cl_read_op c = Some ReadHeader;
  ca_up : cl_shutting_down c = false;
  ca_room : zlen (receive_queue c) + Z.of_nat n ≤ RECEIVE_QUEUE_CAPACITY;
}.

(** What reading frames leaves alone. *)
Definition same_output c c' : Prop :=
  connected c' = connected c ∧ cwritten c' = cwritten c ∧ io_posted c' = io_posted c
  ∧ lost c' = lost c.

Lemma client_feed_frame fuel now o bs rest n c :
  client_awaiting (S n) c → wire_frame o bs →
  ∃ fuel' c', client_feed (S (S fuel)) now (bs ++ rest) c = client_feed fuel' now rest c'
    ∧ (fuel ≤ fuel')%nat ∧ client_awaiting n c'
    ∧ receive_queue c' = receive_queue c ++ from_option (λ p, [p]) [] o ∧ same_output c c'.
Proof.
  intros [Hst Hop Hs Hroom] Hframe. apply wire_frame_bytes in Hframe as [-> Ho].
  destruct o as [p|].
  - destruct Ho as [Hp _]. rewrite <-app_assoc, client_feed_header, client_data_header by done.
    rewrite client_feed_body; [|done|by apply length_resize; lia].
    match goal with |- context [client_on_body 1 false p ?x] =>
      destruct (client_on_body_spec 1 p x) as (st & Hst' & ->); [exact Hst|lia|exact Hs|] end.
    simpl. eexists fuel, _. split; [done|]. split; [done|]. unfold receive_push. simpl.
    destruct (Z.ltb_spec (zlen (receive_queue c)) RECEIVE_QUEUE_CAPACITY); [|lia].
    split; [|done]. split; simpl; try done. rewrite zlen_app. change (zlen [p]) with 1. lia.
  - rewrite client_feed_header, client_keepalive_header by done.
    eexists (S fuel), _. split; [done|]. split; [lia|]. simpl. rewrite app_nil_r.
    split; [|done]. split; simpl; try done. lia.
Qed.

Lemma client_feed_frames now items frames c :
  client_awaiting (length frames) c → Forall2 wire_frame items frames →
  ∀ fuel, (2 * length frames ≤ fuel)%nat →
  ∃ c', client_feed fuel now (mjoin frames) c = Some (c', []) ∧ client_awaiting 0 c'
    ∧ receive_queue c' = receive_queue c ++ omap (λ o : option bytes, o) items
    ∧ same_output c c'.
Proof.
  intros Hc Hframes. revert c Hc.
  induction Hframes as [|o bs items frames Hframe _ IH]; intros c Hc fuel Hfuel.
  - exists c. split_and!; try done; [|by rewrite app_nil_r].
    destruct fuel; simpl; [done|]. by rewrite (ca_read _ _ Hc).
  - destruct fuel as [|[|fuel]]; simpl in Hfuel; [lia..|]. simpl mjoin.
    destruct (client_feed_frame fuel now o bs (mjoin frames) _ c Hc Hframe)
      as (fuel' & c1 & -> & Hle & Hc1 & Hq1 & Hs1).
    destruct (IH c1 Hc1 fuel') as (c2 & -> & Hc2 & Hq2 & Hs2); [lia|].
    exists c2. split_and!; try done.
    + rewrite Hq2, Hq1, <-app_assoc. by destruct o.
    + unfold same_output in *. destruct Hs1 as (? & ? & ? & ?), Hs2 as (? & ? & ? & ?).
      split_and!; congruence.
Qed.
End Stream.

(** ** The properties *)

(** C16. Safety of the client.  In every reachable state, in any interleaving of
    completions, posted functions and calls: whatever can happen next is handled
    without touching memory outside a buffer, the socket is open exactly while
    the client is connected, a connection that is lost stays lost, the queues
    keep their bounds (4096 payloads, 1024 frames), the payloads polled and
    waiting are payloads received of 1 to 2048 bytes, in order, all of them unless
    the receive queue was full, and [dropped_packet_count] counts those lost. *)
Theorem client_safe `{VectorAlloc} (now0 : Z) (ins : list ClientInput) (ps : list bytes)
    (c : ClientImpl) (Hrun : client_run now0 ins ps c) :
  (∀ i, client_enabled i c → is_Some (client_handle i c))
  ∧ (∀ i c', client_handle i c = Some c' → is_connected c = false → is_connected c' = false)
  ∧ cl_socket_open c = is_connected c
  ∧ zlen (receive_queue c) ≤ RECEIVE_QUEUE_CAPACITY
  ∧ zlen (write_queue c) ≤ MAX_PENDING_WRITE_FRAMES
  ∧ Forall received_ok (frames_in c)
  ∧ (ps ++ receive_queue c) `sublist_of` frames_in c
  ∧ (lost c = [] → ps ++ receive_queue c = frames_in c)
  ∧ client_dropped_packet_count c = to_u64 (zlen (lost c)).
Proof.
  pose proof (crun_inv now0 ins ps c Hrun) as Hc.
  destruct (crun_receive now0 ins ps c Hrun) as [Hsub Hlen]. split_and!; try apply Hc; try done.
  - intros i Hen. destruct (client_handle_ok i c Hc Hen) as (c' & -> & _). eauto.
  - intros i c' Heq Hno. destruct (is_connected c') eqn:E; [|done].
    unfold is_connected in *. by rewrite (connected_before i c c' Heq E) in Hno.
  - intros Hl. rewrite Hl in Hlen. apply sublist_full; [done|].
    rewrite length_app. simpl in Hlen. lia.
Qed.

(** C23. What the client sends is sent.  As long as the connection is up and the
    client not shutting down, the data frames written to the socket, waiting in
    the queue and posted to the I/O thread are those of the beginning and one
    frame for each [send] of 1 to 2048 bytes since: none is lost or duplicated;
    and they keep the order of the sends if the I/O thread runs posted functions
    in the order they were posted. *)
Theorem client_send_complete `{VectorAlloc} (now0 : Z) (ins ins' : list ClientInput)
    (ps ps' : list bytes) (c c' : ClientImpl) (Hrun : client_run now0 ins ps c)
    (Hst : client_steps c ins' ps' c') (Hup : is_connected c' = true)
    (Hs : cl_shutting_down c' = false) :
  client_pipeline c' ≡ₚ client_pipeline c ++ crequested ins'
  ∧ (Forall in_order ins' → client_pipeline c' = client_pipeline c ++ crequested ins').
Proof. by apply (csteps_pipeline c ins' ps' c' (crun_inv now0 ins ps c Hrun) Hst). Qed.

(** C12. Stream round trip of the client.  A client that waits for a header and
    has room in its receive queue, given the concatenation of frames built by any
    sender (data frames and keepalives, in any order), queues exactly the
    payloads, in order, for the game thread, consumes every byte and waits for
    the next header. *)
Theorem client_stream_roundtrip `{VectorAlloc} (now0 now : Z) (ins : list ClientInput)
    (ps : list bytes) (c : ClientImpl) (items : list (option bytes)) (frames : list bytes)
    (Hrun : client_run now0 ins ps c) (Hop : cl_read_op c = Some ReadHeader)
    (Hup : cl_shutting_down c = false)
    (Hroom : zlen (receive_queue c) + Z.of_nat (length frames) ≤ RECEIVE_QUEUE_CAPACITY)
    (Hframes : Forall2 wire_frame items frames) :
  ∃ c', client_feed (2 * length frames) now (mjoin frames) c = Some (c', [])
    ∧ cl_read_op c' = Some ReadHeader
    ∧ receive_queue c' = receive_queue c ++ omap (λ o : option bytes, o) items
    ∧ is_connected c' = is_connected c ∧ client_pipeline c' = client_pipeline c
    ∧ lost c' = lost c.
Proof.
  destruct (client_feed_frames now items frames c) with (fuel := (2 * length frames)%nat)
    as (c' & Hfeed & Hc' & Hq & Hcon & Hw & Hp & Hl); [|done..|].
  { split; try done. apply (crun_inv now0 ins ps c Hrun). }
  exists c'. split_and!; try done; [apply Hc'|by apply cpipeline_eq].
Qed.

Section Witnesses.
#[local] Existing Instance exact_alloc.

Definition fresh_client : ClientImpl := client_create 0.
Definition sent_client : ClientImpl := default fresh_client (client_handle (ClSend [5; 6]) fresh_client).
Definition flushed_client : ClientImpl := default fresh_client (client_handle (ClPosted 0) sent_client).

Lemma fresh_run : client_run 0 [] [] fresh_client.
Proof. constructor. Qed.

Lemma client_safe_witness :
  is_Some (client_handle (ClHeader 10 false [1; 2; 3; 4; 5; 6; 7; 8]) fresh_client)
  ∧ cl_socket_open fresh_client = true.
Proof.
  destruct (client_safe 0 [] [] fresh_client fresh_run) as (Hsome & _ & Hopen & _).
  split; [|exact Hopen]. apply Hsome. split; [reflexivity|]. split; [reflexivity|].
  intros _. split; [reflexivity|]. repeat (constructor; [by_compute|]). constructor.
Defined.

Lemma client_send_complete_witness :
  client_pipeline flushed_client = [data_frame [5; 6]].
Proof.
  destruct (client_send_complete 0 [] [ClSend [5; 6]; ClPosted 0] [] [] fresh_client flushed_client
              fresh_run) as [_ Hp].
  - apply (client_snoc fresh_client [ClSend [5; 6]] [] (ClPosted 0) sent_client).
    + apply (client_snoc fresh_client [] [] (ClSend [5; 6]) fresh_client);
        [constructor|exact I|reflexivity].
    + split; [reflexivity|]. vm_compute. constructor.
    + reflexivity.
  - reflexivity.
  - reflexivity.
  - apply Hp. repeat constructor.
Defined.

Lemma client_stream_roundtrip_witness :
  ∃ c', client_feed 4 2000 (header_bytes 0 2 ++ [8; 9] ++ header_bytes 1 0) fresh_client
        = Some (c', [])
    ∧ receive_queue c' = [[8; 9]].
Proof.
  destruct (client_stream_roundtrip 0 2000 [] [] fresh_client [Some [8; 9]; None]
              [header_bytes 0 2 ++ [8; 9]; header_bytes 1 0] fresh_run)
    as (c' & Hfeed & _ & Hq & _).
  - reflexivity.
  - reflexivity.
  - by_compute.
  - constructor.
    { apply (wire_data 0 [8; 9] ∅ (mkBuffer (header_bytes 0 2 ++ [8; 9]) BLOCK_SIZE) ∅).
      - apply pool_wf_empty.
      - by_compute.
      - repeat (constructor; [by_compute|]). constructor.
      - reflexivity. }
    constructor; [|constructor].
    apply (wire_keepalive 0 ∅ (mkBuffer (header_bytes 1 0) BLOCK_SIZE) ∅);
      [apply pool_wf_empty|reflexivity].
  - exists c'. split; [exact Hfeed|]. rewrite Hq. reflexivity.
Defined.
End Witnesses.
