(* ===== verification/ClientStreams.v ===== *)
(** * The byte streams of a client

    The counterpart of [ServerStreams]: how far a client is in the frames the
    server has written for it, and that what it has written is the beginning of
    what it was asked to send, also once the connection is lost. *)

From S2P Require Import Prelude Protocol BufferPool TransportDetail Session StreamPosition ChatProtocolClient Client ClientProperties.

(** The bytes an input takes from the stream. *)
Definition client_read_bytes (i : ClientInput) : bytes :=
  match i with
  | ClHeader _ false header => header
  | ClBody false received => received
  | _ => []
  end.

Definition client_at (frames : list bytes) (c : ClientImpl) (consumed : bytes) : Prop :=
  at_stream frames (cl_read_op c) (zlen (buf_data (body_buf c))) consumed (frames_in c).

Section Reading.
Context `{VectorAlloc}.
Implicit Types (c : ClientImpl).

Definition same_client_reader c c' : Prop :=
  cl_read_op c' = cl_read_op c ∧ body_buf c' = body_buf c ∧ frames_in c' = frames_in c.

Lemma disconnect_reader c : same_client_reader c (handle_disconnect c).
Proof. unfold handle_disconnect, same_client_reader. by destruct (connected c). Qed.

Lemma client_write_reader c : same_client_reader c (client_write c).
Proof. unfold client_write, same_client_reader. by destruct (write_queue c). Qed.

Lemma client_enqueue_reader t f c : same_client_reader c (client_enqueue_frame t f c).
Proof.
  unfold client_enqueue_frame, enqueue_frame. destruct (_ || _); [done|].
  destruct (_ && _); simpl; [apply (disconnect_reader (client_release t f c))|].
  destruct (negb (writing c)); [|done].
  apply (client_write_reader (cset_queue (write_queue c ++ [f]) c)).
Qed.

Lemma other_client_reader i c c' :
  client_inv c → client_handle i c = Some c' →
  match i with ClHeader _ _ _ | ClBody _ _ => True | _ => same_client_reader c c' end.
Proof.
  intros Hc Heq. destruct i as [now ec h|ec b|ec|now ec|k| |data| |]; cbn in Heq; try done.
  - unfold client_on_write in Heq. destruct (write_queue c) as [|f q]; [done|]. injection Heq as <-.
    set (c1 := cset_queue q _). destruct (_ || _);
      [exact (disconnect_reader c1)|exact (client_write_reader c1)].
  - unfold client_on_heartbeat in Heq. destruct ec; [by injection Heq as <-|].
    destruct (_ <=? _); [injection Heq as <-; exact (disconnect_reader (cset_timer false c))|].
    unfold client_send_keepalive in Heq. destruct (build_keepalive_frame _ _) as [[f st]|]; [|done].
    cbn [mbind option_bind] in Heq. injection Heq as <-.
    exact (client_enqueue_reader 1 f (cset_pools st (cset_timer false c))).
  - destruct (io_posted c !! k) as [[f|]|]; cbn in Heq; [| |done]; injection Heq as <-; [|done].
    destruct (cl_shutting_down c); [done|].
    exact (client_enqueue_reader 1 f (cset_posted (delete k (io_posted c)) c)).
  - injection Heq as <-. unfold client_poll_packet. by destruct (receive_queue c).
  - destruct (client_send_spec 0 data c (ci_pools c Hc)) as (cap & st & _ & E).
    rewrite E in Heq. injection Heq as <-. by destruct (_ && _).
  - injection Heq as <-. unfold client_shutdown. by destruct (cl_shutting_down c).
  - by injection Heq as <-.
Qed.

(** One handler, whose read took the next bytes of the stream. *)
Lemma client_read frames consumed i c c' :
  client_inv c → client_enabled i c → client_handle i c = Some c' →
  Forall good_frame frames → client_at frames c consumed →
  consumed ++ client_read_bytes i `prefix_of` mjoin frames →
  client_at frames c' (consumed ++ client_read_bytes i).
Proof.
  intros Hc Hen Heq Hgood Hat Hpre. unfold client_at in *.
  pose proof (other_client_reader i c c' Hc Heq) as Hother.
  destruct i as [now ec h|ec b|ec|now ec|k| |data| |]; cbn [client_read_bytes] in *;
    try (destruct Hother as (-> & -> & ->); rewrite app_nil_r; exact Hat); clear Hother.
  - injection Heq as <-. destruct Hen as (_ & Hop & Hh). rewrite Hop in Hat.
    destruct (ec || cl_shutting_down c) eqn:Hbad.
    { unfold client_on_header. simpl. rewrite Hbad.
      destruct (disconnect_reader (cset_read None c)) as (-> & -> & ->). by eapply at_stop. }
    apply orb_false_iff in Hbad as [-> Hs]. destruct (Hh eq_refl) as [Hlen _].
    assert (length h = 8%nat) as Hlen8 by (unfold zlen, HEADER_SIZE in Hlen; lia).
    destruct (at_read_header _ _ _ _ h Hgood Hat Hpre Hlen8) as [[-> Hat']|(n & -> & Hn & Hat')].
    + rewrite (client_keepalive_header now c Hs : client_on_header now false keepalive_bytes c = _). exact Hat'.
    + rewrite client_data_header by done.
      match goal with |- context [zlen (buf_data (body_buf ?c1))] =>
        assert (zlen (buf_data (body_buf c1)) = n) as -> by (apply length_resize; lia) end.
      exact Hat'.
  - destruct Hen as (_ & Hop & Hb). rewrite Hop in Hat.
    destruct (ec || cl_shutting_down c) eqn:Hbad.
    { cbn [client_handle] in Heq. unfold client_on_body in Heq. simpl in Heq. rewrite Hbad in Heq.
      injection Heq as <-. destruct (disconnect_reader (cset_read None c)) as (-> & -> & ->).
      by eapply at_stop. }
    apply orb_false_iff in Hbad as [-> Hs]. destruct (Hb eq_refl) as [Hlen _].
    pose proof (ci_body c Hc).
    destruct (client_on_body_spec 1 b c (ci_pools c Hc)) as (st & _ & E); [lia|done|].
    cbn [client_handle] in Heq. rewrite E in Heq. injection Heq as <-.
    pose proof (at_read_body _ _ _ _ b Hat Hpre Hlen) as Hat'. rewrite <-Hlen in Hat'.
    unfold receive_push. by destruct (_ <? _).
Qed.

(** ** Writing *)

Lemma cwritten_refused t f c :
  connected (client_enqueue_frame t f c) = false ∨ cl_shutting_down c = true →
  cwritten (client_enqueue_frame t f c) = cwritten c.
Proof.
  unfold client_enqueue_frame, enqueue_frame. destruct (cl_shutting_down c); [done|].
  destruct (connected c) eqn:Hcon; simpl; [|done]. intros [Hd|?]; [|done]. revert Hd.
  destruct (_ <=? _); simpl; [intros _; by rewrite cwritten_disconnect|].
  destruct (negb (writing c)); simpl; [|congruence].
  destruct (write_same (cset_queue (write_queue c ++ [f]) c)) as (_ & _ & _ & _ & _ & _ & ->). simpl. congruence.
Qed.

(** A client that is not connected any more, or shuts down, adds no frame. *)
Lemma cwritten_stuck i c c' :
  client_inv c → client_enabled i c → client_handle i c = Some c' →
  connected c' = false ∨ cl_shutting_down c' = true → cwritten c' = cwritten c.
Proof.
  intros Hc Hen Heq Hdown. destruct i as [now ec h|ec b|ec|now ec|k| |data| |]; cbn in Heq.
  - injection Heq as <-. unfold client_on_header. destruct (_ || _); [by rewrite cwritten_disconnect|].
    destruct (decode_header h); [|by rewrite cwritten_disconnect]. by destruct (is_keepalive _).
  - unfold client_on_body in Heq. destruct (_ || _); [injection Heq as <-; by rewrite cwritten_disconnect|].
    destruct (acquire _ _ _). simpl in Heq. destruct (memcpy _ _ _ _); [|done]. simpl in Heq.
    unfold receive_push in Heq. repeat case_match; by injection Heq as <-.
  - unfold client_on_write in Heq. destruct (write_queue c) as [|f q] eqn:Hq; [done|].
    injection Heq as <-. set (c1 := cset_queue q _). destruct Hen as [_ Hop].
    assert (cwritten c1 = cwritten c) as <- by (unfold cwritten, cwaiting; simpl; by rewrite Hop, Hq).
    destruct (_ || _); [by rewrite cwritten_disconnect|by rewrite cwritten_write].
  - unfold client_on_heartbeat in Heq. destruct ec; [by injection Heq as <-|].
    destruct (_ <=? _); [injection Heq as <-; by rewrite cwritten_disconnect|].
    destruct (client_keepalive_spec 1 _ (cinv_timer false c Hc)) as (cap & st & _ & E). rewrite E in Heq.
    cbn [mbind option_bind] in Heq. injection Heq as <-.
    match goal with |- cwritten (client_start_heartbeat (client_enqueue_frame ?t ?f ?x)) = _ =>
      destruct (enqueue_same t f x) as (_ & _ & _ & _ & Es & _);
      apply (cwritten_refused t f x) end.
    destruct Hdown as [?|Hs]; [by left|right]. simpl in Hs. by rewrite <-Es.
  - destruct (io_posted c !! k) as [[f|]|]; cbn in Heq; [| |done]; injection Heq as <-; [|done].
    destruct (cl_shutting_down c) eqn:Hs; [done|].
    apply (cwritten_refused 1 f (cset_posted (delete k (io_posted c)) c)).
    destruct Hdown as [?|Hs']; [by left|right].
    by destruct (enqueue_same 1 f (cset_posted (delete k (io_posted c)) c)) as (_ & _ & _ & _ & <- & _).
  - injection Heq as <-. unfold client_poll_packet. by destruct (receive_queue c).
  - destruct (client_send_spec 0 data c (ci_pools c Hc)) as (cap & st & _ & E).
    rewrite E in Heq. injection Heq as <-. by destruct (_ && _).
  - injection Heq as <-. unfold client_shutdown. by destruct (cl_shutting_down c).
  - by injection Heq as <-.
Qed.

(** What a client has written is the beginning of what it was asked to send. *)
Lemma client_written_prefix now0 ins ps c :
  client_run now0 ins ps c → Forall in_order ins → data_only (cwritten c) `prefix_of` crequested ins.
Proof.
  induction 1 as [|ins ps i c c' Hrun IH Hen Heq]; intros Hord; [done|].
  pose proof (crun_inv _ _ _ _ Hrun) as Hc.
  destruct (connected c' && negb (cl_shutting_down c')) eqn:Hup.
  - apply andb_true_iff in Hup as [Hcon Hs%negb_true_iff].
    destruct (csteps_pipeline (client_create now0) (ins ++ [i]) (ps ++ polled_by i c) c'
                (cinv_create now0)) as [_ Hp]; [by econstructor|done..|].
    specialize (Hp Hord). change (client_pipeline (client_create now0)) with (@nil bytes) in Hp.
    rewrite app_nil_l in Hp. rewrite <-Hp. eexists. apply data_only_app.
  - apply Forall_app in Hord as [Hord _]. rewrite crequested_app.
    rewrite (cwritten_stuck i c c'); [|done..|].
    + apply prefix_app_r. by apply IH.
    + apply andb_false_iff in Hup as [?|Hs]; [by left|right]. by destruct (cl_shutting_down c').
Qed.

Lemma frames_out_prefix now0 ins ps c :
  client_run now0 ins ps c → Forall in_order ins → data_only (frames_out c) `prefix_of` crequested ins.
Proof.
  intros Hrun Hord. etransitivity; [|by eapply client_written_prefix].
  eexists. apply data_only_app.
Qed.

(** *** What is written only grows *)

Lemma frames_out_disconnect c : frames_out (handle_disconnect c) = frames_out c.
Proof. by destruct (disconnect_same c) as (_ & _ & _ & -> & _). Qed.

Lemma frames_out_write c : ∃ more, frames_out (client_write c) = frames_out c ++ more.
Proof.
  unfold client_write. destruct (write_queue c) as [|f q]; [exists []; by rewrite app_nil_r|].
  by exists [buf_data f].
Qed.

Lemma frames_out_enqueue t f c :
  ∃ more, frames_out (client_enqueue_frame t f c) = frames_out c ++ more.
Proof.
  unfold client_enqueue_frame, enqueue_frame.
  destruct (_ || _); [exists []; by rewrite app_nil_r|]. destruct (_ && _); simpl.
  - exists []. by rewrite frames_out_disconnect, app_nil_r.
  - destruct (negb (writing c)); [|exists []; by rewrite app_nil_r].
    apply (frames_out_write (cset_queue (write_queue c ++ [f]) c)).
Qed.

Lemma frames_out_grows i c c' :
  client_inv c → client_handle i c = Some c' → ∃ more, frames_out c' = frames_out c ++ more.
Proof.
  intros Hc Heq. assert (∃ more, frames_out c = frames_out c ++ more) as Hnil
    by (exists []; by rewrite app_nil_r).
  destruct i as [now ec h|ec b|ec|now ec|k| |data| |]; cbn in Heq.
  - injection Heq as <-. unfold client_on_header. destruct (_ || _); [by rewrite frames_out_disconnect|].
    destruct (decode_header h); [|by rewrite frames_out_disconnect]. by destruct (is_keepalive _).
  - unfold client_on_body in Heq. destruct (_ || _); [injection Heq as <-; by rewrite frames_out_disconnect|].
    destruct (acquire _ _ _). simpl in Heq. destruct (memcpy _ _ _ _); [|done]. simpl in Heq.
    unfold receive_push in Heq. repeat case_match; by injection Heq as <-.
  - unfold client_on_write in Heq. destruct (write_queue c) as [|f q]; [done|]. injection Heq as <-.
    set (c1 := cset_queue q _). destruct (_ || _); [by rewrite frames_out_disconnect|].
    apply (frames_out_write c1).
  - unfold client_on_heartbeat in Heq. destruct ec; [by injection Heq as <-|].
    destruct (_ <=? _); [injection Heq as <-; by rewrite frames_out_disconnect|].
    unfold client_send_keepalive in Heq. destruct (build_keepalive_frame _ _) as [[f st]|]; [|done].
    cbn [mbind option_bind] in Heq. injection Heq as <-.
    apply (frames_out_enqueue 1 f (cset_pools st (cset_timer false c))).
  - destruct (io_posted c !! k) as [[f|]|]; cbn in Heq; [| |done]; injection Heq as <-; [|done].
    destruct (cl_shutting_down c); [done|].
    apply (frames_out_enqueue 1 f (cset_posted (delete k (io_posted c)) c)).
  - injection Heq as <-. unfold client_poll_packet. by destruct (receive_queue c).
  - destruct (client_send_spec 0 data c (ci_pools c Hc)) as (cap & st & _ & E).
    rewrite E in Heq. injection Heq as <-. by destruct (_ && _).
  - injection Heq as <-. unfold client_shutdown. by destruct (cl_shutting_down c).
  - by injection Heq as <-.
Qed.
End Reading.
