(* ===== verification/ClientLifetime.v ===== *)
(** * The end of the client

    The counterpart of [Lifetime] for [Client.cpp]: the wait of [shutdown] ends,
    the connection is down when it does, and the destructor deletes the payloads
    nobody polled. *)

From S2P Require Import Prelude Protocol BufferPool TransportDetail ChatProtocolClient Session Client ClientProperties.

(** The functions posted by [shutdown] that have not run. *)
Definition closes_left (tasks : list ClientTask) : nat :=
  length (List.filter (λ task, match task with PostedClose => true | _ => false end) tasks).

Lemma closes_left_app l k : closes_left (l ++ k) = (closes_left l + closes_left k)%nat.
Proof. unfold closes_left. by rewrite List.filter_app, length_app. Qed.

Lemma closes_left_0 tasks : closes_left tasks = 0%nat ↔ PostedClose ∉ tasks.
Proof.
  unfold closes_left. induction tasks as [|[f|] rest IH]; simpl;
    [split; [by intros _ ?%elem_of_nil|done]|..]; rewrite not_elem_of_cons; naive_solver.
Qed.

Lemma closes_left_pos tasks : (0 < closes_left tasks)%nat → ∃ k, tasks !! k = Some PostedClose.
Proof.
  unfold closes_left. induction tasks as [|[f|] rest IH]; simpl; intros Hpos; [lia| |by exists 0%nat].
  destruct (IH Hpos) as [k Hk]. by exists (S k).
Qed.

Lemma closes_left_delete tasks k task :
  tasks !! k = Some task →
  closes_left tasks = (closes_left [task] + closes_left (delete k tasks))%nat.
Proof.
  intros Hk. rewrite <-(take_drop_middle tasks k task Hk) at 1.
  rewrite delete_take_drop, !closes_left_app.
  pose proof (closes_left_app [task] (drop (S k) tasks)) as E. simpl in E. rewrite E. lia.
Qed.

Section Closing.
Context `{VectorAlloc}.
Implicit Types (c : ClientImpl).

(** What a handler may change of the thread's bookkeeping: it takes a posted
    function ([taken]) and, but for [shutdown], posts only frames. *)
Record bookkeeping (taken : list ClientTask) c c' : Prop := {
  bk_posted : ∃ news, io_posted c' = taken ++ news ∧ PostedClose ∉ news;
  bk_shutting : cl_shutting_down c' = cl_shutting_down c;
  bk_stopped : io_stopped c' = io_stopped c;
}.

Lemma bookkeeping_same taken c c' :
  io_posted c' = taken → cl_shutting_down c' = cl_shutting_down c →
  io_stopped c' = io_stopped c → bookkeeping taken c c'.
Proof.
  intros E E1 E2. split; [|done..]. exists []. rewrite app_nil_r. split; [done|by intros ?%elem_of_nil].
Qed.

Lemma bookkeeping_trans taken c1 c2 c3 :
  bookkeeping taken c1 c2 → bookkeeping (io_posted c2) c2 c3 → bookkeeping taken c1 c3.
Proof.
  intros [(n1 & H1 & Hn1) Hs1 Ht1] [(n2 & H2 & Hn2) Hs2 Ht2]. split; [|congruence..].
  exists (n1 ++ n2). rewrite H2, H1, app_assoc. split; [done|]. rewrite elem_of_app. tauto.
Qed.

Lemma bookkeeping_disconnect c : bookkeeping (io_posted c) c (handle_disconnect c).
Proof. apply bookkeeping_same; unfold handle_disconnect; by destruct (connected c). Qed.

Lemma bookkeeping_write c : bookkeeping (io_posted c) c (client_write c).
Proof. apply bookkeeping_same; unfold client_write; by destruct (write_queue c). Qed.

(** A step through [x]: what happens up to it leaves the bookkeeping alone. *)
Ltac via x lem := match goal with |- bookkeeping ?l ?c _ =>
  apply (bookkeeping_trans l c x); [by apply bookkeeping_same|apply lem] end.
Ltac via_disconnect := match goal with |- bookkeeping _ _ (handle_disconnect ?x) =>
  via x bookkeeping_disconnect end.

Lemma bookkeeping_enqueue t f c : bookkeeping (io_posted c) c (client_enqueue_frame t f c).
Proof.
  unfold client_enqueue_frame, enqueue_frame. destruct (_ || _); [by apply bookkeeping_same|].
  destruct (_ && _); simpl; [via_disconnect|].
  destruct (negb (writing c)); [|by apply bookkeeping_same].
  via (cset_queue (write_queue c ++ [f]) c) bookkeeping_write.
Qed.

(** What is left of the posted functions when an input takes one. *)
Definition leaves (i : ClientInput) (tasks : list ClientTask) : list ClientTask :=
  match i with ClPosted k => delete k tasks | _ => tasks end.

Lemma step_bookkeeping i c c' :
  client_inv c → i ≠ ClFinish → (i = ClShutdown → cl_shutting_down c = true) →
  client_handle i c = Some c' → bookkeeping (leaves i (io_posted c)) c c'.
Proof.
  intros Hc Hne Hdown Heq.
  destruct i as [now ec h|ec b|ec|now ec|k| |data| |]; simpl in Heq; cbn [leaves]; [..|done].
  - injection Heq as <-. unfold client_on_header. destruct (_ || _); [via_disconnect|].
    destruct (decode_header h); [|via_disconnect]. by destruct (is_keepalive _); apply bookkeeping_same.
  - unfold client_on_body in Heq. destruct (_ || _); [injection Heq as <-; via_disconnect|].
    destruct (acquire _ _ _) as [copy st]. destruct (memcpy _ _ _ _) as [packet|]; [|done].
    cbn [mbind option_bind] in Heq. unfold receive_push in Heq.
    repeat case_match; injection Heq as <-; by apply bookkeeping_same.
  - unfold client_on_write in Heq. destruct (write_queue c); [done|]. injection Heq as <-.
    destruct (_ || _); [via_disconnect|].
    match goal with |- bookkeeping _ _ (client_write ?x) => via x bookkeeping_write end.
  - unfold client_on_heartbeat in Heq. destruct ec; [injection Heq as <-; by apply bookkeeping_same|].
    destruct (_ <=? _); [injection Heq as <-; via_disconnect|].
    unfold client_send_keepalive in Heq. destruct (build_keepalive_frame _ _) as [[f st]|]; [|done].
    simpl in Heq. injection Heq as <-.
    set (c0 := cset_pools st (cset_timer false c)).
    apply (bookkeeping_trans _ _ (client_enqueue_frame 1 f c0)); [|by apply bookkeeping_same].
    via c0 bookkeeping_enqueue.
  - destruct (io_posted c !! k) as [[f|]|]; simpl in Heq; [| |done]; injection Heq as <-.
    + destruct (cl_shutting_down c); [by apply bookkeeping_same|].
      via (cset_posted (delete k (io_posted c)) c) bookkeeping_enqueue.
    + by apply bookkeeping_same.
  - injection Heq as <-. unfold client_poll_packet. destruct (receive_queue c); by apply bookkeeping_same.
  - destruct (client_send_spec 0 data c (ci_pools c Hc)) as (cap & st & _ & E).
    rewrite E in Heq. injection Heq as <-. destruct (_ && _); [|by apply bookkeeping_same].
    split; [|done..]. simpl. eexists. split; [done|]. by intros ?%list_elem_of_singleton.
  - injection Heq as <-. unfold client_shutdown. rewrite Hdown by done. by apply bookkeeping_same.
Qed.

(** A client that is shutting down. *)
Record client_closing c : Prop := {
  cc_shutting : cl_shutting_down c = true;
  cc_once : (closes_left (io_posted c) ≤ 1)%nat;
  cc_stopped : io_stopped c = true → closes_left (io_posted c) = 0%nat;
  cc_over : closes_left (io_posted c) = 0%nat → connected c = false;
}.

Definition client_open c : Prop :=
  cl_shutting_down c = false ∧ io_stopped c = false ∧ closes_left (io_posted c) = 0%nat.

(** A step takes at most the function it runs. *)
Lemma closes_left_step i c c' :
  client_handle i c = Some c' → bookkeeping (leaves i (io_posted c)) c c' →
  closes_left (io_posted c) = (closes_left (io_posted c')
    + match i with ClPosted k => from_option (λ task, closes_left [task]) 0 (io_posted c !! k) | _ => 0 end)%nat.
Proof.
  intros Heq [(news & -> & Hn%closes_left_0) _ _]. rewrite closes_left_app, Hn.
  destruct i as [| | | |k| | | |]; simpl in *; try lia.
  destruct (io_posted c !! k) as [task|] eqn:Hk; [|done]. simpl.
  pose proof (closes_left_delete _ k task Hk). lia.
Qed.

Lemma client_closing_after i c c' :
  client_inv c → client_enabled i c → client_closing c → client_handle i c = Some c' → client_closing c'.
Proof.
  intros Hc Hen [Hs Ho Ht Hover] Heq.
  assert (i = ClFinish ∨ i ≠ ClFinish) as [->|Hne] by (destruct i; first [by left | by right]).
  { injection Heq as <-. destruct Hen as [_ Hn%closes_left_0]. by split. }
  pose proof (step_bookkeeping i c c' Hc Hne (λ _, Hs) Heq) as Hb.
  pose proof (closes_left_step i c c' Heq Hb) as Hl. destruct Hb as [_ Hs' Ht'].
  split; [congruence|lia|rewrite Ht'; intros Hst; specialize (Ht Hst); lia|]. intros H0. rewrite H0 in Hl.
  destruct (closes_left (io_posted c)) as [|n].
  - specialize (Hover eq_refl). destruct (connected c') eqn:E; [|done].
    by rewrite (connected_before i c c' Heq E) in Hover.
  - destruct i as [| | | |k| | | |]; try done. simpl in *.
    destruct (io_posted c !! k) as [[f|]|]; [done| |done]. by injection Heq as <-.
Qed.

Lemma client_open_after i c c' :
  client_inv c → client_enabled i c → client_open c → client_handle i c = Some c' →
  client_open c' ∨ client_closing c'.
Proof.
  intros Hc Hen (Hs & Ht & H0) Heq.
  assert (i = ClFinish ∨ i = ClShutdown ∨ i ≠ ClFinish ∧ i ≠ ClShutdown) as [->|[->|[Hne Hne']]]
    by (destruct i; first [by left | by right; left | by right; right]).
  - destruct Hen. congruence.
  - right. injection Heq as <-. unfold client_shutdown. rewrite Hs.
    assert (closes_left (io_posted c ++ [PostedClose]) = 1%nat) as H1 by (by rewrite closes_left_app, H0).
    split; simpl; [done|lia|congruence|lia].
  - left. pose proof (step_bookkeeping i c c' Hc Hne (λ E, False_ind _ (Hne' E)) Heq) as Hb.
    pose proof (closes_left_step i c c' Heq Hb) as Hl. destruct Hb as [_ Hs' Ht'].
    split_and!; [congruence..|]. lia.
Qed.

Lemma run_open_closing now0 ins ps c :
  client_run now0 ins ps c → if cl_shutting_down c then client_closing c else client_open c.
Proof.
  induction 1 as [|ins ps i c c' Hrun IH Hen Heq]; [done|].
  pose proof (crun_inv now0 ins ps c Hrun) as Hc.
  assert (client_open c' ∨ client_closing c') as [Ho|Hcl].
  { destruct (cl_shutting_down c); [right; by apply (client_closing_after i c)|by apply (client_open_after i c)]. }
  - by rewrite (proj1 Ho).
  - by rewrite (cc_shutting _ Hcl).
Qed.

Lemma delete_received_all c :
  delete_received (S (length (receive_queue c))) c = Some (receive_queue c, cset_receive [] c).
Proof.
  assert (∀ q c, receive_queue c = q →
    delete_received (S (length q)) c = Some (q, cset_receive [] c)) as Hgen; [|by apply Hgen].
  clear c. intros q. induction q as [|p q IH]; intros c Hq; simpl; rewrite Hq.
  - rewrite <-Hq. by destruct c.
  - pose proof (IH (cset_receive q c) eq_refl) as E. simpl in E. by rewrite E.
Qed.
End Closing.

(** ** The property *)

(** The destruction of the client.  Let [shutdown] be called in any reachable
    state, and let anything happen since.  Its wait is over, or the function it
    posted can run, is handled, and ends it.  When it is over the connection is
    down and the socket closed.  The destructor then deletes what is left in the
    receive queue: every payload received was polled, or is deleted now, or was
    counted as dropped. *)
Lemma client_destruction `{VectorAlloc} (now0 : Z) (ins ins' : list ClientInput) (ps ps' : list bytes)
    (c c' : ClientImpl) (Hrun : client_run now0 ins ps c)
    (Hst : client_steps (client_shutdown c) ins' ps' c') :
  (client_enabled ClFinish c'
   ∨ ∃ k c2, client_enabled (ClPosted k) c' ∧ client_handle (ClPosted k) c' = Some c2
       ∧ client_enabled ClFinish c2)
  ∧ (client_enabled ClFinish c' → is_connected c' = false ∧ cl_socket_open c' = false)
  ∧ ∃ deleted c2, client_destroy c' = Some (deleted, c2)
      ∧ receive_queue c2 = []
      ∧ (ps ++ ps' ++ deleted) `sublist_of` frames_in c'
      ∧ length (frames_in c')
        = (length ps + length ps' + length deleted + length (lost c'))%nat.
Proof.
  assert (client_run now0 (ins ++ ClShutdown :: ins') (ps ++ ps') c') as Hrun'.
  { replace (ins ++ ClShutdown :: ins') with ((ins ++ [ClShutdown]) ++ ins') by (by rewrite <-app_assoc).
    induction Hst as [|ins' ps' i c' c2 Hst IH Hen Heq].
    - rewrite !app_nil_r. pose proof (client_snoc (client_create now0) ins ps ClShutdown c _ Hrun I eq_refl) as Hs.
      by rewrite app_nil_r in Hs.
    - rewrite !app_assoc. by apply (client_snoc _ _ _ i c'). }
  pose proof (crun_inv _ _ _ _ Hrun') as Hc.
  assert (cl_shutting_down c' = true) as Hs.
  { clear Hrun' Hc. induction Hst as [|ins' ps' i c' c2 Hst IH Hen Heq];
      [unfold client_shutdown; by destruct (cl_shutting_down c) eqn:E|by apply (shutting_after i c')]. }
  pose proof (run_open_closing _ _ _ _ Hrun') as Hcl. rewrite Hs in Hcl. split_and!.
  - destruct (closes_left (io_posted c')) as [|n] eqn:Hl; [left; split; [done|by apply closes_left_0]|right].
    destruct (closes_left_pos (io_posted c')) as [k Hk]; [lia|].
    exists k. eexists. cbn [client_handle]. rewrite Hk. split_and!; [split|done|split; [done|]].
    + destruct (io_stopped c') eqn:E; [|done]. by rewrite (cc_stopped _ Hcl E) in Hl.
    + by apply lookup_lt_Some in Hk.
    + apply closes_left_0. simpl. pose proof (cc_once _ Hcl). pose proof (closes_left_delete _ k _ Hk) as E.
      change (closes_left [PostedClose]) with 1%nat in E. lia.
  - intros [_ Hn%closes_left_0]. pose proof (cc_over _ Hcl Hn) as Hd. split; [done|].
    by rewrite (ci_socket _ Hc).
  - exists (receive_queue c'), (cset_receive [] c'). unfold client_destroy, client_shutdown_idle.
    rewrite Hs, delete_received_all.
    destruct (crun_receive _ _ _ _ Hrun') as [Hsub Hlen]. rewrite length_app in Hlen.
    rewrite app_assoc. by split_and!.
Qed.
