(* ===== verification/EndToEnd.v ===== *)
(** * Client and server speak the same protocol

    What the chat client sends is what the server's [NetworkSystem] decodes, and
    what the game logic queues is what the chat client decodes; and between them
    the two transports carry it ([request_delivered]). *)

From S2P Require Import Prelude Protocol BufferPool TransportDetail Session Packet Client ClientProperties Schema HeapLibrary ServerTypes RoomSystem GameLogicSystem ChatSpec ChatInvariant ChatViews ChatFacts GameLogicRefinement GameLogicProperties NetworkSystem.
From S2P Require ChatProtocolClient.
Import ChatProtocolClient(ClientTransport, ChatProtocolClient, mkChatProtocolClient, client_,
  next_request_id_, SendLoginRequest, SendRoomListRequest, SendJoinRoomRequest,
  SendChatRequest, DecodePacket, send_request, ChatProtocolEvent, ToChatRoomInfo,
  cl_send).

(** ** Requests *)

(** The requests of the chat client. *)
Inductive ClientRequest :=
  | RequestLogin (name : string)
  | RequestRooms
  | RequestJoin (room_id : Z)
  | RequestChat (text : string).

Definition send {C} `{ClientTransport C, FlatBuffers} (r : ClientRequest)
    (self : ChatProtocolClient C) : ChatProtocolClient C :=
  match r with
  | RequestLogin name => SendLoginRequest name self
  | RequestRooms => SendRoomListRequest self
  | RequestJoin room_id => SendJoinRoomRequest room_id self
  | RequestChat text => SendChatRequest text self
  end.

(** The event the server should see. *)
Definition request_event (k q : Z) (r : ClientRequest) : ServerEvent :=
  match r with
  | RequestLogin name => LoginRequestEvent k q name
  | RequestRooms => RoomListRequestEvent k q
  | RequestJoin room_id => JoinRoomRequestEvent k q room_id
  | RequestChat text => ChatSendRequestEvent k q text
  end.

(** Requests that fit the transport: texts up to 1792 bytes. *)
Definition request_ok (r : ClientRequest) : Prop :=
  match r with
  | RequestLogin text | RequestChat text => zsize text ≤ 1792
  | RequestRooms => True
  | RequestJoin room_id => is_u32 room_id
  end.

Lemma request_handed {C} `{ClientTransport C, FlatBuffersSpec} (client : C)
    (r : ClientRequest) (k q : Z) (Hq : is_u32 q) (Hr : request_ok r) :
  ∃ data, send r (mkChatProtocolClient (Some client) q)
            = mkChatProtocolClient (Some (cl_send data client)) (to_u32 (q + 1))
    ∧ 1 ≤ zlen data ≤ MAX_PAYLOAD_SIZE ∧ wf_bytes data
    ∧ DecodeProtocolPacket k data [] = [request_event k q r].
Proof.
  assert (∀ p, wf_payload p → payload_rooms p = 0 → payload_text p ≤ 1792 →
    DecodeProtocolPacket_message k (mkMessage q p) = [request_event k q r] →
    ∃ data, ChatProtocolClient.SendBuffer (BuildMessage q p)
                (mkChatProtocolClient (Some client) (to_u32 (q + 1)))
            = mkChatProtocolClient (Some (cl_send data client)) (to_u32 (q + 1))
    ∧ 1 ≤ zlen data ≤ MAX_PAYLOAD_SIZE ∧ wf_bytes data
    ∧ DecodeProtocolPacket k data [] = [request_event k q r]) as Hsend.
  { intros p Hp Hrooms Htext Hdec.
    destruct (send_request client q p Hq Hp Hrooms Htext) as (data & Heq & Hs & Hb & Hv & Hroot).
    exists data. split_and!; [done|lia|lia|done|].
    rewrite DecodeProtocolPacket_verified by (by rewrite ?Hroot). by rewrite Hroot. }
  destruct r as [name| |room_id|text]; apply Hsend; try done.
Qed.

(** Request round trip.  A connected client's request is handed to the
    transport as one payload the transport accepts (1 to 2048 bytes), whatever
    bytes its text contains; from these bytes the server decodes exactly the
    event of that request, with the client's current request id, for the
    session they came from; and the client's next request id is the following
    one, modulo 2^32. *)
Lemma request_roundtrip {C} `{ClientTransport C, FlatBuffersSpec} (client : C)
    (r : ClientRequest) (k q : Z) (Hq : is_u32 q) (Hr : request_ok r) :
  ∃ data, send r (mkChatProtocolClient (Some client) q)
            = mkChatProtocolClient (Some (cl_send data client)) (to_u32 (q + 1))
    ∧ 1 ≤ zlen data ≤ MAX_PAYLOAD_SIZE ∧ wf_bytes data
    ∧ DecodeProtocolPacket k data [] = [request_event k q r].
Proof. by apply request_handed. Qed.

(** ** Conversations *)

(** The packets of a verified message. *)
Lemma DecodePacket_verified `{FlatBuffers} data m :
  VerifiedMessage data = Some m → zlen data ≠ 0.
Proof. unfold VerifiedMessage. by destruct (Z.eqb_spec (zlen data) 0). Qed.

Lemma decode_login_response `{FlatBuffers} data q success code u :
  VerifiedMessage data = Some (mkMessage q (PLoginResponse (Some (mkLoginResponse success code u)))) →
  DecodePacket data
  = (if success then [ChatProtocolClient.ChatLoginSucceededEvent
                        (default ""%string (u ≫= ui_display_name))]
     else [ChatProtocolClient.ChatLoginFailedEvent (ToErrorString code)]).
Proof.
  intros Hv. pose proof (DecodePacket_verified _ _ Hv) as Hz. unfold DecodePacket.
  destruct (Z.eqb_spec (zlen data) 0); [done|]. rewrite Hv. simpl. by destruct success, u.
Qed.

Lemma decode_chat_broadcast `{FlatBuffers} data q r k name text t :
  VerifiedMessage data
  = Some (mkMessage q (PChatBroadcast (Some (mkChatBroadcast r k (Some name) (Some text) t)))) →
  DecodePacket data = [ChatProtocolClient.ChatMessageReceivedEvent r name text].
Proof.
  intros Hv. pose proof (DecodePacket_verified _ _ Hv) as Hz. unfold DecodePacket.
  destruct (Z.eqb_spec (zlen data) 0); [done|]. by rewrite Hv.
Qed.

(** What the user of a chat client is told about a login. *)
Definition login_notice (code : Z) (name : string) : ChatProtocolEvent :=
  if decide (code = ErrorCode.NONE)
  then ChatProtocolClient.ChatLoginSucceededEvent (c_str name)
  else ChatProtocolClient.ChatLoginFailedEvent (ToErrorString code).

(** C18. Login conversation.  When the login request of a connected client, for a
    name of at most 1792 bytes (so that the request fits in a frame), reaches the
    server as session [k], the server decodes one event and queues one message,
    for [k], from which the client learns that it is logged in under its name (up
    to the first NUL byte), or the name of the error code of the server's
    decision. *)
Theorem login_conversation {C} `{ClientTransport C, FlatBuffersSpec, EnvironmentSpec}
    (client : C) (gl : GameLogicSystem) (k q : Z) (name : string) (s : SessionState)
    (Hgl : gl_reachable gl) (Hq : is_u32 q) (Hname : zsize name ≤ 1792)
    (Hs : sessions_ (room_system_ gl) !! k = Some s) :
  ∃ data gl' om,
    client_ (SendLoginRequest name (mkChatProtocolClient (Some client) q))
      = Some (cl_send data client)
    ∧ Update (DecodeProtocolPacket k data []) gl = Some gl'
    ∧ outgoing_messages_ gl' = outgoing_messages_ gl ++ [om] ∧ om_session_id om = k
    ∧ DecodePacket (om_payload om) = [login_notice (login_code (room_system_ gl) k name) name].
Proof.
  destruct (request_handed client (RequestLogin name) k q Hq Hname)
    as (data & Hsend & _ & _ & Hdec).
  destruct (login_handled gl k q name s Hgl Hq Hs) as (gl' & om & Heq & Ho & Hk & Hm & _).
  exists data, gl', om. rewrite Hdec. simpl in Hsend. rewrite Hsend.
  split_and!; [done|exact Heq|done|done|].
  rewrite (decode_login_response _ _ _ _ _ Hm). unfold login_notice.
  case_decide as Hc; [by rewrite bool_decide_eq_true_2|by rewrite bool_decide_eq_false_2].
Qed.

(** Chat conversation.  When a client sends a text of 1 to 512 bytes and its
    session [k] is in a room, the server queues one message for each member of
    that room, itself included, and for nobody else, and every one of them is
    shown to its user as the text from that sender in that room. *)
Lemma chat_conversation {C} `{ClientTransport C, FlatBuffersSpec, EnvironmentSpec}
    (client : C) (gl : GameLogicSystem) (k q : Z) (text : string) (s : SessionState)
    (Hgl : gl_reachable gl) (Hq : is_u32 q)
    (Htext : 1 ≤ zsize text ≤ max_chat_message_bytes)
    (Hs : sessions_ (room_system_ gl) !! k = Some s) (Hroom : ss_room_id s ≠ no_room_id) :
  ∃ data gl' out rm,
    client_ (SendChatRequest text (mkChatProtocolClient (Some client) q))
      = Some (cl_send data client)
    ∧ Update (DecodeProtocolPacket k data []) gl = Some gl'
    ∧ outgoing_messages_ gl' = outgoing_messages_ gl ++ out
    ∧ rooms_ (room_system_ gl) !! ss_room_id s = Some rm
    ∧ om_session_id <$> out ≡ₚ elements (rm_members rm)
    ∧ Forall (λ om, DecodePacket (om_payload om)
         = [ChatProtocolClient.ChatMessageReceivedEvent (ss_room_id s)
              (c_str (ss_display_name s)) (c_str text)]) out.
Proof.
  destruct (request_handed client (RequestChat text) k q Hq)
    as (data & Hsend & _ & _ & Hdec).
  { unfold max_chat_message_bytes in Htext. simpl. lia. }
  destruct (chat_handled gl k q text s Hgl Hs Hq Hroom Htext)
    as (gl' & out & rm & Heq & Ho & _ & Hrm & _ & Hids & Hall).
  exists data, gl', out, rm. rewrite Hdec. simpl in Hsend. rewrite Hsend.
  split_and!; [done|exact Heq|done|done|done|].
  eapply Forall_impl; [exact Hall|]. intros om (t & _ & Hv).
  by apply (decode_chat_broadcast _ _ _ _ _ _ _ Hv).
Qed.

(** ** Over the wire *)

Lemma wire_data_frame `{VectorAlloc} data :
  1 ≤ zlen data ≤ MAX_PAYLOAD_SIZE → wf_bytes data → wire_frame (Some data) (data_frame data).
Proof.
  intros Hlen Hb. assert (sendable data = true) as Hp.
  { unfold sendable. destruct (Z.eqb_spec (zlen data) 0); [lia|].
    by destruct (Z.ltb_spec MAX_PAYLOAD_SIZE (zlen data)); [lia|]. }
  destruct (build_data_spec 0 data ∅ pool_wf_empty Hp) as (cap & st & Hbuild & _).
  by apply (Session.wire_data 0 data ∅ (mkBuffer (data_frame data) cap) st pool_wf_empty).
Qed.

(** A request reaches the game logic.  When the user of a connected client
    makes a request, the transport client has one more frame on its way, after
    those sent before; when the bytes of that frame reach the server's session
    of that connection, the session reports one payload, consuming every byte,
    and the packet made of it is decoded into exactly the event of that request,
    with its request id and the session's id. *)
Lemma request_delivered `{VectorAlloc, FlatBuffersSpec} (bp : BufferPool)
    (now0 now : Z) (ins : list ClientInput) (ps : list bytes) (c : ClientImpl)
    (r : ClientRequest) (q id now1 : Z) (w : World) (Hrun : client_run now0 ins ps c)
    (Hup : is_connected c = true) (Hs : cl_shutting_down c = false) (Hq : is_u32 q)
    (Hr : request_ok r) (Hw : session_reachable bp id now1 w)
    (Hop : read_op (session w) = Some ReadHeader) :
  ∃ data c' w',
    send r (mkChatProtocolClient (Some c) q) = mkChatProtocolClient (Some c') (to_u32 (q + 1))
    ∧ client_pipeline c' = client_pipeline c ++ [data_frame data]
    ∧ feed 0 2 now (data_frame data) w = Some (w', [])
    ∧ received (effects w') = received (effects w) ++ [data]
    ∧ packet_events (mkPacket Data id data) = [request_event id q r].
Proof.
  destruct (request_handed c r id q Hq Hr) as (data & Hsend & Hlen & Hb & Hdec).
  pose proof (crun_inv now0 ins ps c Hrun) as Hc.
  destruct (client_handle_ok (ClSend data) c Hc I) as (c' & Heq & _).
  pose proof (wire_data_frame data Hlen Hb) as Hframe.
  pose proof (session_reachable_inv bp id now1 w Hw) as [Hbase _].
  destruct (feed_frames 0 now [Some data] [data_frame data] w) with (fuel := 2%nat)
    as (w' & es & Hfeed & _ & He & Hrec & _); [by split; [apply Hbase|]|by repeat constructor|done|].
  exists data, c', w'. split_and!.
  - rewrite Hsend. simpl. simpl in Heq. by rewrite Heq.
  - assert (connected c' = true ∧ cl_shutting_down c' = false) as [Hup' Hs'].
    { simpl in Heq. destruct (client_send_spec 0 data c (ci_pools c Hc)) as (cap & st & _ & E).
      rewrite E in Heq. injection Heq as <-. by destruct (_ && _). }
    destruct (cpipeline_step (ClSend data) c c' Hc I Heq Hup' Hs') as [_ Hp].
    rewrite (Hp I). unfold crequested. csimpl. rewrite decide_True; [done|].
    unfold sendable. destruct (Z.eqb_spec (zlen data) 0); [lia|].
    by destruct (Z.ltb_spec MAX_PAYLOAD_SIZE (zlen data)); [lia|].
  - change (mjoin [data_frame data]) with (data_frame data ++ []) in Hfeed.
    rewrite app_nil_r in Hfeed. exact Hfeed.
  - unfold received in *. rewrite He, omap_app, Hrec. done.
  - exact Hdec.
Qed.

(** ** Witnesses: a client just connected, the two users of [example_events] *)

Section Witnesses.
#[local] Existing Instance exact_alloc.
#[local] Existing Instance plain_codec.
#[local] Existing Instance plain_codec_spec.
#[local] Existing Instance plain_environment.
#[local] Existing Instance plain_environment_spec.

Lemma login_conversation_witness :
  ∃ data gl' om,
    client_ (SendLoginRequest "Bob" (mkChatProtocolClient (Some fresh_client) 1))
      = Some (cl_send data fresh_client)
    ∧ Update (DecodeProtocolPacket 1 data []) example_gl = Some gl'
    ∧ outgoing_messages_ gl' = outgoing_messages_ example_gl ++ [om]
    ∧ DecodePacket (om_payload om) = [ChatProtocolClient.ChatLoginFailedEvent "DUPLICATE_NAME"].
Proof.
  destruct (login_conversation fresh_client example_gl 1 1 "Bob" (example_session 1)
              example_reachable) as (data & gl' & om & H1 & H2 & H3 & _ & H4).
  - by_compute.
  - by_compute.
  - by_compute.
  - exists data, gl', om. split; [exact H1|]. split; [exact H2|]. split; [exact H3|].
    rewrite H4. by_compute.
Defined.

Lemma request_delivered_witness :
  ∃ data w', feed 0 2 2000 (data_frame data) started_world = Some (w', [])
    ∧ received (effects w') = [data]
    ∧ packet_events (mkPacket Data 7 data) = [JoinRoomRequestEvent 7 3 1001].
Proof.
  destruct (request_delivered example_pool 0 2000 [] [] fresh_client (RequestJoin 1001) 3 7 1000
              started_world fresh_run) as (data & c' & w' & _ & _ & Hfeed & Hr & Hd).
  - reflexivity.
  - reflexivity.
  - by_compute.
  - by_compute.
  - apply started_world_reachable.
  - reflexivity.
  - exists data, w'. split; [exact Hfeed|]. split; [exact Hr|exact Hd].
Defined.
End Witnesses.
