(* ===== verification/Delivery.v ===== *)
(** * From the game thread of the server to the chat client

    The bytes the server writes for one session, read by the transport client of
    that connection and polled by the chat client: the client sees the messages
    the game thread sent to its session, each once, in order. *)

From S2P Require Import Prelude Protocol BufferPool TransportDetail Session Packet Server ServerRun ServerInvariant ServerTable ServerPipeline ServerProperties Client ClientProperties Schema HeapLibrary ServerTypes RoomSystem GameLogicSystem ChatSpec EndToEnd.
From S2P Require ChatProtocolClient.
Import ChatProtocolClient(ClientTransport, ChatProtocolClient, mkChatProtocolClient, client_,
  PollEvents, DecodePacket, poll_loop_spec).

(** The payloads the game thread sends to session [id]. *)
Definition sent_payloads (id : Z) (tr : list TransportEvent) : list bytes :=
  omap (λ e, match e with
             | EvSent sid data =>
                 if decide (sid = id ∧ sendable data = true) then Some data else None
             | EvBroadcast data => if decide (sendable data = true) then Some data else None
             | EvPolled _ => None
             end) tr.

Lemma requested_payloads id tr : requested id tr = data_frame <$> sent_payloads id tr.
Proof.
  unfold requested, sent_payloads. induction tr as [|[pkt|sid data|data] tr IH]; csimpl; [done|done|..];
    case_decide; csimpl; by rewrite IH.
Qed.

Lemma sent_payloads_size id tr :
  Forall (λ p, 1 ≤ zlen p ≤ MAX_PAYLOAD_SIZE) (sent_payloads id tr).
Proof.
  assert (∀ data, sendable data = true → 1 ≤ zlen data ≤ MAX_PAYLOAD_SIZE) as Hsize.
  { intros data Hd. unfold sendable in Hd. apply negb_true_iff, orb_false_iff in Hd as [Hz Hm].
    apply Z.eqb_neq in Hz. apply Z.ltb_ge in Hm. unfold zlen in *. lia. }
  unfold sent_payloads. induction tr as [|[pkt|sid data|data] tr IH]; csimpl; [done|done|..];
    case_decide; csimpl; [constructor| |constructor|]; naive_solver.
Qed.

Section Wire.
Context `{VectorAlloc}.

Lemma wire_keepalive_bytes : wire_frame None keepalive_bytes.
Proof.
  destruct (build_frame_spec 0 FLAG_KEEPALIVE [] ∅ pool_wf_empty) as (cap & st & Hbuild & _);
    [done|].
  by apply (Session.wire_keepalive 0 ∅ (mkBuffer keepalive_bytes cap) st pool_wf_empty).
Qed.

(** Frames that are keepalives or the data frames of [ps], in order. *)
Lemma wire_items (ps frames : list bytes) :
  Forall (λ p, 1 ≤ zlen p ≤ MAX_PAYLOAD_SIZE ∧ wf_bytes p) ps →
  data_only frames = data_frame <$> ps →
  ∃ items, Forall2 wire_frame items frames ∧ omap (λ o : option bytes, o) items = ps.
Proof.
  revert ps. induction frames as [|f frames IH]; intros ps Hps Heq.
  - destruct ps as [|p ps]; [|done]. by exists [].
  - change (f :: frames) with ([f] ++ frames) in Heq. rewrite data_only_app in Heq.
    destruct (decide (f = keepalive_bytes)) as [->|Hf].
    + destruct (IH ps Hps) as (items & Hi & Ho); [exact Heq|]. exists (None :: items).
      split; [by constructor; [apply wire_keepalive_bytes|]|done].
    + assert (data_only [f] = [f]) as Hone
        by (unfold data_only; cbn [List.filter]; by rewrite bool_decide_true).
      rewrite Hone in Heq. destruct ps as [|p ps]; [done|]. simpl in Heq.
      injection Heq as -> Heq. apply Forall_cons in Hps as [[Hlen Hb] Hps].
      destruct (IH ps Hps Heq) as (items & Hi & Ho). exists (Some p :: items).
      split; [constructor; [by apply wire_data_frame|done]|exact (f_equal (cons p) Ho)].
Qed.

(** The data frames on the wire of a session that nothing was sent to before. *)
Lemma sent_on_wire pool tr tr' sv sv' o s s' :
  server_run pool tr sv → server_steps pool sv tr' sv' → unique_ids sv' →
  shutting_down sv' = false → objects sv !! o = Some s → objects sv' !! o = Some s' →
  closed_ s' = false → pipeline o sv = [] →
  ∃ n, data_only (wire_of o sv') = data_frame <$> take n (sent_payloads (object_id o) tr')
    ∧ (server_strand sv' = [] → strand_of o sv' = [] → waiting s' = [] →
       take n (sent_payloads (object_id o) tr') = sent_payloads (object_id o) tr').
Proof.
  intros Hrun Hst Hu Hup Ho Ho' Hopen Hnew. pose proof (run_inv pool tr sv Hrun) as Hsv.
  assert (unique_ids sv) as Hu0.
  { pose proof (gr_next _ _ (steps_grown pool sv tr' sv' Hsv Hst)). unfold unique_ids in *. lia. }
  pose proof (steps_pipeline pool sv tr' sv' o s s' Hsv (run_table pool tr sv Hrun Hu0)
                Hst Hu Hup Ho Ho' Hopen) as Heq.
  rewrite Hnew, requested_payloads in Heq. unfold pipeline in Heq. rewrite data_only_app in Heq.
  simpl in Heq. set (ps := sent_payloads (object_id o) tr') in *.
  exists (length (data_only (wire_of o sv'))). split.
  - rewrite fmap_take, <-Heq. by rewrite take_app_length.
  - intros E1 E2 E3. rewrite E1, E2, Ho' in Heq. cbn [from_option] in Heq. rewrite E3 in Heq.
    change (data_only ([] ++ _ ++ _)) with (data_only []) in Heq.
    apply (f_equal length) in Heq. rewrite length_app, length_fmap in Heq. simpl in Heq.
    apply take_ge. lia.
Qed.
End Wire.

(** What the game thread sends, the chat client sees.  Take a session of a
    reachable server to which nothing has been sent yet, any further run of a
    server that is not shutting down in which the session stays open, and give
    the bytes written to its socket to a new client of that connection: the
    client consumes all of them, and its next [PollEvents] returns the events
    decoded from the first payloads sent to that session or broadcast since, in
    order, each once; and from all of them once nothing is posted or waiting. *)
Lemma messages_arrive `{VectorAlloc, FlatBuffers} (pool : BufferPool)
    (tr tr' : list TransportEvent) (sv sv' : ServerImpl) (o : nat) (s s' : Session)
    (now0 now q : Z) (Hrun : server_run pool tr sv) (Hst : server_steps pool sv tr' sv')
    (Hu : unique_ids sv') (Hup : shutting_down sv' = false) (Ho : objects sv !! o = Some s)
    (Ho' : objects sv' !! o = Some s') (Hopen : closed_ s' = false) (Hnew : pipeline o sv = [])
    (Hbytes : Forall wf_bytes (sent_payloads (object_id o) tr'))
    (Hroom : zlen (wire_of o sv') ≤ RECEIVE_QUEUE_CAPACITY) :
  ∃ n c' p',
    let ps := take n (sent_payloads (object_id o) tr') in
    client_feed (2 * length (wire_of o sv')) now (mjoin (wire_of o sv')) (client_create now0)
      = Some (c', [])
    ∧ PollEvents (S (length ps)) (mkChatProtocolClient (Some c') q)
      = Some (mjoin (DecodePacket <$> ps), p')
    ∧ (server_strand sv' = [] → strand_of o sv' = [] → waiting s' = [] →
       ps = sent_payloads (object_id o) tr').
Proof.
  pose proof (sent_on_wire pool tr tr' sv sv' o s s' Hrun Hst Hu Hup Ho Ho' Hopen Hnew)
    as (n & Hwire & Hall). exists n. set (ps := take n _) in *.
  destruct (wire_items ps (wire_of o sv')) as (items & Hitems & Hps); [|done|].
  { apply Forall_take, Forall_and. split; [apply sent_payloads_size|done]. }
  destruct (client_feed_frames now items (wire_of o sv') (client_create now0))
    with (fuel := (2 * length (wire_of o sv'))%nat) as (c' & Hfeed & _ & Hq & _); [|done|lia|].
  { split; [apply pool_wf_empty|done|done|exact Hroom]. }
  rewrite Hps in Hq. change (receive_queue c' = ps) in Hq.
  destruct (poll_loop_spec c' []) as (c2 & Hpoll & _).
  change (ChatProtocolClient.cl_pending c') with (receive_queue c') in Hpoll. rewrite Hq in Hpoll.
  exists c', (mkChatProtocolClient (Some c2) q). split_and!; [done| |done].
  unfold PollEvents. cbn [client_]. rewrite Hpoll. done.
Qed.
