(* ===== verification/NightServer.v ===== *)
(** * NightServer/NightServer.cpp: the main loop

    One iteration of the loop of [main]: drain the network, run the game logic,
    hand over its two queues.  [main_tick] is an iteration in one piece.  The I/O
    threads run all the while, so the process is a game thread that takes one
    step at a time ([main_step]: a poll, a batch of events, a send, a
    disconnection); between any two steps they may change the transport.  The
    pause until the next tick has no effect on the state.  The loop runs for ever;
    its states are [server_reachable]. *)

From S2P Require Import Prelude Protocol Schema ServerTypes RoomSystem GameLogicSystem ChatSpec ChatInvariant ChatViews ChatFacts GameLogicRefinement GameLogicProperties Packet NetworkSystem.

Record ServerProcess (S : Type) := mkServerProcess {
  network_system : S;
  game_logic_system : GameLogicSystem;
}.
Arguments mkServerProcess {S}. Arguments network_system {S}. Arguments game_logic_system {S}.

(** Where the game thread is: in the loop of [Receive] with the events so far, or
    in [Flush] with what it still has to hand over.  [Flushing [] []] is the end
    of the tick, until the next. *)
Inductive MainPhase :=
  | Receiving (events : list ServerEvent)
  | Flushing (outgoing_messages : list OutgoingMessage) (pending_disconnects : list Z).

Abbreviation Sleeping := (Flushing [] []).

Record RunningProcess (S : Type) := mkRunning {
  running : ServerProcess S;
  main_phase : MainPhase;
}.
Arguments mkRunning {S}. Arguments running {S}. Arguments main_phase {S}.

Abbreviation server_of p := (network_system (running p)).
Abbreviation logic_of p := (game_logic_system (running p)).
Abbreviation at_phase server gl phase := (mkRunning (mkServerProcess server gl) phase).

(** Payloads the transport takes and the client decodes. *)
Definition deliverable `{FlatBuffers} (om : OutgoingMessage) : Prop :=
  1 ≤ zlen (om_payload om) ≤ MAX_PAYLOAD_SIZE ∧ wf_bytes (om_payload om)
  ∧ is_Some (VerifiedMessage (om_payload om)).

Section Main.
Context {S : Type} `{ServerTransport S, FlatBuffers, Environment}.
Implicit Types (p : RunningProcess S) (s : S) (gl : GameLogicSystem).

Definition main_port : Z := 12345.

(** Up to the loop: exit code 1 when the server cannot be created. *)
Definition main_start (created_server : expected S string) : expected (ServerProcess S) Z :=
  match created_server with
  | inr error => inr 1
  | inl server => inl (mkServerProcess server (game_logic_init room_system_init))
  end.

(** The body of the loop; [fuel] bounds the polls of [Receive]. *)
Definition main_tick (fuel : nat) (process : ServerProcess S) : option (ServerProcess S) :=
  '(events, server) ← Receive fuel (network_system process);
  gl ← Update events (game_logic_system process);
  let '(outgoing, gl) := TakeOutgoingMessages gl in
  let '(disconnects, gl) := TakePendingDisconnects gl in
  Some (mkServerProcess (Flush outgoing disconnects server) gl).

(** The next step of the game thread. *)
Definition main_step (p : RunningProcess S) : option (RunningProcess S) :=
  let server := server_of p in
  let gl := logic_of p in
  match main_phase p with
  | Receiving events =>
      match receive_next events server with
      | Some (events, server) => Some (at_phase server gl (Receiving events))
      | None =>
          gl ← Update events gl;
          let '(outgoing, gl) := TakeOutgoingMessages gl in
          let '(disconnects, gl) := TakePendingDisconnects gl in
          Some (at_phase server gl (Flushing outgoing disconnects))
      end
  | Flushing (message :: outgoing) disconnects =>
      Some (at_phase (tr_send (om_session_id message) (om_payload message) server) gl
              (Flushing outgoing disconnects))
  | Flushing [] (session_id :: disconnects) =>
      Some (at_phase (tr_disconnect session_id server) gl (Flushing [] disconnects))
  | Flushing [] [] => Some (at_phase (tr_update server) gl (Receiving []))
  end.

(** [n] steps of the game thread while the I/O threads do nothing. *)
Fixpoint main_alone (n : nat) (p : RunningProcess S) : option (RunningProcess S) :=
  match n with
  | O => Some p
  | Datatypes.S n => p ← main_step p; main_alone n p
  end.

(** What the I/O threads may have queued: packets of any bytes. *)
Definition packets_wf (s : S) : Prop :=
  Forall (λ pkt, is_u32 (pkt_session_id pkt) ∧ wf_bytes (pkt_data pkt)) (tr_pending s).

(** States of the process: between two steps of the game thread the transport may
    change in any way that leaves well-formed packets in its queue. *)
Inductive server_reachable : RunningProcess S → Prop :=
  | server_started s :
      server_reachable (at_phase s (game_logic_init room_system_init) Sleeping)
  | server_network p s' :
      server_reachable p → packets_wf s' → server_reachable (at_phase s' (logic_of p) (main_phase p))
  | server_main p p' :
      server_reachable p → packets_wf (server_of p) → main_step p = Some p' → server_reachable p'.

Definition queues_empty (gl : GameLogicSystem) : Prop :=
  outgoing_messages_ gl = [] ∧ pending_disconnects_ gl = [].

(** A tick from [p0] on: after [n] steps of the game thread, while the I/O threads
    have pushed the packets [pushed]. *)
Inductive tick_run (p0 : RunningProcess S) : nat → list Packet → RunningProcess S → Prop :=
  | tick_start : tick_run p0 0 [] p0
  | tick_io n pushed p s' new :
      tick_run p0 n pushed p → tr_pending s' = tr_pending (server_of p) ++ new → packets_wf s' →
      tick_run p0 n (pushed ++ new) (at_phase s' (logic_of p) (main_phase p))
  | tick_main n pushed p p' :
      tick_run p0 n pushed p → main_phase p ≠ Sleeping → main_step p = Some p' →
      tick_run p0 (Datatypes.S n) pushed p'.

Lemma main_alone_add n m p :
  main_alone (n + m) p = (p' ← main_alone n p; main_alone m p').
Proof.
  revert p. induction n as [|n IH]; intros p; [done|]. simpl.
  destruct (main_step p) as [p1|]; [apply IH|done].
Qed.

(** *** [Flush], step by step *)

Lemma send_alone outgoing disconnects s gl :
  main_alone (length outgoing) (at_phase s gl (Flushing outgoing disconnects))
  = Some (at_phase (foldl (λ s m, tr_send (om_session_id m) (om_payload m) s) s outgoing) gl
            (Flushing [] disconnects)).
Proof. revert s. induction outgoing as [|m ms IH]; intros s; [reflexivity|]. exact (IH _). Qed.

Lemma disconnect_alone disconnects s gl :
  main_alone (length disconnects) (at_phase s gl (Flushing [] disconnects))
  = Some (at_phase (foldl (λ s k, tr_disconnect k s) s disconnects) gl Sleeping).
Proof. revert s. induction disconnects as [|k ks IH]; intros s; [reflexivity|]. exact (IH _). Qed.

Lemma flush_alone outgoing disconnects s gl :
  main_alone (length outgoing + length disconnects) (at_phase s gl (Flushing outgoing disconnects))
  = Some (at_phase (Flush outgoing disconnects s) gl Sleeping).
Proof. rewrite main_alone_add, send_alone. apply disconnect_alone. Qed.

(** *** [main_tick] is what the steps of an undisturbed tick add up to *)

Lemma receive_alone fuel events s gl events' s' :
  receive_loop fuel events s = Some (events', s') →
  ∃ n, main_alone n (at_phase s gl (Receiving events)) = Some (at_phase s' gl (Receiving events'))
       ∧ receive_next events' s' = None.
Proof.
  revert events s. induction fuel as [|fuel IH]; intros events s Hr; [done|]. simpl in Hr.
  destruct (receive_next events s) as [[events1 s1]|] eqn:Hn.
  - destruct (IH events1 s1 Hr) as (n & Hn1 & ?). exists (Datatypes.S n). split; [|done].
    cbn [main_alone]. unfold main_step at 1. cbn [running main_phase network_system game_logic_system].
    rewrite Hn. exact Hn1.
  - injection Hr as -> ->. by exists 0%nat.
Qed.

Lemma main_tick_steps fuel process process' :
  main_tick fuel process = Some process' →
  ∃ n, main_alone n (mkRunning process Sleeping) = Some (mkRunning process' Sleeping).
Proof.
  destruct process as [s gl]. unfold main_tick, Receive. intros Htick.
  destruct (receive_loop fuel [] (tr_update (network_system (mkServerProcess s gl)))) as [[evs s1]|] eqn:Hr;
    [|done]. cbn [network_system] in Hr.
  simpl in Htick. destruct (Update evs gl) as [gl1|] eqn:Hu; [|done]. simpl in Htick. injection Htick as <-.
  destruct (receive_alone fuel [] _ gl evs s1 Hr) as (n & Hn & Hempty).
  exists (1 + (n + (1 + (length (outgoing_messages_ gl1) + length (pending_disconnects_ gl1)))))%nat.
  rewrite main_alone_add. cbn [main_alone main_step running main_phase network_system game_logic_system mbind option_bind].
  rewrite main_alone_add, Hn. cbn [mbind option_bind]. rewrite main_alone_add. cbn [main_alone].
  unfold main_step at 1. cbn [running main_phase network_system game_logic_system].
  rewrite Hempty, Hu. cbn [mbind option_bind]. apply flush_alone.
Qed.

Context `{!ServerTransportSpec S, !FlatBuffersSpec, !EnvironmentSpec}.

(** *** Invariants *)

Lemma encode_all_deliverable msgs :
  Forall (fits ∘ snd) msgs → Forall deliverable (encode_all msgs).
Proof.
  induction 1 as [|km msgs Hkm _ IH]; [constructor|]. unfold encode_all in *. csimpl.
  destruct (encode_fits km Hkm) as (om & Heq & _ & Hv & Hlen). rewrite Heq. constructor; [|done].
  unfold max_protocol_payload_bytes in Hlen. unfold deliverable, MAX_PAYLOAD_SIZE.
  split_and!; [lia|lia| |by eexists].
  unfold encode in Heq. case_match; [done|]. injection Heq as <-. apply fb_build_bytes, Hkm.
Qed.

Definition phase_ok (phase : MainPhase) : Prop :=
  match phase with
  | Receiving events => Forall event_wf events
  | Flushing outgoing _ => Forall deliverable outgoing
  end.

Lemma packets_wf_update s : packets_wf s → packets_wf (tr_update s).
Proof. unfold packets_wf. by rewrite tr_pending_update. Qed.

(** A turn of the receive loop. *)
Lemma receive_wf events s events' s' :
  Forall event_wf events → packets_wf s → receive_next events s = Some (events', s') →
  Forall event_wf events'.
Proof.
  intros Hevs Hs Hn. pose proof (receive_next_spec s events) as Hspec. unfold packets_wf in Hs.
  destruct (tr_pending s) as [|pkt rest]; [congruence|].
  destruct Hspec as (s1 & Heq & _). rewrite Heq in Hn. injection Hn as <- _.
  apply Forall_cons in Hs as [[Hk Hb] _]. apply Forall_app. split; [done|]. by apply packet_events_wf.
Qed.

(** The batch of events of a tick. *)
Lemma update_ok events gl :
  gl_reachable gl → queues_empty gl → Forall event_wf events →
  ∃ gl' msgs ds, Update events gl = Some gl'
    ∧ chat_run initial_names (sessions_ (room_system_ gl)) events (sessions_ (room_system_ gl')) msgs ds
    ∧ outgoing_messages_ gl' = encode_all msgs ∧ pending_disconnects_ gl' = ds
    ∧ Forall deliverable (outgoing_messages_ gl')
    ∧ gl_reachable (TakePendingDisconnects (TakeOutgoingMessages gl').2).2.
Proof.
  intros Hgl [Ho Hd] Hevs. destruct (Update_total events gl (gl_reachable_ok _ Hgl)) as [gl' Hu].
  destruct (Update_ok events gl gl' (gl_reachable_ok _ Hgl) Hevs Hu)
    as (msgs & ds & Hrun & Hout & Hdis & Hfits & _).
  rewrite Ho in Hout. rewrite Hd in Hdis. exists gl', msgs, ds. split_and!; try done.
  - rewrite Hout. by apply encode_all_deliverable.
  - unfold gl_reachable in *. eapply rtc_r; [eapply rtc_r; [eapply rtc_r; [done|]|]|].
    + by eapply gl_step_update.
    + apply gl_step_outgoing.
    + apply gl_step_disconnects.
Qed.

Definition main_ok p : Prop :=
  gl_reachable (logic_of p) ∧ queues_empty (logic_of p) ∧ phase_ok (main_phase p).

(** The game thread can always take its next step, and keeps the invariant. *)
Lemma main_step_ok p :
  main_ok p → packets_wf (server_of p) → ∃ p', main_step p = Some p' ∧ main_ok p'.
Proof.
  destruct p as [[s gl] [events|[|m outgoing] [|k disconnects]]]; unfold main_ok, main_step;
    cbn [running main_phase network_system game_logic_system phase_ok]; intros (Hgl & Hq & Hph) Hnet.
  - destruct (receive_next events s) as [[events' s']|] eqn:Hn.
    + eexists. split; [done|]. split_and!; [done|apply Hq..|]. by eapply receive_wf.
    + destruct (update_ok events gl Hgl Hq Hph) as (gl' & msgs & ds & -> & _ & _ & _ & Hout & Hgl').
      eexists. split; [done|]. by split_and!.
  - eexists. split; [done|]. by split_and!; [|apply Hq..|constructor].
  - eexists. split; [done|]. by split_and!; [|apply Hq..|].
  - eexists. split; [done|]. apply Forall_cons in Hph as [_ Hph]. by split_and!; [|apply Hq..|].
  - eexists. split; [done|]. apply Forall_cons in Hph as [_ Hph]. by split_and!; [|apply Hq..|].
Qed.

Lemma server_reachable_ok p : server_reachable p → main_ok p.
Proof.
  induction 1 as [s|p s' _ IH _|p p' _ IH Hnet Hstep].
  - split_and!; [apply rtc_refl|done..|constructor].
  - exact IH.
  - destruct (main_step_ok p IH Hnet) as (p1 & Heq & Hok). congruence.
Qed.

Lemma flush_pending outgoing disconnects s : tr_pending (Flush outgoing disconnects s) = tr_pending s.
Proof.
  unfold Flush. transitivity (tr_pending (foldl (λ s m, tr_send (om_session_id m) (om_payload m) s) s outgoing)).
  - generalize (foldl (λ s m, tr_send (om_session_id m) (om_payload m) s) s outgoing). clear s.
    induction disconnects as [|k ks IH]; intros s; [done|]. simpl. by rewrite IH, tr_pending_disconnect.
  - revert s. induction outgoing as [|m ms IH]; intros s; [done|]. simpl. by rewrite IH, tr_pending_send.
Qed.

(** A step polls at most the oldest packet. *)
Lemma main_step_pending p p' :
  main_step p = Some p' →
  match main_phase p with
  | Receiving events =>
      match tr_pending (server_of p) with
      | [] => ∃ gl, server_of p' = server_of p ∧ Update events (logic_of p) = Some gl
          ∧ main_phase p' = Flushing (outgoing_messages_ gl) (pending_disconnects_ gl)
          ∧ logic_of p' = (TakePendingDisconnects (TakeOutgoingMessages gl).2).2
      | pkt :: rest => tr_pending (server_of p') = rest ∧ logic_of p' = logic_of p
          ∧ main_phase p' = Receiving (events ++ packet_events pkt)
      end
  | Flushing _ _ => tr_pending (server_of p') = tr_pending (server_of p) ∧ logic_of p' = logic_of p
  end.
Proof.
  destruct p as [[s gl] [events|[|m outgoing] [|k disconnects]]]; unfold main_step;
    cbn [running main_phase network_system game_logic_system].
  - pose proof (receive_next_spec s events) as Hn. destruct (tr_pending s) as [|pkt rest].
    + rewrite Hn. destruct (Update events gl) as [gl'|] eqn:Hu; [|done]. intros [= <-].
      exists gl'. by split_and!.
    + destruct Hn as (s' & -> & Hrest). by intros [= <-].
  - intros [= <-]. split; [apply tr_pending_update|done].
  - intros [= <-]. split; [apply tr_pending_disconnect|done].
  - intros [= <-]. split; [apply tr_pending_send|done].
  - intros [= <-]. split; [apply tr_pending_send|done].
Qed.

Lemma main_step_packets p p' : main_step p = Some p' → packets_wf (server_of p) → packets_wf (server_of p').
Proof.
  intros Hstep Hnet. pose proof (main_step_pending p p' Hstep) as Hp. unfold packets_wf in *.
  destruct (main_phase p) as [events|out ds]; [|by destruct Hp as [-> _]].
  destruct (tr_pending (server_of p)) as [|pkt rest] eqn:Hq.
  - destruct Hp as (gl & -> & _). by rewrite Hq.
  - destruct Hp as (-> & _). by apply Forall_cons in Hnet as [_ ?].
Qed.

Lemma main_alone_reachable n p p' :
  server_reachable p → packets_wf (server_of p) → main_alone n p = Some p' →
  server_reachable p' ∧ packets_wf (server_of p').
Proof.
  revert p. induction n as [|n IH]; intros p Hp Hnet Hn; [by simplify_eq/=|]. simpl in Hn.
  destruct (main_step p) as [p1|] eqn:Hstep; [|done].
  apply (IH p1); [by eapply server_main|by eapply main_step_packets|exact Hn].
Qed.

Lemma packets_events_wf packets :
  Forall (λ pkt, is_u32 (pkt_session_id pkt) ∧ wf_bytes (pkt_data pkt)) packets →
  Forall event_wf (mjoin (packet_events <$> packets)).
Proof.
  intros Hps. apply Forall_join, Forall_fmap. eapply Forall_impl; [exact Hps|].
  intros pkt [Hk Hb]. by apply packet_events_wf.
Qed.

(** Left alone, the game thread finishes its tick, and empties the queue if it is
    still receiving. *)
Lemma tick_ends p :
  main_ok p → packets_wf (server_of p) →
  ∃ n p', main_alone n p = Some p' ∧ main_phase p' = Sleeping
    ∧ ∀ events, main_phase p = Receiving events → tr_pending (server_of p') = [].
Proof.
  destruct p as [[s gl] [events|outgoing disconnects]]; unfold main_ok;
    cbn [running main_phase network_system game_logic_system phase_ok]; intros (Hgl & Hq & Hph) Hnet.
  - destruct (receive_loop_spec s events) as (s1 & Hloop & Hempty).
    destruct (receive_alone _ events s gl _ s1 Hloop) as (n & Hn & Hnext).
    destruct (update_ok (events ++ mjoin (packet_events <$> tr_pending s)) gl Hgl Hq)
      as (gl1 & _ & _ & Hu & _); [by apply Forall_app; split; [|apply packets_events_wf]|].
    exists (n + (1 + (length (outgoing_messages_ gl1) + length (pending_disconnects_ gl1))))%nat.
    eexists. rewrite main_alone_add, Hn. cbn [mbind option_bind]. rewrite main_alone_add. cbn [main_alone].
    unfold main_step at 1. cbn [running main_phase network_system game_logic_system].
    rewrite Hnext, Hu. cbn [mbind option_bind]. split; [apply flush_alone|]. split; [done|].
    intros _ _. cbn [running network_system]. by rewrite flush_pending.
  - eexists _, _. split; [apply flush_alone|]. by split.
Qed.

(** Where a tick from [p0] is after polling [polled] and [n] steps. *)
Definition tick_at (p0 : RunningProcess S) (polled : list Packet) (n : nat) p : Prop :=
  match main_phase p with
  | Receiving events =>
      events = mjoin (packet_events <$> polled) ∧ logic_of p = logic_of p0 ∧ n = length polled
  | Flushing outgoing disconnects =>
      ∃ gl sent told, Update (mjoin (packet_events <$> polled)) (logic_of p0) = Some gl
        ∧ outgoing_messages_ gl = sent ++ outgoing ∧ pending_disconnects_ gl = told ++ disconnects
        ∧ logic_of p = (TakePendingDisconnects (TakeOutgoingMessages gl).2).2
        ∧ n = (length polled + 1 + length sent + length told)%nat
  end.

Lemma tick_at_flush p0 polled n p p' :
  main_step p = Some p' → main_phase p ≠ Sleeping → tick_at p0 polled n p →
  (∀ events, main_phase p ≠ Receiving events) → tick_at p0 polled (Datatypes.S n) p'.
Proof.
  destruct p as [[s gl] [events|[|m outgoing] [|k disconnects]]]; intros Hstep Hne Hat Hph;
    [by edestruct Hph|done|..]; injection Hstep as <-; unfold tick_at in *;
    cbn [running main_phase network_system game_logic_system] in *;
    destruct Hat as (gl' & sent & told & Hu & Ho & Hd & Hl & ->).
  - exists gl', sent, (told ++ [k]). rewrite length_app, Hd, <-app_assoc. simpl. split_and!; [done..|lia].
  - exists gl', (sent ++ [m]), told. rewrite length_app, Ho, <-app_assoc. simpl. split_and!; [done..|lia].
  - exists gl', (sent ++ [m]), told. rewrite length_app, Ho, <-app_assoc. simpl. split_and!; [done..|lia].
Qed.

Lemma tick_accounts p0 n pushed p :
  main_phase p0 = Receiving [] → tick_run p0 n pushed p →
  ∃ polled, tr_pending (server_of p0) ++ pushed = polled ++ tr_pending (server_of p)
    ∧ tick_at p0 polled n p.
Proof.
  intros Hbegin. induction 1 as [|n pushed p s' new _ (polled & Hq & Hat) Hs' _
    |n pushed p p' _ (polled & Hq & Hat) Hne Hstep].
  - exists []. rewrite app_nil_r. split; [done|]. unfold tick_at. by rewrite Hbegin.
  - exists polled. cbn [running network_system]. by rewrite Hs', !app_assoc, Hq.
  - pose proof (main_step_pending p p' Hstep) as Hpend.
    destruct (main_phase p) as [events|out ds] eqn:Hph.
    + unfold tick_at in Hat. rewrite Hph in Hat. destruct Hat as (-> & Hl & ->).
      destruct (tr_pending (server_of p)) as [|pkt rest] eqn:Hp.
      * destruct Hpend as (gl & Hs & Hu & Hph' & Hl'). exists polled. rewrite Hs, Hp. split; [done|].
        unfold tick_at. rewrite Hph', Hl', <-Hl. exists gl, [], []. simpl. split_and!; [done..|lia].
      * destruct Hpend as (Hr & Hl' & Hph'). exists (polled ++ [pkt]). rewrite Hr, <-app_assoc. split; [done|].
        unfold tick_at. rewrite Hph', Hl', Hl, fmap_app, join_app, length_app. simpl.
        rewrite app_nil_r. split_and!; [done..|lia].
    + exists polled. destruct Hpend as [-> _]. split; [done|].
      apply (tick_at_flush p0 polled n p p'); [done|by rewrite Hph|done|by rewrite Hph].
Qed.

Lemma tick_run_reachable p0 n pushed p :
  server_reachable p0 → packets_wf (server_of p0) → tick_run p0 n pushed p →
  server_reachable p ∧ packets_wf (server_of p).
Proof.
  intros Hp0 Hnet. induction 1 as [|n pushed p s' new _ [Hp _] _ Hs'|n pushed p p' _ [Hp Hn] _ Hstep]; [done|..].
  - split; [by apply server_network|done].
  - split; [by eapply server_main|by eapply main_step_packets].
Qed.
End Main.

