(* ===== verification/NightServerRun.v ===== *)
(** * The server process over its own transport

    [NightServer] reasons about the main loop against the interface
    [ServerTransport]; here the transport is [ServerImpl].  Between any two steps
    of the game thread its I/O threads may run.  A step of the game thread is at
    most one call of the transport ([main_input]), so every state of the process
    is a state of both: a run of the transport, and a [server_reachable] state of
    the main loop, and the theorems about either apply to the program as a
    whole. *)

From S2P Require Import Prelude Protocol BufferPool TransportDetail Session Packet Server ServerRun ServerInvariant ServerProperties ServerInterface Schema HeapLibrary ServerTypes RoomSystem GameLogicSystem ChatSpec ChatInvariant ChatViews ChatFacts GameLogicRefinement GameLogicProperties NetworkSystem NightServer.

(** What the I/O threads do. *)
Definition is_io (i : ServerInput) : bool :=
  match i with
  | SvAccept _ _ | SvTask _ _ | SvPosted _ _ | SvCompletion _ _ _ => true
  | _ => false
  end.

(** The call of the transport in the next step of the game thread. *)
Definition main_input (p : RunningProcess ServerImpl) : option ServerInput :=
  match main_phase p with
  | Receiving _ => match packet_queue (server_of p) with [] => None | _ => Some SvPoll end
  | Flushing (message :: _) _ => Some (SvSend GAME_THREAD (om_session_id message) (om_payload message))
  | Flushing [] (session_id :: _) => Some (SvDisconnect session_id)
  | Sleeping => None
  end.

(** The messages a trace of the transport sends; nothing broadcasts. *)
Definition sends (tr : list TransportEvent) : list OutgoingMessage :=
  omap (λ e, match e with EvSent sid data => Some (mkOutgoingMessage sid data) | _ => None end) tr.
Definition no_broadcast (tr : list TransportEvent) : Prop := Forall (λ e, ∀ data, e ≠ EvBroadcast data) tr.

Section Process.
Context `{VectorAlloc, FlatBuffers, Environment} (pool : BufferPool).
Implicit Types (p : RunningProcess ServerImpl).

(** [main] from the creation of the server, whatever the acceptor answers, in any
    interleaving with the I/O threads. *)
Inductive process_run : RunningProcess ServerImpl → Prop :=
  | process_start acceptor process :
      main_start (Server.create acceptor main_port) = inl process →
      process_run (mkRunning process Sleeping)
  | process_io p i sv' :
      process_run p → is_io i = true → server_enabled i (server_of p) →
      server_handle pool i (server_of p) = Some sv' →
      process_run (at_phase sv' (logic_of p) (main_phase p))
  | process_main p p' : process_run p → main_step p = Some p' → process_run p'.

Lemma steps_trans sv1 sv2 sv3 tr1 tr2 :
  server_steps pool sv1 tr1 sv2 → server_steps pool sv2 tr2 sv3 → server_steps pool sv1 (tr1 ++ tr2) sv3.
Proof.
  intros Hst1 Hst2. induction Hst2 as [|tr i sv sv' _ IH Hen Heq]; [by rewrite app_nil_r|].
  rewrite app_assoc. by eapply steps_snoc.
Qed.

(** A step of the game thread is that call of the transport. *)
Lemma main_step_input p p' :
  server_inv pool (server_of p) → main_step p = Some p' →
  match main_input p with
  | Some i => server_enabled i (server_of p) ∧ server_handle pool i (server_of p) = Some (server_of p')
  | None => server_of p' = server_of p
  end.
Proof.
  destruct p as [[sv gl] [events|[|m outgoing] [|k disconnects]]]; unfold main_step, main_input, receive_next;
    cbn [running main_phase network_system game_logic_system]; intros Hsv.
  - simpl. unfold poll_packet. destruct (packet_queue sv) as [|pkt rest] eqn:Hq.
    + destruct (Update events gl); [|done]. by intros [= <-].
    + intros [= <-]. split; [done|]. simpl. unfold poll_packet. by rewrite Hq.
  - by intros [= <-].
  - by intros [= <-].
  - intros [= <-]. split; [done|]. simpl.
    by destruct (send_spec GAME_THREAD (om_session_id m) (om_payload m) sv (si_pools _ _ Hsv)) as (cap & st & _ & ->).
  - intros [= <-]. split; [done|]. simpl.
    by destruct (send_spec GAME_THREAD (om_session_id m) (om_payload m) sv (si_pools _ _ Hsv)) as (cap & st & _ & ->).
Qed.

(** What a step sends. *)
Definition step_sent p : list OutgoingMessage :=
  match main_phase p with Flushing (message :: _) _ => [message] | _ => [] end.

Lemma main_step_trace p p' :
  server_inv pool (server_of p) → main_step p = Some p' →
  ∃ tr, server_steps pool (server_of p) tr (server_of p') ∧ sends tr = step_sent p ∧ no_broadcast tr.
Proof.
  intros Hsv Hstep. pose proof (main_step_input p p' Hsv Hstep) as Hi.
  assert (∀ i, server_enabled i (server_of p) ∧ server_handle pool i (server_of p) = Some (server_of p') →
    server_steps pool (server_of p) (observe i (server_of p)) (server_of p')) as Hone.
  { intros i [Hen Heq]. by apply (steps_snoc pool (server_of p) [] i (server_of p)); [constructor|..]. }
  unfold main_input, step_sent in *. destruct (main_phase p) as [events|[|m outgoing] [|k disconnects]].
  - destruct (packet_queue (server_of p)) as [|pkt rest] eqn:Hq.
    + rewrite Hi. exists []. split_and!; [constructor|done|constructor].
    + eexists. split; [by apply Hone|]. simpl. unfold poll_packet. rewrite Hq. split; [done|]. by repeat constructor.
  - rewrite Hi. exists []. split_and!; [constructor|done|constructor].
  - eexists. split; [by apply Hone|]. split; [done|constructor].
  - eexists. split; [by apply Hone|]. destruct m. split; [done|]. by repeat constructor.
  - eexists. split; [by apply Hone|]. destruct m. split; [done|]. by repeat constructor.
Qed.

(** The packets waiting in a run are well formed. *)
Lemma run_packets_wf tr sv : server_run pool tr sv → packets_wf sv.
Proof.
  intros Hrun. pose proof (si_log _ _ (run_inv pool tr sv Hrun)) as Hlog.
  apply Forall_forall. intros p Hp. simpl in Hp.
  assert (p ∈ queued (packet_log sv)) as Hq.
  { rewrite (qi_fifo _ _ (run_queue pool tr sv Hrun)). apply elem_of_app. by right. }
  unfold queued in Hq. apply list_elem_of_omap in Hq as ([q r] & Hq & Heq).
  assert (q = p) as -> by (by destruct r; simplify_eq).
  apply (list_elem_of_fmap_2 fst) in Hq.
  destruct (proj1 (Forall_forall _ _) Hlog p Hq) as (o & _ & -> & Hb).
  split; [|done]. by apply wrap_range.
Qed.

Context `{!FlatBuffersSpec, !EnvironmentSpec}.

Lemma process_run_ok p :
  process_run p → (∃ tr, server_run pool tr (server_of p)) ∧ server_reachable p.
Proof.
  induction 1 as [acceptor process Hp|p i sv' _ [[tr Hrun] Hr] _ Hen Heq|p p' _ [[tr Hrun] Hr] Hstep].
  - destruct (Server.create acceptor main_port) as [sv|error] eqn:Hc; [|done].
    apply create_inl in Hc as ->. injection Hp as <-. split; [exists []; constructor|constructor].
  - assert (server_run pool (tr ++ observe i (server_of p)) sv') as Hrun' by (by eapply steps_snoc).
    split; [by eexists|]. apply server_network; [done|]. by eapply run_packets_wf.
  - split; [|eapply server_main; [done|by eapply run_packets_wf|done]].
    destruct (main_step_trace p p' (run_inv pool tr _ Hrun) Hstep) as (tr' & Hst & _).
    exists (tr ++ tr'). by eapply steps_trans.
Qed.

Lemma process_packets_wf p : process_run p → packets_wf (server_of p).
Proof. intros Hp. destruct (process_run_ok p Hp) as [[tr Hrun] _]. by eapply run_packets_wf. Qed.

Lemma process_alone n p p' : process_run p → main_alone n p = Some p' → process_run p'.
Proof.
  revert p. induction n as [|n IH]; intros p Hp Hn; [by simplify_eq/=|]. simpl in Hn.
  destruct (main_step p) as [p1|] eqn:Hstep; [|done]. apply (IH p1); [by eapply process_main|exact Hn].
Qed.
End Process.


(** ** How long a tick may take *)

Section Unbounded.
Context `{VectorAlloc, FlatBuffers, Environment} (pool : BufferPool).

(** The game thread has received [n] events in this tick, from [n] clients that
    connected just before each poll. *)
Record busy (n : nat) (p : RunningProcess ServerImpl) : Prop := {
  by_run : process_run pool p;
  by_receiving : ∃ events, main_phase p = Receiving events ∧ length events = n;
  by_accepting : accepting (server_of p) = true;
  by_open : shutting_down (server_of p) = false;
  by_working : stopped (server_of p) = false;
  by_empty : packet_queue (server_of p) = [];
}.

Lemma busy_one n p : busy n p → ∃ p', busy (Datatypes.S n) p'.
Proof.
  intros [Hrun (events & Hph & Hlen) Ha Hsh Hst Hq].
  destruct (on_accept_room 0 (server_of p) Hsh) as (Eacc & Eopen & Estop & Equeue & _); [by rewrite Hq|].
  rewrite Hq in Equeue. set (sv := on_accept 0 false (server_of p)) in *.
  assert (process_run pool (at_phase sv (logic_of p) (main_phase p))) as Hio.
  { by apply (process_io pool p (SvAccept 0 false) sv). }
  rewrite Hph in Hio. eexists. split; [eapply process_main; [exact Hio|]|..].
  - unfold main_step, receive_next. cbn [running main_phase network_system]. simpl.
    unfold poll_packet. by rewrite Equeue.
  - eexists. split; [done|]. simpl. unfold receive_packet. simpl. rewrite length_app. simpl. lia.
  - exact Eacc.
  - exact Eopen.
  - simpl. congruence.
  - done.
Qed.

(** The code sets no bound to the turns of the loop of [Receive]: as long as
    clients connect (or send) as fast as it polls, it keeps polling, and the tick
    neither updates nor answers. *)
Lemma receive_unbounded n : ∃ p, busy n p.
Proof.
  induction n as [|n [p Hp]]; [|by eapply busy_one].
  exists (at_phase server_create (game_logic_init room_system_init) (Receiving [])).
  split; [|by eexists|done..].
  eapply process_main; [by apply (process_start pool (mkAcceptorOps None None (λ _, None) None))|done].
Qed.
End Unbounded.

(** ** Witnesses: the first tick *)

Section Witnesses.
#[local] Existing Instance exact_alloc.
#[local] Existing Instance plain_codec.
#[local] Existing Instance plain_codec_spec.
#[local] Existing Instance plain_environment.
#[local] Existing Instance plain_environment_spec.

Definition io_act (i : ServerInput) (p : RunningProcess ServerImpl) : RunningProcess ServerImpl :=
  at_phase (next_state i (server_of p)) (logic_of p) (main_phase p).
Definition main_act (n : nat) (p : RunningProcess ServerImpl) : RunningProcess ServerImpl :=
  default p (main_alone n p).

Definition started_process : RunningProcess ServerImpl :=
  at_phase server_create (game_logic_init room_system_init) Sleeping.
Definition connected_process : RunningProcess ServerImpl := io_act (SvAccept 0 false) started_process.

(** The tick begins and polls the first client; then a second one connects. *)
Definition receiving_process : RunningProcess ServerImpl := main_act 1 connected_process.
Definition racing_process : RunningProcess ServerImpl :=
  io_act (SvAccept 0 false) (main_act 1 receiving_process).

Lemma started_process_run : process_run example_pool started_process.
Proof. by apply (process_start _ (mkAcceptorOps None None (λ _, None) None)). Qed.

Lemma connected_process_run : process_run example_pool connected_process.
Proof.
  apply (process_io example_pool started_process (SvAccept 0 false));
    [apply started_process_run|reflexivity|by split|by vm_compute].
Qed.


Lemma racing_process_tick :
  tick_run receiving_process 1 [mkPacket Connect 2 []] racing_process.
Proof.
  unfold racing_process, io_act.
  apply (tick_io receiving_process 1 [] (main_act 1 receiving_process) _ [mkPacket Connect 2 []]).
  - apply (tick_main receiving_process 0 [] receiving_process); [constructor|by vm_compute|by vm_compute].
  - by vm_compute.
  - apply Forall_singleton. split; [by_compute|constructor].
Qed.

End Witnesses.
