(* ===== verification/ServerTicks.v ===== *)
(** * What the main loop does to the transport

    The main loop only polls, sends and disconnects: no session object, no frame
    on the wire and no packet of the log changes, and the server strand gets one
    function per call.  What it sends is for sessions the game logic has heard of,
    hence for sessions that have existed.  The second half accounts for the events
    and messages of the tick in progress. *)

From S2P Require Import Prelude Protocol BufferPool TransportDetail Session Packet Server ServerRun ServerInvariant ServerTable ServerPipeline ServerStreams ServerInterface Schema HeapLibrary ServerTypes RoomSystem GameLogicSystem ChatSpec ChatInvariant ChatViews ChatFacts GameLogicRefinement GameLogicProperties NetworkSystem NightServer NightServerRun.

(** ** The transport *)

(** [P] holds of the sessions sent to. *)
Definition sends_to (P : Z → Prop) (task : ServerTask) : Prop :=
  match task with
  | TaskSend sid _ => P sid
  | TaskDisconnect _ => True
  | _ => False
  end.

Record game_frame (P : Z → Prop) (sv sv' : ServerImpl) : Prop := {
  gf_objects : objects sv' = objects sv;
  gf_wire : wire sv' = wire sv;
  gf_log : packet_log sv' = packet_log sv;
  gf_next : next_object sv' = next_object sv;
  gf_shutting : shutting_down sv' = shutting_down sv;
  gf_strand : ∃ news, server_strand sv' = server_strand sv ++ news ∧ Forall (sends_to P) news;
}.

Section Ticks.
Context `{VectorAlloc, FlatBuffers}.
Implicit Types (sv : ServerImpl) (P : Z → Prop).

Lemma game_frame_same P sv sv' :
  objects sv' = objects sv → wire sv' = wire sv → packet_log sv' = packet_log sv →
  next_object sv' = next_object sv → shutting_down sv' = shutting_down sv →
  server_strand sv' = server_strand sv → game_frame P sv sv'.
Proof. intros ????? E. split; [done..|]. exists []. by rewrite E, app_nil_r. Qed.

Lemma game_frame_refl P sv : game_frame P sv sv.
Proof. by apply game_frame_same. Qed.

Lemma game_frame_trans P sv1 sv2 sv3 : game_frame P sv1 sv2 → game_frame P sv2 sv3 → game_frame P sv1 sv3.
Proof.
  intros [E1 E2 E3 E4 E5 (n1 & E6 & H1)] [F1 F2 F3 F4 F5 (n2 & F6 & H2)]. split; try congruence.
  exists (n1 ++ n2). rewrite F6, E6, app_assoc. split; [done|]. by apply Forall_app.
Qed.

Lemma game_frame_send P sid data sv :
  P sid → pool_wf (all_pools sv) → game_frame P sv (tr_send sid data sv).
Proof.
  intros HP Hst. destruct (send_spec GAME_THREAD sid data sv Hst) as (cap & st & _ & E).
  simpl. rewrite E. simpl. destruct (_ && _); [|apply game_frame_refl].
  split; [done..|]. eexists. split; [done|]. by repeat constructor.
Qed.

Lemma game_frame_disconnect P sid sv : game_frame P sv (tr_disconnect sid sv).
Proof.
  simpl. unfold disconnect. destruct (shutting_down sv); [apply game_frame_refl|].
  split; [done..|]. eexists. split; [done|]. by repeat constructor.
Qed.

(** A step of the main loop, if [P] holds of the session it sends to. *)
Lemma game_frame_step pool P `{!Environment} p p' :
  server_inv pool (server_of p) → main_step p = Some p' →
  Forall (λ om, P (om_session_id om)) (step_sent p) → game_frame P (server_of p) (server_of p').
Proof.
  destruct p as [[sv gl] [events|[|m outgoing] [|k disconnects]]]; unfold main_step, step_sent, receive_next;
    cbn [running main_phase network_system game_logic_system]; intros Hsv Hstep HP.
  - simpl in Hstep. unfold poll_packet in Hstep. destruct (packet_queue sv) as [|pkt rest].
    + destruct (Update events gl); [|done]. simplify_eq/=. apply game_frame_refl.
    + simplify_eq/=. by apply game_frame_same.
  - simplify_eq/=. apply game_frame_refl.
  - injection Hstep as <-. apply game_frame_disconnect.
  - injection Hstep as <-. apply Forall_cons in HP as [HP _]. apply game_frame_send; [exact HP|exact (si_pools _ _ Hsv)].
  - injection Hstep as <-. apply Forall_cons in HP as [HP _]. apply game_frame_send; [exact HP|exact (si_pools _ _ Hsv)].
Qed.
End Ticks.

(** ** The game logic *)

(** [P] holds of the sessions of a chat: they and those that events are about are
    the only ones messages are for. *)
Section Known.
Context (rooms : RoomNames) (P : Z → Prop).

Definition known (c : Chat) : Prop := chat_wf rooms c ∧ ∀ k, is_Some (c !! k) → P k.
Definition all_known (msgs : list (Z * Message)) : Prop := Forall (P ∘ fst) msgs.

Lemma known_members c r ex l :
  known c → members_of c r ex l → Forall (λ m, P (ss_session_id m)) l.
Proof.
  intros [_ Hc] [_ Hl]. apply Forall_forall. intros m Hm. apply Hc. apply Hl in Hm as [-> _]. eauto.
Qed.

Lemma known_notify c s msgs : known c → notify_leave c s msgs → all_known msgs.
Proof.
  intros Hc [|l _ _ Hl]; [constructor|]. apply Forall_fmap. by eapply known_members.
Qed.

Lemma known_joined s l : P (ss_session_id s) → Forall (λ m, P (ss_session_id m)) l → all_known (joined_msgs s l).
Proof.
  intros Hs Hl. unfold joined_msgs. apply Forall_join, Forall_fmap. eapply Forall_impl; [exact Hl|].
  intros m Hm. simpl. destruct (ss_logged_in m); by repeat constructor.
Qed.

Lemma known_chat s content l ts : Forall (λ m, P (ss_session_id m)) l → all_known (chat_msgs s content l ts).
Proof.
  intros Hl. unfold chat_msgs. revert ts. induction Hl as [|m l Hm _ IH]; intros [|t ts]; [constructor..|].
  constructor; [done|apply IH].
Qed.

Lemma known_step c ev c' msgs ds :
  known c → P (event_session ev) → chat_step rooms c ev c' msgs ds → known c' ∧ all_known msgs.
Proof.
  intros Hc Hev Hstep. split.
  - split; [by eapply chat_step_wf; [apply Hc|]|]. intros k Hk.
    destruct (decide (k = event_session ev)) as [->|Hne]; [done|].
    apply Hc. by rewrite <-(chat_step_frame _ _ _ _ _ _ k Hstep Hne).
  - destruct Hstep; simpl in Hev; try (by repeat constructor);
      try (by eapply known_notify; [|done]).
    + repeat (apply Forall_app; split); [by eapply known_notify|by repeat constructor|].
      apply known_joined; [|by eapply known_members].
      simpl. match goal with Hs : c !! k = Some s |- _ => by rewrite (so_id _ _ _ (cw_session _ _ (proj1 Hc) k s Hs)) end.
    + apply Forall_app; split; [by eapply known_notify|by repeat constructor].
    + by eapply known_chat, known_members.
    + constructor; [done|by eapply known_notify].
Qed.

Lemma known_run c evs c' msgs ds :
  known c → Forall (P ∘ event_session) evs → chat_run rooms c evs c' msgs ds → known c' ∧ all_known msgs.
Proof.
  intros Hc Hevs. induction 1 as [|evs ev c1 c2 msgs1 msgs2 ds1 ds2 _ IH Hstep]; [by split; [|constructor]|].
  apply Forall_app in Hevs as [Hevs [Hev _]%Forall_cons]. destruct (IH Hevs) as [Hc1 Hm1].
  destruct (known_step _ _ _ _ _ Hc1 Hev Hstep). split; [done|by apply Forall_app].
Qed.
End Known.

(** ** The tick in progress *)

Lemma chat_run_app rooms c evs1 c1 msgs1 ds1 evs2 c2 msgs2 ds2 :
  chat_run rooms c evs1 c1 msgs1 ds1 → chat_run rooms c1 evs2 c2 msgs2 ds2 →
  chat_run rooms c (evs1 ++ evs2) c2 (msgs1 ++ msgs2) (ds1 ++ ds2).
Proof.
  intros H1 H2. induction H2 as [|evs ev c2 c3 msgs2 msgs3 ds2 ds3 _ IH Hstep]; [by rewrite !app_nil_r|].
  rewrite !app_assoc. by eapply chat_run_snoc.
Qed.

(** Events polled but not handled yet, messages taken from the game logic but not
    sent yet. *)
Definition polled_events (phase : MainPhase) : list ServerEvent :=
  match phase with Receiving events => events | Flushing _ _ => [] end.
Definition unsent (phase : MainPhase) : list OutgoingMessage :=
  match phase with Flushing outgoing _ => outgoing | Receiving _ => [] end.

(** The events that a step has the game logic handle, and the messages it takes. *)
Definition step_events (p : RunningProcess ServerImpl) : list ServerEvent :=
  match packet_queue (server_of p) with [] => polled_events (main_phase p) | _ => [] end.
Definition step_taken (p p' : RunningProcess ServerImpl) : list OutgoingMessage :=
  match main_phase p with Receiving _ => unsent (main_phase p') | Flushing _ _ => [] end.

Section Tick.
Context `{VectorAlloc, FlatBuffersSpec, EnvironmentSpec} (pool : BufferPool).
Implicit Types (p : RunningProcess ServerImpl).

(** A step of the main loop: what it polls, and a run of the chat specification
    for the events it has handled. *)
Lemma step_facts p p' :
  process_run pool p → main_step p = Some p' →
  ((∃ pkt, packet_queue (server_of p) = pkt :: packet_queue (server_of p') ∧ step_events p = []
      ∧ polled_events (main_phase p') = polled_events (main_phase p) ++ packet_events pkt)
   ∨ packet_queue (server_of p) = packet_queue (server_of p')
      ∧ step_events p = polled_events (main_phase p) ∧ polled_events (main_phase p') = [])
  ∧ (∃ msgs ds, chat_run initial_names (sessions_ (room_system_ (logic_of p))) (step_events p)
       (sessions_ (room_system_ (logic_of p'))) msgs ds ∧ step_taken p p' = encode_all msgs)
  ∧ unsent (main_phase p) ++ step_taken p p' = step_sent p ++ unsent (main_phase p').
Proof.
  intros Hp Hstep. pose proof (main_step_pending p p' Hstep) as Hpend. simpl in Hpend.
  destruct (process_run_ok pool p Hp) as [_ Hr]. destruct (server_reachable_ok p Hr) as (Hgl & Hq & Hph).
  assert (∀ c, ∃ msgs ds, chat_run initial_names c [] c msgs ds ∧ [] = encode_all msgs) as Hnone.
  { intros c. exists [], []. split; [constructor|done]. }
  unfold step_events, step_taken, step_sent. destruct (main_phase p) as [events|outgoing ds] eqn:Hphase.
  - destruct (packet_queue (server_of p)) as [|pkt rest] eqn:Hps.
    + destruct Hpend as (gl & Hs & Hu & -> & ->). rewrite Hs.
      destruct (update_ok events _ Hgl Hq Hph) as (gl' & msgs & ds & Hu' & Hrun & Hout & _).
      assert (gl' = gl) as -> by congruence. cbn [unsent polled_events].
      split_and!; [|by exists msgs, ds|done].
      right. by rewrite Hps.
    + destruct Hpend as (-> & -> & ->). split_and!; [|apply Hnone|done].
      left. by exists pkt.
  - destruct Hpend as [-> ->]. cbn [unsent polled_events].
    assert (outgoing = step_sent p ++ unsent (main_phase p') ∧ polled_events (main_phase p') = []) as [E1 E2].
    { unfold main_step in Hstep. unfold step_sent. rewrite Hphase in Hstep |- *.
      by destruct outgoing as [|m outgoing], ds as [|k ds]; injection Hstep as <-. }
    unfold step_sent in E1. rewrite Hphase in E1. rewrite E2, <-E1.
    split_and!; [right|destruct (packet_queue (server_of p)); apply Hnone|by rewrite app_nil_r].
    by destruct (packet_queue (server_of p)).
Qed.
End Tick.
