(* ===== verification/ProcessDelivery.v ===== *)
(** * From the game logic to the chat client, through the whole process

    [NightServerRun] runs the main loop over the transport server, [Delivery]
    follows the payloads of one session to its client.  Together: the messages
    that the main loop sends to a session are the events its client sees,
    whatever the I/O threads do in between. *)

From S2P Require Import Prelude Protocol BufferPool TransportDetail Session Packet Server ServerRun ServerInvariant ServerTable ServerPipeline ServerProperties ServerInterface Client ClientProperties Schema HeapLibrary ServerTypes RoomSystem GameLogicSystem ChatSpec ChatInvariant ChatViews ChatFacts GameLogicRefinement GameLogicProperties NetworkSystem EndToEnd Delivery NightServer NightServerRun.
From S2P Require ChatProtocolClient.
Import ChatProtocolClient(mkChatProtocolClient, PollEvents, DecodePacket).

Section Steps.
Context `{VectorAlloc, FlatBuffers, Environment} (pool : BufferPool).

(** The process from [p0] on, and what the main loop hands to the network. *)
Inductive process_steps (p0 : RunningProcess ServerImpl) :
    list OutgoingMessage → RunningProcess ServerImpl → Prop :=
  | psteps_refl : process_steps p0 [] p0
  | psteps_io out p i sv' :
      process_steps p0 out p → is_io i = true → server_enabled i (server_of p) →
      server_handle pool i (server_of p) = Some sv' →
      process_steps p0 out (at_phase sv' (logic_of p) (main_phase p))
  | psteps_main out p p' :
      process_steps p0 out p → main_step p = Some p' →
      process_steps p0 (out ++ step_sent p) p'.

Lemma process_steps_run p0 out p : process_run pool p0 → process_steps p0 out p → process_run pool p.
Proof.
  intros Hp0. induction 1 as [|out p i sv' _ IH Hio Hen Heq|out p p' _ IH Hstep]; [done|..].
  - by eapply process_io.
  - by eapply process_main.
Qed.

(** What [n] undisturbed steps send. *)
Fixpoint sent_alone (n : nat) (p : RunningProcess ServerImpl) : list OutgoingMessage :=
  match n with
  | O => []
  | Datatypes.S n => step_sent p ++ from_option (sent_alone n) [] (main_step p)
  end.

Lemma main_alone_steps n p0 out p p' :
  process_steps p0 out p → main_alone n p = Some p' → process_steps p0 (out ++ sent_alone n p) p'.
Proof.
  revert out p. induction n as [|n IH]; intros out p Hst Hn; simpl in Hn.
  - injection Hn as <-. by rewrite app_nil_r.
  - destruct (main_step p) as [p1|] eqn:Hstep; [|done]. cbn [sent_alone]. rewrite Hstep, app_assoc.
    apply IH; [by apply psteps_main|exact Hn].
Qed.

Lemma observe_io i sv : is_io i = true → observe i sv = [].
Proof. by destruct i. Qed.

(** The trace of the transport sends exactly what the main loop hands over. *)
Lemma process_steps_trace p0 out p :
  server_inv pool (server_of p0) → process_steps p0 out p →
  ∃ tr, server_steps pool (server_of p0) tr (server_of p) ∧ sends tr = out ∧ no_broadcast tr.
Proof.
  intros Hp0. induction 1 as [|out p i sv' _ (tr & Hst & Hs & Hb) Hio Hen Heq
    |out p p' _ (tr & Hst & Hs & Hb) Hstep].
  - exists []. split_and!; [constructor|done|constructor].
  - exists (tr ++ observe i (server_of p)). split; [by eapply steps_snoc|].
    rewrite (observe_io i) by done. by rewrite app_nil_r.
  - destruct (main_step_trace pool p p' (steps_inv pool _ _ _ Hp0 Hst) Hstep) as (tr' & Hst' & Hs' & Hb').
    exists (tr ++ tr'). split_and!; [by eapply steps_trans| |by apply Forall_app].
    unfold sends in *. rewrite omap_app. congruence.
Qed.

Definition messages_for (id : Z) (out : list OutgoingMessage) : list bytes :=
  om_payload <$> filter (λ om, om_session_id om = id) out.

Lemma sent_messages id tr :
  no_broadcast tr → Forall deliverable (sends tr) → sent_payloads id tr = messages_for id (sends tr).
Proof.
  unfold sent_payloads, messages_for, sends.
  induction 1 as [|[pkt|sid data|data] tr Hb _ IH]; intros Hall; csimpl in *; [done|by apply IH| |by edestruct Hb].
  apply Forall_cons in Hall as [[Hlen _] Hall]. specialize (IH Hall). rewrite filter_cons. simpl in *.
  assert (sendable data = true) as Hs.
  { unfold sendable. apply negb_true_iff, orb_false_iff.
    split; [apply Z.eqb_neq|apply Z.ltb_ge]; unfold zlen in *; lia. }
  repeat case_decide; csimpl; try naive_solver; by rewrite IH.
Qed.

Context `{!FlatBuffersSpec, !EnvironmentSpec}.

Lemma step_sent_deliverable p : process_run pool p → Forall deliverable (step_sent p).
Proof.
  intros Hp. destruct (process_run_ok pool p Hp) as [_ Hr].
  destruct (server_reachable_ok p Hr) as (_ & _ & Hph). unfold step_sent.
  destruct (main_phase p) as [|[|m outgoing] ds]; [constructor..|].
  apply Forall_singleton. by apply Forall_cons in Hph as [? _].
Qed.

Lemma process_steps_deliverable p0 out p :
  process_run pool p0 → process_steps p0 out p → Forall deliverable out.
Proof.
  intros Hp0 Hst. induction Hst as [|out p i sv' _ IH _ _ _|out p p' Hst IH Hstep]; [constructor|done|].
  apply Forall_app. split; [done|]. apply step_sent_deliverable. by eapply process_steps_run.
Qed.
End Steps.

(** C6. What the game logic says, the chat client sees.  Take a session of the
    running process to which nothing has been sent yet, and any further run of
    the process (steps of the main loop and of the I/O threads in any order) in
    which it stays open and at most 4096 frames are written to its socket, which
    is as many payloads as a client holds without polling; and give the bytes
    written to its socket to a new client of that connection.  The client consumes
    all of them, and its next [PollEvents] returns the events decoded from the
    first messages that the main loop sent to that session, in order, each once,
    and all of them once nothing is posted or waiting; and every such message is
    one the client can decode. *)
Theorem game_messages_arrive `{VectorAlloc, FlatBuffersSpec, EnvironmentSpec} (pool : BufferPool)
    (p p' : RunningProcess ServerImpl) (out : list OutgoingMessage) (o : nat) (s s' : Session)
    (now0 now q : Z) (Hrun : process_run pool p) (Hst : process_steps pool p out p')
    (Hu : unique_ids (server_of p')) (Hup : shutting_down (server_of p') = false)
    (Ho : objects (server_of p) !! o = Some s)
    (Ho' : objects (server_of p') !! o = Some s') (Hopen : closed_ s' = false)
    (Hnew : pipeline o (server_of p) = [])
    (Hroom : zlen (wire_of o (server_of p')) ≤ RECEIVE_QUEUE_CAPACITY) :
  let bytes := wire_of o (server_of p') in
  let ps := messages_for (object_id o) out in
  Forall (λ payload, is_Some (VerifiedMessage payload)) ps
  ∧ ∃ n c' r,
      client_feed (2 * length bytes) now (mjoin bytes) (client_create now0) = Some (c', [])
      ∧ PollEvents (Datatypes.S (length (take n ps))) (mkChatProtocolClient (Some c') q)
        = Some (mjoin (DecodePacket <$> take n ps), r)
      ∧ (server_strand (server_of p') = [] → strand_of o (server_of p') = [] →
         waiting s' = [] → take n ps = ps).
Proof.
  intros bytes ps.
  destruct (process_run_ok pool p Hrun) as [[tr0 Hrun0] _].
  pose proof (process_steps_deliverable pool p out p' Hrun Hst) as Hall.
  destruct (process_steps_trace pool p out p' (run_inv pool tr0 _ Hrun0) Hst) as (tr & Hsteps & Hs & Hb).
  assert (sent_payloads (object_id o) tr = ps) as Hps.
  { unfold ps. rewrite <-Hs. apply sent_messages; [done|by rewrite Hs]. }
  assert (Forall (λ payload, wf_bytes payload ∧ is_Some (VerifiedMessage payload)) ps) as Hgood.
  { apply Forall_fmap, Forall_forall. intros om [_ Hom]%list_elem_of_filter.
    by destruct (proj1 (Forall_forall _ _) Hall om Hom) as (_ & ? & ?). }
  split; [eapply Forall_impl; [exact Hgood|]; by intros payload [_ ?]|].
  destruct (messages_arrive pool tr0 tr _ _ o s s' now0 now q Hrun0 Hsteps Hu Hup Ho Ho' Hopen Hnew)
    as (n & c' & r & Hfeed & Hpoll & Hdone); [|done|].
  { rewrite Hps. eapply Forall_impl; [exact Hgood|]. by intros payload [? _]. }
  rewrite Hps in *. exists n, c', r. split_and!; [exact Hfeed|exact Hpoll|exact Hdone].
Qed.

(** ** Witness: the first client logs in *)

Section Witnesses.
#[local] Existing Instance exact_alloc.
#[local] Existing Instance plain_codec.
#[local] Existing Instance plain_codec_spec.
#[local] Existing Instance plain_environment.
#[local] Existing Instance plain_environment_spec.

Definition login_bytes : bytes :=
  data_frame (fb_build (mkMessage 1 (PLoginRequest (Some (mkLoginRequest (Some "Ann"%string)))))).

Definition login_header : ServerInput := SvCompletion 0 0 (InHeader 10 false (take 8 login_bytes)).
Definition login_body : ServerInput := SvCompletion 0 0 (InBody false (drop 8 login_bytes)).
Definition received_process : RunningProcess ServerImpl :=
  io_act login_body (io_act login_header connected_process).

(** The tick begins, polls two packets and updates; its one message is sent. *)
Definition flushed_process : RunningProcess ServerImpl := main_act 5 received_process.
Definition answered_process : RunningProcess ServerImpl :=
  io_act (SvPosted 0 0) (io_act (SvTask 0 [(1, 0%nat)]) flushed_process).

Lemma io_act_steps p0 out p i :
  process_steps example_pool p0 out p → is_io i = true → server_enabled i (server_of p) →
  is_Some (server_handle example_pool i (server_of p)) → process_steps example_pool p0 out (io_act i p).
Proof.
  intros Hst Hio Hen [sv' Heq]. unfold io_act, next_state. rewrite Heq. by eapply psteps_io.
Qed.

Lemma answered_steps :
  process_steps example_pool connected_process (sent_alone 5 received_process) answered_process.
Proof.
  unfold answered_process. apply io_act_steps; [apply io_act_steps|..].
  - unfold flushed_process. rewrite <-(app_nil_l (sent_alone 5 received_process)).
    apply (main_alone_steps example_pool 5 connected_process [] received_process); [|by vm_compute].
    unfold received_process. apply io_act_steps; [apply io_act_steps; [constructor|..]|..].
    + reflexivity.
    + split_and!; [by vm_compute|done|]. eexists. split; [by vm_compute|]. split; [by vm_compute|].
      intros _. split; [by vm_compute|]. by apply (bool_decide_unpack _); vm_compute.
    + eexists. by vm_compute.
    + reflexivity.
    + split_and!; [by vm_compute|done|]. eexists. split; [by vm_compute|]. split; [by vm_compute|].
      intros _. split; [by vm_compute|]. by apply (bool_decide_unpack _); vm_compute.
    + eexists. by vm_compute.
  - reflexivity.
  - split_and!; by vm_compute.
  - eexists. by vm_compute.
  - reflexivity.
  - split; by vm_compute.
  - eexists. by vm_compute.
Qed.

Lemma game_messages_arrive_witness :
  ∃ c' r,
    client_feed 2 2000 (mjoin (wire_of 0 (server_of answered_process))) (client_create 0)
      = Some (c', [])
    ∧ PollEvents 2 (mkChatProtocolClient (Some c') 2)
      = Some ([ChatProtocolClient.ChatLoginSucceededEvent "Ann"], r).
Proof.
  destruct (game_messages_arrive example_pool connected_process answered_process _ 0
              (default first_session (objects (server_of connected_process) !! 0%nat))
              (default first_session (objects (server_of answered_process) !! 0%nat)) 0 2000 2
              connected_process_run answered_steps) as (_ & n & c' & r & Hfeed & Hpoll & Hall).
  - by vm_compute.
  - by vm_compute.
  - by vm_compute.
  - by vm_compute.
  - by vm_compute.
  - by vm_compute.
  - by vm_compute.
  - rewrite Hall in Hpoll by (by vm_compute). exists c', r. split; [exact Hfeed|].
    etransitivity; [exact Hpoll|]. vm_compute. reflexivity.
Defined.
End Witnesses.
