(* ===== verification/ChatSystem.v ===== *)
(** * The whole system: one server process and its clients

    [System] puts the server process of [NightServerRun] and any number of
    transport clients together, each with the session object that serves its
    connection.  A connection is two streams of bytes, in order and without loss
    while it lasts: what a reader has taken is a prefix of what the other side
    has written; how the bytes are cut into reads, how long they travel, and when
    an operation fails instead, is open.  [System] also keeps histories: the
    events the game logic has handled, the messages taken from it to be sent, the
    inputs of each client.

    The server accepts strangers as well, whose bytes are arbitrary. *)

From S2P Require Import Prelude Protocol BufferPool TransportDetail Session StreamPosition Packet Server ServerRun ServerInvariant ServerTable ServerPipeline ServerStreams ServerProperties Lifetime ServerInterface Client ClientProperties ClientStreams Schema HeapLibrary ServerTypes RoomSystem GameLogicSystem ChatSpec ChatInvariant ChatViews ChatFacts GameLogicRefinement GameLogicProperties NetworkSystem Delivery NightServer NightServerRun ServerTicks ProcessDelivery.

(** ** The system *)

(** A client, when it was created, the session object that serves it (none until
    the server accepts the connection), and the histories. *)
Record Connection := mkConnection {
  cx_created : Z;
  cx_client : ClientImpl;
  cx_object : option nat;
  cx_inputs : list ClientInput;
  cx_polled : list bytes;
  cx_up : bytes;
  cx_down : bytes;
}.

Record System := mkSystem {
  sy_process : RunningProcess ServerImpl;
  sy_connections : gmap nat Connection;
  sy_events : list ServerEvent;
  sy_out : list OutgoingMessage;
}.

Definition sy_server (y : System) : ServerImpl := server_of (sy_process y).
(** The process after a step of the I/O threads. *)
Definition sy_network (sv : ServerImpl) (y : System) : RunningProcess ServerImpl :=
  at_phase sv (logic_of (sy_process y)) (main_phase (sy_process y)).

(** The frames written for a client, and the bytes its session reads in a step. *)
Definition heard (x : Connection) (sv : ServerImpl) : list bytes :=
  from_option (λ o, wire_of o sv) [] (cx_object x).
Definition session_reads (x : Connection) (i : ServerInput) : bytes :=
  from_option (λ o, step_reads o i) [] (cx_object x).

Definition connection_accepted (o : nat) (x : Connection) : Connection :=
  mkConnection (cx_created x) (cx_client x) (Some o) (cx_inputs x) (cx_polled x) (cx_up x) (cx_down x).
Definition connection_read (i : ServerInput) (x : Connection) : Connection :=
  mkConnection (cx_created x) (cx_client x) (cx_object x) (cx_inputs x) (cx_polled x)
    (cx_up x ++ session_reads x i) (cx_down x).

Section Run.
Context `{VectorAlloc}.

Definition connection_new (now : Z) : Connection := mkConnection now (client_create now) None [] [] [] [].
Definition connection_stepped (i : ClientInput) (c' : ClientImpl) (x : Connection) : Connection :=
  mkConnection (cx_created x) c' (cx_object x) (cx_inputs x ++ [i])
    (cx_polled x ++ polled_by i (cx_client x)) (cx_up x) (cx_down x ++ client_read_bytes i).

(** Applications send bytes; one I/O thread runs what a client posts, in order. *)
Definition client_input_ok (i : ClientInput) : Prop :=
  in_order i ∧ match i with ClSend data => wf_bytes data | _ => True end.

Context `{FlatBuffers, Environment} (pool : BufferPool).

(** A client connects; it takes a step; the server accepts the connection of the
    client [peer]; its I/O threads take a step, which may also accept a stranger;
    or its main loop takes a step (a poll, a batch of events, a send, a
    disconnection). *)
Inductive system_step (y : System) : System → Prop :=
  | sys_connect j now :
      sy_connections y !! j = None →
      system_step y (mkSystem (sy_process y) (<[j := connection_new now]> (sy_connections y))
                       (sy_events y) (sy_out y))
  | sys_client j x i c' :
      sy_connections y !! j = Some x → client_input_ok i → client_enabled i (cx_client x) →
      client_handle i (cx_client x) = Some c' →
      cx_down x ++ client_read_bytes i `prefix_of` mjoin (heard x (sy_server y)) →
      system_step y (mkSystem (sy_process y) (<[j := connection_stepped i c' x]> (sy_connections y))
                       (sy_events y) (sy_out y))
  | sys_accept now peer x sv' :
      server_enabled (SvAccept now false) (sy_server y) →
      server_handle pool (SvAccept now false) (sy_server y) = Some sv' →
      sy_connections y !! peer = Some x → cx_object x = None →
      system_step y (mkSystem (sy_network sv' y)
                       (<[peer := connection_accepted (next_object (sy_server y)) x]> (sy_connections y))
                       (sy_events y) (sy_out y))
  | sys_io i sv' :
      is_io i = true → server_enabled i (sy_server y) → server_handle pool i (sy_server y) = Some sv' →
      (∀ j x, sy_connections y !! j = Some x →
         cx_up x ++ session_reads x i `prefix_of` mjoin (frames_out (cx_client x))) →
      system_step y (mkSystem (sy_network sv' y)
                       (connection_read i <$> sy_connections y) (sy_events y) (sy_out y))
  | sys_main p' :
      main_step (sy_process y) = Some p' →
      system_step y (mkSystem p' (sy_connections y)
                       (sy_events y ++ step_events (sy_process y))
                       (sy_out y ++ step_taken (sy_process y) p')).

Inductive system_run : System → Prop :=
  | system_start acceptor p :
      main_start (Server.create acceptor main_port) = inl p →
      system_run (mkSystem (mkRunning p Sleeping) ∅ [] [])
  | system_next y y' : system_run y → system_step y y' → system_run y'.
End Run.

(** ** What a connection promises *)

(** The payloads a client was asked to send. *)
Definition asked (ins : list ClientInput) : list bytes :=
  omap (λ i, match i with
             | ClSend data => if decide (sendable data = true) then Some data else None
             | _ => None
             end) ins.

Lemma crequested_asked ins : crequested ins = data_frame <$> asked ins.
Proof.
  unfold crequested, asked. induction ins as [|[] ins IH]; csimpl; try done.
  case_decide; csimpl; by rewrite IH.
Qed.

Lemma asked_ok `{VectorAlloc} ins : Forall client_input_ok ins → Forall (λ p, sendable p = true ∧ wf_bytes p) (asked ins).
Proof.
  unfold asked. induction 1 as [|i ins [_ Hi] _ IH]; [constructor|]. destruct i; csimpl; try done.
  case_decide; [by constructor|done].
Qed.

(** The events of the requests of session [k]. *)
Definition is_session_event (ev : ServerEvent) : bool :=
  match ev with SessionConnectedEvent _ | SessionDisconnectedEvent _ => true | _ => false end.
Definition requests_of (k : Z) (evs : list ServerEvent) : list ServerEvent :=
  List.filter (λ ev, (event_session ev =? k) && negb (is_session_event ev)) evs.
Arguments requests_of : simpl never.

(** ** Invariants *)

(** Messages for sessions that have existed. *)
Definition for_existing (n : nat) (out : list OutgoingMessage) : Prop :=
  Forall (λ om, ∃ o, (o < n)%nat ∧ om_session_id om = object_id o) out.

(** What a session has written and will write, against what was handed over. *)
Definition delivers (out : list OutgoingMessage) (sv : ServerImpl) (o : nat) : Prop :=
  ∀ s, objects sv !! o = Some s →
    written o sv `prefix_of` (data_frame <$> messages_for (object_id o) out)
    ∧ (closed_ s = false → pipeline o sv = data_frame <$> messages_for (object_id o) out).

Lemma messages_for_app id out1 out2 :
  messages_for id (out1 ++ out2) = messages_for id out1 ++ messages_for id out2.
Proof. unfold messages_for. by rewrite filter_app, fmap_app. Qed.

Lemma messages_for_fresh n out :
  Z.of_nat (S n) ≤ 2 ^ 32 → for_existing n out → messages_for (object_id n) out = [].
Proof.
  intros Hn. unfold messages_for. induction 1 as [|om out (o & Ho & E) _ IH]; [done|].
  rewrite filter_cons_False; [exact IH|]. rewrite E. intros E'.
  pose proof (object_id_inj o n (S n) ltac:(lia) ltac:(lia) Hn E'). lia.
Qed.

Section Server.
Context `{VectorAlloc, FlatBuffersSpec, EnvironmentSpec} (pool : BufferPool).
Implicit Types (sv : ServerImpl) (o : nat).

(** The I/O threads. *)
Lemma delivers_io i sv sv' out o :
  server_inv pool sv → table_inv sv → addressed sv → for_existing (next_object sv) out →
  is_io i = true → server_enabled i sv → server_handle pool i sv = Some sv' → unique_ids sv' →
  shutting_down sv' = false → delivers out sv o → delivers out sv' o.
Proof.
  intros Hsv Ht Had Hout Hio Hen Heq Hu Hs Hd s' Ho'.
  destruct (objects sv !! o) as [s|] eqn:Ho.
  - destruct (Hd s Ho) as [Hw Hp]. destruct (table_step pool i sv sv' Hsv Ht Hen Hu Heq) as [_ Hkept].
    destruct (closed_ s') eqn:Hc.
    + split; [|done]. by rewrite (written_step pool i sv sv' o s s').
    + destruct (Hkept o s Ho) as (s2 & Hs2 & Hc2). simplify_eq.
      assert (closed_ s = false) as Hc0 by (destruct (closed_ s); [by rewrite Hc2 in Hc|done]).
      assert (pipeline o sv' = data_frame <$> messages_for (object_id o) out) as E.
      { rewrite (pipeline_step pool i sv sv' o s s') by done.
        by rewrite (observe_io i) by done; rewrite (Hp Hc0), app_nil_r. }
      split; [|done]. rewrite <-E. apply written_pipeline.
  - destruct (new_object pool i sv sv' o s' Hsv Hen Heq Ho Ho') as (now & ec & ->). injection Heq as <-.
    destruct (accepted_object pool now ec sv o s' Hsv Had Hu Ho Ho') as (-> & Hb & E).
    rewrite (messages_for_fresh _ out Hb Hout). split; [|done].
    pose proof (written_pipeline (next_object sv) (on_accept now ec sv)) as Hw. by rewrite E in Hw.
Qed.

(** A step of the main loop. *)
Lemma delivers_main p p' sent o :
  process_run pool p → main_step p = Some p' → unique_ids (server_of p) →
  shutting_down (server_of p) = false →
  game_frame (λ k, ∃ o, (o < next_object (server_of p))%nat ∧ k = object_id o) (server_of p) (server_of p') →
  delivers sent (server_of p) o → delivers (sent ++ step_sent p) (server_of p') o.
Proof.
  intros Hp Hstep Hu Hs Hf Hd s Ho. destruct (process_run_ok pool p Hp) as [[tr Hrun] Hr].
  pose proof (run_inv pool tr _ Hrun) as Hsv. rewrite (gf_objects _ _ _ Hf) in Ho.
  destruct (Hd s Ho) as [Hw Hpipe]. rewrite messages_for_app, fmap_app. split.
  - rewrite (written_eq o (server_of p)); [|apply Hf|by rewrite (gf_objects _ _ _ Hf)].
    by apply prefix_app_r.
  - intros Hc. destruct (main_step_trace pool p p' Hsv Hstep) as (tr' & Hst & Hsends & Hb).
    rewrite (steps_pipeline pool (server_of p) tr' _ o s s); try done.
    + rewrite (Hpipe Hc), requested_payloads, sent_messages, Hsends; [done|done|].
      rewrite Hsends. by apply (step_sent_deliverable pool).
    + by eapply run_table.
    + unfold unique_ids. by rewrite (gf_next _ _ _ Hf).
    + by rewrite (gf_shutting _ _ _ Hf).
    + by rewrite (gf_objects _ _ _ Hf).
Qed.

(** What is on the wire are good frames of what was handed over. *)
Lemma wire_good out sv o :
  server_inv pool sv → Forall deliverable out → delivers out sv o →
  Forall good_frame (wire_of o sv)
  ∧ payloads (wire_of o sv) `prefix_of` messages_for (object_id o) out.
Proof.
  intros Hsv Hout Hd.
  assert (data_only (wire_of o sv) `prefix_of` (data_frame <$> messages_for (object_id o) out)) as Hpre.
  { destruct (objects sv !! o) as [s|] eqn:Ho.
    - etransitivity; [apply wire_written|]. by destruct (Hd s Ho).
    - rewrite (si_wire _ _ Hsv o Ho). apply prefix_nil. }
  assert (Forall good_frame (wire_of o sv)) as Hgood.
  { eapply good_frames_of_data; [|exact Hpre]. apply Forall_fmap, Forall_forall.
    intros om [_ Hom]%list_elem_of_filter.
    destruct (proj1 (Forall_forall _ _) Hout om Hom) as (Hlen & Hb & _). simpl. split; [|done].
    unfold sendable. apply negb_true_iff, orb_false_iff.
    split; [apply Z.eqb_neq|apply Z.ltb_ge]; unfold zlen in *; lia. }
  split; [done|]. by apply payloads_prefix.
Qed.
End Server.

Section Connection.
Context `{VectorAlloc} (pool : BufferPool).
Implicit Types (x : Connection) (sv : ServerImpl).

(** A client has run, and each side has read what the other has written. *)
Record connection_ok sv x : Prop := {
  co_run : client_run (cx_created x) (cx_inputs x) (cx_polled x) (cx_client x);
  co_inputs : Forall client_input_ok (cx_inputs x);
  co_down : client_at (heard x sv) (cx_client x) (cx_down x);
  co_read : cx_up x `prefix_of` mjoin (frames_out (cx_client x));
  co_none : cx_object x = None → cx_up x = [];
  co_up o : cx_object x = Some o →
    (o < next_object sv)%nat ∧ (objects sv !! o = None → cx_up x = [])
    ∧ reads_stream (frames_out (cx_client x)) o sv (cx_up x);
}.

Lemma inputs_in_order ins : Forall client_input_ok ins → Forall in_order ins.
Proof. intros Hins. eapply Forall_impl; [exact Hins|]. by intros i []. Qed.

(** The frames a client has written are good frames of what it was asked to send. *)
Lemma client_good sv x :
  connection_ok sv x →
  Forall good_frame (frames_out (cx_client x)) ∧ payloads (frames_out (cx_client x)) `prefix_of` asked (cx_inputs x).
Proof.
  intros [Hrun Hin _ _ _ _].
  pose proof (frames_out_prefix _ _ _ _ Hrun (inputs_in_order _ Hin)) as Hpre.
  rewrite crequested_asked in Hpre.
  assert (Forall good_frame (frames_out (cx_client x))) as Hgood
    by (eapply good_frames_of_data; [by apply asked_ok|exact Hpre]).
  split; [done|by apply payloads_prefix].
Qed.

Lemma connection_new_ok now sv : connection_ok sv (connection_new now).
Proof. split; try done; [apply client_refl|apply at_start]. Qed.

(** A step of the client. *)
Lemma connection_client sv x i c' :
  connection_ok sv x → client_input_ok i → client_enabled i (cx_client x) →
  client_handle i (cx_client x) = Some c' → Forall good_frame (heard x sv) →
  cx_down x ++ client_read_bytes i `prefix_of` mjoin (heard x sv) →
  connection_ok sv (connection_stepped i c' x).
Proof.
  intros [Hrun Hin Hd Hr Hn Hu] Hi Hen Heq Hgood Hpre. pose proof (crun_inv _ _ _ _ Hrun) as Hc.
  destruct (frames_out_grows i _ _ Hc Heq) as [more E].
  split; simpl; [by econstructor|by apply Forall_app; split; [|constructor]| | |done|].
  - by apply (client_read (heard x sv) (cx_down x) i (cx_client x) c').
  - rewrite E, join_app. by apply prefix_app_r.
  - intros o Ho. destruct (Hu o Ho) as (Hlt & Hnone & Hat). split_and!; [done|done|].
    rewrite E. intros s Hs. apply at_grow. by apply Hat.
Qed.

(** A step of the I/O threads of the server. *)
Lemma connection_io sv sv' x i :
  server_inv pool sv → table_inv sv → unique_ids sv' →
  server_enabled i sv → server_handle pool i sv = Some sv' →
  cx_up x ++ session_reads x i `prefix_of` mjoin (frames_out (cx_client x)) →
  connection_ok sv x → connection_ok sv' (connection_read i x).
Proof.
  intros Hsv Ht Hu Hen Heq Hpre Hx. destruct (table_step pool i sv sv' Hsv Ht Hen Hu Heq) as [_ Hkept].
  destruct (client_good sv x Hx) as [Hgood _].
  destruct Hx as [Hrun Hin Hd Hr Hn Hup]. split; simpl; [done|done| |done| |].
  - unfold heard, client_at in *. simpl. destruct (cx_object x) as [o|]; [|done]. simpl in *.
    destruct (wire_grows pool i sv sv' o Hsv Hen Heq) as [more ->]. by apply at_grow.
  - intros Ho. unfold session_reads. by rewrite Ho, (Hn Ho).
  - intros o Ho. destruct (Hup o Ho) as (Hlt & Hnone & Hat).
    unfold session_reads in *. rewrite Ho in *. simpl in *. split_and!.
    + pose proof (gr_next _ _ (grown_step pool i sv sv' Hsv Heq)). lia.
    + intros Ho'. assert (objects sv !! o = None) as Hno.
      { destruct (objects sv !! o) as [s|] eqn:E; [|done]. exfalso.
        destruct (Hkept o s E) as (s' & ? & _). congruence. }
      rewrite (Hnone Hno). destruct i as [| | |t o1 i| | | | | |]; try done. simpl.
      case_decide; [subst o1|done]. destruct Hen as (_ & _ & s & Hs & _). congruence.
    + by apply (reads_step pool _ i sv).
Qed.

Lemma connection_read_none x i : session_reads x i = [] → connection_read i x = x.
Proof. intros E. unfold connection_read. rewrite E, app_nil_r. by destruct x. Qed.

Lemma session_reads_accept x now ec : session_reads x (SvAccept now ec) = [].
Proof. unfold session_reads. by destruct (cx_object x). Qed.

Lemma accept_counts now sv :
  shutting_down sv = false → next_object (on_accept now false sv) = S (next_object sv).
Proof.
  intros Hs. unfold on_accept. simpl. rewrite Hs. simpl.
  match goal with |- context [push_packet ?p ?y] =>
    destruct (push_packet_spec p y) as (_ & _ & Hsame); destruct (push_packet p y) as [pushed sv2] end.
  destruct Hsame as [_ _ Hs2 _ _ _ _ _ Hn _ _]. simpl in *.
  destruct pushed; [destruct (sessions sv2 !! next_id sv)|]; simpl; rewrite Hs2; simpl; by rewrite Hn.
Qed.

(** A connection is accepted. *)
Lemma connection_bound now sv x :
  server_inv pool sv → unique_ids (on_accept now false sv) → shutting_down sv = false →
  server_enabled (SvAccept now false) sv → connection_ok sv x → cx_object x = None →
  connection_ok (on_accept now false sv) (connection_accepted (next_object sv) x).
Proof.
  intros Hsv Hu Hs Hen Hx Hno. destruct (client_good sv x Hx) as [Hgood _].
  destruct Hx as [Hrun Hin Hd Hr Hn _]. split; simpl; [done|done| |done|done|].
  - unfold heard, client_at in *. rewrite Hno in Hd. by apply (at_grow [] _ _ _ _ _ Hd).
  - intros o [= <-]. rewrite accept_counts by done. rewrite (Hn Hno). split_and!; [lia|done|].
    assert (objects sv !! next_object sv = None) as Hfresh.
    { destruct (objects sv !! next_object sv) as [s|] eqn:E; [|done]. pose proof (si_fresh _ _ Hsv _ _ E). lia. }
    apply (reads_step pool _ (SvAccept now false) sv _ (next_object sv) [] Hsv Hu Hen eq_refl Hgood);
      [done|apply prefix_nil|].
    intros s Ho. congruence.
Qed.
End Connection.

(** *** The server process *)

Record process_inv `{VectorAlloc, FlatBuffers, Environment} (pool : BufferPool)
    (p : RunningProcess ServerImpl) (evs : list ServerEvent) (out : list OutgoingMessage) : Prop := {
  pi_run : process_run pool p;
  pi_open : shutting_down (server_of p) = false;
  pi_addressed : addressed (server_of p);
  pi_taken : ∃ taken polled,
    queued (packet_log (server_of p)) = taken ++ polled ++ packet_queue (server_of p)
    ∧ evs = mjoin (packet_events <$> taken)
    ∧ polled_events (main_phase p) = mjoin (packet_events <$> polled);
  pi_chat : ∃ msgs ds,
    chat_run initial_names ∅ evs (sessions_ (room_system_ (logic_of p))) msgs ds
    ∧ out = encode_all msgs;
  pi_out : Forall deliverable out;
  pi_sent : ∃ sent, out = sent ++ unsent (main_phase p) ∧ ∀ o, delivers sent (server_of p) o;
}.

Section Process.
Context `{VectorAlloc, FlatBuffersSpec, EnvironmentSpec} (pool : BufferPool).
Implicit Types (p : RunningProcess ServerImpl) (evs : list ServerEvent) (out : list OutgoingMessage).

Lemma process_server p : process_run pool p → server_inv pool (server_of p).
Proof. intros Hp. destruct (process_run_ok pool p Hp) as [[tr Hrun] _]. by eapply run_inv. Qed.

Lemma process_table p : process_run pool p → unique_ids (server_of p) → table_inv (server_of p).
Proof. intros Hp. destruct (process_run_ok pool p Hp) as [[tr Hrun] _]. by eapply run_table. Qed.

(** Events are those of queued packets, each of a session that has existed. *)
Lemma events_existing p ps taken :
  process_run pool p → queued (packet_log (server_of p)) = taken ++ ps →
  Forall (λ ev, ∃ o, (o < next_object (server_of p))%nat ∧ event_session ev = object_id o)
    (mjoin (packet_events <$> taken)).
Proof.
  intros Hp Hq. pose proof (si_log _ _ (process_server p Hp)) as Hlog.
  apply Forall_forall. intros ev Hev. apply list_elem_of_join in Hev as (evs & Hev & Hin).
  apply list_elem_of_fmap in Hin as (pkt & -> & Hpkt).
  rewrite (packet_events_session _ _ Hev).
  assert (pkt ∈ queued (packet_log (server_of p))) as Hpq by (rewrite Hq; apply elem_of_app; by left).
  eapply elem_of_sublist in Hpq; [|apply queued_sublist].
  destruct (proj1 (Forall_forall _ _) Hlog pkt Hpq) as (o & ? & ? & _). eauto.
Qed.

(** Messages are for sessions that events are about. *)
Lemma messages_existing n evs c msgs ds :
  Forall (λ ev, ∃ o, (o < n)%nat ∧ event_session ev = object_id o) evs →
  chat_run initial_names ∅ evs c msgs ds → for_existing n (encode_all msgs).
Proof.
  intros Hevs Hrun.
  destruct (known_run initial_names (λ k, ∃ o, (o < n)%nat ∧ k = object_id o) ∅ evs c msgs ds) as [_ Hm];
    [|done|done|].
  - split; [apply chat_wf_empty|]. intros k [s Hk]. by rewrite lookup_empty in Hk.
  - clear Hrun. unfold for_existing, encode_all.
    induction Hm as [|km msgs Hkm _ IH]; [constructor|]. csimpl.
    destruct (encode km) as [om|] eqn:E; [|exact IH]. constructor; [|exact IH].
    unfold encode in E. case_match; [done|]. by injection E as <-.
Qed.

Lemma inv_existing p evs out :
  process_inv pool p evs out → for_existing (next_object (server_of p)) out.
Proof.
  intros [Hrun _ _ (taken & polled & Hq & -> & _) (msgs & ds & Hchat & ->) _ _].
  eapply messages_existing; [|exact Hchat]. by eapply events_existing.
Qed.

Lemma process_inv_start acceptor (p : ServerProcess ServerImpl) :
  main_start (Server.create acceptor main_port) = inl p → process_inv pool (mkRunning p Sleeping) [] [].
Proof.
  intros Hp. pose proof (process_start pool acceptor p Hp) as Hrun.
  destruct (Server.create acceptor main_port) as [sv|error] eqn:Hc; [|done].
  apply create_inl in Hc as ->. injection Hp as <-.
  split; [done|done|constructor| | |constructor|].
  - by exists [], [].
  - exists [], []. split; [constructor|done].
  - exists []. split; [done|]. by intros o s.
Qed.

Lemma process_inv_io p evs out i sv' :
  process_inv pool p evs out → is_io i = true → server_enabled i (server_of p) →
  server_handle pool i (server_of p) = Some sv' → unique_ids sv' →
  process_inv pool (at_phase sv' (logic_of p) (main_phase p)) evs out.
Proof.
  intros Hinv Hio Hen Heq Hu. pose proof (inv_existing p evs out Hinv) as Hex.
  destruct Hinv as [Hrun Hs Had (taken & polled & Hq & Hevs & Hpolled) Hchat Hout (sent & Hsent & Hd)].
  pose proof (process_server p Hrun) as Hsv.
  pose proof (unique_step pool i _ sv' Hsv Heq Hu) as Hu0.
  destruct (step_open pool i _ sv' Hsv Hs Hen Heq) as [->|[Hs' _]]; [done|]. split; simpl; try done.
  - by eapply process_io.
  - eapply addressed_step; [exact Hsv|exact Hen|exact Heq| |exact Had]. by destruct i.
  - exists taken, polled. split; [|done]. destruct (process_run_ok pool p Hrun) as [[tr Htr] _].
    pose proof (qi_fifo _ _ (run_queue pool tr _ Htr)) as Hf.
    assert (server_run pool (tr ++ observe i (server_of p)) sv') as Htr' by (by eapply steps_snoc).
    rewrite (observe_io i), app_nil_r in Htr' by done.
    rewrite (qi_fifo _ _ (run_queue pool tr sv' Htr')), app_assoc. f_equal.
    rewrite Hq, app_assoc in Hf. by apply app_inv_tail in Hf.
  - exists sent. split; [done|]. intros o.
    apply (delivers_io pool i (server_of p)); try done; [by apply process_table|].
    rewrite Hsent in Hex. by apply Forall_app in Hex as [? _].
Qed.

(** A step of the main loop sends to sessions that have existed. *)
Lemma step_frame p p' evs out :
  process_inv pool p evs out → main_step p = Some p' →
  game_frame (λ k, ∃ o, (o < next_object (server_of p))%nat ∧ k = object_id o) (server_of p) (server_of p').
Proof.
  intros Hinv Hstep. pose proof (inv_existing p evs out Hinv) as Hex.
  destruct Hinv as [Hrun _ _ _ _ _ (sent & -> & _)].
  eapply (game_frame_step pool); [by apply process_server|done|]. apply Forall_app in Hex as [_ Hex].
  unfold step_sent. destruct (main_phase p) as [|[|m outgoing] ds]; [constructor..|].
  apply Forall_cons in Hex as [Hm _]. by apply Forall_singleton.
Qed.

Lemma process_inv_main p evs out p' :
  process_inv pool p evs out → main_step p = Some p' → unique_ids (server_of p') →
  process_inv pool p' (evs ++ step_events p) (out ++ step_taken p p').
Proof.
  intros Hinv Hstep Hu. pose proof (step_frame p p' evs out Hinv Hstep) as Hf.
  destruct Hinv as [Hrun Hs Had (taken & polled & Hq & -> & Hpolled) (msgs & ds & Hchat & ->) Hout (sent & Hsent & Hd)].
  destruct (step_facts pool p p' Hrun Hstep)
    as (Hpoll & (msgs2 & ds2 & Hchat2 & Htaken) & Hunsent).
  pose proof (chat_run_app _ _ _ _ _ _ _ _ _ _ Hchat Hchat2) as Hchat'.
  assert (process_run pool p') as Hrun' by (by eapply process_main).
  assert (unique_ids (server_of p)) as Hu0 by (unfold unique_ids in *; by rewrite <-(gf_next _ _ _ Hf)).
  assert (encode_all msgs ++ step_taken p p' = (sent ++ step_sent p) ++ unsent (main_phase p')) as Hall
    by (by rewrite Hsent, <-!app_assoc, Hunsent).
  split; [done|by rewrite (gf_shutting _ _ _ Hf)| | | | |].
  - destruct (gf_strand _ _ _ Hf) as (news & E & Hnews). unfold addressed. rewrite E, (gf_next _ _ _ Hf).
    apply Forall_app. split; [done|]. eapply Forall_impl; [exact Hnews|]. by intros [].
  - rewrite (gf_log _ _ _ Hf), Hq. destruct Hpoll as [(pkt & -> & -> & ->)|(<- & -> & ->)].
    + exists taken, (polled ++ [pkt]). rewrite Hpolled, fmap_app, join_app, <-!app_assoc. csimpl. by rewrite !app_nil_r.
    + exists (taken ++ polled), []. by rewrite Hpolled, fmap_app, join_app, <-!app_assoc.
  - eexists _, _. split; [exact Hchat'|]. by rewrite encode_all_app, Htaken.
  - rewrite Hall. apply Forall_app. split.
    + apply Forall_app. split; [rewrite Hsent in Hout; by apply Forall_app in Hout as [? _]|].
      by apply (step_sent_deliverable pool).
    + destruct (process_run_ok pool p' Hrun') as [_ Hr]. destruct (server_reachable_ok p' Hr) as (_ & _ & Hph).
      by destruct (main_phase p').
  - exists (sent ++ step_sent p). split; [exact Hall|]. intros o. by apply (delivers_main pool p p').
Qed.
End Process.

(** *** The system *)

Section System.
Context `{VectorAlloc, FlatBuffersSpec, EnvironmentSpec} (pool : BufferPool).
Implicit Types (y : System) (x : Connection).

Record system_inv y : Prop := {
  yi_process : process_inv pool (sy_process y) (sy_events y) (sy_out y);
  yi_connections j x : sy_connections y !! j = Some x → connection_ok (sy_server y) x;
  yi_distinct j j' x x' o :
    sy_connections y !! j = Some x → sy_connections y !! j' = Some x' →
    cx_object x = Some o → cx_object x' = Some o → j = j';
}.

Lemma yi_server y : system_inv y → server_inv pool (sy_server y).
Proof. intros Hy. by eapply process_server, pi_run, yi_process. Qed.

Lemma heard_good y x :
  system_inv y →
  Forall good_frame (heard x (sy_server y))
  ∧ ∀ o, cx_object x = Some o →
     payloads (heard x (sy_server y)) `prefix_of` messages_for (object_id o) (sy_out y).
Proof.
  intros Hy. destruct (yi_process y Hy) as [_ _ _ _ _ Hout (sent & Hsent & Hd)]. unfold heard.
  destruct (cx_object x) as [o|]; simpl; [|by split; [constructor|]].
  rewrite Hsent in Hout. apply Forall_app in Hout as [Hout _].
  destruct (wire_good pool _ _ o (yi_server y Hy) Hout (Hd o)) as [Hg Hp].
  split; [done|]. intros o' [= <-]. rewrite Hsent, messages_for_app. by apply prefix_app_r.
Qed.

(** A step of the main loop changes nothing a connection looks at. *)
Lemma connection_main P sv sv' x : game_frame P sv sv' → connection_ok sv x → connection_ok sv' x.
Proof.
  intros Hf [Hrun Hin Hd Hr Hn Hup].
  assert (heard x sv' = heard x sv) as E
    by (unfold heard, wire_of; destruct (cx_object x); [simpl; by rewrite (gf_wire _ _ _ Hf)|done]).
  split; [done|done|by rewrite E|done|done|]. intros o Ho. destruct (Hup o Ho) as (Hlt & Hnone & Hat).
  rewrite (gf_next _ _ _ Hf), (gf_objects _ _ _ Hf). split_and!; [done|done|].
  apply (reads_eq _ _ sv); [apply Hf|by rewrite (gf_objects _ _ _ Hf)|done].
Qed.

Lemma unique_system y y' :
  server_inv pool (sy_server y) → system_step pool y y' → unique_ids (sy_server y') →
  unique_ids (sy_server y).
Proof.
  intros Hsv Hstep.
  destruct Hstep as [j now _|j x i c' _ _ _ _ _|now peer x sv' _ Heq _ _|i sv' _ _ Heq _|p' Hmain]; try done.
  - by apply (unique_step pool (SvAccept now false)).
  - by apply (unique_step pool i).
  - destruct (main_step_trace pool _ p' Hsv Hmain) as (tr & Hst & _).
    pose proof (gr_next _ _ (steps_grown pool _ tr _ Hsv Hst)) as Hn.
    unfold unique_ids, sy_server in *. simpl. lia.
Qed.

Lemma system_inv_next y y' :
  system_inv y → system_step pool y y' → unique_ids (sy_server y') → system_inv y'.
Proof.
  intros Hy Hstep Hu'. pose proof (yi_server y Hy) as Hsv.
  pose proof (unique_system y y' Hsv Hstep Hu') as Hu.
  pose proof (process_table pool _ (pi_run _ _ _ _ (yi_process y Hy)) Hu) as Ht.
  pose proof (pi_open _ _ _ _ (yi_process y Hy)) as Hopen.
  assert (∀ i sv', server_enabled i (sy_server y) → server_handle pool i (sy_server y) = Some sv' →
    unique_ids sv' → (∀ j x, sy_connections y !! j = Some x →
      cx_up x ++ session_reads x i `prefix_of` mjoin (frames_out (cx_client x))) →
    ∀ j x, sy_connections y !! j = Some x → connection_ok sv' (connection_read i x)) as Hio.
  { intros i sv' Hen Heq Hu2 Hpre j x Hj.
    apply (connection_io pool (sy_server y)); [done..|by apply (Hpre j)|by apply (yi_connections y Hy j)]. }
  destruct Hstep as [j now Hj|j x i c' Hj Hi Hen Heq Hpre|now peer x sv' Hen Heq Hpeer Hno
    |i sv' Hi Hen Heq Hpre|p' Hmain]; unfold sy_server in *; simpl in Hu'.
  - split; [apply Hy| |]; simpl.
    + intros j' x'. rewrite lookup_insert. case_decide; [|apply Hy]. intros [= <-]. apply connection_new_ok.
    + intros j1 j2 x1 x2 o. rewrite !lookup_insert. do 2 case_decide; try naive_solver. apply Hy.
  - split; [apply Hy| |]; simpl.
    + intros j' x'. rewrite lookup_insert. case_decide; [|apply Hy]. intros [= <-].
      apply connection_client; [by apply (yi_connections y Hy j)|done..|by apply (heard_good y)|done].
    + intros j1 j2 x1 x2 o. rewrite !lookup_insert. do 2 case_decide; subst; [done|..].
      * intros [= <-] Hx2 Ho1 Ho2. simpl in Ho1. by eapply (yi_distinct y Hy).
      * intros Hx1 [= <-] Ho1 Ho2. simpl in Ho2. by eapply (yi_distinct y Hy).
      * apply Hy.
  - assert (∀ j x', sy_connections y !! j = Some x' → connection_ok sv' x') as Hothers.
    { intros j x' Hj. rewrite <-(connection_read_none x' (SvAccept now false)) by apply session_reads_accept.
      eapply Hio; [done..| |done]. intros j2 x2 Hj2. rewrite session_reads_accept, app_nil_r.
      by eapply co_read, (yi_connections y Hy). }
    split; simpl.
    + by apply (process_inv_io pool (sy_process y) _ _ (SvAccept now false)); [apply Hy|..].
    + intros j x'. rewrite lookup_insert. case_decide; [|apply Hothers]. intros [= <-]. injection Heq as <-.
      apply (connection_bound pool); try done. by apply (yi_connections y Hy peer).
    + intros j1 j2 x1 x2 o. rewrite !lookup_insert. do 2 case_decide; subst; [done|..|apply Hy].
      * intros [= <-] Hx2 [= <-] Ho2.
        destruct (co_up _ _ (yi_connections y Hy _ _ Hx2) _ Ho2) as [Hlt _]. unfold sy_server in Hlt. lia.
      * intros Hx1 [= <-] Ho1 [= <-].
        destruct (co_up _ _ (yi_connections y Hy _ _ Hx1) _ Ho1) as [Hlt _]. unfold sy_server in Hlt. lia.
  - split; simpl.
    + by apply (process_inv_io pool (sy_process y) _ _ i); [apply Hy|..].
    + intros j x'. rewrite lookup_fmap_Some. intros (x & <- & Hj). by eapply Hio.
    + intros j1 j2 x1 x2 o. rewrite !lookup_fmap_Some. intros (y1 & <- & Hx1) (y2 & <- & Hx2) Ho1 Ho2.
      by eapply (yi_distinct y Hy).
  - split; simpl; [by apply (process_inv_main pool); [apply Hy|..]| |apply Hy]. intros j x Hj.
    eapply connection_main; [by eapply (step_frame pool); [apply Hy|]|]. by eapply (yi_connections y Hy).
Qed.

Lemma system_process y : system_run pool y → process_run pool (sy_process y).
Proof.
  induction 1 as [acceptor p Hp|y y' _ IH Hstep]; [by eapply process_start|].
  destruct Hstep as [| |now peer x sv' Hen Heq _ _|i sv' Hio Hen Heq _|p' Hmain]; simpl; [done|done|..].
  - by eapply (process_io pool _ (SvAccept now false)).
  - by eapply process_io.
  - by eapply process_main.
Qed.

Lemma system_run_inv y : system_run pool y → unique_ids (sy_server y) → system_inv y.
Proof.
  induction 1 as [acceptor p Hp|y y' Hrun IH Hstep]; intros Hu.
  - split; simpl; [by eapply process_inv_start| |]; intros j; [by intros x|by intros j' x].
  - eapply system_inv_next; [|done..]. apply IH. eapply unique_system; [|done..].
    by apply process_server, system_process.
Qed.
End System.
