(* ===== verification/SystemRefinement.v ===== *)
(** * The whole system implements the chat protocol

    [system_refines_spec]: whatever the threads, the network and the clients do,
    the events the server handles and the messages it hands over are one run of
    [ChatSpec]; the requests in it that come from a client are decoded from what
    that client was asked to send, in order; and what the client is given are the
    messages for it, in order.  [system_settled]: and when nothing is on its way,
    all of them. *)

From S2P Require Import Prelude Protocol BufferPool TransportDetail Session StreamPosition Packet Server ServerRun ServerInvariant ServerTable ServerPipeline ServerStreams ServerProperties Lifetime ServerInterface Client ClientProperties ClientStreams Schema HeapLibrary ServerTypes RoomSystem GameLogicSystem ChatSpec ChatInvariant ChatViews ChatFacts GameLogicRefinement GameLogicProperties NetworkSystem Delivery NightServer NightServerRun ServerTicks ProcessDelivery ChatSystem.

(** ** Requests and packets *)

Section Requests.
Context `{FlatBuffers}.

Definition decoded (k : Z) (ps : list bytes) : list ServerEvent :=
  mjoin ((λ p, DecodeProtocolPacket k p []) <$> ps).

Lemma requests_of_app k evs1 evs2 : requests_of k (evs1 ++ evs2) = requests_of k evs1 ++ requests_of k evs2.
Proof. apply List.filter_app. Qed.

Lemma decode_is_request k p ev : ev ∈ DecodeProtocolPacket k p [] → is_session_event ev = false.
Proof.
  unfold DecodeProtocolPacket. intros Hev. repeat case_match; simpl in Hev;
    repeat match goal with
    | Hev : _ ∈ [] |- _ => by apply not_elem_of_nil in Hev
    | Hev : _ ∈ [_] |- _ => apply list_elem_of_singleton in Hev as ->
    end; done.
Qed.

(** The requests of session [k] are decoded from its data packets. *)
Lemma requests_packet k pkt :
  requests_of k (packet_events pkt) = decoded k (omap data_of (packets_of k [pkt])).
Proof.
  assert (∀ l (f : ServerEvent → bool) b, (∀ ev, ev ∈ l → f ev = b) →
    List.filter f l = if b then l else []) as Hfilter.
  { induction l as [|ev l IH]; intros f b Hf; simpl; [by destruct b|].
    rewrite (Hf ev) by (by left). rewrite (IH f b) by (intros ev' ?; apply Hf; by right). by destruct b. }
  unfold packets_of. simpl. destruct (Z.eqb_spec (pkt_session_id pkt) k) as [<-|Hne].
  - unfold packet_events, receive_packet, data_of, decoded. csimpl.
    destruct (pkt_type pkt); csimpl; [by unfold requests_of; simpl; rewrite andb_false_r..|].
    rewrite app_nil_r. apply (Hfilter _ _ true). intros ev Hev.
    rewrite (decode_is_request _ _ _ Hev), andb_true_r. apply Z.eqb_eq.
    apply (packet_events_session (mkPacket Data (pkt_session_id pkt) (pkt_data pkt))). exact Hev.
  - apply (Hfilter _ _ false). intros ev Hev. rewrite (packet_events_session _ _ Hev).
    by apply Z.eqb_neq in Hne as ->.
Qed.

Lemma requests_packets k ps :
  requests_of k (mjoin (packet_events <$> ps)) = decoded k (omap data_of (packets_of k ps)).
Proof.
  induction ps as [|pkt ps IH]; [done|]. change (pkt :: ps) with ([pkt] ++ ps).
  rewrite fmap_app, join_app, requests_of_app, packets_of_app, omap_app. unfold decoded in *.
  rewrite fmap_app, join_app, IH. f_equal. csimpl. rewrite app_nil_r. apply requests_packet.
Qed.
End Requests.

Lemma omap_sublist {A B} (f : A → option B) l k : l `sublist_of` k → omap f l `sublist_of` omap f k.
Proof. induction 1 as [|x l k _ IH|x l k _ IH]; csimpl; [done|..]; destruct (f x); by try constructor. Qed.

Lemma omap_prefix {A B} (f : A → option B) l k : l `prefix_of` k → omap f l `prefix_of` omap f k.
Proof. intros [rest ->]. rewrite omap_app. by eexists. Qed.

Lemma prefix_sublist {A} (l k : list A) : l `prefix_of` k → l `sublist_of` k.
Proof. intros [rest ->]. by apply sublist_inserts_r. Qed.

(** Nothing was left out. *)
Lemma sublist_same {A} (l k : list A) : l `sublist_of` k → length l = length k → l = k.
Proof.
  induction 1 as [|x l k _ IH|x l k Hs _]; simpl; intros Hl; [done|f_equal; auto|].
  apply sublist_length in Hs. lia.
Qed.

Lemma queued_all (log : list (Packet * PushResult)) :
  Forall (λ e, e.2 = Queued) log → queued log = log.*1.
Proof. unfold queued. induction 1 as [|[p r] log Hr _ IH]; csimpl in *; [done|]. subst r. by rewrite IH. Qed.

Lemma log_of_forall id (P : Packet * PushResult → Prop) log : Forall P log → Forall P (log_of id log).
Proof.
  unfold log_of. intros Hlog. apply Forall_forall. intros e He.
  apply list_elem_of_In, filter_In in He as [He _]. by apply (proj1 (Forall_forall _ _) Hlog), list_elem_of_In.
Qed.

(** ** One connection *)

Section Links.
Context `{VectorAlloc, FlatBuffersSpec, EnvironmentSpec} (pool : BufferPool).
Context (y : System) (j o : nat) (x : Connection).
Context (Hy : system_inv pool y) (Hu : unique_ids (sy_server y)).
Context (Hj : sy_connections y !! j = Some x) (Ho : cx_object x = Some o).

(** The payloads that became requests, those whose events wait for the next batch,
    and those in the queue. *)
Lemma requests_link :
  ∃ ps polled rest, requests_of (object_id o) (sy_events y) = decoded (object_id o) ps
    ∧ ps ++ polled ++ rest = omap data_of (queued (log_of (object_id o) (packet_log (sy_server y))))
    ∧ requests_of (object_id o) (polled_events (main_phase (sy_process y))) = decoded (object_id o) polled
    ∧ rest = omap data_of (packets_of (object_id o) (packet_queue (sy_server y))).
Proof.
  destruct (pi_taken _ _ _ _ (yi_process pool y Hy)) as (taken & polled & Hq & -> & ->).
  eexists _, _, _. split_and!; [apply requests_packets| |apply requests_packets|done]. unfold sy_server.
  by rewrite queued_log_of, Hq, !packets_of_app, !omap_app.
Qed.

(** The payloads of the data packets queued were reported by the session. *)
Lemma queued_link :
  let data := omap data_of (queued (log_of (object_id o) (packet_log (sy_server y)))) in
  data `sublist_of` reported o (sy_server y)
  ∧ (Forall (λ e, e.2 = Queued) (packet_log (sy_server y)) → data = reported o (sy_server y)).
Proof.
  split; [apply omap_sublist, queued_sublist|]. intros Hall.
  by rewrite queued_all by (by apply log_of_forall).
Qed.

Lemma reported_link :
  objects (sy_server y) !! o = None
    ∧ omap data_of (queued (log_of (object_id o) (packet_log (sy_server y)))) = []
  ∨ reported o (sy_server y) `prefix_of` asked (cx_inputs x).
Proof.
  pose proof (yi_connections pool y Hy j x Hj) as Hx. destruct (co_up _ _ Hx o Ho) as (Hlt & _ & Hat).
  destruct (objects (sy_server y) !! o) as [s|] eqn:Hs.
  - right. etransitivity; [|apply (client_good _ _ Hx)]. by eapply at_got, Hat.
  - left. split; [done|]. by rewrite (si_refused _ _ (yi_server pool y Hy)).
Qed.

Lemma up_link :
  ∃ ps, requests_of (object_id o) (sy_events y) = decoded (object_id o) ps
    ∧ ps `sublist_of` asked (cx_inputs x)
    ∧ (Forall (λ e, e.2 = Queued) (packet_log (sy_server y)) → ps `prefix_of` asked (cx_inputs x)).
Proof.
  destruct requests_link as (ps & polled & rest & Hr & Hps & _).
  remember (polled ++ rest) as more. destruct queued_link as [Hsub Hall].
  rewrite <-Hps in Hsub, Hall. exists ps. split; [done|].
  destruct reported_link as [[_ Hnil]|Hpre].
  - rewrite <-Hps in Hnil. apply app_eq_nil in Hnil as [-> _]. split; [apply sublist_nil_l|intros _; apply prefix_nil].
  - split.
    + transitivity (ps ++ more); [by apply sublist_inserts_r|]. etransitivity; [exact Hsub|by apply prefix_sublist].
    + intros Hq. etransitivity; [|exact Hpre]. rewrite <-(Hall Hq). by eexists.
Qed.

(** What the client received. *)
Lemma frames_in_link : frames_in (cx_client x) `prefix_of` messages_for (object_id o) (sy_out y).
Proof.
  pose proof (yi_connections pool y Hy j x Hj) as Hx.
  etransitivity; [by eapply at_got, (co_down _ _ Hx)|]. by apply (heard_good pool y x).
Qed.

Lemma down_link :
  let got := cx_polled x ++ receive_queue (cx_client x) in
  got `sublist_of` frames_in (cx_client x) ∧ (lost (cx_client x) = [] → got = frames_in (cx_client x)).
Proof.
  pose proof (yi_connections pool y Hy j x Hj) as Hx.
  destruct (crun_receive _ _ _ _ (co_run _ _ Hx)) as [Hsub Hlen]. split; [done|]. intros Hlost.
  apply sublist_same; [done|]. rewrite Hlen, Hlost, length_app. simpl. lia.
Qed.
End Links.

(** ** Settled connections *)

(** Nothing is on its way from a client that is up to the game logic: all its
    frames are written and read, their packets polled, none of them dropped
    ([us_dropped]), and the events of the tick in progress handled. *)
Record up_settled (y : System) (x : Connection) (s : Session) : Prop := {
  us_connected : connected (cx_client x) = true;
  us_up : cl_shutting_down (cx_client x) = false;
  us_posted : io_posted (cx_client x) = [];
  us_waiting : cwaiting (cx_client x) = [];
  us_read : cx_up x = mjoin (frames_out (cx_client x));
  us_session : read_op s = Some ReadHeader;
  us_queue : packet_queue (sy_server y) = [];
  us_polled : polled_events (main_phase (sy_process y)) = [];
  us_dropped : Forall (λ e, e.2 = Queued) (packet_log (sy_server y));
}.

(** Nothing is on its way from the game logic to a client of an open session: all
    messages are sent, written and read, and the client dropped none ([ds_lost]). *)
Record down_settled (y : System) (x : Connection) (o : nat) (s : Session) : Prop := {
  ds_open : closed_ s = false;
  ds_sent : unsent (main_phase (sy_process y)) = [];
  ds_strand : server_strand (sy_server y) = [];
  ds_posted : strand_of o (sy_server y) = [];
  ds_waiting : waiting s = [];
  ds_read : cx_down x = mjoin (wire_of o (sy_server y));
  ds_client : cl_read_op (cx_client x) = Some ReadHeader;
  ds_lost : lost (cx_client x) = [];
}.

Section Settled.
Context `{VectorAlloc, FlatBuffersSpec, EnvironmentSpec} (pool : BufferPool).
Context (y : System) (j o : nat) (x : Connection) (s : Session).
Context (Hy : system_inv pool y) (Hu : unique_ids (sy_server y)).
Context (Hj : sy_connections y !! j = Some x) (Ho : cx_object x = Some o).
Context (Hs : objects (sy_server y) !! o = Some s).

Lemma up_all : up_settled y x s →
  requests_of (object_id o) (sy_events y) = decoded (object_id o) (asked (cx_inputs x)).
Proof.
  intros [Hcon Hup Hpost Hwait Hread Hop Hq Hpolled Hdrop].
  pose proof (yi_connections pool y Hy j x Hj) as Hx.
  destruct (requests_link pool y o Hy) as (ps & polled & rest & -> & Hps & Hpe & Hrest).
  rewrite Hq in Hrest. simpl in Hrest. subst rest. rewrite app_nil_r in Hps. rewrite Hpolled in Hpe.
  transitivity (decoded (object_id o) (ps ++ polled)).
  { unfold decoded in *. by rewrite fmap_app, join_app, <-Hpe, app_nil_r. }
  destruct (queued_link y o) as [_ Hall]. rewrite <-Hps in Hall. rewrite (Hall Hdrop). f_equal.
  destruct (client_good _ _ Hx) as [Hgood _].
  destruct (csteps_pipeline (client_create (cx_created x)) (cx_inputs x) (cx_polled x) (cx_client x)
              (cinv_create _) (co_run _ _ Hx) Hcon Hup) as [_ Hp].
  specialize (Hp (inputs_in_order _ (co_inputs _ _ Hx))).
  change (client_pipeline (client_create (cx_created x))) with (@nil bytes) in Hp.
  rewrite app_nil_l, crequested_asked in Hp.
  assert (data_only (frames_out (cx_client x)) = data_frame <$> asked (cx_inputs x)) as Hdata.
  { rewrite <-Hp. unfold client_pipeline, cwritten, cposted. rewrite Hpost, Hwait. by rewrite !app_nil_r. }
  rewrite <-(payloads_of_data _ _ Hgood Hdata).
  destruct (co_up _ _ Hx o Ho) as (_ & _ & Hat). specialize (Hat s Hs). unfold session_at in Hat.
  rewrite Hop, Hread in Hat. by eapply at_all.
Qed.

Lemma down_all : down_settled y x o s →
  cx_polled x ++ receive_queue (cx_client x) = messages_for (object_id o) (sy_out y).
Proof.
  intros [Hopen Hsent Hstrand Hpost Hwait Hread Hop Hlost].
  pose proof (yi_connections pool y Hy j x Hj) as Hx.
  destruct (down_link pool y j x Hy Hj) as [_ ->]; [|done].
  pose proof (heard_good pool y x Hy) as [Hgood _].
  pose proof (co_down _ _ Hx) as Hat. unfold client_at, heard in *. rewrite Ho in *. cbn [from_option] in *.
  rewrite Hop, Hread in Hat. rewrite (at_all _ _ _ Hgood Hat).
  apply payloads_of_data; [done|].
  destruct (pi_sent _ _ _ _ (yi_process pool y Hy)) as (sent & -> & Hd). rewrite Hsent, app_nil_r.
  destruct (Hd o s Hs) as [_ Hp]. rewrite <-(Hp Hopen).
  unfold pipeline, sy_server in *. rewrite Hs, Hstrand, Hpost. simpl. by rewrite Hwait, app_nil_r.
Qed.
End Settled.

(** C1. The system implements the chat protocol.  In every run of the server
    process with any number of clients and strangers, in any interleaving of the
    steps of its main loop (a poll, a batch of events, a send, a disconnection),
    its I/O threads and the clients, while session ids do not repeat: (1) the
    events the game logic has handled and the messages it hands over to be sent
    are one run of the chat specification, which ends in the registry's sessions; and for every client that is served by session [k], (2)
    the requests of [k] among these events are decoded from a subsequence of the
    payloads the client was asked to send, in order, and from the first of them
    if no packet found the queue full; (3) the payloads the client has received
    are a subsequence of the messages for [k], in order, and the first of them if
    none found its receive queue full; (4) no other client is served by session
    [k]. *)
Theorem system_refines_spec `{VectorAlloc, FlatBuffersSpec, EnvironmentSpec} (pool : BufferPool)
    (y : System) (Hrun : system_run pool y) (Hu : unique_ids (sy_server y)) :
  (∃ msgs ds, chat_run initial_names ∅ (sy_events y)
                (sessions_ (room_system_ (logic_of (sy_process y)))) msgs ds
              ∧ sy_out y = encode_all msgs)
  ∧ ∀ j x o, sy_connections y !! j = Some x → cx_object x = Some o →
    let k := object_id o in let got := cx_polled x ++ receive_queue (cx_client x) in
    (∃ ps, requests_of k (sy_events y) = decoded k ps ∧ ps `sublist_of` asked (cx_inputs x)
       ∧ (Forall (λ e, e.2 = Queued) (packet_log (sy_server y)) → ps `prefix_of` asked (cx_inputs x)))
    ∧ got `sublist_of` messages_for k (sy_out y)
    ∧ (lost (cx_client x) = [] → got `prefix_of` messages_for k (sy_out y))
    ∧ ∀ j' x' o', sy_connections y !! j' = Some x' → cx_object x' = Some o' → j' ≠ j → object_id o' ≠ k.
Proof.
  pose proof (system_run_inv pool y Hrun Hu) as Hy.
  split; [exact (pi_chat _ _ _ _ (yi_process pool y Hy))|]. intros j x o Hj Ho k got.
  destruct (down_link pool y j x Hy Hj) as [Hsub Hall].
  pose proof (frames_in_link pool y j o x Hy Hj Ho) as Hpre. split_and!.
  - by eapply up_link.
  - etransitivity; [exact Hsub|by apply prefix_sublist].
  - intros Hlost. unfold got. by rewrite (Hall Hlost).
  - intros j' x' o' Hj' Ho' Hne Hid. apply Hne.
    destruct (co_up _ _ (yi_connections pool y Hy j x Hj) o Ho) as [Hlt _].
    destruct (co_up _ _ (yi_connections pool y Hy j' x' Hj') o' Ho') as [Hlt' _].
    eapply object_id_inj in Hid; [|done..]. subst o'. by eapply (yi_distinct pool y Hy).
Qed.

(** C3. Everything arrives.  In such a run, when nothing is on its way from a
    client to the game logic, the requests of its session are decoded from all
    the payloads it was asked to send; and when nothing is on its way from the
    game logic to the client of an open session, it has received all the messages
    for that session.  "Nothing is on its way" includes that nothing was dropped:
    no packet found the server's queue full ([us_dropped]), no payload the
    client's ([ds_lost]). *)
Theorem system_settled `{VectorAlloc, FlatBuffersSpec, EnvironmentSpec} (pool : BufferPool)
    (y : System) (j o : nat) (x : Connection) (s : Session)
    (Hrun : system_run pool y) (Hu : unique_ids (sy_server y))
    (Hj : sy_connections y !! j = Some x) (Ho : cx_object x = Some o)
    (Hs : objects (sy_server y) !! o = Some s) :
  (up_settled y x s →
   requests_of (object_id o) (sy_events y) = decoded (object_id o) (asked (cx_inputs x)))
  ∧ (down_settled y x o s →
     cx_polled x ++ receive_queue (cx_client x) = messages_for (object_id o) (sy_out y)).
Proof.
  pose proof (system_run_inv pool y Hrun Hu) as Hy.
  split; intros Hset; [by eapply up_all|by eapply down_all].
Qed.

(** ** Witnesses: a client connects and logs in *)

Section Witnesses.
#[local] Existing Instance exact_alloc.
#[local] Existing Instance plain_codec.
#[local] Existing Instance plain_codec_spec.
#[local] Existing Instance plain_environment.
#[local] Existing Instance plain_environment_spec.

Definition client_act (j : nat) (i : ClientInput) (y : System) : System :=
  match x ← sy_connections y !! j; c' ← client_handle i (cx_client x); Some (x, c') with
  | Some (x, c') => mkSystem (sy_process y) (<[j := connection_stepped i c' x]> (sy_connections y))
                      (sy_events y) (sy_out y)
  | None => y
  end.
Definition server_act (i : ServerInput) (y : System) : System :=
  mkSystem (io_act i (sy_process y)) (connection_read i <$> sy_connections y) (sy_events y) (sy_out y).
Fixpoint main_acts (n : nat) (y : System) : System :=
  match n with
  | O => y
  | S n =>
      match main_step (sy_process y) with
      | Some p' => main_acts n (mkSystem p' (sy_connections y) (sy_events y ++ step_events (sy_process y))
                                  (sy_out y ++ step_taken (sy_process y) p'))
      | None => y
      end
  end.

Definition system_0 : System := mkSystem started_process ∅ [] [].
Definition system_1 : System := mkSystem started_process {[ 0%nat := connection_new 0 ]} [] [].
Definition system_2 : System :=
  mkSystem connected_process (connection_accepted 0 <$> sy_connections system_1) [] [].
Definition system_3 : System := client_act 0 (ClPosted 0) (client_act 0 (ClSend (drop 8 login_bytes)) system_2).
Definition system_4 : System := server_act login_body (server_act login_header system_3).
(** A tick: it begins, polls two packets, updates, and sends one message. *)
Definition system_5 : System := main_acts 5 system_4.
Definition system_6 : System := server_act (SvPosted 0 0) (server_act (SvTask 0 [(1, 0%nat)]) system_5).
Definition response : bytes := mjoin (wire_of 0 (sy_server system_6)).
Definition system_7 : System :=
  client_act 0 ClPoll (client_act 0 (ClBody false (drop 8 response))
    (client_act 0 (ClHeader 20 false (take 8 response)) system_6)).

Lemma client_act_run j i y :
  system_run example_pool y →
  (∃ x c', sy_connections y !! j = Some x ∧ client_handle i (cx_client x) = Some c'
     ∧ client_input_ok i ∧ client_enabled i (cx_client x)
     ∧ cx_down x ++ client_read_bytes i `prefix_of` mjoin (heard x (sy_server y))) →
  system_run example_pool (client_act j i y).
Proof.
  intros Hrun (x & c' & Hj & Heq & Hi & Hen & Hpre). unfold client_act. rewrite Hj. cbn [mbind option_bind].
  rewrite Heq. cbn [mbind option_bind]. eapply system_next; [exact Hrun|]. by apply sys_client.
Qed.

Lemma server_act_run i y sv' :
  system_run example_pool y → server_handle example_pool i (sy_server y) = Some sv' →
  is_io i = true → server_enabled i (sy_server y) →
  (∀ j x, sy_connections y !! j = Some x →
     cx_up x ++ session_reads x i `prefix_of` mjoin (frames_out (cx_client x))) →
  system_run example_pool (server_act i y).
Proof.
  intros Hrun Heq Hio Hen Hpre. eapply system_next; [exact Hrun|]. unfold server_act, io_act, next_state.
  change (server_of (sy_process y)) with (sy_server y). rewrite Heq. by apply sys_io.
Qed.

Lemma main_acts_run n y : system_run example_pool y → system_run example_pool (main_acts n y).
Proof.
  revert y. induction n as [|n IH]; intros y Hrun; [done|]. simpl.
  destruct (main_step (sy_process y)) as [p'|] eqn:Hstep; [|done].
  apply IH. eapply system_next; [exact Hrun|]. by apply sys_main.
Qed.

Lemma only_connection (P : Connection → Prop) x0 (m : gmap nat Connection) :
  m = {[ 0%nat := x0 ]} → P x0 → ∀ j x, m !! j = Some x → P x.
Proof. intros -> HP j x. rewrite lookup_singleton_Some. by intros [_ <-]. Qed.

(** The facts about a step of the only client. *)
Ltac client_facts :=
  eexists _, _; split; [by vm_compute|]; split; [by vm_compute|]; split;
    [split; [done|first [done | by apply (bool_decide_unpack _); vm_compute]]|]; split;
    [|by apply (bool_decide_unpack _); vm_compute].

Lemma system_3_run : system_run example_pool system_3.
Proof.
  apply client_act_run; [apply client_act_run|].
  - apply (system_next _ system_1); [apply (system_next _ system_0)|].
    + by apply (system_start _ (mkAcceptorOps None None (λ _, None) None) (running started_process)).
    + by apply (sys_connect _ system_0 0 0).
    + apply (sys_accept example_pool system_1 0 0 (connection_new 0) (server_of connected_process)); try done.
  - client_facts. done.
  - client_facts. split; [by vm_compute|]. vm_compute. lia.
Qed.

(** The facts about a step of the I/O threads with the only client. *)
Ltac io_facts :=
  match goal with |- ∀ j x, sy_connections ?y !! j = Some x → _ =>
    eapply (only_connection _ (default (connection_new 0) (sy_connections y !! 0%nat)));
      [by vm_compute|by apply (bool_decide_unpack _); vm_compute] end.

Ltac read_enabled :=
  split_and!; [by vm_compute|done|]; eexists; split; [by vm_compute|]; split; [by vm_compute|];
    intros _; split; [by vm_compute|by apply (bool_decide_unpack _); vm_compute].

Lemma system_4_run : system_run example_pool system_4.
Proof.
  eapply server_act_run; [eapply server_act_run; [apply system_3_run|..]|..].
  - by vm_compute.
  - done.
  - read_enabled.
  - io_facts.
  - by vm_compute.
  - done.
  - read_enabled.
  - io_facts.
Qed.

Lemma system_6_run : system_run example_pool system_6.
Proof.
  eapply server_act_run; [eapply server_act_run|..].
  - apply main_acts_run, system_4_run.
  - by vm_compute.
  - done.
  - split_and!; [by vm_compute|by vm_compute|by vm_compute].
  - io_facts.
  - by vm_compute.
  - done.
  - split; by vm_compute.
  - io_facts.
Qed.

Lemma system_7_run : system_run example_pool system_7.
Proof.
  apply client_act_run; [apply client_act_run; [apply client_act_run; [apply system_6_run|]|]|].
  - client_facts. split; [by vm_compute|]. split; [by vm_compute|].
    intros _. split; [by vm_compute|by apply (bool_decide_unpack _); vm_compute].
  - client_facts. split; [by vm_compute|]. split; [by vm_compute|].
    intros _. split; [by vm_compute|by apply (bool_decide_unpack _); vm_compute].
  - client_facts. done.
Qed.

Definition example_connection (y : System) : Connection :=
  default (connection_new 0) (sy_connections y !! 0%nat).

Lemma system_refines_spec_witness :
  sy_events system_7 = [SessionConnectedEvent 1; LoginRequestEvent 1 1 "Ann"]
  ∧ (∃ ps, requests_of 1 (sy_events system_7) = decoded 1 ps ∧ ps `sublist_of` [drop 8 login_bytes])
  ∧ ∃ msgs ds, chat_run initial_names ∅ (sy_events system_7)
                (sessions_ (room_system_ (logic_of (sy_process system_7)))) msgs ds
               ∧ sy_out system_7 = encode_all msgs.
Proof.
  destruct (system_refines_spec example_pool system_7 system_7_run) as [Hchat Hlink].
  - by vm_compute.
  - destruct (Hlink 0%nat (example_connection system_7) 0%nat) as [(ps & Hr & Hps & _) _].
    + by vm_compute.
    + by vm_compute.
    + split; [by vm_compute|]. split; [|exact Hchat]. exists ps. split; [exact Hr|].
      exact Hps.
Defined.

Lemma system_settled_witness :
  requests_of 1 (sy_events system_7) = [LoginRequestEvent 1 1 "Ann"]
  ∧ cx_polled (example_connection system_7) = messages_for 1 (sy_out system_7)
  ∧ cx_polled (example_connection system_7) ≠ [].
Proof.
  destruct (system_settled example_pool system_7 0 0 (example_connection system_7)
              (default first_session (objects (sy_server system_7) !! 0%nat)) system_7_run)
    as [Hup Hdown].
  - by vm_compute.
  - by vm_compute.
  - by vm_compute.
  - by vm_compute.
  - split_and!.
    + etransitivity; [apply Hup; split|by vm_compute].
      1-8: by vm_compute.
      by apply (bool_decide_unpack _); vm_compute.
    + etransitivity; [|apply Hdown; split; by vm_compute]. by vm_compute.
    + by vm_compute.
Defined.
End Witnesses.
