(* ===== verification/ChatClientFrame.v ===== *)
(** * NightClient/ChatClientFrame.h, ChatClientFrame.cpp: the chat window

    The state behind the widgets (texts, enabled flags, list rows, the selection)
    and every event handler.  wxWidgets is the class [WxStrings] (its string
    conversions, trimming and the comparison of [wxListBox::FindString]) and the
    obvious containers: a list control is the list of its rows, a text control
    its value and whether it is enabled.  A message box is an entry of
    [message_boxes].  Fonts, sizers and column widths are left out. *)

From stdpp Require Import pretty.
From S2P Require Import Prelude Protocol Schema ChatProtocolClient.

(** [wxString] as the window uses it.  [wx_lit] converts an ASCII literal,
    [wx_same] compares as [FindString] does (ignoring case), [wx_c_str] is what
    [Format] prints for [%s]. *)
Class WxStrings (W : Type) := {
  wx_lit : string → W;
  wx_from_utf8 : string → W;
  wx_to_std : W → string;
  wx_append : W → W → W;
  wx_empty : W → bool;
  wx_trim : bool → W → W;
  wx_same : W → W → bool;
  wx_c_str : W → W;
}.

Record TextCtrl (W : Type) := mkTextCtrl { tc_value : W; tc_enabled : bool }.
Arguments mkTextCtrl {W}. Arguments tc_value {W}. Arguments tc_enabled {W}.

Record RoomEntry (W : Type) := mkRoomEntry { re_room_id : Z; re_room_name : W; re_user_count : Z }.
Arguments mkRoomEntry {W}. Arguments re_room_id {W}. Arguments re_room_name {W}.
Arguments re_user_count {W}.

Record ChatClientFrame (W C : Type) := mkFrame {
  host_ctrl_ : TextCtrl W;
  port_ctrl_ : TextCtrl W;
  display_name_ctrl_ : TextCtrl W;
  message_input_ctrl_ : TextCtrl W;
  connect_button_ : bool;
  refresh_rooms_button_ : bool;
  join_room_button_ : bool;
  send_button_ : bool;
  room_list_ : list (W * W);
  room_selected : option nat;
  current_room_label_ : W;
  chat_log_ctrl_ : W;
  user_list_ : list W;
  status_text : W;
  message_boxes : list W;
  poll_timer_ : bool;
  protocol_client_ : ChatProtocolClient C;
  rooms_ : list (RoomEntry W);
  current_room_id_ : Z;
}.
Arguments mkFrame {W C}. Arguments host_ctrl_ {W C}. Arguments port_ctrl_ {W C}.
Arguments display_name_ctrl_ {W C}. Arguments message_input_ctrl_ {W C}.
Arguments connect_button_ {W C}. Arguments refresh_rooms_button_ {W C}.
Arguments join_room_button_ {W C}. Arguments send_button_ {W C}. Arguments room_list_ {W C}.
Arguments room_selected {W C}. Arguments current_room_label_ {W C}. Arguments chat_log_ctrl_ {W C}.
Arguments user_list_ {W C}. Arguments status_text {W C}. Arguments message_boxes {W C}.
Arguments poll_timer_ {W C}. Arguments protocol_client_ {W C}. Arguments rooms_ {W C}.
Arguments current_room_id_ {W C}.

(** ** Ports *)

Definition digit_value (a : Ascii.ascii) : option Z :=
  let n := Z.of_nat (Ascii.nat_of_ascii a) in
  if (48 <=? n) && (n <=? 57) then Some (n - 48) else None.

(** [std::from_chars] of a base 10 [unsigned int]: the value and the characters
    left; [None] is an error (no digit, or the value does not fit 32 bits). *)
Fixpoint from_chars_go (acc : Z) (s : string) : Z * string :=
  match s with
  | String a rest =>
      match digit_value a with
      | Some d => from_chars_go (acc * 10 + d) rest
      | None => (acc, s)
      end
  | EmptyString => (acc, EmptyString)
  end.

Definition from_chars (s : string) : option (Z * string) :=
  match s with
  | String a _ =>
      match digit_value a with
      | Some _ =>
          let '(value, rest) := from_chars_go 0 s in
          if value <? 2 ^ 32 then Some (value, rest) else None
      | None => None
      end
  | EmptyString => None
  end.

Section Frame.
Context {W C : Type} `{WxStrings W, ClientTransport C, FlatBuffers}.
Abbreviation Frame := (ChatClientFrame W C).
Implicit Types (self : Frame) (w : W).

Definition ToWxString (value : string) : W := wx_from_utf8 value.

Definition Trimmed w : W := wx_trim false (wx_trim true w).

Definition ParsePort w : option Z :=
  match from_chars (wx_to_std (Trimmed w)) with
  | Some (port, rest) =>
      if negb (String.eqb rest "") || (65535 <? port) then None else Some port
  | None => None
  end.

(** ** Member updates *)

Definition set_text (f : TextCtrl W → TextCtrl W) (which : nat) self : Frame :=
  mkFrame (if decide (which = 0%nat) then f (host_ctrl_ self) else host_ctrl_ self)
    (if decide (which = 1%nat) then f (port_ctrl_ self) else port_ctrl_ self)
    (if decide (which = 2%nat) then f (display_name_ctrl_ self) else display_name_ctrl_ self)
    (if decide (which = 3%nat) then f (message_input_ctrl_ self) else message_input_ctrl_ self)
    (connect_button_ self) (refresh_rooms_button_ self) (join_room_button_ self) (send_button_ self)
    (room_list_ self) (room_selected self) (current_room_label_ self) (chat_log_ctrl_ self)
    (user_list_ self) (status_text self) (message_boxes self) (poll_timer_ self)
    (protocol_client_ self) (rooms_ self) (current_room_id_ self).
Definition set_buttons (connect other : bool) self : Frame :=
  mkFrame (host_ctrl_ self) (port_ctrl_ self) (display_name_ctrl_ self) (message_input_ctrl_ self)
    connect other other other
    (room_list_ self) (room_selected self) (current_room_label_ self) (chat_log_ctrl_ self)
    (user_list_ self) (status_text self) (message_boxes self) (poll_timer_ self)
    (protocol_client_ self) (rooms_ self) (current_room_id_ self).
Definition set_room_rows (rows : list (W * W)) (entries : list (RoomEntry W))
    (selected : option nat) self : Frame :=
  mkFrame (host_ctrl_ self) (port_ctrl_ self) (display_name_ctrl_ self) (message_input_ctrl_ self)
    (connect_button_ self) (refresh_rooms_button_ self) (join_room_button_ self) (send_button_ self)
    rows selected (current_room_label_ self) (chat_log_ctrl_ self)
    (user_list_ self) (status_text self) (message_boxes self) (poll_timer_ self)
    (protocol_client_ self) entries (current_room_id_ self).
Definition set_current_room (id : Z) (label : W) self : Frame :=
  mkFrame (host_ctrl_ self) (port_ctrl_ self) (display_name_ctrl_ self) (message_input_ctrl_ self)
    (connect_button_ self) (refresh_rooms_button_ self) (join_room_button_ self) (send_button_ self)
    (room_list_ self) (room_selected self) label (chat_log_ctrl_ self)
    (user_list_ self) (status_text self) (message_boxes self) (poll_timer_ self)
    (protocol_client_ self) (rooms_ self) id.
Definition set_log (log : W) self : Frame :=
  mkFrame (host_ctrl_ self) (port_ctrl_ self) (display_name_ctrl_ self) (message_input_ctrl_ self)
    (connect_button_ self) (refresh_rooms_button_ self) (join_room_button_ self) (send_button_ self)
    (room_list_ self) (room_selected self) (current_room_label_ self) log
    (user_list_ self) (status_text self) (message_boxes self) (poll_timer_ self)
    (protocol_client_ self) (rooms_ self) (current_room_id_ self).
Definition set_users (users : list W) self : Frame :=
  mkFrame (host_ctrl_ self) (port_ctrl_ self) (display_name_ctrl_ self) (message_input_ctrl_ self)
    (connect_button_ self) (refresh_rooms_button_ self) (join_room_button_ self) (send_button_ self)
    (room_list_ self) (room_selected self) (current_room_label_ self) (chat_log_ctrl_ self)
    users (status_text self) (message_boxes self) (poll_timer_ self)
    (protocol_client_ self) (rooms_ self) (current_room_id_ self).
Definition SetStatusText (text : W) self : Frame :=
  mkFrame (host_ctrl_ self) (port_ctrl_ self) (display_name_ctrl_ self) (message_input_ctrl_ self)
    (connect_button_ self) (refresh_rooms_button_ self) (join_room_button_ self) (send_button_ self)
    (room_list_ self) (room_selected self) (current_room_label_ self) (chat_log_ctrl_ self)
    (user_list_ self) text (message_boxes self) (poll_timer_ self)
    (protocol_client_ self) (rooms_ self) (current_room_id_ self).
Definition wxMessageBox (text : W) self : Frame :=
  mkFrame (host_ctrl_ self) (port_ctrl_ self) (display_name_ctrl_ self) (message_input_ctrl_ self)
    (connect_button_ self) (refresh_rooms_button_ self) (join_room_button_ self) (send_button_ self)
    (room_list_ self) (room_selected self) (current_room_label_ self) (chat_log_ctrl_ self)
    (user_list_ self) (status_text self) (message_boxes self ++ [text]) (poll_timer_ self)
    (protocol_client_ self) (rooms_ self) (current_room_id_ self).
Definition set_timer_running (b : bool) self : Frame :=
  mkFrame (host_ctrl_ self) (port_ctrl_ self) (display_name_ctrl_ self) (message_input_ctrl_ self)
    (connect_button_ self) (refresh_rooms_button_ self) (join_room_button_ self) (send_button_ self)
    (room_list_ self) (room_selected self) (current_room_label_ self) (chat_log_ctrl_ self)
    (user_list_ self) (status_text self) (message_boxes self) b
    (protocol_client_ self) (rooms_ self) (current_room_id_ self).
Definition set_client (client : ChatProtocolClient C) self : Frame :=
  mkFrame (host_ctrl_ self) (port_ctrl_ self) (display_name_ctrl_ self) (message_input_ctrl_ self)
    (connect_button_ self) (refresh_rooms_button_ self) (join_room_button_ self) (send_button_ self)
    (room_list_ self) (room_selected self) (current_room_label_ self) (chat_log_ctrl_ self)
    (user_list_ self) (status_text self) (message_boxes self) (poll_timer_ self)
    client (rooms_ self) (current_room_id_ self).

(** ** Operations *)

Definition Enable (b : bool) (c : TextCtrl W) : TextCtrl W := mkTextCtrl (tc_value c) b.

Definition SetConnectionState (connected : bool) self : Frame :=
  self |> set_text (Enable (negb connected)) 0
       |> set_text (Enable (negb connected)) 1
       |> set_text (Enable connected) 3
       |> set_buttons (negb connected) connected.

Definition AppendLine (line : W) self : Frame :=
  let log := chat_log_ctrl_ self in
  let log := if negb (wx_empty log) then wx_append log (wx_lit (String (Ascii.ascii_of_nat 10) "")) else log in
  set_log (wx_append log line) self.

Definition AppendSystemMessage (message : W) self : Frame :=
  AppendLine (wx_append (wx_lit "[System] ") message) self.

Definition AppendChatMessage (sender content : W) self : Frame :=
  AppendLine (wx_append (wx_append (wx_append (wx_lit "[") sender) (wx_lit "] ")) content) self.

Definition GetSelectedRoom self : option (RoomEntry W) :=
  match room_selected self with
  | None => None
  | Some selected => rooms_ self !! selected
  end.

(** [wxString::Format("%u", n)]. *)
Definition format_u (n : Z) : W := wx_lit (pretty n).

(** The two overloads of [ApplyRoomList]. *)
Definition ApplyRoom (room : ChatRoomInfo) self : Frame :=
  let entry := mkRoomEntry (cr_room_id room) (ToWxString (cr_room_name room)) (cr_user_count room) in
  set_room_rows (room_list_ self ++ [(re_room_name entry, format_u (re_user_count entry))])
    (rooms_ self ++ [entry]) (room_selected self) self.

Definition ApplyRoomList (rooms : list ChatRoomInfo) self : Frame :=
  foldl (λ self room, ApplyRoom room self) (set_room_rows [] [] None self) rooms.

Definition ApplyJoinedRoom (room : ChatRoomInfo) self : Frame :=
  self |> set_current_room (cr_room_id room)
            (wx_append (wx_append (wx_append (wx_lit "Current Room: #") (format_u (cr_room_id room)))
                          (wx_lit " "))
               (wx_c_str (ToWxString (cr_room_name room))))
       |> SetStatusText (wx_append (wx_lit "Joined room #") (format_u (cr_room_id room))).

(** [wxListBox::FindString]. *)
Definition FindString (name : W) (items : list W) : option nat :=
  fst <$> list_find (λ item, wx_same item name = true) items.

Definition AddUser (name : W) self : Frame :=
  if wx_empty name then self
  else
    match FindString name (user_list_ self) with
    | None => set_users (user_list_ self ++ [name]) self
    | Some _ => self
    end.

Definition RemoveUser (name : W) self : Frame :=
  match FindString name (user_list_ self) with
  | Some index => set_users (delete index (user_list_ self)) self
  | None => self
  end.

Definition ProcessProtocolEvent (event : ChatProtocolEvent) self : Frame :=
  match event with
  | ChatLoginSucceededEvent name =>
      let display_name := if String.eqb name "" then Trimmed (tc_value (display_name_ctrl_ self))
                          else ToWxString name in
      self |> AddUser display_name
           |> SetStatusText (wx_lit "Login completed")
           |> AppendSystemMessage (wx_append display_name (wx_lit " logged in."))
  | ChatLoginFailedEvent error_message =>
      AppendSystemMessage (wx_append (wx_lit "Login failed: ") (ToWxString error_message)) self
  | ChatRoomListEvent rooms =>
      self |> ApplyRoomList rooms
           |> SetStatusText (wx_append (wx_append (wx_lit "Loaded ") (format_u (zlen rooms)))
                               (wx_lit " rooms"))
  | ChatJoinRoomSucceededEvent room =>
      self |> ApplyJoinedRoom room
           |> AppendSystemMessage (wx_append (wx_append (wx_lit "Joined room #")
                                                (format_u (cr_room_id room))) (wx_lit "."))
  | ChatJoinRoomFailedEvent error_message =>
      AppendSystemMessage (wx_append (wx_lit "Join room failed: ") (ToWxString error_message)) self
  | ChatMessageReceivedEvent _ sender_name content =>
      AppendChatMessage (ToWxString sender_name) (ToWxString content) self
  | ChatUserJoinedEvent _ display_name =>
      let name := ToWxString display_name in
      self |> AddUser name |> AppendSystemMessage (wx_append name (wx_lit " joined."))
  | ChatUserLeftEvent _ display_name =>
      let name := ToWxString display_name in
      self |> RemoveUser name |> AppendSystemMessage (wx_append name (wx_lit " left."))
  | ChatSystemMessageEvent _ content => AppendSystemMessage (ToWxString content) self
  | ChatProtocolErrorEvent message => AppendSystemMessage (ToWxString message) self
  end.

Definition process_events (events : list ChatProtocolEvent) self : Frame :=
  foldl (λ self event, ProcessProtocolEvent event self) self events.

Definition LoadMockData self : Frame :=
  self |> set_room_rows [] [] None
       |> set_users []
       |> set_log (wx_lit "")
       |> set_current_room 0 (wx_lit "Current Room: -")
       |> process_events CreateMockEvents
       |> SetStatusText (wx_lit "Mock data loaded from schema layout").

(** [BuildLayout], as far as it sets values, and the constructor. *)
Definition BuildLayout : Frame :=
  mkFrame (mkTextCtrl (wx_lit "127.0.0.1") true) (mkTextCtrl (wx_lit "12345") true)
    (mkTextCtrl (wx_lit "NightUser") true) (mkTextCtrl (wx_lit "") true)
    true true true true [] None (wx_lit "Current Room: -") (wx_lit "") [] (wx_lit "Ready") []
    false chat_client_init [] 0.

Definition frame_create : Frame :=
  BuildLayout |> SetConnectionState false |> LoadMockData |> set_timer_running true.

(** ** Event handlers *)

(** [created] is what [Client::create] answers for a host and a port. *)
Definition OnConnectClicked (created : string → Z → expected C string) self : Frame :=
  let host := Trimmed (tc_value (host_ctrl_ self)) in
  let port := ParsePort (tc_value (port_ctrl_ self)) in
  let display_name := Trimmed (tc_value (display_name_ctrl_ self)) in
  if wx_empty host then wxMessageBox (wx_lit "Enter a host.") self
  else
    match port with
    | None => wxMessageBox (wx_lit "Port must be a number between 0 and 65535.") self
    | Some port =>
        if wx_empty display_name then wxMessageBox (wx_lit "Enter a display name.") self
        else
          match Connect (created (wx_to_std host) port) (protocol_client_ self) with
          | inr error => wxMessageBox (ToWxString error) self
          | inl client =>
              let self :=
                self |> set_client client
                     |> SetConnectionState true
                     |> SetStatusText (wx_append (wx_append (wx_append (wx_lit "Connected to ")
                                         (wx_c_str host)) (wx_lit ":")) (format_u port))
                     |> AppendSystemMessage
                          (wx_lit "TCP connection established. Sending schema-based requests.") in
              let self := set_client (SendLoginRequest (wx_to_std display_name)
                                        (protocol_client_ self)) self in
              set_client (SendRoomListRequest (protocol_client_ self)) self
          end
    end.

Definition OnRefreshRoomsClicked self : Frame :=
  if negb (IsConnected (protocol_client_ self)) then self
  else
    self |> set_client (SendRoomListRequest (protocol_client_ self))
         |> AppendSystemMessage (wx_lit "Requested room list.").

Definition OnJoinRoomClicked self : Frame :=
  if negb (IsConnected (protocol_client_ self)) then self
  else
    match GetSelectedRoom self with
    | None => wxMessageBox (wx_lit "Select a room to join.") self
    | Some room =>
        let self := AppendSystemMessage
                      (wx_append (wx_append (wx_lit "Sent join request for room #")
                                    (format_u (re_room_id room))) (wx_lit ".")) self in
        set_client (SendJoinRoomRequest (re_room_id room) (protocol_client_ self)) self
    end.

Definition OnRoomActivated self : Frame := OnJoinRoomClicked self.

Definition OnSendClicked self : Frame :=
  if negb (IsConnected (protocol_client_ self)) then self
  else if current_room_id_ self =? 0 then wxMessageBox (wx_lit "Join a room first.") self
  else
    let text := Trimmed (tc_value (message_input_ctrl_ self)) in
    if wx_empty text then self
    else
      self |> set_client (SendChatRequest (wx_to_std text) (protocol_client_ self))
           |> set_text (λ c, mkTextCtrl (wx_lit "") (tc_enabled c)) 3.

(** [fuel] bounds the polls of [PollEvents]. *)
Definition OnPollTimer (fuel : nat) self : option Frame :=
  if negb (IsConnected (protocol_client_ self)) then Some self
  else
    let self := set_client (Update (protocol_client_ self)) self in
    '(events, client) ← PollEvents fuel (protocol_client_ self);
    let self := self |> set_client client |> process_events events in
    Some (if negb (IsConnected (protocol_client_ self)) then
            self |> set_client (Disconnect (protocol_client_ self))
                 |> SetConnectionState false
                 |> SetStatusText (wx_lit "Disconnected")
                 |> AppendSystemMessage (wx_lit "Server connection closed.")
          else self).

Definition OnClose self : Frame :=
  self |> set_timer_running false |> set_client (Disconnect (protocol_client_ self)).

(** ** Events *)

(** An event a handler is bound to: the control, or the frame, and the event. *)
Inductive BoundEvent :=
  | ConnectButton | RefreshRoomsButton | JoinRoomButton | SendButton
  | MessageInputEnter | RoomListActivated | PollTimer | CloseWindow.

(** [BindEvents]: the handler of each event.  [created] answers [Client::create]
    for [OnConnectClicked], [fuel] is for [OnPollTimer]. *)
Definition BindEvents (created : string → Z → expected C string) (fuel : nat)
    (event : BoundEvent) self : option Frame :=
  match event with
  | ConnectButton => Some (OnConnectClicked created self)
  | RefreshRoomsButton => Some (OnRefreshRoomsClicked self)
  | JoinRoomButton => Some (OnJoinRoomClicked self)
  | SendButton => Some (OnSendClicked self)
  | MessageInputEnter => Some (OnSendClicked self)
  | RoomListActivated => Some (OnRoomActivated self)
  | PollTimer => OnPollTimer fuel self
  | CloseWindow => Some (OnClose self)
  end.

(** [NightClientApp::OnInit] (NightClient.cpp): the frame shown, and whether the
    application goes on. *)
Definition OnInit : Frame * bool := (frame_create, true).
End Frame.
