(* ===== verification/ChatClientFrameProperties.v ===== *)
(** * Properties of the chat window

    The window is driven by the user, by the timer and by the connection
    ([UiInput]); a disabled control accepts no input.  [window_ok] is its
    invariant.  [lost_connection_unnoticed] states what happens when the
    connection is lost between two ticks of the timer. *)

From stdpp Require Import pretty.
From S2P Require Import Prelude Protocol BufferPool TransportDetail Session Client ClientProperties Schema HeapLibrary ChatProtocolClient ChatClientFrame.

Inductive UiInput (W C : Type) :=
  | UiType (which : nat) (text : W)
  | UiSelect (row : nat)
  | UiConnect (created : string → Z → expected C string)
  | UiRefresh
  | UiJoin
  | UiActivate (row : nat)
  | UiSend
  | UiEnter
  | UiTimer
  | UiClose
  | UiNetwork (client : C).
Arguments UiType {W C}. Arguments UiSelect {W C}. Arguments UiConnect {W C}.
Arguments UiRefresh {W C}. Arguments UiJoin {W C}. Arguments UiActivate {W C}.
Arguments UiSend {W C}. Arguments UiEnter {W C}. Arguments UiTimer {W C}. Arguments UiClose {W C}.
Arguments UiNetwork {W C}.

Section Window.
Context {W C : Type} `{WxStrings W, ClientTransport C, FlatBuffers}.
Abbreviation Frame := (ChatClientFrame W C).
Implicit Types (f : Frame) (w : W).

(** The text control number [which], as [set_text] counts them. *)
Definition text_ctrl (which : nat) f : option (TextCtrl W) :=
  [host_ctrl_ f; port_ctrl_ f; display_name_ctrl_ f; message_input_ctrl_ f] !! which.

(** When an input can happen: the window is open, the control is enabled, the
    row exists.  The I/O thread cannot bring a lost connection back
    ([client_safe]). *)
Definition ui_enabled (i : UiInput W C) f : Prop :=
  poll_timer_ f = true ∧
  match i with
  | UiType which _ => ∃ c, text_ctrl which f = Some c ∧ tc_enabled c = true
  | UiSelect row | UiActivate row => (row < length (room_list_ f))%nat
  | UiConnect _ => connect_button_ f = true
  | UiRefresh => refresh_rooms_button_ f = true
  | UiJoin => join_room_button_ f = true
  | UiSend => send_button_ f = true
  | UiEnter => tc_enabled (message_input_ctrl_ f) = true
  | UiTimer | UiClose => True
  | UiNetwork client' => ∃ client, client_ (protocol_client_ f) = Some client
                         ∧ (cl_is_connected client = false → cl_is_connected client' = false)
  end.

Definition select_row (row : nat) f : Frame :=
  set_room_rows (room_list_ f) (rooms_ f) (Some row) f.

(** The polls of a tick: one per waiting payload and one more. *)
Definition tick_fuel f : nat :=
  match client_ (protocol_client_ f) with
  | Some client => S (length (cl_pending (cl_update client)))
  | None => 1
  end.

(** For the events whose handler does not connect. *)
Definition no_create : string → Z → expected C string := λ _ _, inr ""%string.

Definition ui_handle (i : UiInput W C) f : option Frame :=
  match i with
  | UiType which text => Some (set_text (λ c, mkTextCtrl text (tc_enabled c)) which f)
  | UiSelect row => Some (select_row row f)
  | UiConnect created => BindEvents created 0 ConnectButton f
  | UiRefresh => BindEvents no_create 0 RefreshRoomsButton f
  | UiJoin => BindEvents no_create 0 JoinRoomButton f
  | UiActivate row => BindEvents no_create 0 RoomListActivated (select_row row f)
  | UiSend => BindEvents no_create 0 SendButton f
  | UiEnter => BindEvents no_create 0 MessageInputEnter f
  | UiTimer => BindEvents no_create (tick_fuel f) PollTimer f
  | UiClose => BindEvents no_create 0 CloseWindow f
  | UiNetwork client =>
      Some (set_client (mkChatProtocolClient (Some client) (next_request_id_ (protocol_client_ f))) f)
  end.

(** Runs of the window. *)
Inductive ui_steps (f0 : Frame) : list (UiInput W C) → Frame → Prop :=
  | ui_refl : ui_steps f0 [] f0
  | ui_snoc ins i f f' :
      ui_steps f0 ins f → ui_enabled i f → ui_handle i f = Some f' → ui_steps f0 (ins ++ [i]) f'.

Definition ui_run : list (UiInput W C) → Frame → Prop := ui_steps (fst OnInit).

(** ** Invariant *)

(** The controls show [b]: a connection or none. *)
Definition controls_show (b : bool) f : Prop :=
  tc_enabled (host_ctrl_ f) = negb b ∧ tc_enabled (port_ctrl_ f) = negb b
  ∧ connect_button_ f = negb b ∧ tc_enabled (message_input_ctrl_ f) = b
  ∧ refresh_rooms_button_ f = b ∧ join_room_button_ f = b ∧ send_button_ f = b.

(** The rows of the room list show [rooms_], and the selection is one of them. *)
Definition rows_ok f : Prop :=
  room_list_ f = (λ e, (re_room_name e, format_u (re_user_count e))) <$> rooms_ f
  ∧ ∀ row, room_selected f = Some row → (row < length (rooms_ f))%nat.

(** No user is listed twice, in whatever case, and nobody without a name. *)
Definition users_ok (users : list W) : Prop :=
  Forall (λ name, wx_empty name = false) users
  ∧ ∀ i j a b, users !! i = Some a → users !! j = Some b → (i < j)%nat → wx_same a b = false.

Record window_ok f : Prop := {
  wo_controls : poll_timer_ f = true →
    controls_show (bool_decide (client_ (protocol_client_ f) ≠ None)) f;
  wo_rows : rows_ok f;
  wo_users : users_ok (user_list_ f);
}.

(** What processing an event leaves alone: controls, timer and client. *)
Definition same_window f f' : Prop :=
  host_ctrl_ f' = host_ctrl_ f ∧ port_ctrl_ f' = port_ctrl_ f
  ∧ display_name_ctrl_ f' = display_name_ctrl_ f ∧ message_input_ctrl_ f' = message_input_ctrl_ f
  ∧ connect_button_ f' = connect_button_ f ∧ refresh_rooms_button_ f' = refresh_rooms_button_ f
  ∧ join_room_button_ f' = join_room_button_ f ∧ send_button_ f' = send_button_ f
  ∧ poll_timer_ f' = poll_timer_ f ∧ protocol_client_ f' = protocol_client_ f.

Lemma same_window_trans f1 f2 f3 : same_window f1 f2 → same_window f2 f3 → same_window f1 f3.
Proof. unfold same_window. naive_solver congruence. Qed.

Lemma users_ok_nil : users_ok [].
Proof. split; [constructor|]. intros i j a b Hi. by rewrite lookup_nil in Hi. Qed.

Lemma users_ok_add (name : W) (users : list W) :
  users_ok users → wx_empty name = false → FindString name users = None →
  users_ok (users ++ [name]).
Proof.
  intros [Hne Hno] Hname Hfind. unfold FindString in Hfind.
  destruct (list_find _ users) as [|] eqn:Hl; [done|].
  apply list_find_None in Hl. split.
  - apply Forall_app. split; [done|]. by apply Forall_singleton.
  - intros i j a b Hi Hj Hij. apply lookup_app_Some in Hj as [Hj|[Hlen Hj]].
    + apply (Hno i j); try done. apply lookup_app_Some in Hi as [Hi|[Hlen' _]]; [done|].
      apply lookup_lt_Some in Hj. lia.
    + apply list_lookup_singleton_Some in Hj as [Hj <-].
      apply lookup_app_Some in Hi as [Hi|[Hlen' Hi]]; [|apply lookup_lt_Some in Hi; simpl in Hi; lia].
      apply (Forall_lookup_1 _ _ _ _ Hl) in Hi. simpl in Hi. by destruct (wx_same a name).
Qed.

Lemma users_ok_delete k (users : list W) : users_ok users → users_ok (delete k users).
Proof.
  intros [Hne Hno]. split; [by apply Forall_delete|]. intros i j a b Hi Hj Hij.
  rewrite list_lookup_delete in Hi, Hj. repeat case_decide; (eapply Hno; [exact Hi|exact Hj|lia]).
Qed.

Lemma AddUser_users (name : W) f : users_ok (user_list_ f) → users_ok (user_list_ (AddUser name f)).
Proof.
  intros Hu. unfold AddUser. destruct (wx_empty name) eqn:He; [done|].
  destruct (FindString name (user_list_ f)) eqn:Hf; [done|]. by apply users_ok_add.
Qed.

Lemma RemoveUser_users (name : W) f :
  users_ok (user_list_ f) → users_ok (user_list_ (RemoveUser name f)).
Proof.
  intros Hu. unfold RemoveUser. destruct (FindString name (user_list_ f)); [|done].
  by apply users_ok_delete.
Qed.

Lemma AddUser_same (name : W) f :
  same_window f (AddUser name f) ∧ room_list_ (AddUser name f) = room_list_ f
  ∧ rooms_ (AddUser name f) = rooms_ f ∧ room_selected (AddUser name f) = room_selected f.
Proof.
  unfold AddUser. destruct (wx_empty name); [done|]. by destruct (FindString name (user_list_ f)).
Qed.

Lemma RemoveUser_same (name : W) f :
  same_window f (RemoveUser name f) ∧ room_list_ (RemoveUser name f) = room_list_ f
  ∧ rooms_ (RemoveUser name f) = rooms_ f ∧ room_selected (RemoveUser name f) = room_selected f.
Proof. unfold RemoveUser. by destruct (FindString name (user_list_ f)). Qed.

Lemma rows_ok_eq f f' :
  rows_ok f → room_list_ f' = room_list_ f → rooms_ f' = rooms_ f →
  room_selected f' = room_selected f → rows_ok f'.
Proof. unfold rows_ok. by intros ? -> -> ->. Qed.

Lemma ApplyRoom_ok room f :
  rows_ok f → rows_ok (ApplyRoom room f) ∧ same_window f (ApplyRoom room f)
  ∧ user_list_ (ApplyRoom room f) = user_list_ f.
Proof.
  intros [Hrows Hsel]. split_and!; try done. split; simpl.
  - by rewrite fmap_app, Hrows.
  - intros row Hrow. rewrite length_app. specialize (Hsel row Hrow). lia.
Qed.

Lemma ApplyRoomList_ok rooms f :
  rows_ok (ApplyRoomList rooms f) ∧ same_window f (ApplyRoomList rooms f)
  ∧ user_list_ (ApplyRoomList rooms f) = user_list_ f.
Proof.
  unfold ApplyRoomList. assert (∀ f0, rows_ok f0 → same_window f f0 → user_list_ f0 = user_list_ f →
    rows_ok (foldl (λ self room, ApplyRoom room self) f0 rooms)
    ∧ same_window f (foldl (λ self room, ApplyRoom room self) f0 rooms)
    ∧ user_list_ (foldl (λ self room, ApplyRoom room self) f0 rooms) = user_list_ f) as Hgen;
    [|by apply Hgen].
  induction rooms as [|room rooms IH]; intros f0 Hr Hs Hu; [done|]. simpl.
  destruct (ApplyRoom_ok room f0 Hr) as (Hr1 & Hs1 & Hu1).
  apply IH; [done|by eapply same_window_trans|congruence].
Qed.

(** Processing an event keeps the rows and the users in order and leaves the
    controls alone. *)
Lemma ProcessProtocolEvent_ok event f :
  rows_ok f → users_ok (user_list_ f) →
  rows_ok (ProcessProtocolEvent event f) ∧ users_ok (user_list_ (ProcessProtocolEvent event f))
  ∧ same_window f (ProcessProtocolEvent event f).
Proof.
  intros Hr Hu. destruct event as [name|err|rooms|room|err|r s t|r name|r name|r t|msg];
    cbn [ProcessProtocolEvent]; try done.
  - set (n := if String.eqb name "" then _ else _).
    destruct (AddUser_same n f) as (Hs & E1 & E2 & E3). split_and!; [|by apply AddUser_users|exact Hs].
    by apply (rows_ok_eq f).
  - destruct (ApplyRoomList_ok rooms f) as (Hr1 & Hs1 & Hu1). split_and!; [exact Hr1| |exact Hs1].
    change (users_ok (user_list_ (ApplyRoomList rooms f))). by rewrite Hu1.
  - set (n := ToWxString name).
    destruct (AddUser_same n f) as (Hs & E1 & E2 & E3). split_and!; [|by apply AddUser_users|exact Hs].
    by apply (rows_ok_eq f).
  - set (n := ToWxString name).
    destruct (RemoveUser_same n f) as (Hs & E1 & E2 & E3).
    split_and!; [|by apply RemoveUser_users|exact Hs]. by apply (rows_ok_eq f).
Qed.

Lemma process_events_ok events f :
  rows_ok f → users_ok (user_list_ f) →
  rows_ok (process_events events f) ∧ users_ok (user_list_ (process_events events f))
  ∧ same_window f (process_events events f).
Proof.
  unfold process_events. revert f. induction events as [|e es IH]; intros f Hr Hu; [done|]. simpl.
  destruct (ProcessProtocolEvent_ok e f Hr Hu) as (Hr1 & Hu1 & Hs1).
  destruct (IH _ Hr1 Hu1) as (Hr2 & Hu2 & Hs2). split_and!; try done. by eapply same_window_trans.
Qed.

(** ** Steps *)

Lemma window_same f f' :
  window_ok f → same_window f f' → rows_ok f' → users_ok (user_list_ f') → window_ok f'.
Proof.
  intros [Hc _ _] (E1 & E2 & E3 & E4 & E5 & E6 & E7 & E8 & E9 & E10) Hr Hu. split; [|done|done].
  unfold controls_show in *. by rewrite E1, E2, E4, E5, E6, E7, E8, E9, E10.
Qed.

(** The same, for operations that leave lists alone as well. *)
Lemma window_quiet f f' :
  window_ok f → same_window f f' → room_list_ f' = room_list_ f → rooms_ f' = rooms_ f →
  room_selected f' = room_selected f → user_list_ f' = user_list_ f → window_ok f'.
Proof.
  intros Hf Hs E1 E2 E3 E4. apply (window_same f); [done|done| |].
  - apply (rows_ok_eq f); [apply Hf|done..].
  - rewrite E4. apply Hf.
Qed.

Lemma window_client p f :
  window_ok f → (client_ p = None ↔ client_ (protocol_client_ f) = None) → window_ok (set_client p f).
Proof.
  intros [Hc Hr Hu] Hiff. split; [|exact Hr|exact Hu]. intros Ht. specialize (Hc Ht). simpl.
  assert (bool_decide (client_ p ≠ None) = bool_decide (client_ (protocol_client_ f) ≠ None)) as ->
    by (apply bool_decide_ext; by rewrite Hiff).
  exact Hc.
Qed.

(** A window whose connection state has just been shown. *)
Lemma window_shown b p f :
  rows_ok f → users_ok (user_list_ f) → b = bool_decide (client_ p ≠ None) →
  window_ok (SetConnectionState b (set_client p f)).
Proof. intros Hr Hu ->. split; [|exact Hr|exact Hu]. intros _. by split_and!. Qed.

Lemma SendBuffer_none data (p : ChatProtocolClient C) :
  client_ (SendBuffer data p) = None ↔ client_ p = None.
Proof.
  unfold SendBuffer. destruct (client_ p) eqn:E; [|by rewrite E].
  destruct (_ =? _); simpl; by rewrite ?E.
Qed.

Lemma requests_none (p : ChatProtocolClient C) :
  (∀ name, client_ (SendLoginRequest name p) = None ↔ client_ p = None)
  ∧ (client_ (SendRoomListRequest p) = None ↔ client_ p = None)
  ∧ (∀ room_id, client_ (SendJoinRoomRequest room_id p) = None ↔ client_ p = None)
  ∧ (∀ text, client_ (SendChatRequest text p) = None ↔ client_ p = None).
Proof.
  unfold SendLoginRequest, SendRoomListRequest, SendJoinRoomRequest, SendChatRequest.
  destruct (client_ p) eqn:E; [|by rewrite E].
  split_and!; intros; cbn [NextRequestId]; rewrite SendBuffer_none; simpl; by rewrite E.
Qed.

Lemma window_timer_shown text f f' :
  controls_show false f → client_ (protocol_client_ f) = None → same_window f f' →
  rows_ok f' → users_ok (user_list_ f') →
  window_ok (set_timer_running true (SetStatusText text f')).
Proof.
  intros (C1 & C2 & C3 & C4 & C5 & C6 & C7) Hp (E1 & E2 & _ & E4 & E5 & E6 & E7 & E8 & _ & E10) Hr Hu.
  split; [|exact Hr|exact Hu]. intros _. simpl. rewrite E10, Hp, bool_decide_false by auto.
  unfold controls_show; simpl. by rewrite E1, E2, E4, E5, E6, E7, E8.
Qed.

Lemma window_load f :
  controls_show false f → client_ (protocol_client_ f) = None →
  window_ok (set_timer_running true (LoadMockData f)).
Proof.
  intros Hc Hp. unfold LoadMockData. simpl.
  set (f0 := set_current_room _ _ _).
  destruct (process_events_ok CreateMockEvents f0) as (Hr & Hu & Hs);
    [split; [done|by intros row [=]]|apply users_ok_nil|].
  by apply (window_timer_shown _ f0).
Qed.

Lemma window_create : window_ok frame_create.
Proof. unfold frame_create. apply window_load; [by split_and!|done]. Qed.

Lemma window_connect created f : window_ok f → window_ok (OnConnectClicked created f).
Proof.
  intros Hf. unfold OnConnectClicked. destruct (wx_empty _); [by apply (window_quiet f)|].
  destruct (ParsePort _) as [port|]; [|by apply (window_quiet f)].
  destruct (wx_empty _); [by apply (window_quiet f)|].
  destruct (Connect _ _) as [p|err] eqn:Hc; [|by apply (window_quiet f)].
  assert (client_ p ≠ None) as Hp.
  { unfold Connect in Hc. destruct (created _ _); [|done]. by injection Hc as <-. }
  pose proof (window_shown true p f (wo_rows f Hf) (wo_users f Hf)) as Hw.
  rewrite bool_decide_true in Hw by done. specialize (Hw eq_refl).
  set (f1 := AppendSystemMessage _ _).
  assert (window_ok f1) as Hf1 by (by apply (window_quiet (SetConnectionState true (set_client p f)))).
  destruct (requests_none (protocol_client_ f1)) as (Hlogin & _).
  pose proof (window_client _ f1 Hf1 (Hlogin (wx_to_std (Trimmed (tc_value (display_name_ctrl_ f))))))
    as Hf2.
  set (f2 := set_client (SendLoginRequest _ _) f1) in *.
  destruct (requests_none (protocol_client_ f2)) as (_ & Hrooms & _).
  by apply window_client.
Qed.

Lemma poll_events_total `{!ClientTransportSpec C} (p : ChatProtocolClient C) client :
  client_ p = Some client →
  ∃ client', PollEvents (S (length (cl_pending client))) p
    = Some (mjoin (DecodePacket <$> cl_pending client),
            mkChatProtocolClient (Some client') (next_request_id_ p)).
Proof.
  intros Hcl. destruct (poll_loop_spec client []) as (client' & Hpoll & _). exists client'.
  unfold PollEvents. by rewrite Hcl, Hpoll.
Qed.

Lemma window_timer `{!ClientTransportSpec C} f :
  window_ok f → ∃ f', OnPollTimer (tick_fuel f) f = Some f' ∧ window_ok f'.
Proof.
  intros Hf. unfold OnPollTimer, tick_fuel.
  destruct (negb (IsConnected (protocol_client_ f))) eqn:Hcon; [by exists f|].
  destruct (client_ (protocol_client_ f)) as [client|] eqn:Hcl.
  2:{ unfold IsConnected in Hcon. by rewrite Hcl in Hcon. }
  set (f0 := set_client (Update (protocol_client_ f)) f).
  assert (client_ (protocol_client_ f0) = Some (cl_update client)) as Hcl0
    by (unfold f0, Update; simpl; by rewrite Hcl).
  destruct (poll_events_total (protocol_client_ f0) _ Hcl0) as (client' & ->).
  cbn [mbind option_bind]. set (p := mkChatProtocolClient (Some client') _).
  set (f1 := set_client p f0).
  assert (window_ok f1) as Hf1 by (apply (window_client p f Hf); by rewrite Hcl).
  destruct (process_events_ok (mjoin (DecodePacket <$> cl_pending (cl_update client))) f1)
    as (Hr & Hu & Hs); [apply Hf1|apply Hf1|].
  set (f2 := process_events _ f1) in *.
  assert (window_ok f2) as Hf2 by (by apply (window_same f1)).
  eexists. split; [done|]. destruct (negb (IsConnected (protocol_client_ f2))); [|done].
  apply (window_quiet (SetConnectionState false (set_client (Disconnect (protocol_client_ f2)) f2)));
    [|done..]. by apply window_shown.
Qed.

Lemma window_join f : window_ok f → window_ok (OnJoinRoomClicked f).
Proof.
  intros Hf. unfold OnJoinRoomClicked. destruct (negb _); [done|].
  destruct (GetSelectedRoom f); [|by apply (window_quiet f)].
  apply window_client; [by apply (window_quiet f)|]. apply requests_none.
Qed.

Lemma window_select row f :
  window_ok f → (row < length (room_list_ f))%nat → window_ok (select_row row f).
Proof.
  intros Hf Hrow. apply (window_same f); [done|done| |apply Hf]. destruct (wo_rows f Hf) as [Hr _].
  split; [exact Hr|]. simpl. intros row' [= <-]. by rewrite Hr, length_fmap in Hrow.
Qed.

Lemma window_send f : window_ok f → window_ok (OnSendClicked f).
Proof.
  intros Hf. unfold OnSendClicked. destruct (negb _); [done|].
  destruct (_ =? _); [by apply (window_quiet f)|]. destruct (wx_empty _); [done|].
  set (f1 := set_client _ f).
  assert (window_ok f1) as [Hc Hr Hu] by (apply window_client; [done|apply requests_none]).
  split; [|exact Hr|exact Hu]. intros Ht1. exact (Hc Ht1).
Qed.

Lemma window_step `{!ClientTransportSpec C} i f :
  window_ok f → ui_enabled i f → ∃ f', ui_handle i f = Some f' ∧ window_ok f'.
Proof.
  intros Hf [Ht Hen]. destruct i as [which text|row|created| | |row| | | | |client]; simpl.
  - eexists. split; [done|]. destruct Hf as [Hc Hr Hu]. split; [|exact Hr|exact Hu].
    intros _. specialize (Hc Ht). unfold controls_show in *. simpl.
    by repeat case_decide.
  - eexists. split; [done|by apply window_select].
  - eexists. split; [done|by apply window_connect].
  - eexists. split; [done|]. unfold OnRefreshRoomsClicked. destruct (negb _); [done|].
    apply (window_quiet (set_client (SendRoomListRequest (protocol_client_ f)) f)); [|done..].
    apply window_client; [done|]. apply requests_none.
  - eexists. split; [done|by apply window_join].
  - eexists. split; [done|]. by apply window_join, window_select.
  - eexists. split; [done|by apply window_send].
  - eexists. split; [done|by apply window_send].
  - by apply window_timer.
  - eexists. split; [done|]. destruct Hf as [_ Hr Hu]. by split.
  - eexists. split; [done|]. destruct Hen as (client0 & Hcl & _). apply window_client; [done|].
    by rewrite Hcl.
Qed.

Lemma ui_steps_ok `{!ClientTransportSpec C} f0 ins f :
  window_ok f0 → ui_steps f0 ins f → window_ok f.
Proof.
  intros Hf0. induction 1 as [|ins i f f' _ IH Hen Heq]; [done|].
  destruct (window_step i f IH Hen) as (f2 & Heq2 & Hf2). congruence.
Qed.
End Window.

(** ** A lost connection *)

Section Lost.
Context {W C : Type} `{WxStrings W, ClientTransport C, FlatBuffers}.
Implicit Types (f : ChatClientFrame W C).

(** The window has a client whose connection is gone. *)
Definition connection_lost f : Prop :=
  ∃ client, client_ (protocol_client_ f) = Some client ∧ cl_is_connected client = false.

Lemma lost_not_connected f : connection_lost f → IsConnected (protocol_client_ f) = false.
Proof. intros (client & Hcl & Hc). unfold IsConnected. by rewrite Hcl. Qed.

(** What the user could see changing. *)
Definition shown f : (W * W * list W * list W) * (list (W * W) * W * Z) :=
  ((status_text f, chat_log_ctrl_ f, message_boxes f, user_list_ f),
   (room_list_ f, current_room_label_ f, next_request_id_ (protocol_client_ f))).

Lemma lost_step i f f' :
  poll_timer_ f = true → connect_button_ f = false → connection_lost f →
  ui_enabled i f → i ≠ UiClose → ui_handle i f = Some f' →
  poll_timer_ f' = true ∧ connect_button_ f' = false ∧ connection_lost f' ∧ shown f' = shown f.
Proof.
  intros Ht Hb Hl [_ Hen] Hclose Heq. pose proof (lost_not_connected f Hl) as Hcon.
  destruct i as [which text|row|created| | |row| | | | |client]; cbn in Heq; try done.
  - by injection Heq as <-.
  - by injection Heq as <-.
  - by rewrite Hb in Hen.
  - unfold OnRefreshRoomsClicked in Heq. rewrite Hcon in Heq. by injection Heq as <-.
  - unfold OnJoinRoomClicked in Heq. rewrite Hcon in Heq. by injection Heq as <-.
  - unfold OnRoomActivated, OnJoinRoomClicked in Heq.
    change (protocol_client_ (select_row row f)) with (protocol_client_ f) in Heq.
    rewrite Hcon in Heq. by injection Heq as <-.
  - unfold OnSendClicked in Heq. rewrite Hcon in Heq. by injection Heq as <-.
  - unfold OnSendClicked in Heq. rewrite Hcon in Heq. by injection Heq as <-.
  - unfold OnPollTimer in Heq. rewrite Hcon in Heq. by injection Heq as <-.
  - injection Heq as <-. destruct Hen as (client0 & Hcl & Hkeep).
    destruct Hl as (client1 & Hcl1 & Hc1). assert (client1 = client0) as -> by congruence.
    split_and!; try done. exists client. auto.
Qed.

Lemma lost_steps f0 ins f :
  poll_timer_ f0 = true → connect_button_ f0 = false → connection_lost f0 →
  ui_steps f0 ins f → UiClose ∉ ins →
  poll_timer_ f = true ∧ connect_button_ f = false ∧ connection_lost f ∧ shown f = shown f0.
Proof.
  intros Ht Hb Hl Hst. induction Hst as [|ins i f f' _ IH Hen Heq]; intros Hclose; [done|].
  rewrite elem_of_app, list_elem_of_singleton in Hclose.
  destruct IH as (Ht1 & Hb1 & Hl1 & Hs1); [by intros ?; apply Hclose; left|].
  destruct (lost_step i f f' Ht1 Hb1 Hl1 Hen) as (Ht2 & Hb2 & Hl2 & Hs2);
    [by intros ->; apply Hclose; right|done|].
  split_and!; try done. congruence.
Qed.

(** Entering another room leaves the users of the room before in the list. *)
Lemma room_switch_keeps_users room f :
  user_list_ (ProcessProtocolEvent (ChatJoinRoomSucceededEvent room) f) = user_list_ f.
Proof. done. Qed.
End Lost.

(** ** Ports *)

Fixpoint all_digits (s : string) : bool :=
  match s with
  | String a rest => bool_decide (is_Some (digit_value a)) && all_digits rest
  | EmptyString => true
  end.

Fixpoint decimal (acc : Z) (s : string) : Z :=
  match s with
  | String a rest => decimal (acc * 10 + default 0 (digit_value a)) rest
  | EmptyString => acc
  end.

Lemma from_chars_go_digits acc s :
  all_digits s = true → from_chars_go acc s = (decimal acc s, ""%string).
Proof.
  revert acc. induction s as [|a s IH]; intros acc Hs; [done|]. simpl in *.
  apply andb_true_iff in Hs as [[d Hd]%bool_decide_eq_true Hs]. rewrite Hd. by apply IH.
Qed.

Lemma from_chars_go_rest acc s n : from_chars_go acc s = (n, ""%string) → all_digits s = true.
Proof.
  revert acc. induction s as [|a s IH]; intros acc Hs; [done|]. simpl in *.
  destruct (digit_value a) as [d|] eqn:Hd; [|done].
  rewrite bool_decide_true by eauto. by eapply IH.
Qed.

(** A port is accepted exactly when its text, trimmed, is a decimal number of at
    most 65535. *)
Lemma ParsePort_spec {W} `{WxStrings W} (w : W) port :
  ParsePort w = Some port ↔
  let s := wx_to_std (Trimmed w) in
  s ≠ ""%string ∧ all_digits s = true ∧ decimal 0 s = port ∧ port ≤ 65535.
Proof.
  unfold ParsePort. set (s := wx_to_std (Trimmed w)). cbn zeta. split.
  - unfold from_chars. destruct s as [|a rest] eqn:Hs; [done|].
    destruct (digit_value a) eqn:Hd; [|done].
    destruct (from_chars_go 0 (String a rest)) as [n r] eqn:Hgo.
    destruct (_ <? _); [|done]. destruct (String.eqb_spec r "") as [->|]; [|done]. simpl.
    destruct (Z.ltb_spec 65535 n); [done|]. intros [= <-].
    pose proof (from_chars_go_rest _ _ _ Hgo) as Hall.
    rewrite (from_chars_go_digits _ _ Hall) in Hgo. injection Hgo as Hn.
    split_and!; [done|exact Hall|exact Hn|lia].
  - intros (Hne & Hall & Hn & Hle). unfold from_chars. destruct s as [|a rest] eqn:Hs; [done|].
    assert (is_Some (digit_value a)) as [d Hd].
    { simpl in Hall. apply andb_true_iff in Hall as [Ha _]. by apply bool_decide_eq_true in Ha. }
    rewrite Hd, (from_chars_go_digits _ _ Hall), Hn.
    destruct (Z.ltb_spec port (2 ^ 32)); [|lia]. simpl.
    by destruct (Z.ltb_spec 65535 port); [lia|].
Qed.

(** ** The properties *)

(** C26. The window is consistent.  In every state the user, the timer and the
    network can lead to, every input is handled (the polls of a timer tick end,
    one per payload waiting and one more, when nothing arrives meanwhile); while
    the window is open its controls show whether it has a client (host, port and
    Connect enabled exactly without one, the others exactly with one); the rows
    of the room list are the rooms it knows, the selection is one of them; and
    the user list has no empty name and no name twice, in any case. *)
Theorem window_consistent {W C} `{WxStrings W, ClientTransportSpec C, FlatBuffers}
    (ins : list (UiInput W C)) (f : ChatClientFrame W C) (Hrun : ui_run ins f) :
  (∀ i, ui_enabled i f → is_Some (ui_handle i f))
  ∧ (poll_timer_ f = true → controls_show (bool_decide (client_ (protocol_client_ f) ≠ None)) f)
  ∧ rows_ok f ∧ users_ok (user_list_ f).
Proof.
  pose proof (ui_steps_ok frame_create ins f window_create Hrun) as Hf.
  split_and!; try apply Hf. intros i Hen. destruct (window_step i f Hf Hen) as (f' & -> & _). eauto.
Qed.

(** C40. A lost connection goes unnoticed.  [OnPollTimer] returns at once when the
    client is not connected, so a connection that is lost between two ticks is
    never reported: whatever the user does and however often the timer fires, as
    long as the window is open, nothing it shows changes, no request is made, and
    the Connect button stays disabled. *)
Theorem lost_connection_unnoticed {W C} `{WxStrings W, ClientTransportSpec C, FlatBuffers}
    (ins ins' : list (UiInput W C)) (f f' : ChatClientFrame W C) (Hrun : ui_run ins f)
    (Hopen : poll_timer_ f = true) (Hlost : connection_lost f)
    (Hst : ui_steps f ins' f') (Hclose : UiClose ∉ ins') :
  shown f' = shown f ∧ connect_button_ f' = false
  ∧ ∀ created, ¬ ui_enabled (UiConnect created) f'.
Proof.
  pose proof (ui_steps_ok frame_create ins f window_create Hrun) as [Hc _ _].
  destruct (Hc Hopen) as (_ & _ & Hb & _).
  rewrite bool_decide_true in Hb by (by destruct Hlost as (client & -> & _)).
  destruct (lost_steps f ins' f' Hopen Hb Hlost Hst Hclose) as (_ & Hb' & _ & Hs).
  split_and!; [done|done|]. intros created [_ Hen]. by rewrite Hb' in Hen.
Qed.

(** ** Witnesses: strings of ASCII characters, a client that loses its connection *)

Section Witnesses.
#[local] Existing Instance exact_alloc.
#[local] Existing Instance plain_codec.

Definition is_blank (a : Ascii.ascii) : bool :=
  let n := Ascii.nat_of_ascii a in bool_decide (n = 32 ∨ 9 ≤ n ≤ 13)%nat.

Fixpoint trim_left (s : string) : string :=
  match s with
  | String a rest => if is_blank a then trim_left rest else s
  | EmptyString => EmptyString
  end.

Fixpoint trim_right (s : string) : string :=
  match s with
  | String a rest =>
      let rest := trim_right rest in
      if is_blank a && String.eqb rest "" then EmptyString else String a rest
  | EmptyString => EmptyString
  end.

Fixpoint lower (s : string) : string :=
  match s with
  | String a rest =>
      let n := Ascii.nat_of_ascii a in
      String (if bool_decide (65 ≤ n ≤ 90)%nat then Ascii.ascii_of_nat (n + 32) else a) (lower rest)
  | EmptyString => EmptyString
  end.

#[local] Instance plain_wx : WxStrings string := {
  wx_lit s := s;
  wx_from_utf8 s := s;
  wx_to_std s := s;
  wx_append := String.append;
  wx_empty s := String.eqb s "";
  wx_trim right s := if right then trim_right s else trim_left s;
  wx_same a b := String.eqb (lower a) (lower b);
  wx_c_str := c_str;
}.

Abbreviation Window := (ChatClientFrame string ClientImpl).

Definition new_window : Window := frame_create.
(** A network in which every address resolves and every connection succeeds. *)
Definition local_create : string → Z → expected ClientImpl string :=
  create (λ _ _, inl tt) (λ _, None) None 0.
Definition connected_window : Window := OnConnectClicked local_create new_window.
Definition dead_client : ClientImpl := handle_disconnect fresh_client.
Definition dead_window : Window :=
  set_client (mkChatProtocolClient (Some dead_client) 3) connected_window.

Lemma dead_window_run :
  ui_run [UiConnect local_create; UiNetwork dead_client] dead_window.
Proof.
  apply (ui_snoc new_window [UiConnect local_create] (UiNetwork dead_client) connected_window).
  - apply (ui_snoc new_window [] (UiConnect local_create) new_window); [constructor| |done].
    split; by vm_compute.
  - split; [by vm_compute|]. eexists. split; [by vm_compute|]. intros _. by vm_compute.
  - reflexivity.
Qed.

Lemma window_consistent_witness :
  tc_enabled (host_ctrl_ dead_window) = false
  ∧ map fst (room_list_ dead_window) = ["Lobby"; "Dev"; "Chat"]%string.
Proof.
  destruct (window_consistent _ dead_window dead_window_run) as (_ & Hc & Hr & _).
  split.
  - destruct Hc as (Hhost & _); [by vm_compute|]. exact Hhost.
  - destruct Hr as [-> _]. by vm_compute.
Defined.

Lemma lost_connection_unnoticed_witness :
  ∃ f', ui_steps dead_window [UiTimer; UiSend] f' ∧ shown f' = shown dead_window
    ∧ connect_button_ f' = false.
Proof.
  assert (ui_steps dead_window [UiTimer; UiSend] dead_window) as Hst.
  { apply (ui_snoc dead_window [UiTimer] UiSend dead_window).
    - apply (ui_snoc dead_window [] UiTimer dead_window); [constructor|split; by vm_compute|by vm_compute].
    - split; [by vm_compute|]. by vm_compute.
    - by vm_compute. }
  exists dead_window. split; [exact Hst|].
  destruct (lost_connection_unnoticed _ [UiTimer; UiSend] dead_window dead_window dead_window_run)
    as (Hs & Hb & _).
  - by vm_compute.
  - exists dead_client. split; by vm_compute.
  - exact Hst.
  - by intros [|[|[]%elem_of_nil]%elem_of_cons]%elem_of_cons.
  - split; [exact Hs|exact Hb].
Defined.
End Witnesses.
