(* ===== verification/WindowConversation.v ===== *)
(** * From one window to the others

    The chat window ([ChatClientFrame]), the requests of its client, the server's
    decoding and game logic, and the windows of the other members of the room, in
    one statement: what one user types is the line every member reads. *)

From S2P Require Import Prelude Protocol BufferPool TransportDetail Session Client ClientProperties Schema HeapLibrary ServerTypes RoomSystem GameLogicSystem ChatSpec ChatInvariant ChatViews ChatFacts GameLogicRefinement GameLogicProperties NetworkSystem EndToEnd.
From S2P Require Import ChatProtocolClient ChatClientFrame ChatClientFrameProperties.

Section Windows.
Context {W C : Type} `{WxStrings W, ClientTransportSpec C, FlatBuffersSpec}.
Implicit Types (f g : ChatClientFrame W C).

(** What a tick does to a window whose connection it finds closed. *)
Definition show_closed f : ChatClientFrame W C :=
  f |> set_client (Disconnect (protocol_client_ f))
    |> SetConnectionState false
    |> SetStatusText (wx_lit "Disconnected")
    |> AppendSystemMessage (wx_lit "Server connection closed.").

Lemma process_events_client events f :
  protocol_client_ (process_events events f) = protocol_client_ f.
Proof.
  unfold process_events. revert f. induction events as [|e es IH]; intros f; [done|]. simpl. rewrite IH.
  destruct e as [name|err|rooms|room|err|r s t|r name|r name|r t|msg]; try done;
    cbn [ProcessProtocolEvent].
  - set (n := if String.eqb name "" then _ else _). apply (AddUser_same n f).
  - apply (ApplyRoomList_ok rooms f).
  - apply (AddUser_same (ToWxString name) f).
  - apply (RemoveUser_same (ToWxString name) f).
Qed.

(** A tick processes the events of the waiting payloads, in order, and then
    looks at the connection. *)
Lemma tick_processes f client :
  client_ (protocol_client_ f) = Some client → cl_is_connected client = true →
  ∃ client',
    let h := process_events (mjoin (DecodePacket <$> cl_pending (cl_update client)))
               (set_client (mkChatProtocolClient (Some client')
                              (next_request_id_ (protocol_client_ f))) f) in
    OnPollTimer (tick_fuel f) f = Some (if cl_is_connected client' then h else show_closed h).
Proof.
  intros Hcl Hcon. unfold OnPollTimer, tick_fuel, IsConnected. rewrite Hcl, Hcon. simpl negb. cbn zeta.
  set (f0 := set_client (Update (protocol_client_ f)) f).
  assert (client_ (protocol_client_ f0) = Some (cl_update client)) as Hcl0
    by (unfold f0, Update; simpl; by rewrite Hcl).
  destruct (poll_events_total (protocol_client_ f0) _ Hcl0) as (client' & ->).
  exists client'. cbn [mbind option_bind].
  assert (next_request_id_ (protocol_client_ f0) = next_request_id_ (protocol_client_ f)) as ->
    by (unfold f0, Update; simpl; by rewrite Hcl).
  set (h := process_events _ (set_client _ f0)).
  change (process_events _ (set_client _ f)) with h.
  assert (client_ (protocol_client_ h) = Some client') as ->
    by (unfold h; by rewrite process_events_client).
  by destruct (cl_is_connected client').
Qed.

(** The text of the input field, and the bytes [OnSendClicked] sends of it. *)
Definition typed f : W := Trimmed (tc_value (message_input_ctrl_ f)).
Definition typed_text f : string := wx_to_std (typed f).

(** [ToStdString] converts to the encoding of the locale.  Where that is UTF-8,
    [FromUTF8] is its inverse; elsewhere text outside ASCII is not kept. *)
Definition utf8_locale : Prop := ∀ w : W, wx_from_utf8 (wx_to_std w) = w.

(** Text without NUL characters, at which the messages are cut. *)
Definition nul_free (text : string) : Prop := c_str text = text.

Lemma shown_typed f : utf8_locale → nul_free (typed_text f) → ToWxString (c_str (typed_text f)) = typed f.
Proof. intros Hutf8 ->. apply Hutf8. Qed.

Lemma send_clicked f client q :
  protocol_client_ f = mkChatProtocolClient (Some client) q → cl_is_connected client = true →
  current_room_id_ f ≠ 0 → wx_empty (typed f) = false →
  OnSendClicked f
  = f |> set_client (SendChatRequest (typed_text f) (mkChatProtocolClient (Some client) q))
      |> set_text (λ c, mkTextCtrl (wx_lit "") (tc_enabled c)) 3.
Proof.
  intros Hcl Hcon Hroom Htext. unfold OnSendClicked, IsConnected. rewrite Hcl. simpl.
  rewrite Hcon. simpl. destruct (Z.eqb_spec (current_room_id_ f) 0); [done|].
  unfold typed in Htext. by rewrite Htext.
Qed.

(** C7. What one user types, the others read, in a UTF-8 locale and if it has no
    NUL character.  In the connected window of a user whose session [k] is in a
    room, clicking Send with a text of 1 to 512 bytes hands the transport one
    request with the trimmed text, clears the input field, and shows nothing yet.
    From that request the server queues one message for each member of the room,
    the sender included, and for nobody else.  The next tick of a window that has
    received such a message appends exactly the line "[name] text" to its log,
    where [text] is the trimmed text that was typed and [name] is decoded from
    UTF-8 from the sender's name in the registry, up to a NUL; if it then finds
    the connection closed, the notice of that. *)
Theorem window_conversation `{EnvironmentSpec} (f : ChatClientFrame W C) (client : C)
    (gl : GameLogicSystem) (k q : Z) (s : SessionState)
    (Hgl : gl_reachable gl) (Hq : is_u32 q)
    (Hclient : protocol_client_ f = mkChatProtocolClient (Some client) q)
    (Hcon : cl_is_connected client = true) (Hjoined : current_room_id_ f ≠ 0)
    (Htyped : wx_empty (typed f) = false)
    (Hutf8 : utf8_locale) (Hnul : nul_free (typed_text f))
    (Htext : 1 ≤ zsize (typed_text f) ≤ max_chat_message_bytes)
    (Hs : sessions_ (room_system_ gl) !! k = Some s) (Hroom : ss_room_id s ≠ no_room_id) :
  ∃ data gl' out rm,
    client_ (protocol_client_ (OnSendClicked f)) = Some (cl_send data client)
    ∧ tc_value (message_input_ctrl_ (OnSendClicked f)) = wx_lit ""
    ∧ chat_log_ctrl_ (OnSendClicked f) = chat_log_ctrl_ f
    ∧ GameLogicSystem.Update (DecodeProtocolPacket k data []) gl = Some gl'
    ∧ outgoing_messages_ gl' = outgoing_messages_ gl ++ out
    ∧ RoomSystem.rooms_ (room_system_ gl) !! ss_room_id s = Some rm
    ∧ om_session_id <$> out ≡ₚ elements (rm_members rm)
    ∧ ∀ om g receiver,
        om ∈ out → client_ (protocol_client_ g) = Some receiver →
        cl_is_connected receiver = true → cl_pending (cl_update receiver) = [om_payload om] →
        ∃ receiver',
          let h := AppendChatMessage (ToWxString (c_str (ss_display_name s)))
                     (typed f)
                     (set_client (mkChatProtocolClient (Some receiver')
                                    (next_request_id_ (protocol_client_ g))) g) in
          OnPollTimer (tick_fuel g) g
          = Some (if cl_is_connected receiver' then h else show_closed h).
Proof.
  destruct (chat_conversation client gl k q (typed_text f) s Hgl Hq Htext Hs Hroom)
    as (data & gl' & out & rm & Hsend & Hupd & Hout & Hrm & Hids & Hall).
  exists data, gl', out, rm. rewrite (send_clicked f client q) by done.
  split_and!; [exact Hsend|done|done|exact Hupd|exact Hout|exact Hrm|exact Hids|].
  intros om g receiver Hom Hrec Hup Hpend.
  destruct (tick_processes g receiver Hrec Hup) as (receiver' & Htick). exists receiver'.
  rewrite Htick, Hpend. cbn [fmap list_fmap mjoin list_join].
  rewrite (proj1 (Forall_forall _ _) Hall om Hom), app_nil_r. cbn [process_events foldl ProcessProtocolEvent].
  by rewrite shown_typed.
Qed.
End Windows.

(** ** A witness: the two users of [example_events], one of them typing *)

Section Witnesses.
#[local] Existing Instance exact_alloc.
#[local] Existing Instance plain_codec.
#[local] Existing Instance plain_codec_spec.
#[local] Existing Instance plain_environment.
#[local] Existing Instance plain_environment_spec.
#[local] Existing Instance plain_wx.

Definition joined_window : ChatClientFrame string ClientImpl :=
  ProcessProtocolEvent (ChatJoinRoomSucceededEvent (mkChatRoomInfo 1001 "Lobby" 2)) connected_window.
Definition typing_window : ChatClientFrame string ClientImpl :=
  set_text (λ c, mkTextCtrl " hi "%string (tc_enabled c)) 3 joined_window.
Definition typing_client : ClientImpl := default fresh_client (client_ (protocol_client_ joined_window)).
(** The window of a member that has received [om]. *)
Definition reading_window (om : OutgoingMessage) : ChatClientFrame string ClientImpl :=
  set_client (mkChatProtocolClient (Some (cset_receive [om_payload om] fresh_client)) 3) joined_window.

Lemma window_conversation_witness :
  ∃ data gl' out,
    client_ (protocol_client_ (OnSendClicked typing_window)) = Some (cl_send data typing_client)
    ∧ GameLogicSystem.Update (DecodeProtocolPacket 1 data []) example_gl = Some gl'
    ∧ outgoing_messages_ gl' = outgoing_messages_ example_gl ++ out
    ∧ om_session_id <$> out ≡ₚ [1; 2]
    ∧ ∀ om, om ∈ out → is_Some (OnPollTimer (tick_fuel (reading_window om)) (reading_window om)).
Proof.
  destruct (window_conversation typing_window typing_client example_gl 1 3 (example_session 1)
              example_reachable)
    as (data & gl' & out & rm & H1 & _ & _ & H2 & H3 & Hrm & Hids & Hshow).
  - by_compute.
  - by_compute.
  - by_compute.
  - by_compute.
  - by_compute.
  - intros w. reflexivity.
  - by_compute.
  - by_compute.
  - by_compute.
  - by_compute.
  - exists data, gl', out. split; [exact H1|]. split; [exact H2|]. split; [exact H3|]. split.
    + rewrite Hids. vm_compute in Hrm. injection Hrm as <-. vm_compute.
      first [reflexivity | apply Permutation_swap].
    + intros om Hom.
      destruct (Hshow om (reading_window om) (cset_receive [om_payload om] fresh_client) Hom)
        as (receiver' & Hg); [reflexivity|by vm_compute|reflexivity|].
      rewrite Hg. by eexists.
Defined.
End Witnesses.
